(* ===== verification/_CoqProject ===== *)
-Q . S2P
Prelude.v
Text.v
Float64.v
Ram.v
Selector.v
Fs.v
Persist.v
Durable.v
Time.v
Quarantine.v
State.v
Pool.v
Descriptors.v
Sharing.v
AtKey.v
Net.v
AtTorrent.v
Filter.v
Humanize.v
Config.v
BuildInfo.v
Service.v
FdLimit.v
Bandwidth.v
Catalog.v
Updater.v
History.v
World.v
Storage.v
Cli.v
Process.v
Signals.v
Follow.v
NetStats.v
Stats.v
Torrents.v
Session.v
Swap.v
Swarm.v
Live.v
Engine.v
EngineCore.v
Acting.v
Books.v
Budget.v
Maintain.v
Watchdog.v
Scan.v
Boot.v
Census.v
SelfUpdate.v
Daemon.v
Serving.v
Main.v
Restart.v
Views.v
Forensics.v
Launch.v
Dispatch.v
