(* ===== verification/Prelude.v ===== *)
(** * A verification development for keep-at

    keep-at is a daemon that preserves the torrents of Academic Torrents: it
    scans the tracker operator's catalog, asks the trackers how many seeders
    each torrent has, and keeps a set of the scarcest ones seeded within limits
    of disk, memory and descriptors.  A registry of torrents whose swarms cannot
    produce the registered data (the quarantine) keeps the node from downloading
    broken pieces forever.

    This library models the program's own logic in Gallina, shallowly, and
    proves what the code relies on.  Names follow the Rust sources, which lie
    under [src/src/]; each file says which source file it models.

    ** How the parts fit

    The command line is resolved to a configuration ([Cli], [Config]); the run
    command ([Main]) prepares the data directory, builds the engine ([Boot]) and
    hands it to the run loop ([Daemon]), which waits for a scan, the statistics,
    the watchdog or a shutdown.  A scan ([Scan]) loads the catalog ([Catalog]),
    maintains what is held ([Maintain]) and walks the other items: workers turn
    items into evaluated candidates ([Swarm]: metadata from the cache or the
    operator, [AtTorrent]; scraped counts under one rate limiter) while the
    engine receives and acts on them.  Acting ([Engine]) ranks candidates
    ([Selector]), asks the quarantine gate, and adds one where a location has
    room or in place of better-seeded torrents ([Swap]), within the RAM model
    ([Ram]).  The watchdog ([Watchdog]) feeds the broken-piece detector
    ([Quarantine]) and quarantines what trips.  Adding and removing goes through
    the session ([Torrents], [World]), the persisted state ([State]) and the
    ledger ([History]).  Every file is replaced through the atomic write of
    [Persist].  Downloaded data goes through the handle pool ([Pool]).  What the
    engine publishes reaches the live handle ([Live]), from which local queries
    are answered ([Serving] joins the two).

    ** Files, in order

    - [Prelude]: machine integers, results, the state monad with its
      Hoare-style rules ([hoare], [keeps]), stable sorting, sums, and hash maps
      with an arbitrary iteration order ([HashIter]).  The hint database is
      [keepat].
    - [Text], [Float64], [Time]: Rust's [str] (with lossy UTF-8 conversion),
      [f64] and chrono's instants.
    - [Fs], [Persist], [Durable]: a file system with faults and crashes,
      [atomic_write_mode] ([config.rs]) on it, and what calls on other files
      leave to a file of its own ([guarded]).
    - [Ram] ([engine/ram.rs]), [Selector] ([selector.rs]): prices, ranking,
      eviction score, the seed-scarcity gate, choice of a location.
    - [Quarantine] ([engine/quarantine.rs], [state.rs]), [State] ([state.rs]):
      the broken-piece detector, the registry, the persisted maps.
    - [Pool] ([engine/pool_storage.rs]), with [Descriptors] (a Unix system with
      its descriptor table) and [Sharing] (many threads over one pool); [AtKey] ([atkey.rs]), [Net],
      [AtTorrent] ([attorrent.rs]), [Filter] ([filter.rs]), [Humanize]
      ([humanize.rs]), [Config] ([config.rs]), [BuildInfo] ([buildinfo.rs]),
      [Service] ([service.rs]), [FdLimit] ([fdlimit.rs]), [Bandwidth] ([bandwidth.rs]), [Catalog]
      ([atcatalog.rs]), [Updater] and [SelfUpdate] ([updater.rs]), [History] ([history.rs]).
    - [World]: everything outside the engine's own value, as the class [World]
      over a state of the outside (clocks, dice, network, devices, session,
      live handle), the decoders, and [Node], which joins it with the file
      system and the storage registry.
    - [Storage] ([engine/storage.rs]), [Cli] ([cli.rs]), [Process]
      ([daemonctl.rs] and the stop command of [bin/keep-at.rs]), [Signals] (the
      signals, streams and panic hooks of the process, [forensics.rs] and
      [bin/keep-at.rs]), [Follow]
      (the loop of [logs.rs] and [history.rs] and what it renders), [NetStats]
      ([netstats.rs]), [Stats] ([engine/stats.rs]), [Torrents]
      ([engine/torrents.rs]), [Session] ([engine/session.rs]).
    - [Swap], [Swarm] ([engine/scan.rs]): the pure decisions and the tracker
      side.  [Live] ([live.rs]): the query protocol, the handle and its server.
    - [Engine] ([engine/scan.rs]): the engine that acts.
    - [EngineCore], [Acting], [Books], [Budget]: theorems about it.
      [EngineCore] is the part of the engine that decisions depend on and the
      steps that leave it alone; [Acting] reduces one call of
      [act_on_candidate], whatever the outside answers, to three cases
      ([acted]): nothing, a fill, a swap; [Books] is what the held set is
      charged, and the relation [within]; [Budget] derives the guarantees.
    - [Maintain], [Watchdog], [Scan], [Boot], [Daemon] ([engine/scan.rs]): the
      maintenance passes, the watchdog pass, the concurrent walk of a scan as a
      step function on labels ([walk_step]) and the scan around it, the
      construction of the engine, and the run loop as a step function on
      wake-ups ([turn]).
    - [Serving]: the interface that [World] states for the live handle,
      discharged by the operations of [Live]; [Main]: the run command;
      [Restart]: its lives and crashes, one after the other.
    - [Census] ([census.rs]); [Views]: the commands that look at a node
      ([status.rs], [hosted.rs], [logs.rs], [history.rs]); [Forensics]
      ([forensics.rs], [allocator.rs]): the heartbeat and the triage; [Launch]
      and [Dispatch] ([bin/keep-at.rs], [daemonctl.rs]): starting a daemon, and
      the whole program over its commands.

    ** Conventions

    - A fallible function returns [result] ([Ok]/[Err]); an error is its
      message.  Stateful code is a function to a value and a new state,
      sequenced with [let*] ([let?] stops at an error, as [?] does).
    - A machine integer is a [Z].  [saturating_*] methods are [sat_*];
      plain arithmetic of a release build wraps ([wrap_*]).
    - What is not under [src/] is an argument: a class with the laws its
      documentation states ([World], [Decoders], [Chrono], [UrlCrate],
      [HexCrate], [Http], [StatsCodec], [StateCodec], [EventCodec], [CacheCodec],
      [LiveCodec], [UnixSocket], [Processes], [Programs], [Launching],
      [KernelFiles], [HeartbeatCodec], [Probing], [Yaml], [Libm], [HashIter],
      [StdPanic], [Os]).  Every theorem that has hypotheses has a witness, a
      closed instance at a concrete input with these classes instantiated by
      executable functions ([witness_*]).
    - Concurrency is an explicit order of steps: a list of labels for a walk, of
      wake-ups for the daemon, of events for the socket's server, of the threads'
      calls for the handle pool; the theorems quantify over every such list.
    - Where a theorem speaks of a clock, a file or an answer of the outside, it
      names the state in which the code reads it ([sweep_clock], [trip_clock],
      [reprobed_hashes], [host_ram], [census_start], [below_flags]).
    - Awaited calls return; tasks that only log are left out.

    ** What the theorems show

    - The process: the engine that the run command starts is ready for the
      configuration it was given and holds what the state file held
      ([built_engine_ready]), and from its start to
      its end, whatever wakes it, the disk limits, the RAM budget and the
      torrent cap are kept ([process_keeps_budgets], over [scan_keeps_budgets]
      and [window_keeps_budgets], for all answers of the network, the disk, the
      session and the dice and all failing saves).  Scans are paced
      ([scans_paced]), and so are the watchdog's passes ([watchdog_paced]).
    - Acting: a held torrent is displaced only by a candidate that is scarcer by
      the margin ([displaced_clear_margin]); the quarantine gate is absolute and
      a re-probe never displaces ([quarantine_gate_guards]); the displaced set
      is sound, minimal and complete ([select_displaceable_spec]).
    - The walk of a scan ends ([walk_terminates]), is never stuck
      ([walk_never_stuck]), receives all that is sent and acts, once each, on the
      candidates of its ranked window ([walk_acts_on_window], by the relation
      [acts], which lists the calls) and, undisturbed, evaluates all it announced
      ([undisturbed_walk_complete]).
    - Maintenance removes exactly what is unlisted for its whole grace
      ([remove_deleted_exact]) and only what stalled ([evict_stalled_justified]),
      and nothing unlisted when the catalog collapsed
      ([collapse_guard_protects]).
    - The watchdog: trips are enforced and their attempts counted on
      ([trips_enforced]), a re-probe re-arms exactly what it probed
      ([reprobe_bounded]), quarantines are lifted for a reason
      ([lifts_justified]); the incremental detector equals the rule over the
      whole history; escalation to the indefinite cooldown.
    - Evaluation: what is evaluated is the item's own metadata and swarm, past
      the moderation delay by the clock of the evaluation
      ([evaluate_item_sound]); requests keep their distance
      ([rate_limiter_spacing]).
    - Persistence: crash safety of the atomic write, state and file in step,
      atomicity of a trip, round trips of configuration, events and scrape
      cache; and, over whole lives of the process with a crash at any point of
      each, that the next start finds its state ([every_start_loads]).
    - Dying: what can end the daemon, and that its log says so
      ([daemon_deaths_marked]); what the triage reports afterwards
      ([triage_after_crash]).
    - Live queries: the views are those of the published state
      ([views_match_state]), a query is answered with the very line the view
      encodes to, however it is cut into buffers ([query_answers]; the rates of
      a runtime view, and the chances in the ledger, may differ in their last
      bits, since serde_json is built without [float_roundtrip]), the server is bounded whatever its clients do
      ([server_bounded]), and opening the socket comes to an end
      ([open_listener_terminates]).
    - Command line: flags win over the file that was named, every other setting
      is the file's, storage comes whole from one of them ([resolve_sound]), limits pair up with locations
      ([storage_flags_paired]); a daemon that a scan of [/proc] finds is one the
      liveness check accepts ([daemon_lookup_agrees]); the daemon that start
      leaves in the background is the one it checked, for configurations that
      their file can spell ([start_handoff]); looking
      changes no file ([queries_change_nothing]).
    - Self-update never goes back to an older release by the list it judges, and
      replaces the binary whole or not at all ([replace_executable_whole]).
    - Looking at a node: following a growing log or ledger loses and repeats
      nothing, as long as it is valid UTF-8 ([logs_follow_exact],
      [history_follow_exact]); the census ends, its numbers add up, and its floor
      is over the swarms it scraped ([census_accounts]).
    - Selection: ranking order (the score is never NaN), chance in [0, 1],
      decision logic, percentile floor, choice of location.
    - Secrecy: the per-user announce URL takes the place of the operator's https
      announces only, and no other tracker changes ([keyed_trackers_exact]); on
      disk, the API key goes only to the owner-only key file.
    - Pool: whatever the threads do meanwhile, an IO is on the file of its name
      ([io_reaches_its_file]), the descriptors are bounded and a removed file
      leaves none behind ([descriptors_bounded]), and running out of them is
      recovered from ([exhaustion_recovers]); the cache's invariant with LRU
      eviction ([get_or_open_spec]).

    ** Bounds and fuel

    Loops over lists are structural.  The work-list traversal of a directory
    ([Storage.walk]) takes one unit of fuel per directory and is given as many
    as the tree has ([tree_size_spec] shows that it is enough).  The scanners of
    leaked tracker strings in [AtTorrent] take one unit per character of the
    string they advance over, [Humanize.scale] one per unit of size, which is
    the source's own bound, [Scan.dispatch_chunks] one per pending item, and
    [Text]'s replacement one per character.  The attempts to bind the socket
    ([Live.bind_loop]) get 61, one every half second of a window of thirty;
    [open_listener_terminates] shows that they are enough; so do the polls of a
    probe ([Census.probe_polls], [probe_loop_ends]).  A signal starts at most two
    handlers within each other ([Signals.deliver]), and the search for a free
    descriptor looks at one number more than are in use.

    ** Not modelled

    - Log lines, and what only feeds them; evaluations that outlive an
      interrupted scan; the deadline that cuts off a slow shutdown.
    - Parsing of arguments (clap): a [Command] is what it hands over.
    - The process of [Signals] and the heartbeat of [Forensics] run beside the
      engine of [Main]: a signal to stop reaches the engine as a wake-up, and a
      death is a crash of [Restart]. *)

From Stdlib Require Export ZArith Lia Ascii.
From stdpp Require Export sorting.
From stdpp Require Export base option list gmap strings pretty.

#[global] Open Scope Z_scope.

(** * Machine integers

    A [u64], [u32], [i32] or [usize] (64-bit targets) of the source is a [Z];
    the width is written out in the operations: [sat_*] for the
    [saturating_*] methods, [wrap_*] for the plain operators of a release
    build, which wrap. *)

Definition U64_MAX : Z := 2 ^ 64 - 1.
Definition U32_MAX : Z := 2 ^ 32 - 1.
Definition I32_MAX : Z := 2 ^ 31 - 1.
Definition USIZE_MAX : Z := U64_MAX.

Definition in_u64 (z : Z) : Prop := 0 <= z <= U64_MAX.
Definition in_u32 (z : Z) : Prop := 0 <= z <= U32_MAX.

Definition sat_add64 (a b : Z) : Z := Z.min (a + b) U64_MAX.
Definition sat_sub (a b : Z) : Z := Z.max (a - b) 0.
Definition sat_mul64 (a b : Z) : Z := Z.min (a * b) U64_MAX.
Definition sat_add32 (a b : Z) : Z := Z.min (a + b) U32_MAX.
Definition wrap64 (a : Z) : Z := a mod 2 ^ 64.
Definition wrap32 (a : Z) : Z := a mod 2 ^ 32.
(** [as i64] of a 64-bit integer: two's complement. *)
Definition as_i64 (n : Z) : Z :=
  let m := n mod 2 ^ 64 in if m <? 2 ^ 63 then m else m - 2 ^ 64.

(** The numeral constants above, for [lia]. *)
Ltac unfold_ints :=
  unfold in_u64, in_u32, sat_add64, sat_sub, sat_mul64, sat_add32, wrap64, wrap32,
    USIZE_MAX, U64_MAX, U32_MAX, I32_MAX in *.
Ltac ulia := unfold_ints; lia.

(** Split on the booleans and options the goal or a hypothesis matches on. *)
Ltac case_match_hyp H :=
  match type of H with
  | context [match ?x with _ => _ end] => let E := fresh "E" in destruct x eqn:E
  end.
Ltac simpl_bool :=
  repeat match goal with
  | H : (_ && _)%bool = true |- _ => apply andb_true_iff in H; destruct H
  | H : (_ || _)%bool = false |- _ => apply orb_false_iff in H; destruct H
  | H : negb _ = true |- _ => apply negb_true_iff in H
  | H : negb _ = false |- _ => apply negb_false_iff in H
  | H : (_ <=? _)%Z = true |- _ => apply Z.leb_le in H
  | H : (_ <=? _)%Z = false |- _ => apply Z.leb_gt in H
  | H : (_ <? _)%Z = true |- _ => apply Z.ltb_lt in H
  | H : (_ <? _)%Z = false |- _ => apply Z.ltb_ge in H
  | H : (_ =? _)%Z = true |- _ => apply Z.eqb_eq in H
  | H : (_ =? _)%Z = false |- _ => apply Z.eqb_neq in H
  end.

Create HintDb keepat.

Lemma sat_add64_le a b : sat_add64 a b <= U64_MAX.
Proof. ulia. Qed.

Lemma sat_add64_exact a b : a + b <= U64_MAX -> sat_add64 a b = a + b.
Proof. ulia. Qed.

Lemma sat_add64_lower a b c : c <= a -> 0 <= b -> c <= U64_MAX -> c <= sat_add64 a b.
Proof. ulia. Qed.

Lemma sat_sub_nonneg a b : 0 <= sat_sub a b.
Proof. ulia. Qed.

Lemma wrap64_small a : in_u64 a -> wrap64 a = a.
Proof. intros H. unfold wrap64. apply Z.mod_small. ulia. Qed.

Lemma wrap32_small a : in_u32 a -> wrap32 a = a.
Proof. intros H. unfold wrap32. apply Z.mod_small. ulia. Qed.

#[export] Hint Resolve sat_add64_le sat_sub_nonneg : keepat.

(** * Results

    [anyhow::Result] and the other fallible results of the source. *)

Inductive result (E A : Type) : Type :=
  | Ok (a : A)
  | Err (e : E).
Arguments Ok {E A} a.
Arguments Err {E A} e.

Definition result_ok {E A} (r : result E A) : option A :=
  match r with Ok a => Some a | Err _ => None end.

Definition is_ok {E A} (r : result E A) : bool :=
  match r with Ok _ => true | Err _ => false end.

Definition rbind {E A B} (r : result E A) (k : A -> result E B) : result E B :=
  match r with Ok a => k a | Err e => Err e end.

(** [bail!] unless the condition holds. *)
Definition ensure {E} (b : bool) (e : E) : result E unit :=
  if b then Ok tt else Err e.

Declare Scope keepat_scope.
Delimit Scope keepat_scope with keepat.

Notation "'try?' x := r 'in' k" := (rbind r (fun x => k))
  (at level 10, x binder, r at level 100, k at level 200) : keepat_scope.

Lemma rbind_ok {E A B} (r : result E A) (k : A -> result E B) b :
  rbind r k = Ok b <-> exists a, r = Ok a /\ k a = Ok b.
Proof. destruct r; simpl; split; [eauto|by intros (x & [= ->] & ?)|done|by intros (x & ? & ?)]. Qed.

Lemma ensure_ok {E} b (e : E) u : ensure b e = Ok u <-> b = true.
Proof. unfold ensure. destruct b, u; naive_solver. Qed.

(** * A state monad

    [&mut self] methods and code that talks to the outside world are
    functions from a state to a result and the next state. *)

Definition M (S A : Type) : Type := S -> A * S.

Definition ret {S A} (a : A) : M S A := fun s => (a, s).
Definition bind {S A B} (m : M S A) (k : A -> M S B) : M S B :=
  fun s => let '(a, s') := m s in k a s'.
Definition gets {S A} (f : S -> A) : M S A := fun s => (f s, s).
Definition modify {S} (f : S -> S) : M S unit := fun s => (tt, f s).

Notation "'let*' x := m 'in' k" := (bind m (fun x => k))
  (at level 10, x binder, m at level 100, k at level 200) : keepat_scope.
Notation "'let*' ' p := m 'in' k" := (bind m (fun x => match x with p => k end))
  (at level 10, p pattern, m at level 100, k at level 200) : keepat_scope.
Notation "m ;;; k" := (bind m (fun _ => k))
  (at level 199, right associativity) : keepat_scope.

(** The [?] operator on an effectful call that may fail. *)
Definition bindR {S E A B} (m : M S (result E A)) (k : A -> M S (result E B)) : M S (result E B) :=
  bind m (fun r => match r with Ok a => k a | Err e => ret (Err e) end).

Notation "'let?' x := m 'in' k" := (bindR m (fun x => k))
  (at level 10, x binder, m at level 100, k at level 200) : keepat_scope.

(** [anyhow] errors are their messages; [with_context] replaces the cause by
    the message the caller reports first. *)
Definition error : Type := string.

Definition with_context {S E A} (msg : error) (m : M S (result E A)) : M S (result error A) :=
  bind m (fun r => ret match r with Ok a => Ok a | Err _ => Err msg end).

#[global] Open Scope keepat_scope.

Definition whenM {S} (b : bool) (m : M S unit) : M S unit := if b then m else ret tt.

Fixpoint forM {S A} (l : list A) (f : A -> M S unit) : M S unit :=
  match l with
  | [] => ret tt
  | x :: l' => f x ;;; forM l' f
  end.

Fixpoint foldM {S A B} (f : B -> A -> M S B) (b : B) (l : list A) : M S B :=
  match l with
  | [] => ret b
  | x :: l' => let* b' := f b x in foldM f b' l'
  end.

(** A call on one half of the state. *)
Definition on_fst {S T A} (m : M S A) : M (S * T) A :=
  fun '(s, t) => let '(a, s') := m s in (a, (s', t)).
Definition on_snd {S T A} (m : M T A) : M (S * T) A :=
  fun '(s, t) => let '(a, t') := m t in (a, (s, t')).

Section Hoare.
Context {S : Type}.

(** [hoare P m Q]: from a state in [P], [m] returns a value and a state in [Q]. *)
Definition hoare {A} (P : S -> Prop) (m : M S A) (Q : A -> S -> Prop) : Prop :=
  forall s, P s -> Q (m s).1 (m s).2.

(** [m] keeps the relation [R] between the state before and the state after. *)
Definition keeps {A} (R : relation S) (m : M S A) : Prop := forall s, R s (m s).2.

Lemma hoare_ret {A} (P : S -> Prop) (a : A) (Q : A -> S -> Prop) :
  (forall s, P s -> Q a s) -> hoare P (ret a) Q.
Proof. intros H s Hs. exact (H s Hs). Qed.

Lemma hoare_bind {A B} (P : S -> Prop) (m : M S A) (k : A -> M S B) R Q :
  hoare P m R -> (forall a, hoare (R a) (k a) Q) -> hoare P (bind m k) Q.
Proof.
  intros Hm Hk s Hs. specialize (Hm s Hs). unfold bind.
  destruct (m s) as [a s']. exact (Hk a s' Hm).
Qed.

Lemma hoare_weaken {A} (P P' : S -> Prop) (m : M S A) (Q Q' : A -> S -> Prop) :
  hoare P m Q -> (forall s, P' s -> P s) -> (forall a s, Q a s -> Q' a s) ->
  hoare P' m Q'.
Proof. intros Hm HP HQ s Hs. apply HQ, Hm, HP, Hs. Qed.

Lemma hoare_gets {A} (P : S -> Prop) (f : S -> A) (Q : A -> S -> Prop) :
  (forall s, P s -> Q (f s) s) -> hoare P (gets f) Q.
Proof. intros H s Hs. exact (H s Hs). Qed.

(** A fallible step: the failure must establish the error postcondition. *)
Lemma hoare_bindR {E A B} (P : S -> Prop) (m : M S (result E A)) (k : A -> M S (result E B)) R Q :
  hoare P m R ->
  (forall a, hoare (R (Ok a)) (k a) Q) -> (forall e s, R (Err e) s -> Q (Err e) s) ->
  hoare P (bindR m k) Q.
Proof.
  intros Hm Hk He. apply hoare_bind with (R := R); [exact Hm|].
  intros [a|e]; [apply Hk | apply hoare_ret; apply He].
Qed.

Lemma hoare_with_context {E A} (P : S -> Prop) msg (m : M S (result E A)) Q (Qe : S -> Prop) :
  hoare P m (fun r s => match r with Ok a => Q a s | Err _ => Qe s end) ->
  hoare P (with_context msg m) (fun r s => match r with Ok a => Q a s | Err _ => Qe s end).
Proof.
  intros Hm. eapply hoare_bind; [exact Hm|]. intros [a|e]; by apply hoare_ret.
Qed.

(** What a fallible sequence that succeeded went through. *)
Lemma bindR_ok {E A B} (m : M S (result E A)) (k : A -> M S (result E B)) s b :
  (bindR m k s).1 = Ok b -> exists a, (m s).1 = Ok a /\ (k a (m s).2).1 = Ok b.
Proof.
  unfold bindR, bind. destruct (m s) as [[a|e] s']; [|done]. intros Hb. by exists a.
Qed.

Lemma with_context_ok {E A} msg (m : M S (result E A)) s a :
  (with_context msg m s).1 = Ok a -> (m s).1 = Ok a.
Proof. unfold with_context, bind. destruct (m s) as [[a'|e] s']; [|done]. by intros [= ->]. Qed.

(** A precondition that does not depend on the state. *)
Lemma hoare_pull {A} (P : S -> Prop) (R : Prop) (m : M S A) (Q : A -> S -> Prop) :
  (R -> hoare P m Q) -> hoare (fun s => P s /\ R) m Q.
Proof. intros H s [Hs HR]. exact (H HR s Hs). Qed.

Lemma hoare_forM {A} (P : S -> Prop) (f : A -> M S unit) l :
  (forall x, x ∈ l -> hoare P (f x) (fun _ => P)) -> hoare P (forM l f) (fun _ => P).
Proof.
  induction l as [|x l IH]; intros Hf; simpl.
  - apply hoare_ret. done.
  - eapply hoare_bind; [apply Hf; left|]. intros []. apply IH.
    intros y Hy. apply Hf. by right.
Qed.

Lemma hoare_foldM {A B} (P : B -> S -> Prop) (f : B -> A -> M S B) l b :
  (forall b x, x ∈ l -> hoare (P b) (f b x) P) -> hoare (P b) (foldM f b l) P.
Proof.
  revert b. induction l as [|x l IH]; intros b Hf; simpl.
  - apply hoare_ret. done.
  - eapply hoare_bind; [apply Hf; left|]. intros b'. apply IH.
    intros c y Hy. apply Hf. by right.
Qed.

Context (R : relation S) `{!PreOrder R}.

Lemma keeps_ret {A} (a : A) : keeps R (ret a).
Proof. intros s. simpl. reflexivity. Qed.

Lemma keeps_gets {A} (f : S -> A) : keeps R (gets f).
Proof. intros s. simpl. reflexivity. Qed.

Lemma keeps_bind {A B} (m : M S A) (k : A -> M S B) :
  keeps R m -> (forall a, keeps R (k a)) -> keeps R (bind m k).
Proof.
  intros Hm Hk s. specialize (Hm s). unfold bind.
  destruct (m s) as [a s']. etrans; [exact Hm | apply Hk].
Qed.

Lemma keeps_whenM b (m : M S unit) : keeps R m -> keeps R (whenM b m).
Proof. intros Hm. destruct b; [exact Hm | apply keeps_ret]. Qed.

Lemma keeps_forM {A} (l : list A) (f : A -> M S unit) :
  (forall x, keeps R (f x)) -> keeps R (forM l f).
Proof.
  intros Hf. induction l as [|x l IH]; simpl; [apply keeps_ret|].
  apply keeps_bind; [apply Hf | intros _; exact IH].
Qed.

Lemma keeps_foldM {A B} (f : B -> A -> M S B) b l :
  (forall b x, keeps R (f b x)) -> keeps R (foldM f b l).
Proof.
  intros Hf. revert b. induction l as [|x l IH]; intros b; simpl; [apply keeps_ret|].
  apply keeps_bind; [apply Hf | intros b'; apply IH].
Qed.
End Hoare.

#[export] Hint Resolve keeps_ret keeps_gets keeps_bind keeps_whenM keeps_forM keeps_foldM : keepat.

(** [m] keeps every predicate of the family [I]. *)
Definition stable {X S A} (I : X -> S -> Prop) (m : M S A) : Prop :=
  forall x, hoare (I x) m (fun _ => I x).

Section Stable.
Context {X S : Type} (I : X -> S -> Prop).

Lemma stable_ret {A} (a : A) : stable I (ret a).
Proof. intros x. by apply hoare_ret. Qed.

Lemma stable_gets {A} (f : S -> A) : stable I (gets f).
Proof. intros x. by apply hoare_gets. Qed.

Lemma stable_bind {A B} (m : M S A) (k : A -> M S B) :
  stable I m -> (forall a, stable I (k a)) -> stable I (bind m k).
Proof. intros Hm Hk x. eapply hoare_bind; [apply Hm|]. intros a. apply Hk. Qed.

Lemma stable_bindR {E A B} (m : M S (result E A)) (k : A -> M S (result E B)) :
  stable I m -> (forall a, stable I (k a)) -> stable I (bindR m k).
Proof. intros Hm Hk. apply stable_bind; [done|]. intros [a|e]; [apply Hk|apply stable_ret]. Qed.

Lemma stable_with_context {E A} msg (m : M S (result E A)) : stable I m -> stable I (with_context msg m).
Proof. intros Hm. apply stable_bind; [done|]. intros. apply stable_ret. Qed.

Lemma stable_whenM b (m : M S unit) : stable I m -> stable I (whenM b m).
Proof. intros Hm. destruct b; [done|apply stable_ret]. Qed.

Lemma stable_forM {A} (l : list A) (f : A -> M S unit) :
  (forall x, stable I (f x)) -> stable I (forM l f).
Proof. intros Hf x. apply hoare_forM. intros y _. apply Hf. Qed.

Lemma stable_foldM {A B} (f : B -> A -> M S B) b l :
  (forall b x, stable I (f b x)) -> stable I (foldM f b l).
Proof. intros Hf x. apply (hoare_foldM (fun _ => I x)). intros b' y _. apply Hf. Qed.

Lemma stable_modify (f : S -> S) : (forall x s, I x s -> I x (f s)) -> stable I (modify f).
Proof. intros Hf x s Hs. by apply Hf. Qed.
End Stable.

(** Walk through a step, from call to call. *)
Create HintDb durable.

#[export] Hint Resolve stable_ret stable_gets stable_with_context : durable.

Ltac stable_step :=
  match goal with
  | |- stable _ (ret _) => apply stable_ret
  | |- stable _ (bindR _ _) => apply stable_bindR; [|intros ?]
  | |- stable _ (bind _ _) => apply stable_bind; [|intros ?]
  | |- stable _ (whenM _ _) => apply stable_whenM
  | |- stable _ (forM _ _) => apply stable_forM; intros ?
  | |- stable _ (foldM _ _ _) => apply stable_foldM; intros ? ?
  | |- stable _ (with_context _ _) => apply stable_with_context
  | |- stable _ (gets _) => apply stable_gets
  | |- stable _ (match ?x with _ => _ end) => destruct x
  | |- stable _ (let y := _ in _) => cbv zeta
  | |- stable _ _ => solve [eauto 6 with durable]
  end.

Ltac stable := repeat stable_step.

(** * Lists *)

(** [slice::sort_by] with a comparator: the stable sort, which is unique when
    the comparator is a total preorder. *)
Section Sort.
Context {A : Type} (cmp : A -> A -> comparison).

Fixpoint insert_by (x : A) (l : list A) : list A :=
  match l with
  | [] => [x]
  | y :: l' => match cmp x y with
               | Gt => y :: insert_by x l'
               | _ => x :: l
               end
  end.

Fixpoint sort_by (l : list A) : list A :=
  match l with
  | [] => []
  | x :: l' => insert_by x (sort_by l')
  end.

Lemma insert_by_perm x l : insert_by x l ≡ₚ x :: l.
Proof.
  induction l as [|y l IH]; simpl; [done|].
  destruct (cmp x y); [done|done|]. rewrite IH. apply Permutation_swap.
Qed.

Lemma sort_by_perm l : sort_by l ≡ₚ l.
Proof.
  induction l as [|x l IH]; simpl; [done|].
  rewrite insert_by_perm, IH. done.
Qed.

Lemma elem_of_sort_by x l : x ∈ sort_by l <-> x ∈ l.
Proof. by rewrite sort_by_perm. Qed.

(** On elements in [P] the comparator refines a relation [R]: then the output
    is sorted by [R]. *)
Context (P : A -> Prop) (R : relation A).
Context (Rtrans : forall x y z, R x y -> R y z -> R x z).
Context (cmp_gt : forall x y, P x -> P y -> cmp x y = Gt -> R y x).
Context (cmp_le : forall x y, P x -> P y -> cmp x y <> Gt -> R x y).

Lemma insert_by_sorted x l :
  P x -> Forall P l -> StronglySorted R l -> StronglySorted R (insert_by x l).
Proof.
  intros Hx. induction l as [|y l IH]; simpl; intros Hl Hs; [repeat constructor|].
  apply Forall_cons in Hl as [Hy Hl]. apply StronglySorted_inv in Hs as [Hs Hyl].
  assert (cmp x y <> Gt -> StronglySorted R (x :: y :: l)) as Hle.
  { intros Hle. constructor; [by constructor|].
    constructor; [by apply cmp_le|]. eapply Forall_impl; [exact Hyl|].
    intros z Hz. apply (Rtrans x y z); [by apply cmp_le|exact Hz]. }
  destruct (cmp x y) eqn:E; [by apply Hle|by apply Hle|].
  constructor; [by apply IH|]. rewrite insert_by_perm. constructor; [by apply cmp_gt|done].
Qed.

Lemma sort_by_sorted l : Forall P l -> StronglySorted R (sort_by l).
Proof.
  induction 1 as [|x l Hx Hl IH]; simpl; [constructor|].
  apply insert_by_sorted; [done| |done]. by rewrite sort_by_perm.
Qed.
End Sort.

(** [iter().map(f).sum()] over mathematical integers. *)
Definition sumZ {A} (f : A -> Z) (l : list A) : Z := foldr (fun x acc => f x + acc) 0 l.

Lemma sumZ_perm {A} (f : A -> Z) l l' : l ≡ₚ l' -> sumZ f l = sumZ f l'.
Proof. induction 1; simpl; lia. Qed.

Lemma sumZ_app {A} (f : A -> Z) l l' : sumZ f (l ++ l') = sumZ f l + sumZ f l'.
Proof. unfold sumZ. induction l; simpl; lia. Qed.

Lemma sumZ_nonneg {A} (f : A -> Z) l : (forall x, x ∈ l -> 0 <= f x) -> 0 <= sumZ f l.
Proof.
  induction l as [|x l IH]; intros H; simpl; [lia|].
  assert (0 <= f x) by (apply H; left).
  assert (0 <= sumZ f l) by (apply IH; intros; apply H; by right). unfold sumZ in *. lia.
Qed.

Lemma sumZ_le {A} (f g : A -> Z) l :
  (forall x, x ∈ l -> f x <= g x) -> sumZ f l <= sumZ g l.
Proof.
  induction l as [|x l IH]; intros H; simpl; [lia|].
  assert (f x <= g x) by (apply H; left).
  assert (sumZ f l <= sumZ g l) by (apply IH; intros; apply H; by right). unfold sumZ in *. lia.
Qed.

Lemma sumZ_elem_le {A} (f : A -> Z) l x :
  x ∈ l -> (forall y, y ∈ l -> 0 <= f y) -> f x <= sumZ f l.
Proof.
  intros [l1 [l2 ->]]%list_elem_of_split H.
  rewrite sumZ_app. simpl.
  assert (0 <= sumZ f l1) by (apply sumZ_nonneg; set_solver).
  assert (0 <= sumZ f l2) by (apply sumZ_nonneg; set_solver). unfold sumZ in *. lia.
Qed.

Lemma sumZ_add {A} (f g : A -> Z) l : sumZ (fun x => f x + g x) l = sumZ f l + sumZ g l.
Proof. unfold sumZ. induction l; simpl; lia. Qed.

Lemma sumZ_ext {A} (f g : A -> Z) l : (forall x, x ∈ l -> f x = g x) -> sumZ f l = sumZ g l.
Proof. intros Hfg. apply Z.le_antisymm; apply sumZ_le; intros x Hx; rewrite (Hfg x Hx); lia. Qed.

Lemma sumZ_fmap {A B} (f : B -> Z) (g : A -> B) (l : list A) :
  sumZ f (g <$> l) = sumZ (fun x => f (g x)) l.
Proof. induction l as [|x l IH]; [done|]. cbn. by f_equal. Qed.

Lemma sumZ_const {A} (c : Z) (l : list A) : sumZ (fun _ => c) l = c * Z.of_nat (length l).
Proof. unfold sumZ. induction l; simpl; lia. Qed.

(** * Hash maps

    A [HashMap<String, _>] is a [gmap]; its iteration order is whatever the
    hasher makes it. *)
Class HashIter := {
  hash_iter : forall {A}, gmap string A -> list (string * A);
  hash_iter_perm : forall {A} (m : gmap string A), hash_iter m ≡ₚ map_to_list m;
}.

Definition hash_values `{HashIter} {A} (m : gmap string A) : list A := (hash_iter m).*2.
Definition hash_keys `{HashIter} {A} (m : gmap string A) : list string := (hash_iter m).*1.

(** An iteration order for the witnesses. *)
Definition hash_iter_sorted : HashIter :=
  {| hash_iter := fun A m => map_to_list m; hash_iter_perm := fun A m => Permutation_refl _ |}.

Lemma elem_of_hash_values `{HashIter} {A} (m : gmap string A) x :
  x ∈ hash_values m <-> exists k, m !! k = Some x.
Proof.
  unfold hash_values. rewrite hash_iter_perm, list_elem_of_fmap. split.
  - intros ([k y] & -> & Hin). exists k. by apply elem_of_map_to_list.
  - intros [k Hk]. exists (k, x). split; [done|]. by apply elem_of_map_to_list.
Qed.

Lemma elem_of_hash_keys `{HashIter} {A} (m : gmap string A) k :
  k ∈ hash_keys m <-> is_Some (m !! k).
Proof.
  unfold hash_keys. rewrite hash_iter_perm, list_elem_of_fmap. split.
  - intros ([k' y] & -> & Hin). exists y. by apply elem_of_map_to_list.
  - intros [x Hk]. exists (k, x). split; [done|]. by apply elem_of_map_to_list.
Qed.

Lemma hash_iter_elem `{HashIter} {A} (m : gmap string A) k x :
  (k, x) ∈ hash_iter m <-> m !! k = Some x.
Proof. rewrite hash_iter_perm. apply elem_of_map_to_list. Qed.

Lemma hash_iter_nodup `{HashIter} {A} (m : gmap string A) : NoDup (hash_iter m).*1.
Proof. rewrite hash_iter_perm. apply NoDup_fst_map_to_list. Qed.

(** Building a map entry by entry, under renamed keys that do not collide. *)
Lemma foldl_insert_lookup {A B} (f : string -> string) (g : A -> B) (l : list (string * A))
    (m : gmap string B) k v :
  NoDup (f <$> l.*1) ->
  foldl (fun m kv => <[f kv.1 := g kv.2]> m) m l !! k = Some v <->
  (exists k0 a, (k0, a) ∈ l /\ f k0 = k /\ g a = v) \/ (m !! k = Some v /\ k ∉ f <$> l.*1).
Proof.
  revert m. induction l as [|[k0 a] l IH]; intros m; cbn [foldl fmap list_fmap fst snd].
  { intros _. split; [intros Hm; right; split; [done|apply not_elem_of_nil]|].
    intros [(? & ? & Hin & _)|[? _]]; [by apply elem_of_nil in Hin|done]. }
  rewrite NoDup_cons. intros [Hn Hd]. rewrite IH by done. split.
  - intros [(k1 & b & Hin & Hk & Hv)|[Hm Hk]].
    + left. exists k1, b. split; [by right|done].
    + destruct (decide (f k0 = k)) as [<-|Hne].
      * rewrite lookup_insert_eq in Hm. injection Hm as <-. left. exists k0, a. split; [left|done].
      * rewrite lookup_insert_ne in Hm by done. right. split; [done|]. rewrite not_elem_of_cons. done.
  - intros [(k1 & b & [Heq|Hin]%elem_of_cons & Hk & Hv)|[Hm [Hne Hk]%not_elem_of_cons]].
    + injection Heq as -> ->. right. rewrite <- Hk, lookup_insert_eq, Hv. done.
    + left. exists k1, b. done.
    + right. rewrite lookup_insert_ne by done. done.
Qed.
