(* ===== verification/Text.v ===== *)
(** Strings as the program uses them: UTF-8 bytes, with the ASCII operations of
    [str] and their lemmas. *)

From S2P Require Import Prelude.

(** The byte of a character and back. *)
Definition byte (a : ascii) : Z := Z.of_N (N_of_ascii a).

Definition ascii_to_lower (a : ascii) : ascii :=
  if (65 <=? byte a) && (byte a <=? 90) then ascii_of_N (N_of_ascii a + 32) else a.

(** [to_ascii_lowercase]. *)
Fixpoint ascii_lower (s : string) : string :=
  match s with
  | EmptyString => EmptyString
  | String a s => String (ascii_to_lower a) (ascii_lower s)
  end.

(** [eq_ignore_ascii_case]. *)
Definition eq_ignore_ascii_case (s t : string) : bool := String.eqb (ascii_lower s) (ascii_lower t).

Fixpoint starts_with (pre s : string) : bool :=
  match pre, s with
  | EmptyString, _ => true
  | String a pre, String b s => Ascii.eqb a b && starts_with pre s
  | String _ _, EmptyString => false
  end.

Fixpoint contains (s sub : string) : bool :=
  starts_with sub s ||
  match s with
  | EmptyString => false
  | String _ s => contains s sub
  end.

Fixpoint ends_with (s suf : string) : bool :=
  String.eqb s suf ||
  match s with
  | EmptyString => false
  | String _ s => ends_with s suf
  end.

(** The bytes of [s] that satisfy a test. *)
Fixpoint string_filter (p : ascii -> bool) (s : string) : string :=
  match s with
  | EmptyString => EmptyString
  | String a s => if p a then String a (string_filter p s) else string_filter p s
  end.

Fixpoint string_forall (p : ascii -> bool) (s : string) : bool :=
  match s with
  | EmptyString => true
  | String a s => p a && string_forall p s
  end.

(** [trim] for ASCII white space. *)
Definition is_space (a : ascii) : bool :=
  let b := byte a in (b =? 32) || ((9 <=? b) && (b <=? 13)).

(** Trimming by a notion of white space. *)
Fixpoint trim_start_by (p : ascii -> bool) (s : string) : string :=
  match s with
  | String a s' => if p a then trim_start_by p s' else s
  | EmptyString => EmptyString
  end.

Fixpoint trim_end_by (p : ascii -> bool) (s : string) : string :=
  match s with
  | EmptyString => EmptyString
  | String a s' =>
      match trim_end_by p s' with
      | EmptyString => if p a then EmptyString else String a EmptyString
      | t => String a t
      end
  end.

Definition trim_by (p : ascii -> bool) (s : string) : string := trim_end_by p (trim_start_by p s).

Abbreviation trim_start := (trim_start_by is_space).
Abbreviation trim_end := (trim_end_by is_space).

Definition trim (s : string) : string := trim_end (trim_start s).

(** [split(c)]. *)
Fixpoint split_on (c : ascii) (s : string) : list string :=
  match s with
  | EmptyString => [EmptyString]
  | String a s' =>
      if Ascii.eqb a c then EmptyString :: split_on c s'
      else match split_on c s' with
           | w :: ws => String a w :: ws
           | [] => [String a EmptyString]
           end
  end.

(** A piece without the separator is one piece. *)
Lemma split_on_whole c s :
  string_forall (fun a => negb (Ascii.eqb a c)) s = true -> split_on c s = [s].
Proof.
  induction s as [|a s IH]; intros Hs; [done|]. cbn [string_forall] in Hs.
  apply andb_true_iff in Hs as [Ha Hs]. apply negb_true_iff in Ha.
  cbn [split_on]. by rewrite Ha, (IH Hs).
Qed.

Lemma split_on_cons c p t :
  string_forall (fun a => negb (Ascii.eqb a c)) p = true ->
  split_on c (p +:+ String c t) = p :: split_on c t.
Proof.
  induction p as [|a p IH]; intros Hs.
  - change ("" +:+ String c t) with (String c t). cbn [split_on]. by rewrite Ascii.eqb_refl.
  - cbn [string_forall] in Hs. apply andb_true_iff in Hs as [Ha Hs]. apply negb_true_iff in Ha.
    change (String a p +:+ String c t) with (String a (p +:+ String c t)).
    cbn [split_on]. by rewrite Ha, (IH Hs).
Qed.

(** [str::from_utf8]: well-formed UTF-8 (no overlong form, no surrogate, nothing
    past U+10FFFF). *)
Definition continuation (a : ascii) : bool := (128 <=? byte a) && (byte a <? 192).

Fixpoint utf8_valid (s : string) : bool :=
  match s with
  | EmptyString => true
  | String a s1 =>
      let b := byte a in
      if b <? 128 then utf8_valid s1
      else match s1 with
      | EmptyString => false
      | String a1 s2 =>
          let b1 := byte a1 in
          if (194 <=? b) && (b <=? 223) then continuation a1 && utf8_valid s2
          else match s2 with
          | EmptyString => false
          | String a2 s3 =>
              if (224 <=? b) && (b <=? 239) then
                continuation a1 && continuation a2 &&
                (if b =? 224 then 160 <=? b1 else if b =? 237 then b1 <? 160 else true) &&
                utf8_valid s3
              else match s3 with
              | EmptyString => false
              | String a3 s4 =>
                  (240 <=? b) && (b <=? 244) &&
                  continuation a1 && continuation a2 && continuation a3 &&
                  (if b =? 240 then 144 <=? b1 else if b =? 244 then b1 <? 144 else true) &&
                  utf8_valid s4
              end
          end
      end
  end.

(** Decimal digits. *)
Definition is_digit (a : ascii) : bool := (48 <=? byte a) && (byte a <=? 57).

Fixpoint parse_digits (acc : Z) (s : string) : option Z :=
  match s with
  | EmptyString => Some acc
  | String a s => if is_digit a then parse_digits (10 * acc + (byte a - 48)) s else None
  end.

(** [str::parse] for an unsigned integer of the given maximum (a leading [+] is
    accepted, as in the library). *)
Definition parse_unsigned (max : Z) (s : string) : option Z :=
  let body := match s with String "+" s' => s' | _ => s end in
  match body with
  | EmptyString => None
  | _ => match parse_digits 0 body with
         | Some n => if n <=? max then Some n else None
         | None => None
         end
  end.

Lemma starts_with_spec pre s : starts_with pre s = true <-> exists t, s = pre +:+ t.
Proof.
  revert s. induction pre as [|a pre IH]; intros s; simpl.
  - split; [by exists s|done].
  - destruct s as [|b s]; [split; [done|by intros [t [=]]]|].
    rewrite andb_true_iff, Ascii.eqb_eq, IH. split.
    + intros [-> [t ->]]. by exists t.
    + intros [t [= -> ->]]. split; [done|by exists t].
Qed.

Lemma string_app_cons a (s t : string) : String a s +:+ t = String a (s +:+ t).
Proof. reflexivity. Qed.

Lemma string_app_assoc (s t u : string) : (s +:+ t) +:+ u = s +:+ (t +:+ u).
Proof. induction s as [|a s IH]; [done|]. rewrite !string_app_cons. by rewrite IH. Qed.

Lemma string_app_nil_r (s : string) : s +:+ "" = s.
Proof. induction s as [|a s IH]; [done|]. rewrite string_app_cons. by rewrite IH. Qed.

Lemma string_length_app (s t : string) :
  String.length (s +:+ t) = (String.length s + String.length t)%nat.
Proof. induction s as [|a s IH]; [done|]. rewrite string_app_cons. simpl. by rewrite IH. Qed.

Lemma ends_with_spec s suf : ends_with s suf = true <-> exists t, s = t +:+ suf.
Proof.
  induction s as [|a s IH]; cbn [ends_with].
  - rewrite orb_false_r, String.eqb_eq. split; [intros <-; by exists ""|].
    intros [t Ht]. by destruct t.
  - rewrite orb_true_iff, String.eqb_eq, IH. split.
    + intros [<-|[t ->]]; [by exists ""|by exists (String a t)].
    + intros [[|b t] Ht]; [by left|right]. rewrite string_app_cons in Ht.
      injection Ht as -> ->. by exists t.
Qed.

(** ** A text form of [positive], for the codecs of the witnesses *)

Fixpoint digits (p : positive) : string :=
  match p with
  | xH => ""
  | xO p => String "0" (digits p)
  | xI p => String "1" (digits p)
  end.

Fixpoint of_digits (s : string) : positive :=
  match s with
  | EmptyString => xH
  | String c s => if Ascii.eqb c "1" then xI (of_digits s) else xO (of_digits s)
  end.

Lemma of_digits_digits p : of_digits (digits p) = p.
Proof. induction p as [p IH|p IH|]; simpl; by rewrite ?IH. Qed.

Lemma digits_forall (p : ascii -> bool) n :
  p "0"%char = true -> p "1"%char = true -> string_forall p (digits n) = true.
Proof. intros H0 H1. induction n as [n IH|n IH|]; simpl; by rewrite ?H0, ?H1, ?IH. Qed.

(** Trimming twice is trimming once. *)
Lemma trim_end_idem s : trim_end (trim_end s) = trim_end s.
Proof.
  induction s as [|a s IH]; [done|]. simpl. destruct (trim_end s) as [|b t] eqn:E.
  - destruct (is_space a) eqn:Ea; [done|]. simpl. by rewrite Ea.
  - change (trim_end (String a (String b t))) with
      (match trim_end (String b t) with
       | EmptyString => if is_space a then EmptyString else String a EmptyString
       | t' => String a t'
       end). by rewrite IH.
Qed.

Lemma trim_start_end s : trim_start s = s -> trim_start (trim_end s) = trim_end s.
Proof.
  destruct s as [|a s]; [done|]. simpl. destruct (is_space a) eqn:Ea.
  - intros H. apply (f_equal String.length) in H. simpl in H.
    assert (forall s, (String.length (trim_start s) <= String.length s)%nat) as Hl.
    { clear. induction s as [|b s IH]; simpl; [lia|]. destruct (is_space b); simpl; lia. }
    specialize (Hl s). lia.
  - intros _. destruct (trim_end s); simpl; by rewrite Ea.
Qed.

Lemma trim_start_idem s : trim_start (trim_start s) = trim_start s.
Proof.
  induction s as [|a s IH]; [done|]. simpl. destruct (is_space a) eqn:E; [done|].
  simpl. by rewrite E.
Qed.

Lemma trim_idem s : trim (trim s) = trim s.
Proof.
  unfold trim. rewrite trim_start_end; [apply trim_end_idem|apply trim_start_idem].
Qed.

Fixpoint strip_prefix (pre s : string) : option string :=
  match pre, s with
  | EmptyString, _ => Some s
  | String a pre, String b s => if Ascii.eqb a b then strip_prefix pre s else None
  | String _ _, EmptyString => None
  end.

Lemma strip_prefix_app pre s : strip_prefix pre (pre +:+ s) = Some s.
Proof.
  induction pre as [|a pre IH]; [by destruct s|]. rewrite string_app_cons. simpl.
  by rewrite Ascii.eqb_refl.
Qed.

(** A text without white space is trimmed. *)
Lemma trim_no_space s : string_forall (fun a => negb (is_space a)) s = true -> trim s = s.
Proof.
  intros Hs. assert (trim_end s = s) as He.
  { induction s as [|a s IH]; [done|]. simpl in *. apply andb_true_iff in Hs as [Ha Hs].
    rewrite IH by done. destruct s; [|done]. by apply negb_true_iff in Ha as ->. }
  unfold trim. assert (trim_start s = s) as ->; [|done].
  destruct s as [|a s]; [done|]. simpl in *. apply andb_true_iff in Hs as [Ha _].
  by apply negb_true_iff in Ha as ->.
Qed.

(** White space at the end does not matter. *)
Lemma trim_end_by_snoc p s a : p a = true -> trim_end_by p (s +:+ String a "") = trim_end_by p s.
Proof.
  intros Ha. induction s as [|b s IH].
  - change ("" +:+ String a "") with (String a ""). cbn. by rewrite Ha.
  - rewrite string_app_cons. cbn [trim_end_by]. by rewrite IH.
Qed.

Lemma trim_by_snoc p s a : p a = true -> trim_by p (s +:+ String a "") = trim_by p s.
Proof.
  intros Ha. unfold trim_by. induction s as [|b s IH].
  - change ("" +:+ String a "") with (String a ""). cbn. by rewrite Ha.
  - rewrite string_app_cons. cbn [trim_start_by]. destruct (p b); [exact IH|].
    rewrite <- string_app_cons. by apply trim_end_by_snoc.
Qed.

(** [str]'s order is total. *)
Lemma string_compare_trans (s t u : string) :
  String.compare s t <> Gt -> String.compare t u <> Gt -> String.compare s u <> Gt.
Proof.
  revert t u. induction s as [|a s IH]; intros [|b t] [|c u]; try done. cbn [String.compare].
  unfold Ascii.compare.
  destruct (N.compare_spec (N_of_ascii a) (N_of_ascii b)) as [Hab|Hab|Hab],
    (N.compare_spec (N_of_ascii b) (N_of_ascii c)) as [Hbc|Hbc|Hbc],
    (N.compare_spec (N_of_ascii a) (N_of_ascii c)) as [Hac|Hac|Hac]; try done || lia.
  apply IH.
Qed.

Lemma string_compare_gt (s t : string) : String.compare s t = Gt -> String.compare t s <> Gt.
Proof. rewrite String.compare_antisym. by destruct (String.compare t s). Qed.

(** [String::from_utf8_lossy]: every maximal prefix of a character that does not
    go on becomes U+FFFD. *)
Definition REPLACEMENT : string := String "239" (String "191" (String "189" "")).

(** The length of the character a byte starts, zero for none. *)
Definition char_width (b : Z) : nat :=
  if b <? 128 then 1
  else if (194 <=? b) && (b <=? 223) then 2
  else if (224 <=? b) && (b <=? 239) then 3
  else if (240 <=? b) && (b <=? 244) then 4
  else 0.

(** Whether a second byte may follow a first one. *)
Definition second_ok (b b1 : Z) : bool :=
  if b =? 224 then (160 <=? b1) && (b1 <? 192)
  else if b =? 237 then (128 <=? b1) && (b1 <? 160)
  else if b =? 240 then (144 <=? b1) && (b1 <? 192)
  else if b =? 244 then (128 <=? b1) && (b1 <? 144)
  else (128 <=? b1) && (b1 <? 192).

Fixpoint lossy (s : string) : string :=
  match s with
  | EmptyString => EmptyString
  | String a s1 =>
      match char_width (byte a) with
      | 1%nat => String a (lossy s1)
      | 0%nat => REPLACEMENT +:+ lossy s1
      | w =>
          match s1 with
          | EmptyString => REPLACEMENT
          | String a1 s2 =>
              if negb (second_ok (byte a) (byte a1)) then REPLACEMENT +:+ lossy s1
              else if (w =? 2)%nat then String a (String a1 (lossy s2))
              else
                match s2 with
                | EmptyString => REPLACEMENT
                | String a2 s3 =>
                    if negb (continuation a2) then REPLACEMENT +:+ lossy s2
                    else if (w =? 3)%nat then String a (String a1 (String a2 (lossy s3)))
                    else
                      match s3 with
                      | EmptyString => REPLACEMENT
                      | String a3 s4 =>
                          if negb (continuation a3) then REPLACEMENT +:+ lossy s3
                          else String a (String a1 (String a2 (String a3 (lossy s4))))
                      end
                end
          end
      end
  end.

(** Induction on strings by suffixes. *)
Lemma string_suffix_ind (P : string -> Prop) :
  (forall s, (forall t, (String.length t < String.length s)%nat -> P t) -> P s) -> forall s, P s.
Proof.
  intros Hstep s. remember (String.length s) as n eqn:Hn. revert s Hn.
  induction n as [n IH] using lt_wf_ind. intros s ->. apply Hstep. intros t Ht. by eapply IH.
Qed.

(** An ASCII byte ends whatever is pending, so a text is converted piece by
    piece around it. *)
Lemma lossy_app_ascii s a t :
  byte a < 128 -> lossy (s +:+ String a t) = lossy s +:+ String a (lossy t).
Proof.
  intros Ha.
  assert (char_width (byte a) = 1%nat) as Hw by (unfold char_width; by rewrite (proj2 (Z.ltb_lt _ _) Ha)).
  assert (forall b, second_ok b (byte a) = false) as Hs.
  { intros b. unfold second_ok.
    repeat case_match; apply andb_false_iff; left; apply Z.leb_gt; lia. }
  assert (continuation a = false) as Hc
    by (unfold continuation; apply andb_false_iff; left; apply Z.leb_gt; lia).
  assert (forall u, lossy (String a u) = String a (lossy u)) as Hl by (intros u; cbn [lossy]; by rewrite Hw).
  induction s as [s IH] using string_suffix_ind.
  destruct s as [|b s1]; [apply Hl|]. rewrite string_app_cons.
  destruct (char_width (byte b)) as [|[|w]] eqn:Eb; cbn [lossy]; rewrite ?Eb.
  - rewrite IH, string_app_assoc by (simpl; lia). done.
  - rewrite IH by (simpl; lia). done.
  - destruct s1 as [|b1 s2].
    { change ("" +:+ String a t) with (String a t). cbv match. rewrite Hs. cbn [negb]. by rewrite Hl. }
    rewrite string_app_cons. destruct (second_ok _ _); cbn [negb].
    2: { rewrite <- string_app_cons, IH, string_app_assoc by (simpl; lia). done. }
    destruct (_ =? 2)%nat; [by rewrite IH by (simpl; lia)|].
    destruct s2 as [|b2 s3].
    { change ("" +:+ String a t) with (String a t). cbv match. rewrite Hc. cbn [negb]. by rewrite Hl. }
    rewrite string_app_cons. destruct (continuation b2); cbn [negb].
    2: { rewrite <- string_app_cons, IH, string_app_assoc by (simpl; lia). done. }
    destruct (_ =? 3)%nat; [by rewrite IH by (simpl; lia)|].
    destruct s3 as [|b3 s4].
    { change ("" +:+ String a t) with (String a t). cbv match. rewrite Hc. cbn [negb]. by rewrite Hl. }
    rewrite string_app_cons. destruct (continuation b3); cbn [negb].
    2: { rewrite <- string_app_cons, IH, string_app_assoc by (simpl; lia). done. }
    by rewrite IH by (simpl; lia).
Qed.

(** What has been converted is a text: converting it again changes nothing. *)
Lemma lossy_replacement s : lossy (REPLACEMENT +:+ s) = REPLACEMENT +:+ lossy s.
Proof. reflexivity. Qed.

Lemma lossy_idem s : lossy (lossy s) = lossy s.
Proof.
  induction s as [s IH] using string_suffix_ind.
  destruct s as [|a s1]; [done|].
  destruct (char_width (byte a)) as [|[|w]] eqn:Ew; cbn [lossy]; rewrite Ew.
  - rewrite lossy_replacement, IH by (simpl; lia). done.
  - cbn [lossy]. rewrite Ew, IH by (simpl; lia). done.
  - destruct s1 as [|a1 s2]; [done|]. destruct (second_ok _ _) eqn:E1; cbn [negb].
    2: { rewrite lossy_replacement, IH by (simpl; lia). done. }
    destruct (_ =? 2)%nat eqn:E2.
    { cbn [lossy]. rewrite Ew, E1, E2. cbn [negb]. rewrite IH by (simpl; lia). done. }
    destruct s2 as [|a2 s3]; [done|]. destruct (continuation a2) eqn:E3; cbn [negb].
    2: { rewrite lossy_replacement, IH by (simpl; lia). done. }
    destruct (_ =? 3)%nat eqn:E4.
    { cbn [lossy]. rewrite Ew, E1, E2, E3, E4. cbn [negb]. rewrite IH by (simpl; lia). done. }
    destruct s3 as [|a3 s4]; [done|]. destruct (continuation a3) eqn:E5; cbn [negb].
    2: { rewrite lossy_replacement, IH by (simpl; lia). done. }
    cbn [lossy]. rewrite Ew, E1, E2, E3, E4, E5. cbn [negb]. rewrite IH by (simpl; lia). done.
Qed.

(** No byte of a text is gained by the conversion, but those of U+FFFD. *)
Lemma lossy_no_new c s :
  byte c < 128 -> string_forall (fun a => negb (Ascii.eqb a c)) s = true ->
  string_forall (fun a => negb (Ascii.eqb a c)) (lossy s) = true.
Proof.
  intros Hc. assert (forall t, string_forall (fun a => negb (Ascii.eqb a c)) (REPLACEMENT +:+ t) =
    string_forall (fun a => negb (Ascii.eqb a c)) t) as Hrep.
  { intros t. unfold REPLACEMENT. rewrite !string_app_cons. change ("" +:+ t) with t.
    cbn [string_forall]. rewrite !(proj2 (Ascii.eqb_neq _ c)); [done|..];
      intros <-; vm_compute in Hc; discriminate. }
  assert (forall a t, string_forall (fun a => negb (Ascii.eqb a c)) (String a t) = true ->
    negb (Ascii.eqb a c) = true /\ string_forall (fun a => negb (Ascii.eqb a c)) t = true) as Hcons
    by (intros a t; cbn [string_forall]; apply andb_true_iff).
  induction s as [s IH] using string_suffix_ind. destruct s as [|a s1]; [done|].
  intros [Ha Hs]%Hcons. cbn [lossy].
  destruct (char_width (byte a)) as [|[|w]].
  - rewrite Hrep. apply IH; [simpl; lia|done].
  - cbn [string_forall]. rewrite Ha. apply IH; [simpl; lia|done].
  - destruct s1 as [|a1 s2]; [apply (Hrep "")|]. pose proof (Hcons _ _ Hs) as [Ha1 Hs2].
    destruct (negb (second_ok _ _)); [rewrite Hrep; apply IH; [simpl; lia|done]|].
    destruct (_ =? 2)%nat.
    { cbn [string_forall]. rewrite Ha, Ha1. apply IH; [simpl; lia|done]. }
    destruct s2 as [|a2 s3]; [apply (Hrep "")|]. pose proof (Hcons _ _ Hs2) as [Ha2 Hs3].
    destruct (negb (continuation a2)); [rewrite Hrep; apply IH; [simpl; lia|done]|].
    destruct (_ =? 3)%nat.
    { cbn [string_forall]. rewrite Ha, Ha1, Ha2. apply IH; [simpl; lia|done]. }
    destruct s3 as [|a3 s4]; [apply (Hrep "")|]. pose proof (Hcons _ _ Hs3) as [Ha3 Hs4].
    destruct (negb (continuation a3)); [rewrite Hrep; apply IH; [simpl; lia|done]|].
    cbn [string_forall]. rewrite Ha, Ha1, Ha2, Ha3. apply IH; [simpl; lia|done].
Qed.

(** A text is valid piece by piece around an ASCII byte, and a valid one is left
    alone by the conversion. *)
Lemma utf8_app_ascii s a t :
  byte a < 128 -> utf8_valid (s +:+ String a t) = utf8_valid s && utf8_valid t.
Proof.
  intros Ha.
  assert (continuation a = false) as Hc
    by (unfold continuation; apply andb_false_iff; left; apply Z.leb_gt; lia).
  assert (forall u, utf8_valid (String a u) = utf8_valid u) as Hu
    by (intros u; cbn [utf8_valid]; by rewrite (proj2 (Z.ltb_lt _ _) Ha)).
  induction s as [s IH] using string_suffix_ind.
  destruct s as [|b s1]; [apply Hu|]. rewrite string_app_cons.
  cbn [utf8_valid]. destruct (byte b <? 128); [apply IH; simpl; lia|].
  destruct s1 as [|b1 s2].
  { change ("" +:+ String a t) with (String a t). cbv match. rewrite Hc.
    destruct (_ && _); [done|]. destruct t as [|t1 t2]; [done|]. cbn [andb].
    destruct (_ && _); [done|]. destruct t2; [done|]. cbn [andb]. by rewrite andb_false_r. }
  rewrite string_app_cons. destruct (_ && _); [by rewrite IH, andb_assoc by (simpl; lia)|].
  destruct s2 as [|b2 s3].
  { change ("" +:+ String a t) with (String a t). cbv match. rewrite Hc, andb_false_r.
    destruct (_ && _); [done|]. destruct t; [done|]. by rewrite andb_false_r. }
  rewrite string_app_cons. destruct (_ && _); [by rewrite IH, andb_assoc by (simpl; lia)|].
  destruct s3 as [|b3 s4].
  { change ("" +:+ String a t) with (String a t). cbv match. by rewrite Hc, andb_false_r. }
  rewrite string_app_cons. by rewrite IH, andb_assoc by (simpl; lia).
Qed.

Lemma lossy_valid s : utf8_valid s = true -> lossy s = s.
Proof.
  induction s as [s IH] using string_suffix_ind.
  destruct s as [|a s1]; [done|]. cbn [utf8_valid lossy]. unfold char_width.
  destruct (byte a <? 128); [intros H; by rewrite IH by (done || simpl; lia)|].
  destruct s1 as [|a1 s2]; [done|].
  destruct ((194 <=? byte a) && (byte a <=? 223)) eqn:E2.
  { intros [H1 H]%andb_true_iff.
    assert (second_ok (byte a) (byte a1) = true) as ->.
    { unfold second_ok. rewrite !(proj2 (Z.eqb_neq (byte a) _)) by lia. exact H1. }
    simpl. by rewrite IH by (done || simpl; lia). }
  destruct s2 as [|a2 s3]; [done|].
  destruct ((224 <=? byte a) && (byte a <=? 239)) eqn:E3.
  { intros [[[H1 H2]%andb_true_iff Hb]%andb_true_iff H]%andb_true_iff. unfold continuation in H1.
    assert (second_ok (byte a) (byte a1) = true) as ->.
    { unfold second_ok. destruct (byte a =? 224); [lia|]. destruct (byte a =? 237); [lia|].
      rewrite !(proj2 (Z.eqb_neq (byte a) _)) by lia. exact H1. }
    rewrite H2. simpl. by rewrite IH by (done || simpl; lia). }
  destruct s3 as [|a3 s4]; [done|].
  intros [[[[[E4 H1]%andb_true_iff H2]%andb_true_iff H3]%andb_true_iff Hb]%andb_true_iff H]%andb_true_iff.
  unfold continuation in H1. rewrite E4.
  assert (second_ok (byte a) (byte a1) = true) as ->.
  { unfold second_ok. rewrite !(proj2 (Z.eqb_neq (byte a) 224)), !(proj2 (Z.eqb_neq (byte a) 237)) by lia.
    destruct (byte a =? 240); [lia|]. destruct (byte a =? 244); [lia|]. exact H1. }
  rewrite H2, H3. simpl. by rewrite IH by (done || simpl; lia).
Qed.

(** The first bytes. *)
Fixpoint str_take (n : nat) (s : string) : string :=
  match n, s with
  | S n, String a s => String a (str_take n s)
  | _, _ => EmptyString
  end.

Lemma str_take_length n s : String.length (str_take n s) = Nat.min n (String.length s).
Proof. revert s. induction n as [|n IH]; intros [|a s]; simpl; by rewrite ?IH. Qed.

Lemma str_take_all n s : (String.length s <= n)%nat -> str_take n s = s.
Proof. revert s. induction n as [|n IH]; intros [|a s] Hn; simpl in *; rewrite ?IH by lia; done || lia. Qed.

Definition str_concat (bufs : list string) : string := foldr (fun b s => b +:+ s) "" bufs.
