(* ===== verification/Float64.v ===== *)
(** IEEE-754 binary64 numbers as Rust's [f64].

    [f64] is the standard library's [spec_float] at precision 53 and exponent
    bound 1024, with the correctly rounded operations the language prescribes
    for [+], [-], [*], [/], comparison and the [as] casts.  [powi] is the
    repeated squaring of the compiler's runtime.  [powf] and [log2] have no
    prescribed result, so the components that call them take them as
    parameters.  The lemmas: comparison is antisymmetric, and the unit interval
    is closed under [*] and [powi]. *)

From Corelib Require Export SpecFloat.
From S2P Require Import Prelude.

Definition f64 : Type := spec_float.

Definition f64_prec : Z := 53.
Definition f64_emax : Z := 1024.

Definition fadd : f64 -> f64 -> f64 := SFadd f64_prec f64_emax.
Definition fsub : f64 -> f64 -> f64 := SFsub f64_prec f64_emax.
Definition fmul : f64 -> f64 -> f64 := SFmul f64_prec f64_emax.
Definition fdiv : f64 -> f64 -> f64 := SFdiv f64_prec f64_emax.
Definition fneg : f64 -> f64 := SFopp.

(** [a < b], [a <= b], [a == b], [PartialOrd::partial_cmp]. *)
Definition flt (a b : f64) : bool := SFltb a b.
Definition fle (a b : f64) : bool := SFleb a b.
Definition feq (a b : f64) : bool := SFeqb a b.
Definition partial_cmp (a b : f64) : option comparison := SFcompare a b.

Definition is_nan (a : f64) : bool := match a with S754_nan => true | _ => false end.
Definition is_finite (a : f64) : bool :=
  match a with S754_nan | S754_infinity _ => false | _ => true end.

(** [n as f64] for an integer [n]. *)
Definition f64_of_Z (n : Z) : f64 := binary_normalize f64_prec f64_emax n 0 false.

(** The literal [num / den], for [num] and [den] below 2^53 (so that one
    rounding gives the double nearest to the decimal). *)
Definition f64_lit (num den : Z) : f64 := fdiv (f64_of_Z num) (f64_of_Z den).

Definition fzero : f64 := S754_zero false.
Definition fone : f64 := f64_of_Z 1.

(** The integer part of [m * 2^e]. *)
Definition trunc_pos (m : positive) (e : Z) : Z :=
  if 0 <=? e then Z.pos m * 2 ^ e else Z.pos m / 2 ^ (- e).

(** [x as u64]: truncates, saturates at both ends, NaN is 0. *)
Definition f64_to_u64 (x : f64) : Z :=
  match x with
  | S754_finite false m e => Z.min (trunc_pos m e) U64_MAX
  | S754_infinity false => U64_MAX
  | _ => 0
  end.

(** [x as i64]. *)
Definition f64_to_i64 (x : f64) : Z :=
  match x with
  | S754_finite false m e => Z.min (trunc_pos m e) (2 ^ 63 - 1)
  | S754_finite true m e => Z.max (- trunc_pos m e) (- 2 ^ 63)
  | S754_infinity false => 2 ^ 63 - 1
  | S754_infinity true => - 2 ^ 63
  | _ => 0
  end.

(** [f64::min] and [f64::max]: a NaN operand yields the other one. *)
Definition fmin (a b : f64) : f64 :=
  if is_nan a then b else if is_nan b then a else if flt b a then b else a.
Definition fmax (a b : f64) : f64 :=
  if is_nan a then b else if is_nan b then a else if flt a b then b else a.

(** [powi] for a non-negative exponent: the square-and-multiply loop. *)
Fixpoint powi_loop (b : positive) (a r : f64) : f64 :=
  match b with
  | xH => fmul r a
  | xO b' => powi_loop b' (fmul a a) r
  | xI b' => powi_loop b' (fmul a a) (fmul r a)
  end.

Definition powi (a : f64) (b : Z) : f64 :=
  match b with
  | Z0 => fone
  | Zpos p => powi_loop p a fone
  | Zneg p => fdiv fone (powi_loop p a fone)
  end.

(** ** Comparison *)

Lemma Pos_compare_cont_antisym p q :
  Pos.compare_cont Eq q p = CompOpp (Pos.compare_cont Eq p q).
Proof. change (Pos.compare q p = CompOpp (Pos.compare p q)). apply Pos.compare_antisym. Qed.

Lemma partial_cmp_antisym a b : partial_cmp b a = CompOpp <$> partial_cmp a b.
Proof.
  unfold partial_cmp.
  destruct a as [[]|[]| |[] m1 e1], b as [[]|[]| |[] m2 e2]; try reflexivity;
    simpl; change IntDef.Z.compare with Z.compare;
    rewrite (Z.compare_antisym e1 e2); destruct (e1 ?= e2)%Z; try reflexivity;
    simpl; change PosDef.Pos.compare_cont with Pos.compare_cont;
    rewrite Pos_compare_cont_antisym; reflexivity.
Qed.

Lemma partial_cmp_refl a : is_nan a = false -> partial_cmp a a = Some Eq.
Proof.
  unfold partial_cmp. destruct a as [[]|[]| |[] m e]; simpl; try done; intros _;
    change IntDef.Z.compare with Z.compare; rewrite Z.compare_refl;
    change (PosDef.Pos.compare_cont Eq m m) with (Pos.compare m m);
    by rewrite Pos.compare_refl.
Qed.

Lemma flt_irrefl a : flt a a = false.
Proof.
  unfold flt, SFltb. destruct (is_nan a) eqn:E; [by destruct a|].
  pose proof (partial_cmp_refl a E) as ->%(fun H => H : SFcompare a a = _). done.
Qed.

(** ** Rounding keeps magnitude bounds

    [bnd k m e]: the value [m * 2^e] is at most [2^k], with [e <= k];
    [in_pow k x]: [x] is finite and at most [2^k] in magnitude. *)

Definition bnd (k m e : Z) : Prop := 0 <= m /\ e <= k /\ m <= 2 ^ (k - e).

Definition in_pow (k : Z) (x : f64) : Prop :=
  match x with
  | S754_zero _ => True
  | S754_finite _ m e => bnd k (Z.pos m) e
  | _ => False
  end.

Definition is_neg (x : f64) : bool :=
  match x with S754_zero s | S754_infinity s | S754_finite s _ _ => s | S754_nan => false end.

(** The doubles from 0 to 1: [0], or [m * 2^e] with [m <= 2^(-e)]. *)
Definition in_unit (x : f64) : Prop := in_pow 0 x /\ is_neg x = false.

Definition shr_inexact (r : shr_record) : bool := orb (shr_r r) (shr_s r).

Lemma shr_1_spec r :
  0 <= shr_m r ->
  shr_m (shr_1 r) = shr_m r / 2 /\
  (shr_m r mod 2 = 0 -> shr_inexact r = false -> shr_inexact (shr_1 r) = false).
Proof.
  destruct r as [m r s]. unfold shr_inexact. simpl. intros Hm.
  destruct m as [|[p|p|]|p]; simpl; try lia.
  - split; [done|]. intros _ ->. done.
  - split; [|rewrite Pos2Z.inj_xI; intros H; exfalso].
    + rewrite Pos2Z.inj_xI. Z.to_euclidean_division_equations; lia.
    + revert H. Z.to_euclidean_division_equations; lia.
  - split; [|intros _ ->; done].
    rewrite Pos2Z.inj_xO. Z.to_euclidean_division_equations; lia.
  - split; [done|]. intros H. discriminate.
Qed.

Lemma iter_shr_spec p r :
  0 <= shr_m r ->
  shr_m (SpecFloat.iter_pos shr_1 p r) = shr_m r / 2 ^ Z.pos p /\
  (shr_m r mod 2 ^ Z.pos p = 0 -> shr_inexact r = false ->
   shr_inexact (SpecFloat.iter_pos shr_1 p r) = false).
Proof.
  revert r.
  (* two runs of [a] and [b] steps compose *)
  assert (Hcomp : forall (f g : shr_record -> shr_record) a b, 0 <= a -> 0 <= b ->
    (forall r, 0 <= shr_m r -> shr_m (f r) = shr_m r / 2 ^ a /\
       (shr_m r mod 2 ^ a = 0 -> shr_inexact r = false -> shr_inexact (f r) = false)) ->
    (forall r, 0 <= shr_m r -> shr_m (g r) = shr_m r / 2 ^ b /\
       (shr_m r mod 2 ^ b = 0 -> shr_inexact r = false -> shr_inexact (g r) = false)) ->
    forall r, 0 <= shr_m r -> shr_m (g (f r)) = shr_m r / 2 ^ (a + b) /\
       (shr_m r mod 2 ^ (a + b) = 0 -> shr_inexact r = false -> shr_inexact (g (f r)) = false)).
  { intros f g a b Ha Hb Hf Hg r Hr.
    assert (0 < 2 ^ a) by lia. assert (0 < 2 ^ b) by lia.
    destruct (Hf r Hr) as [Hf1 Hf2].
    assert (0 <= shr_m (f r)) as Hfr by (rewrite Hf1; apply Z.div_pos; lia).
    destruct (Hg (f r) Hfr) as [Hg1 Hg2]. rewrite Z.pow_add_r by lia. split.
    - rewrite Hg1, Hf1, Z.div_div by lia. done.
    - intros Hm Hx. rewrite Z.rem_mul_r in Hm by lia.
      pose proof (Z.mod_pos_bound (shr_m r) (2 ^ a) ltac:(lia)).
      pose proof (Z.mod_pos_bound (shr_m r / 2 ^ a) (2 ^ b) ltac:(lia)).
      apply Hg2; [rewrite Hf1; nia | apply Hf2; [nia | done]]. }
  induction p as [p IH|p IH|]; intros r Hr; simpl SpecFloat.iter_pos.
  - replace (Z.pos p~1) with (1 + (Z.pos p + Z.pos p)) by lia.
    apply (Hcomp shr_1 (fun r => SpecFloat.iter_pos shr_1 p (SpecFloat.iter_pos shr_1 p r)) 1 (Z.pos p + Z.pos p));
      [lia|lia|exact shr_1_spec| |exact Hr].
    apply (Hcomp (SpecFloat.iter_pos shr_1 p) (SpecFloat.iter_pos shr_1 p)); [lia|lia|exact IH|exact IH].
  - replace (Z.pos p~0) with (Z.pos p + Z.pos p) by lia.
    apply (Hcomp (SpecFloat.iter_pos shr_1 p) (SpecFloat.iter_pos shr_1 p)); [lia|lia|exact IH|exact IH|exact Hr].
  - exact (shr_1_spec r Hr).
Qed.

Lemma digits2_pos_bound p : 2 ^ (Z.pos (digits2_pos p) - 1) <= Z.pos p < 2 ^ Z.pos (digits2_pos p).
Proof.
  induction p as [p IH|p IH|]; simpl digits2_pos; [| |simpl; lia];
    rewrite Pos2Z.inj_succ;
    replace (Z.succ (Z.pos (digits2_pos p)) - 1) with (Z.succ (Z.pos (digits2_pos p) - 1)) by lia;
    rewrite !Z.pow_succ_r by lia; lia.
Qed.

Lemma bnd_digits k m e : bnd k m e -> Zdigits2 m + e <= k + 1.
Proof.
  intros (Hm & He & Hle). destruct m as [|p|p]; simpl; [lia| |lia].
  pose proof (digits2_pos_bound p) as [Hlo _].
  assert (2 ^ (Z.pos (digits2_pos p) - 1) <= 2 ^ (k - e)) as H by lia.
  apply Z.pow_le_mono_r_iff in H; lia.
Qed.

Lemma fexp_bnd k d : emin f64_prec f64_emax <= k -> d <= k + 1 -> fexp f64_prec f64_emax d <= k.
Proof. unfold fexp, emin, f64_prec, f64_emax. change IntDef.Z.max with Z.max. lia. Qed.

(** Dropping low bits keeps [bnd], and the bound is attained only when nothing
    was dropped. *)
Lemma shr_fexp_bnd k m e :
  emin f64_prec f64_emax <= k -> bnd k m e ->
  let '(r, e') := shr_fexp f64_prec f64_emax m e loc_Exact in
  bnd k (shr_m r) e' /\ (shr_m r = 2 ^ (k - e') -> shr_inexact r = false).
Proof.
  intros Hk Hle. pose proof (fexp_bnd _ _ Hk (bnd_digits _ _ _ Hle)) as Hf.
  destruct Hle as (Hm & He & Hle).
  unfold shr_fexp, shr, shr_record_of_loc.
  destruct (fexp f64_prec f64_emax (Zdigits2 m + e) - e)%Z as [|p|p] eqn:Hn.
  - split; [done|]. done.
  - change IntDef.Z.add with Z.add.
    destruct (iter_shr_spec p {| shr_m := m; shr_r := false; shr_s := false |} Hm) as [H1 H2].
    simpl in H1, H2. rewrite H1.
    assert (0 < 2 ^ Z.pos p) by lia. assert (e + Z.pos p <= k) as Hep by lia.
    assert (2 ^ (k - e) = 2 ^ Z.pos p * 2 ^ (k - (e + Z.pos p))) as Hpow
      by (rewrite <- Z.pow_add_r by lia; f_equal; lia).
    assert (m / 2 ^ Z.pos p <= 2 ^ (k - (e + Z.pos p))) as Hdiv.
    { apply Z.div_le_upper_bound; lia. }
    repeat split; [apply Z.div_pos; lia | done | done |].
    intros Heq. apply H2; [|done].
    pose proof (Z.div_mod m (2 ^ Z.pos p) ltac:(lia)) as Hdm.
    pose proof (Z.mod_pos_bound m (2 ^ Z.pos p) ltac:(lia)). rewrite Heq in Hdm. lia.
  - split; [done|]. done.
Qed.

Lemma round_ne_bounds r :
  shr_m r <= round_nearest_even (shr_m r) (loc_of_shr_record r) <= shr_m r + 1.
Proof.
  destruct (loc_of_shr_record r) as [|[]]; simpl; change IntDef.Z.add with Z.add;
    try lia; destruct (IntDef.Z.even _); lia.
Qed.

Lemma round_bnd k s m e :
  emin f64_prec f64_emax <= k <= f64_emax - f64_prec -> bnd k m e ->
  in_pow k (binary_round_aux f64_prec f64_emax s m e loc_Exact) /\
  is_neg (binary_round_aux f64_prec f64_emax s m e loc_Exact) = s.
Proof.
  intros [Hk Hk'] Hle. unfold binary_round_aux.
  pose proof (shr_fexp_bnd k m e Hk Hle) as H1.
  destruct (shr_fexp f64_prec f64_emax m e loc_Exact) as [r e'].
  destruct H1 as [Hr Hx].
  assert (bnd k (round_nearest_even (shr_m r) (loc_of_shr_record r)) e') as Hrne.
  { destruct (decide (shr_m r = 2 ^ (k - e'))) as [Heq|Hne].
    - apply Hx in Heq as Hin. destruct r as [m' [] []]; try discriminate Hin. exact Hr.
    - destruct Hr as (? & ? & ?). pose proof (round_ne_bounds r). unfold bnd. lia. }
  pose proof (shr_fexp_bnd k _ e' Hk Hrne) as H2.
  destruct (shr_fexp f64_prec f64_emax _ e' loc_Exact) as [r'' e''].
  destruct H2 as [Hr'' _]. destruct (shr_m r'') as [|p|p]; [done| |destruct Hr''; lia].
  change IntDef.Z.leb with Z.leb. change IntDef.Z.sub with Z.sub.
  replace (e'' <=? f64_emax - f64_prec) with true; [done|].
  destruct Hr'' as (? & ? & ?). symmetry. apply Z.leb_le. lia.
Qed.

Lemma fmul_in_pow k l x y :
  emin f64_prec f64_emax <= k + l <= f64_emax - f64_prec ->
  in_pow k x -> in_pow l y ->
  in_pow (k + l) (fmul x y) /\ is_neg (fmul x y) = xorb (is_neg x) (is_neg y).
Proof.
  intros Hkl. destruct x as [s| | |s m e], y as [t| | |t n f]; simpl; try done.
  intros (_ & He & Hm) (_ & Hf & Hn).
  change IntDef.Z.add with Z.add. change PosDef.Pos.mul with Pos.mul.
  apply round_bnd; [done|]. rewrite Pos2Z.inj_mul. split; [lia|]. split; [lia|].
  replace (k + l - (e + f)) with (k - e + (l - f)) by lia. rewrite Z.pow_add_r by lia. nia.
Qed.

Lemma fmul_unit x y : in_unit x -> in_unit y -> in_unit (fmul x y).
Proof.
  intros [Hx Hx'] [Hy Hy']. destruct (fmul_in_pow 0 0 x y) as [H H']; try done.
  split; [done|]. by rewrite H', Hx', Hy'.
Qed.

Lemma fone_unit : in_unit fone.
Proof. vm_compute. repeat split; congruence. Qed.

Lemma powi_loop_unit b a r : in_unit a -> in_unit r -> in_unit (powi_loop b a r).
Proof.
  revert a r. induction b as [b IH|b IH|]; intros a r Ha Hr; simpl.
  - apply IH; by apply fmul_unit.
  - apply IH; [by apply fmul_unit|done].
  - by apply fmul_unit.
Qed.

Lemma powi_unit a b : in_unit a -> 0 <= b -> in_unit (powi a b).
Proof.
  intros Ha Hb. destruct b as [|p|p]; simpl; [apply fone_unit| |lia].
  apply powi_loop_unit; [done|apply fone_unit].
Qed.

Lemma in_pow_finite k x : in_pow k x -> is_finite x = true.
Proof. by destruct x. Qed.

Lemma finite_not_nan x : is_finite x = true -> is_nan x = false.
Proof. by destruct x. Qed.

Lemma in_unit_finite x : in_unit x -> is_finite x = true.
Proof. intros [H _]. by eapply in_pow_finite. Qed.

Lemma in_unit_not_nan x : in_unit x -> is_nan x = false.
Proof. intros H. by apply finite_not_nan, in_unit_finite. Qed.

#[export] Hint Resolve fmul_unit fone_unit powi_unit in_unit_finite in_unit_not_nan : keepat.

(** ** No operation on ordinary operands yields NaN *)

Lemma shr_fexp_nonneg m e l : 0 <= m -> 0 <= shr_m (shr_fexp f64_prec f64_emax m e l).1.
Proof.
  intros Hm. unfold shr_fexp, shr.
  assert (0 <= shr_m (shr_record_of_loc m l)) as Hr by (by destruct l as [|[]]).
  destruct (IntDef.Z.sub _ e); [done| |done].
  simpl. rewrite (proj1 (iter_shr_spec p _ Hr)). apply Z.div_pos; lia.
Qed.

Lemma round_aux_not_nan s m e l :
  0 <= m ->
  is_nan (binary_round_aux f64_prec f64_emax s m e l) = false /\
  is_neg (binary_round_aux f64_prec f64_emax s m e l) = s.
Proof.
  intros Hm. unfold binary_round_aux.
  pose proof (shr_fexp_nonneg m e l Hm) as H1.
  destruct (shr_fexp f64_prec f64_emax m e l) as [r e']. simpl in H1.
  assert (0 <= round_nearest_even (shr_m r) (loc_of_shr_record r)) as H2
    by (pose proof (round_ne_bounds r); lia).
  pose proof (shr_fexp_nonneg _ e' loc_Exact H2) as H3.
  destruct (shr_fexp f64_prec f64_emax _ e' loc_Exact) as [r'' e'']. simpl in H3.
  destruct (shr_m r''); [done| |lia]. by destruct (IntDef.Z.leb _ _).
Qed.

Lemma shl_align_spec m e e' :
  let '(m', e'') := shl_align m e e' in
  e'' = Z.min e e' /\ Z.pos m' = Z.pos m * 2 ^ (e - e'').
Proof.
  unfold shl_align. change (IntDef.Z.sub e' e) with (e' - e).
  destruct (e' - e) as [|p|p] eqn:E.
  - split; [lia|]. by rewrite Z.sub_diag, Z.mul_1_r.
  - split; [lia|]. by rewrite Z.sub_diag, Z.mul_1_r.
  - split; [lia|]. replace (e - e') with (Z.pos p) by lia.
    clear. revert m. induction p as [|p IH] using Pos.peano_ind; intros m.
    + simpl. lia.
    + rewrite Pos.iter_succ, Pos2Z.inj_succ, Z.pow_succ_r by lia. specialize (IH m). lia.
Qed.

Lemma round_in_pow k s m e :
  emin f64_prec f64_emax <= k <= f64_emax - f64_prec -> bnd k (Z.pos m) e ->
  in_pow k (binary_round f64_prec f64_emax s m e) /\
  is_neg (binary_round f64_prec f64_emax s m e) = s.
Proof.
  intros Hk (Hm & He & Hle). unfold binary_round.
  pose proof (shl_align_spec m e
    (fexp f64_prec f64_emax (IntDef.Z.add (Z.pos (digits2_pos m)) e))) as H.
  destruct (shl_align m e _) as [m' e'']. destruct H as [He'' Hm'].
  apply round_bnd; [done|]. split; [lia|]. split; [lia|]. rewrite Hm'.
  replace (k - e'') with ((k - e) + (e - e'')) by lia. rewrite Z.pow_add_r by lia. nia.
Qed.

Lemma f64_of_Z_in_pow n : in_u64 n -> in_pow 64 (f64_of_Z n) /\ is_neg (f64_of_Z n) = false.
Proof.
  intros Hn. destruct n as [|p|p]; [done| |ulia].
  apply round_in_pow; [by vm_compute|]. split; [lia|]. split; [lia|]. ulia.
Qed.

(** Values that round to something other than zero. *)
Definition lbnd (m e : Z) : Prop :=
  1 <= m /\ (e <= emin f64_prec f64_emax -> 2 ^ (emin f64_prec f64_emax - e) <= m).

Lemma shr_fexp_lbnd m e :
  lbnd m e ->
  let '(r, e') := shr_fexp f64_prec f64_emax m e loc_Exact in lbnd (shr_m r) e'.
Proof.
  intros [Hm Hl]. unfold shr_fexp, shr, shr_record_of_loc, fexp.
  change IntDef.Z.add with Z.add. change IntDef.Z.sub with Z.sub. change IntDef.Z.max with Z.max.
  destruct m as [|m|m]; try lia. simpl Zdigits2.
  pose proof (digits2_pos_bound m) as [Hd _].
  set (d := Z.pos (digits2_pos m)) in *. set (mn := emin f64_prec f64_emax) in *.
  destruct (Z.max (d + e - f64_prec) mn - e)%Z as [|p|p] eqn:Hn; [done| |done].
  rewrite (proj1 (iter_shr_spec p {| shr_m := Z.pos m; shr_r := false; shr_s := false |} (Pos2Z.is_nonneg m))).
  simpl shr_m. assert (2 ^ Z.pos p <= Z.pos m) as Hp.
  { destruct (Z.max_spec (d + e - f64_prec) mn) as [[? Hx]|[? Hx]]; rewrite Hx in Hn.
    - replace (Z.pos p) with (mn - e) by lia. apply Hl. lia.
    - transitivity (2 ^ (d - 1)); [|done]. apply Z.pow_le_mono_r; [lia|].
      unfold f64_prec in *. lia. }
  assert (1 <= Z.pos m / 2 ^ Z.pos p) by (apply Z.div_le_lower_bound; lia).
  split; [done|]. intros He. change (2 ^ (mn - (e + Z.pos p)) <= Z.pos m / 2 ^ Z.pos p).
  replace (mn - (e + Z.pos p)) with 0 by lia. done.
Qed.

Definition is_zero (x : f64) : bool := match x with S754_zero _ => true | _ => false end.

Lemma round_nonzero s m e :
  lbnd (Z.pos m) e -> is_zero (binary_round f64_prec f64_emax s m e) = false.
Proof.
  intros [_ Hl]. unfold binary_round.
  pose proof (shl_align_spec m e
    (fexp f64_prec f64_emax (IntDef.Z.add (Z.pos (digits2_pos m)) e))) as H.
  destruct (shl_align m e _) as [m' e0]. destruct H as [He0 Hm'].
  assert (lbnd (Z.pos m') e0) as H0.
  { split; [lia|]. intros He. rewrite Hm'. destruct (decide (e <= emin f64_prec f64_emax)).
    - replace (emin f64_prec f64_emax - e0) with ((emin f64_prec f64_emax - e) + (e - e0)) by lia.
      rewrite Z.pow_add_r by lia. specialize (Hl ltac:(lia)). nia.
    - transitivity (2 ^ (e - e0)); [apply Z.pow_le_mono_r; lia|].
      assert (0 < 2 ^ (e - e0)) by lia. nia. }
  clear Hl He0 Hm'. unfold binary_round_aux.
  pose proof (shr_fexp_lbnd _ _ H0) as H1.
  destruct (shr_fexp f64_prec f64_emax _ e0 loc_Exact) as [r e'].
  assert (lbnd (round_nearest_even (shr_m r) (loc_of_shr_record r)) e') as H2.
  { pose proof (round_ne_bounds r). destruct H1 as [H1 H1']. split; [lia|].
    intros He. specialize (H1' He). lia. }
  pose proof (shr_fexp_lbnd _ _ H2) as H3.
  destruct (shr_fexp f64_prec f64_emax _ e' loc_Exact) as [r'' e'']. destruct H3 as [H3 _].
  destruct (shr_m r''); [lia| |lia]. by destruct (IntDef.Z.leb _ _).
Qed.

Lemma fdiv_not_nan x y :
  is_nan x = false -> is_finite y = true -> is_zero y = false ->
  is_nan (fdiv x y) = false /\ is_neg (fdiv x y) = xorb (is_neg x) (is_neg y).
Proof.
  intros Hx Hy Hz. destruct x as [s|s| |s m e], y as [t|t| |t n f]; try done.
  unfold fdiv, SFdiv. destruct (SFdiv_core_binary _ _ _ _ _ _) as [[q e'] l] eqn:E.
  apply round_aux_not_nan. unfold SFdiv_core_binary in E.
  destruct (IntDef.Z.div_eucl _ (Z.pos n)) as [q' r] eqn:Ediv. injection E as <- _ _.
  match type of Ediv with IntDef.Z.div_eucl ?a ?b = _ =>
    assert (q' = a / b) as -> by (unfold Z.div; change Z.div_eucl with IntDef.Z.div_eucl; by rewrite Ediv);
    apply Z.div_pos; [|lia] end.
  destruct (IntDef.Z.sub _ _); [lia| |lia]. apply Z.shiftl_nonneg. lia.
Qed.

(** [1 + x] for a double [x >= 0] of a [u64]. *)
Lemma fadd_one_spec x :
  in_pow 64 x -> is_neg x = false ->
  is_finite (fadd fone x) = true /\ is_zero (fadd fone x) = false /\ is_neg (fadd fone x) = false.
Proof.
  intros Hx Hn. destruct x as [s| | |s m e]; [done|done|done|]. simpl in Hn. subst s.
  change (fadd fone (S754_finite false m e)) with
    (let ez := Z.min (-52) e in
     binary_normalize f64_prec f64_emax
       (Z.add (Z.pos (shl_align 4503599627370496 (-52) ez).1) (Z.pos (shl_align m e ez).1)) ez false).
  cbv zeta. set (ez := Z.min (-52) e).
  pose proof (shl_align_spec 4503599627370496 (-52) ez) as H1.
  pose proof (shl_align_spec m e ez) as H2.
  destruct (shl_align 4503599627370496 (-52) ez) as [m1 e1].
  destruct (shl_align m e ez) as [m2 e2]. cbn [fst].
  destruct H1 as [-> H1], H2 as [-> H2], Hx as (_ & He & Hx).
  replace (Z.min (-52) ez) with ez in H1 by lia. replace (Z.min e ez) with ez in H2 by lia.
  assert (2 ^ 52 = Z.pos 4503599627370496) as HK by reflexivity. rewrite <- HK in H1.
  rewrite <- Z.pow_add_r in H1 by lia. replace (52 + (-52 - ez)) with (0 - ez) in H1 by lia.
  change (Z.pos m1 + Z.pos m2) with (Z.pos (m1 + m2)).
  change (binary_normalize f64_prec f64_emax (Z.pos (m1 + m2)) ez false)
    with (binary_round f64_prec f64_emax false (m1 + m2) ez).
  assert (bnd 65 (Z.pos (m1 + m2)) ez) as Hb.
  { split; [lia|]. split; [lia|]. rewrite Pos2Z.inj_add, H1, H2.
    assert (Z.pos m * 2 ^ (e - ez) <= 2 ^ (64 - ez)).
    { replace (64 - ez) with ((64 - e) + (e - ez)) by lia. rewrite Z.pow_add_r by lia.
      assert (0 < 2 ^ (e - ez)) by lia. nia. }
    assert (2 ^ (0 - ez) <= 2 ^ (64 - ez)) by (apply Z.pow_le_mono_r; lia).
    replace (65 - ez) with (Z.succ (64 - ez)) by lia. rewrite Z.pow_succ_r by lia. lia. }
  destruct (round_in_pow 65 false (m1 + m2) ez ltac:(by vm_compute) Hb) as [Hp Hs].
  split; [by eapply in_pow_finite|]. split; [|done].
  apply round_nonzero. split; [lia|]. intros Hmin. rewrite Pos2Z.inj_add, H1.
  transitivity (2 ^ (0 - ez)); [apply Z.pow_le_mono_r; [lia|]|lia].
  assert (emin f64_prec f64_emax <= 0) by (by vm_compute). lia.
Qed.

Lemma fadd_finite_not_nan x y :
  is_finite x = true -> is_nan y = false -> is_nan (fadd x y) = false.
Proof.
  intros Hx Hy. destruct x as [s| | |s m e], y as [t|t| |t n f]; try done.
  - by destruct s, t.
  - unfold fadd, SFadd. set (z := IntDef.Z.add _ _). clearbody z.
    destruct z as [|p|p]; [done| |]; cbn [binary_normalize]; unfold binary_round;
      destruct (shl_align p _ _); by apply round_aux_not_nan.
Qed.

(** ** [<=] is a total preorder on the numbers *)

Lemma Pos_cmp_le_trans a b c :
  (a <= b)%positive -> (b <= c)%positive -> Pos.compare a c <> Gt.
Proof. intros. apply Pos.le_lteq. lia. Qed.

Lemma fle_trans a b c : fle a b = true -> fle b c = true -> fle a c = true.
Proof.
  unfold fle, SFleb.
  destruct a as [[]|[]| |[] ma ea], b as [[]|[]| |[] mb eb], c as [[]|[]| |[] mc ec];
    try done; unfold SFcompare; change IntDef.Z.compare with Z.compare;
    change (PosDef.Pos.compare_cont Eq) with Pos.compare;
    destruct (Z.compare_spec ea eb), (Z.compare_spec eb ec), (Z.compare_spec ea ec);
    try done; try lia;
    destruct (Pos.compare_spec ma mb), (Pos.compare_spec mb mc), (Pos.compare_spec ma mc);
    try done; lia.
Qed.

Lemma fle_total a b :
  is_nan a = false -> is_nan b = false -> partial_cmp a b <> None.
Proof. by destruct a as [[]|[]| |[]], b as [[]|[]| |[]]. Qed.

(** ** The library functions without a prescribed result

    [powf] and [log2] come from the platform's libm; what the program relies
    on is IEEE-754's: [pow] of a base that is not negative, at a number, is a
    number. *)
Class Libm := {
  powf : f64 -> f64 -> f64;
  log2 : f64 -> f64;
  powf_not_nan x y :
    is_nan x = false -> is_neg x = false -> is_nan y = false -> is_nan (powf x y) = false;
}.

(** ** Doubles strictly between 0 and 1 *)

(** The mantissa of a double fits 53 bits. *)
Definition mantissa_ok (x : f64) : Prop :=
  match x with S754_finite _ m _ => Z.pos m < 2 ^ 53 | _ => True end.

Lemma in_unit_of_bounds x :
  mantissa_ok x -> flt fzero x = true -> flt x fone = true -> in_unit x.
Proof.
  change fone with (S754_finite false 4503599627370496 (-52)).
  destruct x as [s|[]| |[] m e]; intros Hm H0 H; try discriminate H0; try discriminate H;
    try (destruct s; discriminate H0).
  split; [|reflexivity]. clear H0. unfold flt, SFltb, SFcompare in H. cbn [mantissa_ok] in Hm.
  change IntDef.Z.compare with Z.compare in H.
  assert (2 ^ 52 = Z.pos 4503599627370496) as HK by reflexivity.
  revert HK H. generalize 4503599627370496%positive as K. intros K HK H.
  destruct (Z.compare_spec e (-52)) as [->|Hlt|Hgt]; [| |discriminate].
  - change (PosDef.Pos.compare_cont Eq m K) with (Pos.compare m K) in H.
    split; [apply Pos2Z.is_nonneg|]. split; [done|].
    change (0 - -52) with 52. rewrite HK.
    destruct (Pos.compare_spec m K) as [->| |]; [reflexivity| |discriminate].
    by apply Pos2Z.pos_le_pos, Pos.lt_le_incl.
  - pose proof (Z.pow_le_mono_r 2 53 (0 - e) ltac:(lia) ltac:(lia)) as Hp.
    split; [apply Pos2Z.is_nonneg|]. split; [lia|].
    apply Z.lt_le_incl. eapply Z.lt_le_trans; [exact Hm | exact Hp].
Qed.

Lemma in_unit_fle_zero x : in_unit x -> fle fzero x = true.
Proof. intros [Hx Hn]. destruct x as [s| | |s n f]; simpl in *; try done. by subst. Qed.

(** A negative number is below everything in the unit interval. *)
Lemma neg_lt_unit m e x : in_unit x -> flt (S754_finite true m e) x = true.
Proof. intros [Hx Hn]. destruct x as [s| | |s n f]; simpl in *; try done. by subst. Qed.
