(* ===== verification/Ram.v ===== *)
(** The RAM model of [engine/ram.rs]: the price of a torrent, the peer limit a
    budget affords, the torrent cap and the size bias of the selection
    tie-break. *)

From S2P Require Import Prelude Float64.

Definition PER_TORRENT_RAM_BASE : Z := 256 * 1024.
Definition PER_PIECE_RAM : Z := 64.
Definition PER_PEER_RAM : Z := 48 * 1024.

(** [SYSTEM_RAM_FRACTION_HARD_CAP] of [config.rs]. *)
Definition SYSTEM_RAM_FRACTION_HARD_CAP : f64 := f64_lit 8 10.

Definition torrent_ram (piece_count peer_limit : Z) : Z :=
  sat_add64
    (sat_add64 PER_TORRENT_RAM_BASE (sat_mul64 PER_PIECE_RAM (Z.max piece_count 1)))
    (sat_mul64 PER_PEER_RAM peer_limit).

Definition peer_limit_for_budget (budget : Z) : Z :=
  if 4 * 1024 * 1024 * 1024 <=? budget then 20
  else if 1024 * 1024 * 1024 <=? budget then 12
  else if 256 * 1024 * 1024 <=? budget then 8
  else 4.

Definition typical_torrent_ram (budget : Z) : Z :=
  torrent_ram 1024 (peer_limit_for_budget budget).

Definition size_bias_for_ratio `{Libm} (ram_budget disk_limit : Z) : f64 :=
  if disk_limit =? 0 then fzero
  else
    let gib_per_tib := fmul (fdiv (f64_of_Z ram_budget) (f64_of_Z disk_limit)) (f64_of_Z 1024) in
    if negb (is_finite gib_per_tib) || fle gib_per_tib fzero then fzero
    else
      let rich_log := f64_of_Z 3 in
      let starved_log := f64_of_Z (-2) in
      let log := log2 gib_per_tib in
      if fle rich_log log then fneg fone
      else if fle log starved_log then fone
      else fsub fone
             (fdiv (fmul (f64_of_Z 2) (fsub log starved_log)) (fsub rich_log starved_log)).

(** [(budget, hard_cap, max_torrents)]. *)
Definition max_torrents_for_budget (system_total configured_max_ram : Z) : Z * Z * Z :=
  if system_total =? 0 then
    let max :=
      if configured_max_ram =? 0 then USIZE_MAX
      else configured_max_ram / Z.max (typical_torrent_ram configured_max_ram) 1 in
    (configured_max_ram, 0, max)
  else
    let hard_cap := f64_to_u64 (fmul (f64_of_Z system_total) SYSTEM_RAM_FRACTION_HARD_CAP) in
    let budget :=
      if 0 <? configured_max_ram then Z.min configured_max_ram hard_cap else hard_cap in
    (budget, hard_cap, budget / Z.max (typical_torrent_ram budget) 1).

Lemma torrent_ram_pos pc pl : 0 <= pl -> PER_TORRENT_RAM_BASE <= torrent_ram pc pl.
Proof. unfold torrent_ram, PER_TORRENT_RAM_BASE, PER_PIECE_RAM, PER_PEER_RAM. ulia. Qed.

Lemma torrent_ram_nonneg pc pl : 0 <= pl -> 0 <= torrent_ram pc pl.
Proof. intros H. pose proof (torrent_ram_pos pc pl H). unfold PER_TORRENT_RAM_BASE in *. lia. Qed.

Lemma torrent_ram_mono pc pc' pl : pc <= pc' -> torrent_ram pc pl <= torrent_ram pc' pl.
Proof. unfold torrent_ram, PER_TORRENT_RAM_BASE, PER_PIECE_RAM, PER_PEER_RAM. ulia. Qed.

(** For the [u32] piece counts and the peer limits of the engine nothing
    saturates. *)
Lemma torrent_ram_exact pc pl :
  in_u32 pc -> 0 <= pl <= 20 ->
  torrent_ram pc pl = 256 * 1024 + 64 * Z.max pc 1 + 48 * 1024 * pl.
Proof. unfold torrent_ram, PER_TORRENT_RAM_BASE, PER_PIECE_RAM, PER_PEER_RAM. ulia. Qed.

Lemma peer_limit_range budget : 4 <= peer_limit_for_budget budget <= 20.
Proof. unfold peer_limit_for_budget. repeat case_match; lia. Qed.

Lemma peer_limit_nonneg budget : 0 <= peer_limit_for_budget budget.
Proof. pose proof (peer_limit_range budget). lia. Qed.

#[export] Hint Resolve torrent_ram_nonneg peer_limit_nonneg : keepat.

(** The torrent cap never plans past the budget, and the budget never
    exceeds the hard cap nor the configured maximum: filling every slot with a
    typical torrent stays within the budget. *)
Theorem max_torrents_within_budget system_total configured_max_ram budget hard_cap max :
  0 < system_total -> 0 <= configured_max_ram ->
  max_torrents_for_budget system_total configured_max_ram = (budget, hard_cap, max) ->
  budget <= hard_cap /\
  (0 < configured_max_ram -> budget <= configured_max_ram) /\
  max * typical_torrent_ram budget <= budget < (max + 1) * typical_torrent_ram budget.
Proof.
  intros Hs Hc H. unfold max_torrents_for_budget in H.
  rewrite (proj2 (Z.eqb_neq system_total 0)) in H by lia.
  set (cap := f64_to_u64 _) in H. injection H as <- <- <-.
  set (b := if 0 <? configured_max_ram then _ else _).
  assert (b <= cap /\ (0 < configured_max_ram -> b <= configured_max_ram)) as [H1 H2].
  { subst b. destruct (Z.ltb_spec 0 configured_max_ram); lia. }
  split; [done|]. split; [done|].
  assert (PER_TORRENT_RAM_BASE <= typical_torrent_ram b)
    by (apply torrent_ram_pos, peer_limit_nonneg).
  unfold PER_TORRENT_RAM_BASE in *. rewrite Z.max_l by lia.
  pose proof (Z.div_mod b (typical_torrent_ram b) ltac:(lia)).
  pose proof (Z.mod_pos_bound b (typical_torrent_ram b) ltac:(lia)). lia.
Qed.

Lemma max_torrents_within_budget_witness :
  max_torrents_for_budget (512 * 1024 * 1024) 0 = (429496729, 429496729, 595) /\
  429496729 <= 429496729 /\
  (0 < 0 -> 429496729 <= 0) /\
  595 * typical_torrent_ram 429496729 <= 429496729
    < (595 + 1) * typical_torrent_ram 429496729.
Proof.
  split; [vm_compute; reflexivity|].
  apply (max_torrents_within_budget (512 * 1024 * 1024) 0); [lia|lia|vm_compute; reflexivity].
Defined.
