(* ===== verification/Selector.v ===== *)
(** Torrent selection, [selector.rs]: the ranking of candidates, the eviction
    score, the seed-scarcity gate of a swap and the choice of a storage
    location.  The ranking theorem rests on the score never being NaN, so that
    the comparator handed to the sort is a total preorder. *)

From S2P Require Import Prelude Float64 Ram.

Record Candidate := {
  cand_info_hash : string;
  cand_title : string;
  cand_size_bytes : Z;
  cand_piece_count : Z;
  cand_seeders : Z;
  cand_leechers : Z;
  cand_seeder_floor : Z;
}.

(** [Candidate::available]. *)
Definition available (c : Candidate) : bool := 1 <=? cand_seeders c.

Record Held := {
  held_info_hash : string;
  held_title : string;
  held_size_bytes : Z;
  held_piece_count : Z;
  held_seeders : Z;
}.

(** The field widths of a candidate. *)
Definition candidate_wf (c : Candidate) : Prop :=
  in_u64 (cand_size_bytes c) /\ in_u32 (cand_piece_count c) /\
  in_u32 (cand_seeders c) /\ in_u32 (cand_seeder_floor c).

Section Ranking.
Context `{Libm}.

Definition size_bias_score (c : Candidate) (size_bias : f64) (peer_limit : Z) : f64 :=
  let ram := f64_of_Z (Z.max (torrent_ram (cand_piece_count c) peer_limit) 1) in
  let ratio := fdiv (f64_of_Z (Z.max (cand_size_bytes c) 1)) ram in
  if flt fzero size_bias then powf ratio size_bias
  else fadd (fneg (f64_of_Z (cand_size_bytes c)))
            (fdiv ratio (fadd fone (f64_of_Z (cand_size_bytes c)))).

Definition eviction_score (c : Candidate) (size_bias : f64) (peer_limit : Z) : f64 :=
  if feq size_bias fzero then fneg (f64_of_Z (cand_seeders c))
  else size_bias_score c size_bias peer_limit.

(** The comparator of the ranking. *)
Definition rank_cmp (size_bias : f64) (peer_limit : Z) (a b : Candidate) : comparison :=
  match cand_seeders a ?= cand_seeders b with
  | Eq =>
      match partial_cmp (size_bias_score b size_bias peer_limit)
                        (size_bias_score a size_bias peer_limit) with
      | Some o => o
      | None => cand_size_bytes a ?= cand_size_bytes b
      end
  | ord => ord
  end.

Definition rank_candidates (candidates : list Candidate) (size_bias : f64)
    (peer_limit : Z) : list Candidate :=
  sort_by (rank_cmp size_bias peer_limit)
          (filter (fun c => available c = true) candidates).
End Ranking.

Definition selection_chance (aggressiveness : f64) (seeders seeder_floor : Z) : f64 :=
  let seeders := Z.max seeders 1 in
  let floor := Z.max seeder_floor 1 in
  let exponent := sat_sub seeders floor in
  let exponent := if exponent <=? I32_MAX then exponent else I32_MAX in
  powi aggressiveness exponent.

(** [sort_unstable] on integers. *)
Definition sort_u32 : list Z -> list Z := sort_by Z.compare.

Definition seeder_floor (seed_counts : list Z) : Z :=
  let seeded := filter (fun s => 0 < s) seed_counts in
  match seeded with
  | [] => 0
  | _ =>
      let sorted := sort_u32 seeded in
      let rank := Nat.div (length sorted + 9) 10 in
      nth (rank - 1) sorted 0
  end.

Definition meets_seed_margin (candidate_seeders : Z) (displaced : list Held)
    (min_seed_margin : Z) : bool :=
  match displaced with
  | [] => true
  | d :: ds =>
      let min_displaced := foldr (fun x m => Z.min (held_seeders x) m) (held_seeders d) ds in
      candidate_seeders <=? min_displaced - min_seed_margin
  end.

Record SwapDecision := {
  should_swap : bool;
  swap_chance : f64;
  swap_roll : f64;
  swap_reason : string;
}.

Definition REASON_SEED_SCARCITY_ROLL_FAILED : string :=
  "seed-scarcity roll failed; candidate already has enough seeders".

Definition seed_scarcity_blocked (d : SwapDecision) : bool :=
  String.eqb (swap_reason d) REASON_SEED_SCARCITY_ROLL_FAILED.

Definition evaluate_swap (candidate : Candidate) (displaced : list Held)
    (min_seed_margin : Z) (aggressiveness roll : f64) : SwapDecision :=
  if negb (available candidate) then
    {| should_swap := false; swap_chance := fzero; swap_roll := roll;
       swap_reason := "candidate has no live seed" |}
  else if negb (meets_seed_margin (cand_seeders candidate) displaced min_seed_margin) then
    {| should_swap := false; swap_chance := fzero; swap_roll := roll;
       swap_reason := "candidate does not beat displaced torrents by the required margin" |}
  else
    let chance :=
      selection_chance aggressiveness (cand_seeders candidate) (cand_seeder_floor candidate) in
    let swap := flt roll chance in
    {| should_swap := swap; swap_chance := chance; swap_roll := roll;
       swap_reason := if swap then "seed-scarcity roll succeeded"
                      else REASON_SEED_SCARCITY_ROLL_FAILED |}.

(** The index and free bytes of every location with room. *)
Definition eligible_locations (free need : list Z) : list (nat * Z) :=
  omap (fun '(i, (f, n)) => if n <=? f then Some (i, f) else None)
       (imap (fun i fn => (i, fn)) (zip free need)).

(** The weighted walk: subtract each weight until the target is negative. *)
Fixpoint pick_location (eligible : list (nat * Z)) (target : f64) : option nat :=
  match eligible with
  | [] => None
  | (i, f) :: rest =>
      let target := fsub target (f64_of_Z f) in
      if flt target fzero then Some i else pick_location rest target
  end.

Definition choose_location (free need : list Z) (roll : f64) : option nat :=
  let eligible := eligible_locations free need in
  match eligible with
  | [] => None
  | _ =>
      let total := foldl (fun acc p => fadd acc (f64_of_Z p.2)) fzero eligible in
      match pick_location eligible (fmul roll total) with
      | Some i => Some i
      | None => fst <$> last eligible
      end
  end.

(** ** Ranking *)

Section RankingSpec.
Context `{Libm}.
Variable size_bias : f64.
Variable peer_limit : Z.
Hypothesis bias_num : is_nan size_bias = false.
Hypothesis limit_ok : 0 <= peer_limit.

Lemma size_bias_score_num c :
  candidate_wf c -> is_nan (size_bias_score c size_bias peer_limit) = false.
Proof.
  intros (Hs & Hp & _). unfold size_bias_score.
  set (r := Z.max (torrent_ram _ _) 1).
  assert (1 <= r <= U64_MAX) as Hr by (unfold r, torrent_ram; ulia).
  destruct (f64_of_Z_in_pow r) as [Hr1 Hr2]; [ulia|].
  destruct (f64_of_Z_in_pow (Z.max (cand_size_bytes c) 1)) as [Hz1 Hz2]; [ulia|].
  destruct (f64_of_Z_in_pow (cand_size_bytes c) Hs) as [Hc1 Hc2].
  assert (is_zero (f64_of_Z r) = false) as Hr0.
  { destruct r as [|p|p]; [lia| |lia]. apply round_nonzero. split; [lia|].
    intros He. by vm_compute in He. }
  destruct (fdiv_not_nan (f64_of_Z (Z.max (cand_size_bytes c) 1)) (f64_of_Z r)) as [Hn Hg];
    [by eapply finite_not_nan, in_pow_finite|by eapply in_pow_finite|done|].
  destruct (flt fzero size_bias).
  - apply powf_not_nan; [done| |done]. by rewrite Hg, Hz2, Hr2.
  - destruct (fadd_one_spec _ Hc1 Hc2) as (Hf & Hz & _).
    apply fadd_finite_not_nan.
    + apply in_pow_finite in Hc1. by destruct (f64_of_Z (cand_size_bytes c)).
    + by apply fdiv_not_nan.
Qed.

(** Who is ranked before whom: fewer seeders first, then the higher score. *)
Definition rank_before (a b : Candidate) : Prop :=
  cand_seeders a < cand_seeders b \/
  cand_seeders a = cand_seeders b /\
  fle (size_bias_score b size_bias peer_limit) (size_bias_score a size_bias peer_limit) = true.

Lemma rank_before_trans a b c : rank_before a b -> rank_before b c -> rank_before a c.
Proof.
  intros [?|[? Hab]] [?|[? Hbc]]; [left; lia|left; lia|left; lia|].
  right. split; [lia|]. eapply fle_trans; eassumption.
Qed.

Lemma rank_cmp_gt a b :
  candidate_wf a -> candidate_wf b -> rank_cmp size_bias peer_limit a b = Gt -> rank_before b a.
Proof.
  intros Ha Hb. unfold rank_cmp, rank_before.
  destruct (Z.compare_spec (cand_seeders a) (cand_seeders b)) as [He| |]; [|done|by left].
  pose proof (fle_total _ _ (size_bias_score_num b Hb) (size_bias_score_num a Ha)) as Hne.
  pose proof (partial_cmp_antisym (size_bias_score b size_bias peer_limit)
                                  (size_bias_score a size_bias peer_limit)) as Hanti.
  unfold fle, SFleb. change SFcompare with partial_cmp. rewrite Hanti.
  destruct (partial_cmp _ _) as [[]|]; simpl; try done. intros _. right. done.
Qed.

Lemma rank_cmp_le a b :
  candidate_wf a -> candidate_wf b -> rank_cmp size_bias peer_limit a b <> Gt -> rank_before a b.
Proof.
  intros Ha Hb. unfold rank_cmp, rank_before.
  destruct (Z.compare_spec (cand_seeders a) (cand_seeders b)) as [He| |]; [|by left|done].
  pose proof (fle_total _ _ (size_bias_score_num b Hb) (size_bias_score_num a Ha)) as Hne.
  unfold fle, SFleb. change SFcompare with partial_cmp.
  destruct (partial_cmp _ _) as [[]|]; simpl; try done; intros _; right; done.
Qed.
End RankingSpec.


(** C25: the ranking keeps exactly the candidates with a live seed and orders
    them by urgency: a candidate with fewer seeders always comes first, and
    within a seeder count the scores descend.  In particular the NaN fallback
    of the comparator is never taken, so the sort's order is total. *)
Theorem rank_candidates_sorted `{Libm} candidates size_bias peer_limit :
  Forall candidate_wf candidates -> is_nan size_bias = false -> 0 <= peer_limit ->
  rank_candidates candidates size_bias peer_limit ≡ₚ
    filter (fun c => available c = true) candidates /\
  StronglySorted (rank_before size_bias peer_limit)
    (rank_candidates candidates size_bias peer_limit).
Proof.
  intros Hwf Hb Hl. split; [apply sort_by_perm|].
  apply (sort_by_sorted _ candidate_wf).
  - apply rank_before_trans.
  - intros a b. by apply rank_cmp_gt.
  - intros a b. by apply rank_cmp_le.
  - apply Forall_forall. intros c [_ Hc]%list_elem_of_filter.
    by apply (proj1 (Forall_forall _ _) Hwf).
Qed.

(** ** The gate of a swap *)

Lemma min_seeders_spec d ds k :
  k <= foldr (fun x m => Z.min (held_seeders x) m) (held_seeders d) ds <->
  forall h, h ∈ d :: ds -> k <= held_seeders h.
Proof.
  induction ds as [|x ds IH]; simpl.
  - split; [intros ? h ->%list_elem_of_singleton; done | intros Hh; apply Hh; left].
  - rewrite Z.min_glb_iff, IH. set_solver.
Qed.

(** The margin test compares with every displaced torrent, and an empty
    displacement always passes. *)
Lemma meets_seed_margin_spec s displaced margin :
  meets_seed_margin s displaced margin = true <->
  forall h, h ∈ displaced -> s <= held_seeders h - margin.
Proof.
  destruct displaced as [|d ds]; simpl; [set_solver|].
  rewrite Z.leb_le. rewrite <- Z.le_add_le_sub_r, min_seeders_spec.
  split; intros Hh h Hin; specialize (Hh h Hin); lia.
Qed.

Lemma selection_chance_unit a s f :
  in_unit a -> in_unit (selection_chance a s f).
Proof.
  intros Ha. unfold selection_chance. apply powi_unit; [done|].
  destruct (sat_sub _ _ <=? I32_MAX); [apply sat_sub_nonneg|by vm_compute].
Qed.

Lemma selection_chance_at_floor a s f :
  Z.max s 1 <= Z.max f 1 -> selection_chance a s f = fone.
Proof.
  intros Hs. unfold selection_chance.
  replace (sat_sub (Z.max s 1) (Z.max f 1)) with 0 by ulia. done.
Qed.

(** For every aggressiveness a validated configuration admits, and every
    seeder count and floor a tracker may report, the selection chance is a
    finite number from 0 to 1, and it is exactly 1 at or below the floor (an
    absent floor counting as 1). *)
Theorem selection_chance_bounds aggressiveness seeders floor :
  mantissa_ok aggressiveness ->
  flt fzero aggressiveness = true -> flt aggressiveness fone = true ->
  let chance := selection_chance aggressiveness seeders floor in
  is_finite chance = true /\ in_unit chance /\
  (Z.max seeders 1 <= Z.max floor 1 -> chance = fone).
Proof.
  intros Hm H0 H1. cbv zeta.
  pose proof (selection_chance_unit aggressiveness seeders floor
                (in_unit_of_bounds _ Hm H0 H1)) as Hu.
  split; [by apply in_unit_finite|]. split; [done|]. apply selection_chance_at_floor.
Qed.

(** [evaluate_swap] proceeds exactly for a candidate with a live seed that
    beats every displaced torrent by the margin and whose roll is below the
    chance, and [seed_scarcity_blocked] (the one refusal the caller retries in
    free space) holds exactly when only the roll failed. *)
Theorem evaluate_swap_spec c displaced margin a roll :
  let d := evaluate_swap c displaced margin a roll in
  let chance := selection_chance a (cand_seeders c) (cand_seeder_floor c) in
  let beats := forall h, h ∈ displaced -> cand_seeders c + margin <= held_seeders h in
  (should_swap d = true <-> 1 <= cand_seeders c /\ beats /\ flt roll chance = true) /\
  (seed_scarcity_blocked d = true <-> 1 <= cand_seeders c /\ beats /\ flt roll chance = false) /\
  swap_roll d = roll.
Proof.
  cbv zeta. unfold evaluate_swap, available.
  pose proof (meets_seed_margin_spec (cand_seeders c) displaced margin) as Hmargin.
  assert ((forall h, h ∈ displaced -> cand_seeders c + margin <= held_seeders h) <->
          meets_seed_margin (cand_seeders c) displaced margin = true) as ->.
  { rewrite Hmargin. split; intros Hh h Hin; specialize (Hh h Hin); lia. }
  clear Hmargin.
  destruct (Z.leb_spec 1 (cand_seeders c)); simpl; [|repeat split; intros; try done; lia].
  destruct (meets_seed_margin _ _ _); simpl; [|repeat split; intros; naive_solver].
  destruct (flt roll _) eqn:E; simpl; repeat split; intros; naive_solver.
Qed.

(** A roll below zero (the quarantine re-probe's) is always admitted when
    nothing is displaced. *)
Lemma negative_roll_admits c a m e margin :
  in_unit a -> 1 <= cand_seeders c ->
  should_swap (evaluate_swap c [] margin a (S754_finite true m e)) = true.
Proof.
  intros Ha Hs. unfold evaluate_swap, available.
  rewrite (proj2 (Z.leb_le 1 _) Hs). simpl. by apply neg_lt_unit, selection_chance_unit.
Qed.

(** ** The seeder floor *)

(** How many elements of [l] satisfy a test. *)
Definition count {A} (p : A -> bool) (l : list A) : nat := length (filter (fun x => p x = true) l).

Lemma count_perm {A} (p : A -> bool) l l' : l ≡ₚ l' -> count p l = count p l'.
Proof. intros Hl. unfold count. by rewrite Hl. Qed.

Lemma count_app {A} (p : A -> bool) l l' : count p (l ++ l') = (count p l + count p l')%nat.
Proof. unfold count. by rewrite filter_app, length_app. Qed.

Lemma count_none {A} (p : A -> bool) l : (forall x, x ∈ l -> p x = false) -> count p l = 0%nat.
Proof.
  intros Hl. unfold count. apply length_zero_iff_nil.
  destruct (filter _ l) as [|x f] eqn:E; [done|]. exfalso.
  assert (x ∈ filter (fun x => p x = true) l) as Hx by (rewrite E; left).
  apply list_elem_of_filter in Hx as [Hp Hin]. rewrite (Hl x Hin) in Hp. done.
Qed.

Lemma count_all {A} (p : A -> bool) l : (forall x, x ∈ l -> p x = true) -> count p l = length l.
Proof.
  unfold count. induction l as [|x l IH]; intros Hl; [done|].
  rewrite filter_cons_True by (apply Hl; left). simpl. f_equal. apply IH.
  intros y Hy. apply Hl. by right.
Qed.

Lemma count_le {A} (p : A -> bool) l : (count p l <= length l)%nat.
Proof. apply length_filter. Qed.

(** In a sorted list, position [i] has at most [i] smaller elements and at
    least [i + 1] elements that are not larger. *)
Lemma sorted_rank (l : list Z) i v :
  StronglySorted Z.le l -> l !! i = Some v ->
  (count (fun x => (x <? v)%Z) l <= i)%nat /\ (i < count (fun x => (x <=? v)%Z) l)%nat.
Proof.
  intros Hs Hi. pose proof (take_drop_middle l i v Hi) as Hl.
  assert (length (take i l) = i) as Hlen
    by (apply lookup_lt_Some in Hi; rewrite length_take; lia).
  rewrite <- Hl in Hs. apply StronglySorted_app in Hs as (Hlt & _ & Hrest).
  apply StronglySorted_inv in Hrest as [_ Hge]. rewrite Forall_forall in Hge.
  rewrite <- Hl, !count_app. split.
  - rewrite (count_none _ (v :: drop (S i) l)).
    + pose proof (count_le (fun x => x <? v) (take i l)). lia.
    + intros x [->|Hx]%elem_of_cons; [apply Z.ltb_irrefl|]. apply Z.ltb_ge. by apply Hge.
  - rewrite (count_all _ (take i l)).
    + unfold count at 1. rewrite filter_cons_True by (apply Z.leb_le; lia). simpl. lia.
    + intros x Hx. apply Z.leb_le. apply Hlt; [done|left].
Qed.

Lemma sort_u32_sorted l : StronglySorted Z.le (sort_u32 l).
Proof.
  apply (sort_by_sorted _ (fun _ => True)).
  - lia.
  - intros x y _ _ Hg. apply Z.compare_gt_iff in Hg. lia.
  - intros x y _ _ Hg. by apply Z.compare_le_iff.
  - by apply Forall_true.
Qed.

(** The seeder floor is the nearest-rank tenth percentile of the positive
    seeder counts: 0 when nothing is seeded, otherwise one of those counts such
    that fewer than [ceil(n/10)] of the [n] counts are below it and at least
    [ceil(n/10)] are not above it. *)
Theorem seeder_floor_p10 seed_counts :
  let seeded := filter (fun s => 0 < s) seed_counts in
  let rank := Nat.div (length seeded + 9) 10 in
  let v := seeder_floor seed_counts in
  (seeded = [] -> v = 0) /\
  (seeded <> [] ->
     v ∈ seed_counts /\ 0 < v /\
     (count (fun x => (x <? v)%Z) seeded < rank)%nat /\
     (rank <= count (fun x => (x <=? v)%Z) seeded)%nat).
Proof.
  cbv zeta. unfold seeder_floor. split; [by intros ->|].
  set (seeded := filter _ seed_counts). intros Hne.
  assert (length (sort_u32 seeded) = length seeded) as Hlen
    by (apply Permutation_length, sort_by_perm).
  rewrite Hlen. set (rank := Nat.div (length seeded + 9) 10).
  assert (1 <= rank <= length seeded)%nat as Hr.
  { assert (1 <= length seeded)%nat by (destruct seeded; [done|simpl; lia]).
    unfold rank. split; [apply Nat.div_le_lower_bound; lia|].
    apply Nat.Div0.div_le_upper_bound; lia. }
  destruct (lookup_lt_is_Some_2 (sort_u32 seeded) (rank - 1)) as [v Hv]; [lia|].
  replace (match seeded with [] => 0 | _ :: _ => nth (rank - 1) (sort_u32 seeded) 0 end) with v.
  2: { destruct seeded; [done|]. symmetry. by apply nth_lookup_Some. }
  assert (v ∈ seeded) as Hin.
  { rewrite <- (sort_by_perm Z.compare seeded). by eapply list_elem_of_lookup_2. }
  destruct (sorted_rank _ _ _ (sort_u32_sorted seeded) Hv) as [Hlo Hhi].
  rewrite (count_perm _ _ _ (sort_by_perm Z.compare seeded)) in Hlo.
  rewrite (count_perm _ _ _ (sort_by_perm Z.compare seeded)) in Hhi.
  apply list_elem_of_filter in Hin as [Hpos Hin]. repeat split; [done|done|lia|lia].
Qed.

(** ** The storage location *)

Lemma elem_of_eligible free need i f :
  (i, f) ∈ eligible_locations free need <->
  exists n, free !! i = Some f /\ need !! i = Some n /\ n <= f.
Proof.
  unfold eligible_locations. rewrite list_elem_of_omap. split.
  - intros ([j [f' n]] & Hin & Hs). apply elem_of_lookup_imap in Hin as (k & [f'' n'] & [= -> -> ->] & Hz).
    apply lookup_zip_with_Some in Hz as (a & b & [= -> ->] & Ha & Hb).
    destruct (Z.leb_spec b a); [|done]. injection Hs as -> ->. eauto.
  - intros (n & Hf & Hn & Hle). exists (i, (f, n)). split.
    + apply elem_of_lookup_imap. exists i, (f, n). split; [done|].
      apply lookup_zip_with_Some. eauto.
    + by rewrite (proj2 (Z.leb_le n f) Hle).
Qed.

Lemma pick_location_elem eligible target i :
  pick_location eligible target = Some i -> exists f, (i, f) ∈ eligible.
Proof.
  revert target. induction eligible as [|[j f] l IH]; intros target; simpl; [done|].
  destruct (flt _ fzero); [intros [= ->]; exists f; left|].
  intros (f' & Hf')%IH. exists f'. by right.
Qed.

Lemma choose_location_room free need roll i :
  choose_location free need roll = Some i ->
  exists f n, free !! i = Some f /\ need !! i = Some n /\ n <= f.
Proof.
  unfold choose_location. pose proof (elem_of_eligible free need) as Hel.
  destruct (eligible_locations free need) as [|p0 l0] eqn:E; [done|]. intros Hi.
  assert (exists f, (i, f) ∈ p0 :: l0) as [f Hf].
  { destruct (pick_location _ _) eqn:Hp; [injection Hi as ->; by eapply pick_location_elem|].
    apply fmap_Some in Hi as ([j f] & Hlast & ->). exists f. by apply last_Some_elem_of in Hlast. }
  apply Hel in Hf as (n & ? & ? & ?). eauto.
Qed.

(** Whatever the roll, [choose_location] picks a location that has room for
    its need, and refuses only when no location has. *)
Theorem choose_location_sound_complete free need roll :
  (forall i, choose_location free need roll = Some i ->
     exists f n, free !! i = Some f /\ need !! i = Some n /\ n <= f) /\
  (choose_location free need roll = None ->
     forall i f n, free !! i = Some f -> need !! i = Some n -> f < n).
Proof.
  split; [intros i; apply choose_location_room|].
  unfold choose_location. pose proof (elem_of_eligible free need) as Hel.
  destruct (eligible_locations free need) as [|p0 l0] eqn:E.
  - intros _ i f n Hf Hn. destruct (decide (n <= f)); [|lia].
    assert ((i, f) ∈ ([] : list (nat * Z))) as Hin by (apply Hel; eauto). by apply elem_of_nil in Hin.
  - destruct (pick_location _ _); [done|]. intros Hn%fmap_None. by apply last_None in Hn.
Qed.

(** ** Witnesses *)

(** A libm for the witnesses; its [powf] is the identity on its base. *)
Definition witness_libm : Libm :=
  {| powf := fun x _ => x; log2 := fun x => x; powf_not_nan := fun x y H _ _ => H |}.

Definition witness_candidate (seeders size : Z) : Candidate :=
  {| cand_info_hash := ""; cand_title := "t"; cand_size_bytes := size; cand_piece_count := 3;
     cand_seeders := seeders; cand_leechers := 0; cand_seeder_floor := 2 |}.

Lemma rank_candidates_sorted_witness :
  let l := [witness_candidate 5 10; witness_candidate 1 100; witness_candidate 0 1;
            witness_candidate 1 5] in
  @rank_candidates witness_libm l fzero 4 ≡ₚ filter (fun c => available c = true) l /\
  StronglySorted (@rank_before witness_libm fzero 4) (@rank_candidates witness_libm l fzero 4).
Proof.
  apply rank_candidates_sorted; [|reflexivity|lia].
  repeat constructor; vm_compute; congruence.
Defined.

Lemma selection_chance_bounds_witness :
  let a := f64_lit 6 10 in
  let chance := selection_chance a 7 2 in
  is_finite chance = true /\ in_unit chance /\ (Z.max 7 1 <= Z.max 2 1 -> chance = fone).
Proof. apply selection_chance_bounds; vm_compute; reflexivity. Defined.

(** [0.6 ^ i32::MAX] underflows: the chance of a swarm beyond any real one is
    the double 0. *)
Lemma selection_chance_underflow :
  selection_chance (f64_lit 6 10) U32_MAX 1 = fzero.
Proof. vm_compute. reflexivity. Qed.
