(* ===== verification/Fs.v ===== *)
(** A file system with faults and crashes, as [std::fs] shows it to the
    program.

    A disk has inodes (contents, mode, and whether the contents were flushed)
    and a directory.  Changes to the directory reach the medium in order but
    late, so a disk also remembers the earlier directories a crash may still
    expose.  Every call takes the next fault from a queue ([None]: the call
    succeeds; [Some junk]: it fails, a write leaving [junk] behind) and logs the
    disk it leaves, so that a property of every logged disk is a property of a
    crash at any point.  The directory is one flat map from paths. *)

From S2P Require Import Prelude.

(** File contents, as bytes. *)
Definition bytes : Type := string.
Definition path : Type := string.

Inductive io_error := NotFound | OtherIo.

#[export] Instance io_error_eq_dec : EqDecision io_error.
Proof. solve_decision. Defined.

Record Inode := { ino_data : bytes; ino_mode : Z; ino_synced : bool }.

Record Disk := {
  inodes : gmap nat Inode;
  dir : gmap path nat;
  old_dirs : list (gmap path nat);
  next_ino : nat;
}.

Record Fs := {
  disk : Disk;
  faults : list (option bytes);
  (** the mode a new file gets from the process umask *)
  umask_mode : Z;
  trace : list Disk;
}.

Definition set_disk (d : Disk) (fs : Fs) : Fs :=
  {| disk := d; faults := faults fs; umask_mode := umask_mode fs; trace := d :: trace fs |}.

(** The directories a crash may expose. *)
Definition dirs (d : Disk) : list (gmap path nat) := dir d :: old_dirs d.

(** What a reboot may find at [p] when the disk is [d]: unflushed contents may
    be anything. *)
Definition crash_view (d : Disk) (p : path) (v : option bytes) : Prop :=
  exists dm, dm ∈ dirs d /\
    match dm !! p with
    | None => v = None
    | Some i => exists b, v = Some b /\
        forall ino, inodes d !! i = Some ino -> ino_synced ino = true -> b = ino_data ino
    end.

(** What the running process reads at [p]. *)
Definition inode_at (d : Disk) (p : path) : option Inode :=
  match dir d !! p with Some i => inodes d !! i | None => None end.
Definition content (d : Disk) (p : path) : option bytes := ino_data <$> inode_at d p.

(** Take the next fault. *)
Definition next_fault : M Fs (option bytes) := fun fs =>
  (mjoin (head (faults fs)),
   {| disk := disk fs; faults := tail (faults fs); umask_mode := umask_mode fs;
      trace := trace fs |}).

(** Run a call that either fails, with the junk it leaves, or succeeds. *)
Definition io {A} (fail : bytes -> M Fs (result io_error A))
    (succeed : M Fs (result io_error A)) : M Fs (result io_error A) :=
  let* f := next_fault in
  match f with Some junk => fail junk | None => succeed end.

Definition io_fails {A} (_ : bytes) : M Fs (result io_error A) := ret (Err OtherIo).

Definition put_inode (i : nat) (ino : Inode) (d : Disk) : Disk :=
  {| inodes := <[i := ino]> (inodes d); dir := dir d; old_dirs := old_dirs d;
     next_ino := next_ino d |}.

Definition change_dir (dm : gmap path nat) (d : Disk) : Disk :=
  {| inodes := inodes d; dir := dm; old_dirs := dirs d; next_ino := next_ino d |}.

(** Create the file or truncate it, then write [b]. *)
Definition write_disk (umask : Z) (p : path) (b : bytes) (d : Disk) : Disk :=
  match dir d !! p with
  | Some i =>
      let mode := match inodes d !! i with Some ino => ino_mode ino | None => umask end in
      put_inode i {| ino_data := b; ino_mode := mode; ino_synced := false |} d
  | None =>
      let i := next_ino d in
      {| inodes := <[i := {| ino_data := b; ino_mode := umask; ino_synced := false |}]> (inodes d);
         dir := <[p := i]> (dir d); old_dirs := dirs d; next_ino := S i |}
  end.

(** [fs::read]. *)
Definition fs_read (p : path) : M Fs (result io_error bytes) :=
  io io_fails (gets (fun fs =>
    match content (disk fs) p with Some b => Ok b | None => Err NotFound end)).

(** [fs::write]. *)
Definition fs_write (p : path) (b : bytes) : M Fs (result io_error unit) :=
  io (fun junk => modify (fun fs => set_disk (write_disk (umask_mode fs) p junk (disk fs)) fs) ;;;
                  ret (Err OtherIo))
     (modify (fun fs => set_disk (write_disk (umask_mode fs) p b (disk fs)) fs) ;;; ret (Ok tt)).

(** An append-mode open and [write_all]. *)
Definition fs_append (p : path) (b : bytes) : M Fs (result io_error unit) :=
  let add s := modify (fun fs => set_disk (write_disk (umask_mode fs) p
                 (default EmptyString (content (disk fs) p) +:+ s) (disk fs)) fs) in
  io (fun junk => add junk ;;; ret (Err OtherIo)) (add b ;;; ret (Ok tt)).

(** An append-mode open that creates the file, and its handle. *)
Definition fs_open_append (p : path) : M Fs (result io_error nat) :=
  io io_fails (fun fs =>
    match dir (disk fs) !! p with
    | Some i => (Ok i, fs)
    | None => (Ok (next_ino (disk fs)), set_disk (write_disk (umask_mode fs) p EmptyString (disk fs)) fs)
    end).

(** [write_all] and [flush] on an append-mode handle: the bytes go to the end of
    the inode, whatever name it has now. *)
Definition append_inode (i : nat) (b : bytes) (d : Disk) : Disk :=
  match inodes d !! i with
  | Some ino => put_inode i {| ino_data := ino_data ino +:+ b; ino_mode := ino_mode ino;
                               ino_synced := false |} d
  | None => d
  end.

Definition fs_write_handle (i : nat) (b : bytes) : M Fs (result io_error unit) :=
  io (fun junk => modify (fun fs => set_disk (append_inode i junk (disk fs)) fs) ;;; ret (Err OtherIo))
     (modify (fun fs => set_disk (append_inode i b (disk fs)) fs) ;;; ret (Ok tt)).

(** [fs::metadata(p)?.len()]. *)
Definition fs_len (p : path) : M Fs (result io_error Z) :=
  io io_fails (gets (fun fs =>
    match content (disk fs) p with
    | Some b => Ok (Z.of_nat (String.length b))
    | None => Err NotFound
    end)).

(** [fs::metadata(p)?.permissions().mode() & 0o777]. *)
Definition fs_mode (p : path) : M Fs (result io_error Z) :=
  io io_fails (gets (fun fs =>
    match inode_at (disk fs) p with
    | Some ino => Ok (Z.land (ino_mode ino) 511)
    | None => Err NotFound
    end)).

Definition on_inode (p : path) (f : Inode -> Inode) : M Fs (result io_error unit) :=
  io io_fails (fun fs =>
    match dir (disk fs) !! p with
    | Some i => match inodes (disk fs) !! i with
                | Some ino => (Ok tt, set_disk (put_inode i (f ino) (disk fs)) fs)
                | None => (Err NotFound, fs)
                end
    | None => (Err NotFound, fs)
    end).

(** [fs::set_permissions]. *)
Definition fs_chmod (p : path) (mode : Z) : M Fs (result io_error unit) :=
  on_inode p (fun ino =>
    {| ino_data := ino_data ino; ino_mode := mode; ino_synced := ino_synced ino |}).

(** Open read-write and [sync_all]. *)
Definition fs_sync (p : path) : M Fs (result io_error unit) :=
  on_inode p (fun ino =>
    {| ino_data := ino_data ino; ino_mode := ino_mode ino; ino_synced := true |}).

(** The end of a byte string, from position [n]. *)
Definition drop_bytes (n : nat) (s : bytes) : bytes := String.substring n (String.length s) s.

(** Seek to 0 and [write_all]: the bytes past [b] stay. *)
Definition fs_write_front (p : path) (b : bytes) : M Fs (result io_error unit) :=
  on_inode p (fun ino =>
    {| ino_data := b +:+ drop_bytes (String.length b) (ino_data ino);
       ino_mode := ino_mode ino; ino_synced := false |}).

(** [set_len] to a length within the file. *)
Definition fs_truncate (p : path) (n : nat) : M Fs (result io_error unit) :=
  on_inode p (fun ino =>
    {| ino_data := String.substring 0 n (ino_data ino); ino_mode := ino_mode ino;
       ino_synced := false |}).

(** [fs::rename]. *)
Definition fs_rename (from to : path) : M Fs (result io_error unit) :=
  io io_fails (fun fs =>
    match dir (disk fs) !! from with
    | Some i =>
        (Ok tt, set_disk (change_dir (<[to := i]> (delete from (dir (disk fs)))) (disk fs)) fs)
    | None => (Err NotFound, fs)
    end).

(** [fs::remove_file]. *)
Definition fs_remove (p : path) : M Fs (result io_error unit) :=
  io io_fails (fun fs =>
    match dir (disk fs) !! p with
    | Some _ => (Ok tt, set_disk (change_dir (delete p (dir (disk fs))) (disk fs)) fs)
    | None => (Err NotFound, fs)
    end).

(** [DirBuilder::create] recursive, which leaves no file changed. *)
Definition fs_create_dir (p : path) : M Fs (result io_error unit) := io io_fails (ret (Ok tt)).

(** Open a directory and [sync_all]: every directory change is on the medium. *)
Definition fs_sync_dir (p : path) : M Fs (result io_error unit) :=
  io io_fails (modify (fun fs => set_disk
    {| inodes := inodes (disk fs); dir := dir (disk fs); old_dirs := [];
       next_ino := next_ino (disk fs) |} fs) ;;; ret (Ok tt)).

(** [Path::parent], for a path without trailing slashes: what precedes the last
    slash, with ["/"] the parent of a top-level name. *)
Fixpoint split_last_slash (p : path) : option path :=
  match p with
  | EmptyString => None
  | String c p' =>
      match split_last_slash p' with
      | Some d => Some (String c d)
      | None => if Ascii.eqb c "/"%char then Some EmptyString else None
      end
  end.

Definition path_parent (p : path) : option path :=
  match p with
  | EmptyString => None
  | _ =>
      match split_last_slash p with
      | None => Some EmptyString
      | Some EmptyString => if String.eqb p "/" then None else Some "/"
      | Some d => Some d
      end
  end.

(** [Path::join]. *)
Definition ends_with_slash (p : path) : bool :=
  match String.get (String.length p - 1) p with
  | Some c => Ascii.eqb c "/"%char
  | None => false
  end.

Definition is_absolute (p : path) : bool :=
  match p with String c _ => Ascii.eqb c "/"%char | EmptyString => false end.

Definition path_join (a b : path) : path :=
  if is_absolute b then b
  else if String.eqb a "" || ends_with_slash a then a +:+ b
  else a +:+ "/" +:+ b.

(** A disk with the given files, all flushed, each of its own inode. *)
Definition fresh_disk (files : list (path * bytes)) : Disk :=
  foldr (fun f d =>
    {| inodes := <[next_ino d := {| ino_data := f.2; ino_mode := 420; ino_synced := true |}]> (inodes d);
       dir := <[f.1 := next_ino d]> (dir d); old_dirs := []; next_ino := S (next_ino d) |})
    {| inodes := ∅; dir := ∅; old_dirs := []; next_ino := 0 |} files.

Definition fresh_fs (files : list (path * bytes)) (fl : list (option bytes)) : Fs :=
  {| disk := fresh_disk files; faults := fl; umask_mode := 420; trace := [] |}.

(** ** Invariants of disks *)

(** Every directory entry has an inode, and new inodes are new. *)
Definition disk_wf (d : Disk) : Prop :=
  (forall i, is_Some (inodes d !! i) -> (i < next_ino d)%nat) /\
  (forall dm p i, dm ∈ dirs d -> dm !! p = Some i -> is_Some (inodes d !! i)).

Lemma fresh_disk_wf files : disk_wf (fresh_disk files).
Proof.
  induction files as [|[p b] files [IH1 IH2]]; simpl.
  - split; [simpl; intros i []%lookup_empty_is_Some|].
    intros dm q i [->|[]%elem_of_nil]%elem_of_cons. simpl. by rewrite lookup_empty.
  - split; simpl.
    + intros i. destruct (decide (i = next_ino (fresh_disk files))) as [->|Hne]; [lia|].
      rewrite lookup_insert_ne by done. intros ?%IH1. lia.
    + intros dm q i [->|[]%elem_of_nil]%elem_of_cons. simpl.
      rewrite !lookup_insert. destruct (decide (p = q)) as [->|].
      * intros [= <-]. rewrite decide_True by done. eauto.
      * intros Hq. case_decide; [eauto|]. eapply IH2; [left|exact Hq].
Qed.

(** ** Calls without faults *)

Lemma io_nofault {A} (fail : bytes -> M Fs (result io_error A)) succeed fs :
  faults fs = [] -> io fail succeed fs = succeed fs.
Proof. intros Hf. unfold io, bind, next_fault. destruct fs as [d f u t]. simpl in *. by subst f. Qed.

Lemma content_Some d p b :
  content d p = Some b <-> exists i ino, dir d !! p = Some i /\ inodes d !! i = Some ino /\ ino_data ino = b.
Proof.
  unfold content, inode_at. destruct (dir d !! p) as [i|]; simpl.
  - destruct (inodes d !! i) as [ino|] eqn:E; simpl; naive_solver.
  - naive_solver.
Qed.

Lemma content_write_disk umask p b d : content (write_disk umask p b d) p = Some b.
Proof.
  unfold write_disk, content, inode_at. destruct (dir d !! p) as [i|] eqn:Ei; simpl.
  - by rewrite Ei, lookup_insert_eq.
  - by rewrite !lookup_insert_eq.
Qed.

(** Two names of one disk never share an inode: the files the program keeps have
    no links. *)
Definition unlinked_names (d : Disk) : Prop :=
  forall p q i, dir d !! p = Some i -> dir d !! q = Some i -> p = q.

(** The disk is sane: no fault is pending, entries have inodes, no links. *)
Definition quiet (fs : Fs) : Prop := faults fs = [] /\ disk_wf (disk fs) /\ unlinked_names (disk fs).

Lemma quiet_entry fs p i : quiet fs -> dir (disk fs) !! p = Some i -> is_Some (inodes (disk fs) !! i).
Proof. intros (_ & [_ Hw] & _) Hp. eapply Hw; [left|exact Hp]. Qed.

Lemma put_inode_wf d i ino : disk_wf d -> is_Some (inodes d !! i) -> disk_wf (put_inode i ino d).
Proof.
  intros [Hw1 Hw2] Hi. split; simpl.
  - intros j. destruct (decide (i = j)) as [<-|?]; [auto|]. rewrite lookup_insert_ne by done. auto.
  - intros dm q j Hin Hq. destruct (decide (i = j)) as [<-|?].
    + rewrite lookup_insert_eq. eauto.
    + rewrite lookup_insert_ne by done. eauto.
Qed.

Lemma quiet_set_disk d fs : quiet fs -> disk_wf d -> unlinked_names d -> quiet (set_disk d fs).
Proof. intros (Hf & _ & _) Hw Hu. done. Qed.

Lemma quiet_put_inode i ino fs :
  quiet fs -> is_Some (inodes (disk fs) !! i) -> quiet (set_disk (put_inode i ino (disk fs)) fs).
Proof.
  intros Hq Hi. apply quiet_set_disk; [done|apply put_inode_wf; [apply Hq|done]|].
  destruct Hq as (_ & _ & Hu). exact Hu.
Qed.

Lemma content_put_inode d i ino p q :
  unlinked_names d -> dir d !! p = Some i ->
  content (put_inode i ino d) q = if decide (q = p) then Some (ino_data ino) else content d q.
Proof.
  intros Hu Hp. unfold content, inode_at. simpl. case_decide as Hq.
  - subst q. rewrite Hp. simpl. by rewrite lookup_insert_eq.
  - destruct (dir d !! q) as [j|] eqn:Ej; [|done]. rewrite lookup_insert_ne; [done|].
    intros <-. by apply Hq, (Hu q p i).
Qed.

(** Creating a file at a free name. *)
Lemma create_spec fs p b :
  quiet fs -> dir (disk fs) !! p = None ->
  let fs' := set_disk (write_disk (umask_mode fs) p b (disk fs)) fs in
  quiet fs' /\ dir (disk fs') !! p = Some (next_ino (disk fs)) /\
  (exists ino, inodes (disk fs') !! next_ino (disk fs) = Some ino /\ ino_data ino = b) /\
  forall q, content (disk fs') q = if decide (q = p) then Some b else content (disk fs) q.
Proof.
  intros Hq Hp. cbv zeta. destruct Hq as (Hf & [Hw1 Hw2] & Hu).
  assert (forall dm q, dm ∈ dirs (disk fs) -> dm !! q <> Some (next_ino (disk fs))) as Hfresh.
  { intros dm q Hin Hq. pose proof (Hw1 _ (Hw2 _ _ _ Hin Hq)). lia. }
  unfold write_disk, quiet, set_disk. simpl. rewrite Hp. simpl.
  split; [split; [done|split]|].
  - split; simpl.
    + intros j. destruct (decide (next_ino (disk fs) = j)) as [->|]; [lia|].
      rewrite lookup_insert_ne by done. intros ?%Hw1. lia.
    + intros dm q j [->|Hin]%elem_of_cons; simpl.
      * intros [[-> <-]|[_ Hq]]%lookup_insert_Some; [rewrite lookup_insert_eq; eauto|].
        rewrite lookup_insert_ne; [eapply Hw2; [left|done]|].
        intros <-. by apply (Hfresh (dir (disk fs)) q); [left|].
      * intros Hq. rewrite lookup_insert_ne; [by eapply Hw2|]. intros <-. by eapply Hfresh.
  - intros q1 q2 i. simpl.
    intros [[<- <-]|[? H1]]%lookup_insert_Some [[<- Hn]|[? H2]]%lookup_insert_Some; try done.
    + exfalso. by apply (Hfresh (dir (disk fs)) q2); [left|].
    + subst. exfalso. by apply (Hfresh (dir (disk fs)) q1); [left|].
    + by apply (Hu q1 q2 i).
  - rewrite !lookup_insert_eq. split; [done|]. split; [eauto|].
    intros q. unfold content, inode_at. simpl. case_decide as Hqp.
    + subst q. by rewrite lookup_insert_eq, lookup_insert_eq.
    + rewrite (lookup_insert_ne (dir (disk fs))) by done.
      destruct (dir (disk fs) !! q) as [j|] eqn:Ej; [|done]. rewrite lookup_insert_ne; [done|].
      intros <-. by apply (Hfresh (dir (disk fs)) q); [left|].
Qed.

Lemma fresh_unlinked files : unlinked_names (fresh_disk files).
Proof.
  intros p q i Hp Hq. destruct (decide (p = q)) as [|Hne]; [done|]. exfalso. revert Hp Hq.
  induction files as [|[r b] files IH]; simpl; [done|].
  assert (forall s, dir (fresh_disk files) !! s <> Some (next_ino (fresh_disk files))) as Hf.
  { intros s Hs. pose proof (fresh_disk_wf files) as [Hw1 Hw2].
    pose proof (Hw1 _ (Hw2 _ s _ (list_elem_of_here _ _) Hs)). lia. }
  intros [[<- <-]|[? Hp]]%lookup_insert_Some [[<- Hx]|[? Hq]]%lookup_insert_Some; try done.
  - by apply (Hf q).
  - subst. by apply (Hf p).
  - by apply IH.
Qed.

Lemma fresh_quiet files : quiet (fresh_fs files []).
Proof. split; [done|]. split; [apply fresh_disk_wf|apply fresh_unlinked]. Qed.
