(* ===== verification/Persist.v ===== *)
(** Atomic file replacement, [atomic_write_mode] of [config.rs]: the write to a
    temporary sibling, the flush and the rename, on the faulty and crashing
    file system of [Fs].  Every file the daemon keeps goes through it. *)

From S2P Require Import Prelude Text Fs.

(** The temporary sibling of a file. *)
Definition tmp_path (p : path) : path := p +:+ ".tmp".

Definition atomic_write_mode (p : path) (data : bytes) (mode : Z) : M Fs (result error unit) :=
  let? _ := match path_parent p with
            | Some d => if String.eqb d "" then ret (Ok tt)
                        else with_context ("creating directory for " +:+ p) (fs_create_dir d)
            | None => ret (Ok tt)
            end in
  let tmp := tmp_path p in
  let? _ := with_context ("writing " +:+ tmp) (fs_write tmp data) in
  let? _ := with_context ("setting mode on " +:+ tmp) (fs_chmod tmp mode) in
  let? _ := with_context ("syncing " +:+ tmp) (fs_sync tmp) in
  let? _ := with_context ("finalizing " +:+ p) (fs_rename tmp p) in
  (match path_parent p with
   | Some d => let* _ := fs_sync_dir d in ret tt
   | None => ret tt
   end) ;;;
  let* _ := fs_chmod p mode in
  ret (Ok tt).

Definition atomic_write (p : path) (data : bytes) : M Fs (result error unit) :=
  atomic_write_mode p data 420.

(** [ensure_shared_dirs] on the mode of a directory: widen, never strip. *)
Definition shared_dir_mode (mode : Z) : Z := Z.lor (Z.land mode 511) 493.

(** ** Crash safety *)

Lemma tmp_path_ne p : tmp_path p <> p.
Proof. unfold tmp_path. induction p as [|c p IH]; [done|]. simpl. intros [= H]. done. Qed.

Lemma string_app_inj_r (a b c : string) : a +:+ c = b +:+ c -> a = b.
Proof.
  revert b. induction a as [|x a IH]; intros [|y b] Heq; [done| | |].
  3: { injection Heq as -> Hab. f_equal. by apply IH. }
  all: apply (f_equal String.length) in Heq; rewrite !string_length_app in Heq; simpl in Heq; lia.
Qed.

Lemma tmp_path_inj a b : tmp_path a = tmp_path b -> a = b.
Proof. unfold tmp_path. intros Heq. by apply string_app_inj_r in Heq. Qed.

(** The current inode of [q] is behind no name a crash may expose as [p]. *)
Definition no_alias (d : Disk) (q p : path) : Prop :=
  forall dm i, dm ∈ dirs d -> dm !! p = Some i -> dir d !! q <> Some i.

(** A crash shows at [p] what it could show on [d0], or [data]. *)
Definition old_or_new (d0 : Disk) (p : path) (data : bytes) (d : Disk) : Prop :=
  forall v, crash_view d p v -> crash_view d0 p v \/ v = Some data.

(** Nothing at [p] has changed since [d0]. *)
Definition untouched (d0 : Disk) (p : path) (d : Disk) : Prop :=
  disk_wf d /\ dir d !! p = dir d0 !! p /\
  (forall i, dir d !! p = Some i -> inodes d !! i = inodes d0 !! i) /\
  forall dm, dm ∈ dirs d -> exists dm0, dm0 ∈ dirs d0 /\ dm !! p = dm0 !! p /\
    forall i, dm !! p = Some i -> inodes d !! i = inodes d0 !! i.

Lemma untouched_refl d p : disk_wf d -> untouched d p d.
Proof. intros Hwf. repeat split; try apply Hwf; eauto. Qed.

Lemma untouched_old_or_new d0 p data d : untouched d0 p d -> old_or_new d0 p data d.
Proof.
  intros (_ & _ & _ & Hdm) v (dm & Hin & Hv). left.
  destruct (Hdm dm Hin) as (dm0 & Hin0 & Heq & Hino). exists dm0. split; [done|].
  rewrite <- Heq. destruct (dm !! p) as [i|]; [|done].
  destruct Hv as (b & -> & Hb). exists b. split; [done|].
  rewrite <- (Hino i eq_refl). exact Hb.
Qed.

Lemma untouched_content d0 p d : untouched d0 p d -> content d p = content d0 p.
Proof.
  intros (_ & Hd & Hi & _). unfold content, inode_at. rewrite <- Hd.
  destruct (dir d !! p) as [i|]; [|done]. by rewrite (Hi i eq_refl).
Qed.

Lemma untouched_put_inode d0 p d i ino :
  untouched d0 p d -> is_Some (inodes d !! i) ->
  (forall dm, dm ∈ dirs d -> dm !! p <> Some i) -> untouched d0 p (put_inode i ino d).
Proof.
  intros ((Hw1 & Hw2) & Hd & Hi & Hdm) Hsome Hne. split; [|split; [|split]].
  - split; simpl.
    + intros j. destruct (decide (i = j)) as [->|?]; [auto|]. rewrite lookup_insert_ne by done. auto.
    + intros dm q j Hin Hq. destruct (decide (i = j)) as [->|?].
      * rewrite lookup_insert, decide_True by done. eauto.
      * rewrite lookup_insert_ne by done. eauto.
  - done.
  - intros j Hj. simpl. rewrite lookup_insert_ne; [by apply Hi|].
    intros ->. by apply (Hne (dir d)); [left|].
  - intros dm Hin. destruct (Hdm dm Hin) as (dm0 & ? & ? & Hino). exists dm0.
    split; [done|]. split; [done|]. intros j Hj. simpl. rewrite lookup_insert_ne; [by apply Hino|].
    intros ->. by apply (Hne dm).
Qed.

Lemma no_alias_put_inode d q p i ino : no_alias d q p -> no_alias (put_inode i ino d) q p.
Proof. done. Qed.

Section Write.
Context (d0 : Disk) (t0 : list Disk) (p : path) (data : bytes).
Let tmp := tmp_path p.

(** The disks logged since [t0]. *)
Definition logged (fs : Fs) : Prop :=
  exists new, trace fs = new ++ t0 /\ Forall (old_or_new d0 p data) new.

Lemma logged_set_disk d fs : logged fs -> old_or_new d0 p data d -> logged (set_disk d fs).
Proof. intros (new & Ht & Hnew) Hd. exists (d :: new). simpl. rewrite Ht. split; [done|by constructor]. Qed.

(** Before the rename: [p] is untouched and the temporary file is not [p]'s. *)
Definition before (fs : Fs) : Prop :=
  untouched d0 p (disk fs) /\ no_alias (disk fs) tmp p /\ logged fs.

(** The temporary file holds [data], with properties [Q] of its inode. *)
Definition staged (Q : Inode -> Prop) (fs : Fs) : Prop :=
  before fs /\ exists ino, inode_at (disk fs) tmp = Some ino /\ ino_data ino = data /\ Q ino.

(** After the rename. *)
Definition replaced (Q : Inode -> Prop) (fs : Fs) : Prop :=
  disk_wf (disk fs) /\ no_alias (disk fs) tmp p /\
  old_or_new d0 p data (disk fs) /\ logged fs /\
  exists ino, inode_at (disk fs) p = Some ino /\ ino_data ino = data /\
    ino_synced ino = true /\ Q ino.

Lemma before_set_disk d fs :
  before fs -> untouched d0 p d -> no_alias d tmp p -> before (set_disk d fs).
Proof.
  intros (_ & _ & Ht) Hu Hn. split; [done|]. split; [done|].
  by apply logged_set_disk, untouched_old_or_new.
Qed.

Lemma write_disk_staged umask b d :
  untouched d0 p d -> no_alias d tmp p ->
  untouched d0 p (write_disk umask tmp b d) /\ no_alias (write_disk umask tmp b d) tmp p /\
  exists ino, inode_at (write_disk umask tmp b d) tmp = Some ino /\ ino_data ino = b.
Proof.
  intros Hu Hn. pose proof Hu as ((Hw1 & Hw2) & Hd & Hi & Hdm).
  pose proof (tmp_path_ne p : tmp <> p) as Hne. unfold write_disk, inode_at.
  destruct (dir d !! tmp) as [i|] eqn:Et.
  - split; [|split; [done|]].
    + apply untouched_put_inode; [done| |].
      * eapply Hw2; [left|exact Et].
      * intros dm Hin Hp. by eapply Hn.
    + simpl. rewrite Et, lookup_insert_eq. eauto.
  - assert (forall dm q, dm ∈ dirs d -> dm !! q <> Some (next_ino d)) as Hfresh.
    { intros dm q Hin Hq. pose proof (Hw1 _ (Hw2 _ _ _ Hin Hq)). lia. }
    split; [split; [|split; [|split]]|split].
    + split; simpl.
      * intros j. rewrite lookup_insert. case_decide; [lia|]. intros ?%Hw1. lia.
      * intros dm q j [->|Hin]%elem_of_cons.
        -- simpl. destruct (decide (tmp = q)) as [<-|Hq'].
           { rewrite lookup_insert_eq. intros [= <-]. rewrite lookup_insert_eq. eauto. }
           rewrite (lookup_insert_ne (dir d)) by done.
           intros Hq. rewrite lookup_insert_ne; [eapply Hw2; [left|done]|].
           intros <-. by apply (Hfresh (dir d) q); [left|].
        -- intros Hq. rewrite lookup_insert_ne; [by eapply Hw2|]. intros <-. by eapply Hfresh.
    + simpl. rewrite lookup_insert_ne by done. done.
    + simpl. rewrite lookup_insert_ne by done. intros i Hp.
      rewrite lookup_insert_ne; [by apply Hi|]. intros <-. by apply (Hfresh (dir d) p); [left|].
    + simpl. intros dm [->|Hin]%elem_of_cons.
      * exists (dir d0). simpl. rewrite lookup_insert_ne by done. split; [left|]. split; [done|].
        intros i Hp. rewrite lookup_insert_ne; [by apply Hi|].
        intros <-. by apply (Hfresh (dir d) p); [left|].
      * destruct (Hdm dm Hin) as (dm0 & ? & ? & Hino). exists dm0. split; [done|]. split; [done|].
        intros i Hp. rewrite lookup_insert_ne; [by apply Hino|]. intros <-. by eapply Hfresh.
    + intros dm i Hin Hp. simpl. rewrite lookup_insert_eq. intros [= <-].
      apply elem_of_cons in Hin as [->|Hin]; [|by eapply Hfresh].
      simpl in Hp. rewrite lookup_insert_ne in Hp by done. by apply (Hfresh (dir d) p); [left|].
    + simpl. rewrite lookup_insert_eq, lookup_insert_eq. eauto.
Qed.

Lemma hoare_io {A} (P : Fs -> Prop) (fail : bytes -> M Fs (result io_error A)) succeed Q :
  (forall fs fl, P fs -> P {| disk := disk fs; faults := fl; umask_mode := umask_mode fs;
                              trace := trace fs |}) ->
  (forall junk, hoare P (fail junk) Q) -> hoare P succeed Q -> hoare P (io fail succeed) Q.
Proof.
  intros HP Hf Hs fs H. unfold io, bind, next_fault.
  destruct (mjoin (head (faults fs))) as [junk|]; [apply Hf|apply Hs]; by apply HP.
Qed.

Lemma write_tmp b :
  hoare before (fs_write tmp b)
    (fun r fs => match r with
                 | Ok _ => exists ino, before fs /\ inode_at (disk fs) tmp = Some ino /\ ino_data ino = b
                 | Err _ => before fs
                 end).
Proof.
  assert (forall b fs, before fs ->
    let fs' := set_disk (write_disk (umask_mode fs) tmp b (disk fs)) fs in
    before fs' /\ exists ino, inode_at (disk fs') tmp = Some ino /\ ino_data ino = b) as Hw.
  { intros b' fs Hb. pose proof Hb as (Hu & Hn & _).
    destruct (write_disk_staged (umask_mode fs) b' (disk fs) Hu Hn) as (? & ? & ?).
    split; [by apply before_set_disk|done]. }
  apply hoare_io; [done| |].
  - intros junk fs H. apply (Hw junk fs H).
  - intros fs H. destruct (Hw b fs H) as (? & ino & ?). exists ino. done.
Qed.

Lemma inode_at_Some d q ino :
  inode_at d q = Some ino <-> exists i, dir d !! q = Some i /\ inodes d !! i = Some ino.
Proof. unfold inode_at. destruct (dir d !! q) as [i|]; naive_solver. Qed.

Lemma before_put_inode i ino fs :
  before fs -> dir (disk fs) !! tmp = Some i -> is_Some (inodes (disk fs) !! i) ->
  before (set_disk (put_inode i ino (disk fs)) fs).
Proof.
  intros Hb Hi Hs. pose proof Hb as (Hu & Hn & _). apply before_set_disk; [done| |done].
  apply untouched_put_inode; [done|done|]. intros dm Hin Hp. by eapply Hn.
Qed.

Lemma on_tmp f (Q Q' : Inode -> Prop) :
  (forall ino, Q ino -> ino_data (f ino) = ino_data ino /\ Q' (f ino)) ->
  hoare (staged Q) (on_inode tmp f)
    (fun r fs => match r with Ok _ => staged Q' fs | Err _ => before fs end).
Proof.
  intros Hf. apply hoare_io; [done| |].
  - intros junk fs [Hb _]. exact Hb.
  - intros fs [Hb (ino & Hino & Hdata & HQ)].
    pose proof (proj1 (inode_at_Some _ _ _) Hino) as (i & Hi & Hi').
    rewrite Hi, Hi'. destruct (Hf ino HQ) as [Hd HQ'].
    split; [by apply before_put_inode|]. exists (f ino). split; [|by rewrite Hd].
    apply inode_at_Some. exists i. simpl. by rewrite lookup_insert_eq.
Qed.

Lemma rename_tmp (Q : Inode -> Prop) :
  (forall ino, Q ino -> ino_synced ino = true) ->
  hoare (staged Q) (fs_rename tmp p)
    (fun r fs => match r with Ok _ => replaced Q fs | Err _ => before fs end).
Proof.
  intros Hsync. apply hoare_io; [done| |].
  - intros junk fs [Hb _]. exact Hb.
  - intros fs [(Hu & Hn & Ht) (ino & Hino & Hdata & HQ)].
    apply inode_at_Some in Hino as (i & Hi & Hi'). rewrite Hi. simpl.
    pose proof Hu as ((Hw1 & Hw2) & _). pose proof (tmp_path_ne p) as Hne.
    set (dm' := <[p := i]> (delete tmp (dir (disk fs)))).
    assert (old_or_new d0 p data (change_dir dm' (disk fs))) as Hon.
    { intros v (dm & [->|Hin]%elem_of_cons & Hv).
      - right. unfold dm' in Hv. simpl in Hv. rewrite lookup_insert_eq in Hv.
        destruct Hv as (b & -> & Hb). f_equal. rewrite <- Hdata. apply Hb; [done|by apply Hsync].
      - apply (untouched_old_or_new d0 p data _ Hu). by exists dm. }
    split; [|split; [|split; [|split]]]; [| |exact Hon|by apply (logged_set_disk (change_dir dm' (disk fs)))|].
    + split; [exact Hw1|]. intros dm q j [->|Hin]%elem_of_cons; [|by eapply Hw2].
      simpl. unfold dm'. destruct (decide (p = q)) as [<-|Hq].
      * rewrite lookup_insert_eq. intros [= <-]. eauto.
      * rewrite lookup_insert_ne by done. intros [_ Hj]%lookup_delete_Some.
        eapply Hw2; [left|exact Hj].
    + intros dm j _ _. simpl. unfold dm'. rewrite lookup_insert_ne by done.
      unfold tmp. by rewrite lookup_delete_eq.
    + exists ino. repeat split; [|done|by apply Hsync|done]. apply inode_at_Some. exists i.
      simpl. unfold dm'. by rewrite lookup_insert_eq.
Qed.

Lemma sync_dir_replaced Q dpath : hoare (replaced Q) (fs_sync_dir dpath) (fun _ => replaced Q).
Proof.
  apply hoare_io; [done|by intros junk fs H|].
  intros fs (Hw & Hn & Ho & Ht & ino & Hino & Hrest). simpl.
  split; [|split; [|split; [|split]]].
  - destruct Hw as [Hw1 Hw2]. split; [exact Hw1|].
    intros dm q i [->|[]%elem_of_nil]%elem_of_cons Hq. eapply Hw2; [left|exact Hq].
  - intros dm i [->|[]%elem_of_nil]%elem_of_cons Hq. eapply Hn; [left|exact Hq].
  - intros v (dm & [->|[]%elem_of_nil]%elem_of_cons & Hv). apply Ho. exists (dir (disk fs)).
    split; [left|exact Hv].
  - apply (logged_set_disk {| inodes := _ |}); [done|].
    intros v (dm & [->|[]%elem_of_nil]%elem_of_cons & Hv). apply Ho. exists (dir (disk fs)).
    split; [left|exact Hv].
  - exists ino. done.
Qed.

Lemma chmod_replaced mode :
  hoare (replaced (fun ino => ino_mode ino = mode)) (fs_chmod p mode)
    (fun _ => replaced (fun ino => ino_mode ino = mode)).
Proof.
  apply hoare_io; [done|by intros junk fs H|].
  intros fs ((Hw1 & Hw2) & Hn & Ho & Ht & ino & Hino & Hdata & Hsync & Hmode).
  apply inode_at_Some in Hino as (i & Hi & Hi'). rewrite Hi, Hi'. simpl.
  set (ino' := {| ino_data := _ |}).
  assert (old_or_new d0 p data (put_inode i ino' (disk fs))) as Hon.
  { intros v (dm & Hin & Hv). apply Ho. exists dm. split; [done|].
    destruct (dm !! p) as [j|]; [|done]. destruct Hv as (b & -> & Hb). exists b.
    split; [done|]. intros ino2 Hj Hs. simpl in Hb. destruct (decide (i = j)) as [<-|Hij].
    - rewrite lookup_insert_eq in Hb. rewrite Hi' in Hj. injection Hj as <-.
      by apply (Hb ino').
    - rewrite lookup_insert_ne in Hb by done. by apply Hb. }
  split; [|split; [exact Hn|split; [exact Hon|split; [by apply (logged_set_disk (put_inode i ino' (disk fs)))|]]]].
  - split; simpl.
    + intros j. destruct (decide (i = j)) as [->|?]; [eauto|]. rewrite lookup_insert_ne by done. auto.
    + intros dm q j Hin Hq. destruct (decide (i = j)) as [->|?].
      * rewrite lookup_insert_eq. eauto.
      * rewrite lookup_insert_ne by done. eauto.
  - exists ino'. repeat split; [|done|done]. apply inode_at_Some. exists i.
    simpl. by rewrite lookup_insert_eq.
Qed.
End Write.

Lemma atomic_write_hoare d0 t0 p data mode :
  hoare (before d0 t0 p data) (atomic_write_mode p data mode)
    (fun r fs => match r with
                 | Ok _ => replaced d0 t0 p data (fun ino => ino_mode ino = mode) fs
                 | Err _ => before d0 t0 p data fs
                 end).
Proof.
  unfold atomic_write_mode.
  eapply hoare_bindR with (R := fun _ => before d0 t0 p data); [| |done].
  { destruct (path_parent p) as [d|]; [|by apply hoare_ret].
    destruct (String.eqb d ""); [by apply hoare_ret|].
    eapply hoare_bind with (R := fun _ => before d0 t0 p data); [|by intros; apply hoare_ret].
    apply hoare_io; [done|by intros junk fs H|by apply hoare_ret]. }
  intros []. eapply hoare_bindR; [apply hoare_with_context, write_tmp| |done]. intros [].
  eapply hoare_bindR with (R := fun r fs => match r with
      | Ok _ => staged d0 t0 p data (fun ino => ino_mode ino = mode) fs
      | Err _ => before d0 t0 p data fs end); [| |done].
  { apply (hoare_with_context _ _ _ (fun _ => _)).
    eapply hoare_weaken; [apply (on_tmp d0 t0 p data _ (fun _ => True) (fun ino => ino_mode ino = mode)); done| |done].
    intros fs (ino & Hb & Hino & Hd). split; [done|]. by exists ino. }
  intros [].
  eapply hoare_bindR with (R := fun r fs => match r with
      | Ok _ => staged d0 t0 p data (fun ino => ino_mode ino = mode /\ ino_synced ino = true) fs
      | Err _ => before d0 t0 p data fs end); [| |done].
  { apply (hoare_with_context _ _ _ (fun _ => _)).
    by apply on_tmp. }
  intros [].
  eapply hoare_bindR with (R := fun r fs => match r with
      | Ok _ => replaced d0 t0 p data (fun ino => ino_mode ino = mode) fs
      | Err _ => before d0 t0 p data fs end); [| |done].
  { apply (hoare_with_context _ _ _ (fun _ => _)).
    eapply hoare_weaken; [apply (rename_tmp d0 t0 p data (fun ino => ino_mode ino = mode /\ ino_synced ino = true))|done|].
    - by intros ino [_ ?].
    - intros [] fs; [|done]. intros (? & ? & ? & ? & ino & ? & ? & ? & ? & ?).
      repeat (split; [done|]). by exists ino. }
  intros [].
  eapply hoare_bind with (R := fun _ => replaced d0 t0 p data (fun ino => ino_mode ino = mode)).
  { destruct (path_parent p); [|by apply hoare_ret].
    eapply hoare_bind; [apply sync_dir_replaced|]. intros. by apply hoare_ret. }
  intros []. eapply hoare_bind; [apply chmod_replaced|]. intros. by apply hoare_ret.
Qed.

Lemma before_start p data fs :
  disk_wf (disk fs) -> no_alias (disk fs) (tmp_path p) p ->
  before (disk fs) (trace fs) p data fs.
Proof.
  intros Hwf Hn. split; [by apply untouched_refl|]. split; [done|]. exists []. done.
Qed.

(** C20: an atomic write replaces the file in full or not at all, wherever it
    fails and wherever a crash strikes: every disk it leaves on the way shows
    at the path, after a crash, what the initial disk could show or exactly the
    new contents.  A success leaves the contents and the mode in place, a
    failure leaves the readable contents as they were, and the conditions that
    make the next write safe hold again. *)
Theorem atomic_write_crash_safe p data mode fs :
  disk_wf (disk fs) -> no_alias (disk fs) (tmp_path p) p ->
  let '(r, fs') := atomic_write_mode p data mode fs in
  exists new, trace fs' = new ++ trace fs /\
  (forall d v, d ∈ disk fs' :: new -> crash_view d p v ->
     crash_view (disk fs) p v \/ v = Some data) /\
  (if is_ok r
   then exists ino, inode_at (disk fs') p = Some ino /\ ino_data ino = data /\ ino_mode ino = mode
   else content (disk fs') p = content (disk fs) p) /\
  disk_wf (disk fs') /\ no_alias (disk fs') (tmp_path p) p.
Proof.
  intros Hwf Hn.
  pose proof (atomic_write_hoare _ _ p data mode fs (before_start p data fs Hwf Hn)) as H.
  destruct (atomic_write_mode p data mode fs) as [[u|e] fs']; simpl in H |- *.
  - destruct H as (? & ? & Ho & (new & Ht & Hts) & ino & ? & ? & _ & ?). exists new.
    split; [done|]. split; [|split; [by exists ino|done]].
    intros d v [->|Hin]%elem_of_cons; [apply Ho|]. by apply (proj1 (Forall_forall _ _) Hts d Hin).
  - destruct H as (Hu & ? & new & Ht & Hts). exists new. split; [done|].
    split; [|split; [by apply untouched_content|split; [apply Hu|done]]].
    intros d v [->|Hin]%elem_of_cons; [by apply untouched_old_or_new|].
    by apply (proj1 (Forall_forall _ _) Hts d Hin).
Qed.

(** ** What an atomic write leaves alone

    A write keeps every other file: its inode, and that its own temporary
    sibling is not aliased to it. *)
Section Frame.
Context (q : path) (x : option Inode).

Definition framed (fs : Fs) : Prop :=
  disk_wf (disk fs) /\ unlinked_names (disk fs) /\ inode_at (disk fs) q = x /\
  no_alias (disk fs) (tmp_path q) q.

Definition apart (r : path) : Prop := r <> q /\ r <> tmp_path q.

Lemma framed_put_inode r i ino fs :
  framed fs -> r <> q -> dir (disk fs) !! r = Some i -> is_Some (inodes (disk fs) !! i) ->
  framed (set_disk (put_inode i ino (disk fs)) fs).
Proof.
  intros (Hw & Hu & Hx & Hn) Hr Hi His.
  split; [by apply put_inode_wf|]. split; [exact Hu|]. split; [|exact Hn].
  simpl. rewrite <- Hx. unfold inode_at. simpl.
  destruct (dir (disk fs) !! q) as [j|] eqn:Ej; [|done].
  rewrite lookup_insert_ne; [done|]. intros <-. by apply Hr, (Hu r q i).
Qed.

Lemma framed_write r b : apart r -> hoare framed (fs_write r b) (fun _ => framed).
Proof.
  intros [Hr Hrt].
  assert (forall b fs, framed fs -> framed (set_disk (write_disk (umask_mode fs) r b (disk fs)) fs)) as Hw.
  { clear b. intros b fs Hf. unfold write_disk. destruct (dir (disk fs) !! r) as [i|] eqn:Ei.
    - apply (framed_put_inode r); [done|done|done|]. destruct Hf as ([_ Hw2] & _).
      eapply Hw2; [left|exact Ei].
    - destruct Hf as ([Hw1 Hw2] & Hu & Hx & Hn).
      assert (forall dm s, dm ∈ dirs (disk fs) -> dm !! s <> Some (next_ino (disk fs))) as Hfresh.
      { intros dm s Hin Hs. pose proof (Hw1 _ (Hw2 _ _ _ Hin Hs)). lia. }
      split; [split; simpl|split; [|split]].
      + intros j. rewrite lookup_insert. case_decide; [lia|]. intros ?%Hw1. lia.
      + intros dm s j [->|Hin]%elem_of_cons; simpl.
        * intros [[-> <-]|[_ Hs]]%lookup_insert_Some; [rewrite lookup_insert_eq; eauto|].
          rewrite lookup_insert_ne; [eapply Hw2; [left|done]|].
          intros <-. by apply (Hfresh (dir (disk fs)) s); [left|].
        * intros Hs. rewrite lookup_insert_ne; [by eapply Hw2|]. intros <-. by eapply Hfresh.
      + intros q1 q2 i. simpl.
        intros [[<- <-]|[? H1]]%lookup_insert_Some [[<- Hs]|[? H2]]%lookup_insert_Some; try done.
        * exfalso. by apply (Hfresh (dir (disk fs)) q2); [left|].
        * subst. exfalso. by apply (Hfresh (dir (disk fs)) q1); [left|].
        * by apply (Hu q1 q2 i).
      + rewrite <- Hx. unfold inode_at. simpl. rewrite lookup_insert_ne by done.
        destruct (dir (disk fs) !! q) as [j|] eqn:Ej; [|done]. rewrite lookup_insert_ne; [done|].
        intros <-. by apply (Hfresh (dir (disk fs)) q); [left|].
      + intros dm i. simpl. rewrite (lookup_insert_ne (dir (disk fs)) r (tmp_path q)) by done.
        intros [->|Hin]%elem_of_cons; [|by apply Hn]. simpl. rewrite lookup_insert_ne by done.
        intros Hq. eapply Hn; [left|exact Hq]. }
  apply hoare_io; [done| |]; [intros junk fs H; exact (Hw junk fs H)|intros fs H; exact (Hw b fs H)].
Qed.

Lemma framed_on_inode r f : r <> q -> hoare framed (on_inode r f) (fun _ => framed).
Proof.
  intros Hr. apply hoare_io; [done|by intros junk fs H|]. intros fs Hf.
  destruct (dir (disk fs) !! r) as [i|] eqn:Ei; [|done].
  destruct (inodes (disk fs) !! i) as [ino|] eqn:Eino; [|done].
  apply (framed_put_inode r); [done|done|done|]. by rewrite Eino.
Qed.

Lemma framed_rename r s : apart r -> apart s -> r <> s ->
  hoare framed (fs_rename r s) (fun _ => framed).
Proof.
  intros [Hr Hrt] [Hs Hst] Hrs. apply hoare_io; [done|by intros junk fs H|].
  intros fs ((Hw1 & Hw2) & Hu & Hx & Hn).
  destruct (dir (disk fs) !! r) as [i|] eqn:Ei; [|done]. simpl.
  split; [split; [exact Hw1|]|split; [|split]].
  - intros dm t j [->|Hin]%elem_of_cons; [|by eapply Hw2]. simpl.
    intros [[-> <-]|[_ [_ Ht]%lookup_delete_Some]]%lookup_insert_Some;
      (eapply Hw2; [left|eassumption]).
  - intros t1 t2 j. simpl.
    intros [[<- <-]|[? [? H1]%lookup_delete_Some]]%lookup_insert_Some
           [[<- Ht]|[? [? H2]%lookup_delete_Some]]%lookup_insert_Some; try done.
    + by destruct (Hu r t2 i Ei H2).
    + subst j. by destruct (Hu r t1 i Ei H1).
    + by apply (Hu t1 t2 j).
  - rewrite <- Hx. unfold inode_at. simpl. by rewrite lookup_insert_ne, lookup_delete_ne by done.
  - intros dm j. simpl. rewrite lookup_insert_ne, lookup_delete_ne by done.
    intros [->|Hin]%elem_of_cons; [|by apply Hn]. simpl.
    rewrite lookup_insert_ne, lookup_delete_ne by done. intros Hq. eapply Hn; [left|exact Hq].
Qed.

Lemma framed_sync_dir d : hoare framed (fs_sync_dir d) (fun _ => framed).
Proof.
  apply hoare_io; [done|by intros junk fs H|]. intros fs ((Hw1 & Hw2) & Hu & Hx & Hn). simpl.
  split; [split; [exact Hw1|]|split; [exact Hu|split; [exact Hx|]]].
  - intros dm t j [->|[]%elem_of_nil]%elem_of_cons. eapply Hw2. left.
  - intros dm j [->|[]%elem_of_nil]%elem_of_cons. apply Hn. left.
Qed.

Lemma framed_create_dir d : hoare framed (fs_create_dir d) (fun _ => framed).
Proof. apply hoare_io; [done|by intros junk fs H|]. by apply hoare_ret. Qed.

Lemma framed_context {A} msg (m : M Fs (result io_error A)) :
  hoare framed m (fun _ => framed) -> hoare framed (with_context msg m) (fun _ => framed).
Proof. intros Hm. eapply hoare_bind; [exact Hm|]. intros a. by apply hoare_ret. Qed.

Lemma atomic_write_frame p data mode :
  apart p -> apart (tmp_path p) ->
  hoare framed (atomic_write_mode p data mode) (fun _ => framed).
Proof.
  intros Hp Ht. pose proof (proj1 Hp). pose proof (proj1 Ht). pose proof (tmp_path_ne p).
  unfold atomic_write_mode.
  repeat (eapply (hoare_bindR _ _ _ (fun _ => framed)); [|intros [] |done]).
  - destruct (path_parent p); [|by apply hoare_ret].
    case_match; [by apply hoare_ret|]. apply framed_context, framed_create_dir.
  - by apply framed_context, framed_write.
  - by apply framed_context, framed_on_inode.
  - by apply framed_context, framed_on_inode.
  - by apply framed_context, framed_rename.
  - eapply (hoare_bind _ _ _ (fun _ => framed)).
    + destruct (path_parent p); [|by apply hoare_ret].
      eapply (hoare_bind _ _ _ (fun _ => framed)); [apply framed_sync_dir|].
      intros. by apply hoare_ret.
    + intros []. eapply (hoare_bind _ _ _ (fun _ => framed)); [by apply framed_on_inode|].
      intros. by apply hoare_ret.
Qed.
End Frame.

(** ** Without faults an atomic write succeeds *)

Definition faultless (fs : Fs) : Prop := faults fs = [].

Definition tmp_there (p : path) (fs : Fs) : Prop :=
  faultless fs /\ is_Some (inode_at (disk fs) (tmp_path p)).

(** From [P] the call succeeds, into [Q]. *)
Abbreviation succeeds P m Q := (hoare P m (fun r s => is_ok r = true /\ Q s)).

Lemma succeeds_io {A} (P : Fs -> Prop) fail (succeed : M Fs (result io_error A)) Q :
  (forall fs, P fs -> faultless fs) -> succeeds P succeed Q -> succeeds P (io fail succeed) Q.
Proof. intros Hp Hs fs H. rewrite (io_nofault fail succeed fs (Hp fs H)). by apply Hs. Qed.

Lemma succeeds_context {E A} (P Q : Fs -> Prop) msg (m : M Fs (result E A)) :
  succeeds P m Q -> succeeds P (with_context msg m) Q.
Proof. intros Hm. eapply hoare_bind; [exact Hm|]. intros [a|e]; by apply hoare_ret; intros s [? ?]. Qed.

Lemma succeeds_bindR {E A B} (P R Q : Fs -> Prop) (m : M Fs (result E A)) (k : A -> M Fs (result E B)) :
  succeeds P m R -> (forall a, succeeds R (k a) Q) -> succeeds P (bindR m k) Q.
Proof.
  intros Hm Hk. eapply hoare_bindR; [exact Hm| |by intros e s [? ?]].
  intros a. eapply hoare_weaken; [apply Hk| |by intros]. by intros s [_ ?].
Qed.

Lemma succeeds_on_tmp p f : succeeds (tmp_there p) (on_inode (tmp_path p) f) (tmp_there p).
Proof.
  apply succeeds_io; [by intros fs [? _]|]. intros fs [Hf [ino Hino]].
  apply inode_at_Some in Hino as (i & Hi & Hi'). rewrite Hi, Hi'. split; [done|]. split; [done|].
  exists (f ino). apply inode_at_Some. exists i. simpl. by rewrite lookup_insert_eq.
Qed.

Lemma atomic_write_succeeds p data mode :
  succeeds faultless (atomic_write_mode p data mode) faultless.
Proof.
  unfold atomic_write_mode.
  apply (succeeds_bindR _ faultless).
  { destruct (path_parent p) as [d|]; [|by apply hoare_ret].
    destruct (String.eqb d ""); [by apply hoare_ret|].
    apply succeeds_context, succeeds_io; [done|]. by apply hoare_ret. }
  intros []. apply (succeeds_bindR _ (tmp_there p)).
  { apply succeeds_context, succeeds_io; [done|]. intros fs Hf. split; [done|]. split; [done|].
    simpl. unfold write_disk, inode_at. destruct (dir (disk fs) !! tmp_path p) eqn:E; simpl.
    - rewrite E, lookup_insert_eq. eauto.
    - rewrite lookup_insert_eq, lookup_insert_eq. eauto. }
  intros []. apply (succeeds_bindR _ (tmp_there p)); [by apply succeeds_context, succeeds_on_tmp|].
  intros []. apply (succeeds_bindR _ (tmp_there p)); [by apply succeeds_context, succeeds_on_tmp|].
  intros []. apply (succeeds_bindR _ faultless).
  { apply succeeds_context, succeeds_io; [by intros fs [? _]|]. intros fs [Hf [ino Hino]].
    apply inode_at_Some in Hino as (i & Hi & Hi'). by rewrite Hi. }
  intros []. eapply (hoare_bind _ _ _ (fun _ => faultless)).
  { destruct (path_parent p); [|by apply hoare_ret].
    eapply (hoare_bind _ _ _ (fun _ => faultless)); [|by intros; apply hoare_ret].
    intros fs Hf. unfold fs_sync_dir. by rewrite (io_nofault _ _ fs Hf). }
  intros []. eapply (hoare_bind _ _ _ (fun _ => faultless)); [|by intros; apply hoare_ret].
  intros fs Hf. unfold fs_chmod, on_inode. rewrite (io_nofault _ _ fs Hf).
  destruct (dir (disk fs) !! p) as [i|]; [|done]. by destruct (inodes (disk fs) !! i).
Qed.

(** A disk of flushed files of their own is safe to write. *)
Lemma fresh_no_alias p q files : p <> q -> no_alias (fresh_disk files) q p.
Proof.
  intros Hpq dm i Hdm.
  assert (dm = dir (fresh_disk files)) as ->.
  { destruct files; apply elem_of_cons in Hdm as [->|[]%elem_of_nil]; done. }
  clear Hdm. revert i. induction files as [|[r b] files IH]; intros i; simpl; [done|].
  pose proof (fresh_disk_wf files) as [Hw1 Hw2].
  assert (forall s, dir (fresh_disk files) !! s <> Some (next_ino (fresh_disk files))) as Hf.
  { intros s Hs. pose proof (Hw1 _ (Hw2 _ s _ (list_elem_of_here _ _) Hs)). lia. }
  intros [[-> <-]|[? Hp]]%lookup_insert_Some.
  - rewrite lookup_insert_ne by done. apply Hf.
  - intros [[-> <-]|[? Hq]]%lookup_insert_Some; [by apply (Hf p)|by apply (IH i)].
Qed.

Lemma atomic_write_crash_safe_witness :
  let fs := fresh_fs [("/d/state.json", "old")] [None; None; None; Some ""] in
  let '(r, fs') := atomic_write_mode "/d/state.json" "new" 420 fs in
  exists new, trace fs' = new ++ trace fs /\
  (forall d v, d ∈ disk fs' :: new -> crash_view d "/d/state.json" v ->
     crash_view (disk fs) "/d/state.json" v \/ v = Some "new") /\
  (if is_ok r
   then exists ino, inode_at (disk fs') "/d/state.json" = Some ino /\
          ino_data ino = "new" /\ ino_mode ino = 420
   else content (disk fs') "/d/state.json" = content (disk fs) "/d/state.json") /\
  disk_wf (disk fs') /\ no_alias (disk fs') (tmp_path "/d/state.json") "/d/state.json".
Proof.
  apply (atomic_write_crash_safe "/d/state.json" "new" 420
           (fresh_fs [("/d/state.json", "old")] [None; None; None; Some ""])).
  - apply fresh_disk_wf.
  - apply fresh_no_alias. discriminate.
Defined.
