(* ===== verification/Durable.v ===== *)
(** What a crash may leave of one file while a process goes on writing others.
    [guarded] says of a file system that every disk it has been through shows,
    after a crash, only good contents at a protected path; every call the
    program makes on other paths keeps it, and so does an atomic write of good
    contents at the path itself. *)

From S2P Require Import Prelude Text Fs Persist.

(** ** Paths that differ by how they end *)

(** Two texts that differ at a position counted from their ends. *)
Fixpoint clash_front (s t : string) : bool :=
  match s, t with
  | String a s, String b t => negb (Ascii.eqb a b) || clash_front s t
  | _, _ => false
  end.

Fixpoint reverse_onto (s acc : string) : string :=
  match s with
  | EmptyString => acc
  | String a s => reverse_onto s (String a acc)
  end.

Definition clash (s t : string) : bool := clash_front (reverse_onto s "") (reverse_onto t "").

(** [s] ends in [t]. *)
Definition ends_in (t s : string) : Prop := exists x, s = x +:+ t.

Lemma reverse_onto_app s t acc : reverse_onto (s +:+ t) acc = reverse_onto t (reverse_onto s acc).
Proof. revert acc. induction s as [|a s IH]; intros acc; [done|]. apply IH. Qed.

Lemma reverse_onto_acc s acc : reverse_onto s acc = reverse_onto s "" +:+ acc.
Proof.
  revert acc. induction s as [|a s IH]; intros acc; [done|]. cbn [reverse_onto].
  rewrite IH, (IH (String a "")). by rewrite string_app_assoc.
Qed.

Lemma clash_front_app s t x y : clash_front s t = true -> s +:+ x <> t +:+ y.
Proof.
  revert t. induction s as [|a s IH]; intros [|b t]; try done. cbn [clash_front].
  rewrite !string_app_cons. intros [Hne|Hc]%orb_true_iff [= -> Heq].
  - by rewrite Ascii.eqb_refl in Hne.
  - by apply (IH t Hc).
Qed.

Lemma clash_ne s t a b : clash s t = true -> ends_in s a -> ends_in t b -> a <> b.
Proof.
  intros Hc [x ->] [y ->] Heq. apply (f_equal (fun z => reverse_onto z "")) in Heq.
  rewrite !reverse_onto_app in Heq.
  rewrite (reverse_onto_acc s (reverse_onto x "")), (reverse_onto_acc t (reverse_onto y "")) in Heq.
  by apply clash_front_app in Heq.
Qed.

Lemma ends_in_refl s : ends_in s s.
Proof. by exists "". Qed.

Lemma ends_in_app s t : ends_in t (s +:+ t).
Proof. by exists s. Qed.

Lemma ends_in_app_r s t u : ends_in t s -> ends_in (t +:+ u) (s +:+ u).
Proof. intros [x ->]. exists x. by rewrite string_app_assoc. Qed.

Lemma ends_in_trans s t u : ends_in s t -> ends_in t u -> ends_in s u.
Proof. intros [x ->] [y ->]. exists (y +:+ x). by rewrite string_app_assoc. Qed.

Lemma ends_in_join a b : ends_in b (path_join a b).
Proof.
  unfold path_join. destruct (is_absolute b); [apply ends_in_refl|].
  destruct (_ || _); [apply ends_in_app|]. rewrite <- string_app_assoc; apply ends_in_app.
Qed.

(** ** Disks that keep one file to itself *)

Section Guard.
Context (p : path) (good : option bytes -> Prop).
Let tmp := tmp_path p.

(** An inode that is not behind [p], for all a crash may expose, nor about to
    be. *)
Definition foreign (d : Disk) (i : nat) : Prop :=
  (i < next_ino d)%nat /\ dir d !! tmp <> Some i /\ forall dm, dm ∈ dirs d -> dm !! p <> Some i.

(** What is behind [p] for all a crash may expose is behind no other name, and
    behind none of the open handles [hs]. *)
Record private_disk (hs : list nat) (d : Disk) : Prop := {
  pd_wf : disk_wf d;
  pd_unlinked : unlinked_names d;
  pd_alone : forall dm i r, dm ∈ dirs d -> dm !! p = Some i -> r <> p -> dir d !! r <> Some i;
  pd_foreign : Forall (foreign d) hs;
}.

Definition shown (d : Disk) : Prop := forall v, crash_view d p v -> good v.

(** Every disk so far shows something good. *)
Record guarded (hs : list nat) (fs : Fs) : Prop := {
  gd_private : private_disk hs (disk fs);
  gd_shown : shown (disk fs);
  gd_past : Forall shown (trace fs);
}.

Lemma guarded_set_disk hs hs' d fs :
  guarded hs fs -> private_disk hs' d -> shown d -> guarded hs' (set_disk d fs).
Proof. intros [_ _ Hp] Hd Hs. split; [done|done|]. by constructor. Qed.

Lemma guarded_faults hs fs fl :
  guarded hs fs ->
  guarded hs {| disk := disk fs; faults := fl; umask_mode := umask_mode fs; trace := trace fs |}.
Proof. by intros [? ? ?]. Qed.

(** *** Contents *)

Lemma put_private hs d i ino :
  private_disk hs d -> is_Some (inodes d !! i) -> private_disk hs (put_inode i ino d).
Proof. intros [Hw Hu Ha Hf] Hi. split; [by apply put_inode_wf|done|done|done]. Qed.

Lemma put_shown d i ino :
  (forall dm, dm ∈ dirs d -> dm !! p <> Some i) -> shown d -> shown (put_inode i ino d).
Proof.
  intros Hne Hs v (dm & Hin & Hv). apply Hs. exists dm. split; [done|].
  destruct (dm !! p) as [j|] eqn:Ej; [|done]. destruct Hv as (b & -> & Hb). exists b. split; [done|].
  intros ino' Hino. apply Hb. simpl. rewrite lookup_insert_ne; [done|]. intros <-. by eapply Hne.
Qed.

(** A change of the file's own inode that keeps what it holds. *)
Lemma put_own_shown d i ino ino' :
  inodes d !! i = Some ino -> ino_data ino' = ino_data ino ->
  (ino_synced ino = true -> ino_synced ino' = true) ->
  shown d -> shown (put_inode i ino' d).
Proof.
  intros Hi Hd Hy Hs v (dm & Hin & Hv). apply Hs. exists dm. split; [done|].
  destruct (dm !! p) as [j|] eqn:Ej; [|done]. destruct Hv as (b & -> & Hb). exists b. split; [done|].
  intros ino0 Hino Hsy. destruct (decide (i = j)) as [->|Hne].
  - rewrite Hi in Hino. injection Hino as <-. rewrite <- Hd. apply Hb; [|by apply Hy].
    simpl. by rewrite lookup_insert_eq.
  - apply Hb; [|done]. simpl. by rewrite lookup_insert_ne.
Qed.

Lemma own_alone hs d r i dm :
  private_disk hs d -> r <> p -> dir d !! r = Some i -> dm ∈ dirs d -> dm !! p <> Some i.
Proof. intros Hp Hr Hi Hin Hx. by apply (pd_alone _ _ Hp dm i r). Qed.

Lemma entry_inode hs d dm r i :
  private_disk hs d -> dm ∈ dirs d -> dm !! r = Some i ->
  is_Some (inodes d !! i) /\ (i < next_ino d)%nat.
Proof. intros [[Hw1 Hw2] _ _ _] Hin Hi. split; [by eapply Hw2|]. by eapply Hw1, Hw2. Qed.

(** A name's inode becomes a handle. *)
Lemma handle_private hs d r i :
  private_disk hs d -> r <> p -> r <> tmp -> dir d !! r = Some i -> private_disk (i :: hs) d.
Proof.
  intros Hp Hr Ht Hi. pose proof Hp as [Hw Hu Ha Hf]. split; [done..|]. constructor; [|done].
  split; [by eapply entry_inode; [|left|]|]. split.
  - intros Hx. by apply Ht, (Hu r tmp i).
  - intros dm Hin. by eapply own_alone.
Qed.

(** *** Names *)

Lemma create_private hs d umask r b :
  r <> p -> dir d !! r = None -> private_disk hs d ->
  private_disk (if decide (r = tmp) then hs else next_ino d :: hs) (write_disk umask r b d).
Proof.
  intros Hr Hn [[Hw1 Hw2] Hu Ha Hf]. unfold write_disk. rewrite Hn.
  assert (forall dm q, dm ∈ dirs d -> dm !! q <> Some (next_ino d)) as Hfresh.
  { intros dm q Hin Hq. pose proof (Hw1 _ (Hw2 _ _ _ Hin Hq)). lia. }
  assert (forall i, foreign d i ->
    foreign {| inodes := <[next_ino d := {| ino_data := b; ino_mode := umask; ino_synced := false |}]> (inodes d);
               dir := <[r := next_ino d]> (dir d); old_dirs := dirs d; next_ino := S (next_ino d) |} i) as Hold.
  { intros i (Hlt & Ht & Hx). split; [simpl; lia|]. split; simpl.
    - intros [[-> <-]|[_ ?]]%lookup_insert_Some; [lia|done].
    - intros dm [->|Hin]%elem_of_cons; [|by apply Hx]. simpl. rewrite lookup_insert_ne by done.
      apply Hx. left. }
  split.
  - split; simpl.
    + intros j. rewrite lookup_insert. case_decide; [lia|]. intros ?%Hw1. lia.
    + intros dm q j [->|Hin]%elem_of_cons; simpl.
      * intros [[-> <-]|[_ Hq]]%lookup_insert_Some; [rewrite lookup_insert_eq; eauto|].
        rewrite lookup_insert_ne; [eapply Hw2; [left|done]|].
        intros <-. by apply (Hfresh (dir d) q); [left|].
      * intros Hq. rewrite lookup_insert_ne; [by eapply Hw2|]. intros <-. by eapply Hfresh.
  - intros q1 q2 i. simpl.
    intros [[<- <-]|[? H1]]%lookup_insert_Some [[<- Hq]|[? H2]]%lookup_insert_Some; try done.
    + exfalso. by apply (Hfresh (dir d) q2); [left|].
    + subst. exfalso. by apply (Hfresh (dir d) q1); [left|].
    + by apply (Hu q1 q2 i).
  - intros dm i q Hin Hi Hq. simpl.
    assert (exists dm0, dm0 ∈ dirs d /\ dm0 !! p = Some i) as (dm0 & Hin0 & Hi0).
    { apply elem_of_cons in Hin as [->|Hin]; [|by exists dm].
      simpl in Hi. rewrite lookup_insert_ne in Hi by done. exists (dir d). split; [left|done]. }
    intros [[_ <-]|[_ Hx]]%lookup_insert_Some; [by eapply Hfresh|]. by apply (Ha dm0 i q).
  - destruct (decide (r = tmp)); [by eapply Forall_impl|]. constructor; [|by eapply Forall_impl].
    split; [simpl; lia|]. split; simpl.
    + rewrite lookup_insert_ne by done. apply Hfresh. left.
    + intros dm [->|Hin]%elem_of_cons; [|by apply Hfresh]. simpl.
      rewrite lookup_insert_ne by done. apply Hfresh. left.
Qed.

Lemma create_shown hs d umask r b :
  r <> p -> dir d !! r = None -> private_disk hs d -> shown d -> shown (write_disk umask r b d).
Proof.
  intros Hr Hn [[Hw1 Hw2] _ _ _] Hs. unfold write_disk. rewrite Hn.
  intros v (dm & Hin & Hv). apply Hs. simpl in Hv.
  assert (exists dm0, dm0 ∈ dirs d /\ dm0 !! p = dm !! p) as (dm0 & Hin0 & E).
  { apply elem_of_cons in Hin as [->|Hin]; [|by exists dm].
    exists (dir d). split; [left|]. simpl. by rewrite lookup_insert_ne. }
  exists dm0. split; [done|]. rewrite E. destruct (dm !! p) as [i|] eqn:Ei; [|done].
  destruct Hv as (b' & -> & Hb). exists b'. split; [done|]. intros ino Hino. apply Hb.
  rewrite lookup_insert_ne; [done|]. intros <-.
  pose proof (Hw1 _ (Hw2 _ _ _ Hin0 E)). lia.
Qed.

(** A new directory whose names are old ones moved about by [g]. *)
Lemma moved_private hs d dm' (g : path -> path) :
  (forall q i, dm' !! q = Some i -> dir d !! g q = Some i) ->
  (forall q1 q2 i, dm' !! q1 = Some i -> dm' !! q2 = Some i -> q1 = q2) ->
  (forall q i, dm' !! q = Some i -> q <> p -> g q <> p) ->
  (g p = p \/ g p = tmp) -> (dm' !! tmp = None \/ g tmp = tmp) ->
  private_disk hs d -> private_disk hs (change_dir dm' d).
Proof.
  intros Hg Hinj Hne Hgp Hgt [[Hw1 Hw2] Hu Ha Hf]. split.
  - split; [exact Hw1|]. intros dm q i [->|Hin]%elem_of_cons; [|by eapply Hw2].
    intros Hq%Hg. eapply Hw2; [left|exact Hq].
  - exact Hinj.
  - intros dm i q Hin Hi Hq Hx. apply elem_of_cons in Hin as [->|Hin].
    + by apply Hq, (Hinj q p i).
    + apply (Ha dm i (g q)); [done|done|by eapply Hne|by apply Hg].
  - eapply Forall_impl; [exact Hf|]. intros i (Hlt & Ht & Hx). split; [done|]. split; simpl.
    + intros Hi. destruct Hgt as [Hn|Hgt]; [congruence|]. apply Hg in Hi. by rewrite Hgt in Hi.
    + intros dm [->|Hin]%elem_of_cons; [|by apply Hx]. simpl. intros Hi%Hg.
      destruct Hgp as [E|E]; rewrite E in Hi; [|done]. by apply (Hx (dir d)); [left|].
Qed.

Lemma moved_shown d dm' : dm' !! p = dir d !! p -> shown d -> shown (change_dir dm' d).
Proof.
  intros E Hs v (dm & Hin & Hv). apply Hs. apply elem_of_cons in Hin as [->|Hin]; [|by exists dm].
  exists (dir d). split; [left|]. by rewrite <- E.
Qed.

(** ** Calls *)

(** A call that keeps the guard, whatever handles are open. *)
Abbreviation harmless m := (stable guarded m).

Lemma guarded_io hs {A} (fail : bytes -> M Fs (result io_error A)) succeed Q :
  (forall junk, hoare (guarded hs) (fail junk) Q) -> hoare (guarded hs) succeed Q ->
  hoare (guarded hs) (io fail succeed) Q.
Proof. intros Hf Hs. apply hoare_io; [|done|done]. intros fs fl. apply guarded_faults. Qed.

Lemma harmless_io {A} (fail : bytes -> M Fs (result io_error A)) succeed :
  (forall junk, harmless (fail junk)) -> harmless succeed -> harmless (io fail succeed).
Proof. intros Hf Hs hs. apply guarded_io; [|apply Hs]. intros junk. apply Hf. Qed.

Lemma harmless_io_fails {A} junk : harmless (io_fails (A:=A) junk).
Proof. apply stable_ret. Qed.

Lemma write_guarded hs r b fs :
  r <> p -> guarded hs fs -> guarded hs (set_disk (write_disk (umask_mode fs) r b (disk fs)) fs).
Proof.
  intros Hr Hg. pose proof Hg as [Hp Hs _]. destruct (dir (disk fs) !! r) as [i|] eqn:Ei.
  - unfold write_disk. rewrite Ei. pose proof (entry_inode hs _ _ r i Hp (list_elem_of_here _ _) Ei) as [Hsome _].
    eapply guarded_set_disk; [exact Hg|by apply put_private|]. apply put_shown; [|done].
    intros dm. by eapply own_alone.
  - eapply guarded_set_disk; [exact Hg| |by eapply create_shown].
    pose proof (create_private hs (disk fs) (umask_mode fs) r b Hr Ei Hp) as Hc.
    destruct (decide (r = tmp)); [done|]. destruct Hc as [Hw Hu Ha Hf]. split; [done..|].
    by apply Forall_cons in Hf as [_ Hf].
Qed.

Lemma harmless_write r b : r <> p -> harmless (fs_write r b).
Proof. intros Hr. apply harmless_io; [intros junk|]; intros hs fs Hg; by apply write_guarded. Qed.

Lemma harmless_append r b : r <> p -> harmless (fs_append r b).
Proof. intros Hr. apply harmless_io; [intros junk|]; intros hs fs Hg; by apply write_guarded. Qed.

Lemma harmless_read r : harmless (fs_read r).
Proof. apply harmless_io; [intros; apply harmless_io_fails|apply stable_gets]. Qed.

Lemma harmless_len r : harmless (fs_len r).
Proof. apply harmless_io; [intros; apply harmless_io_fails|apply stable_gets]. Qed.

Lemma harmless_mode r : harmless (fs_mode r).
Proof. apply harmless_io; [intros; apply harmless_io_fails|apply stable_gets]. Qed.

Lemma harmless_create_dir d : harmless (fs_create_dir d).
Proof. apply harmless_io; [intros; apply harmless_io_fails|apply stable_ret]. Qed.

Lemma harmless_on_inode r f : r <> p -> harmless (on_inode r f).
Proof.
  intros Hr. apply harmless_io; [intros; apply harmless_io_fails|]. intros hs fs Hg.
  destruct (dir (disk fs) !! r) as [i|] eqn:Ei; [|done].
  destruct (inodes (disk fs) !! i) as [ino|] eqn:Eino; [|done]. pose proof Hg as [Hp Hs _].
  eapply guarded_set_disk; [exact Hg|by apply put_private|]. apply put_shown; [|done].
  intros dm. by eapply own_alone.
Qed.

(** A change of the file's own inode, as [on_inode] makes it. *)
Lemma harmless_own f :
  (forall ino, ino_data (f ino) = ino_data ino /\ (ino_synced ino = true -> ino_synced (f ino) = true)) ->
  harmless (on_inode p f).
Proof.
  intros Hf. apply harmless_io; [intros; apply harmless_io_fails|]. intros hs fs Hg.
  destruct (dir (disk fs) !! p) as [i|] eqn:Ei; [|done].
  destruct (inodes (disk fs) !! i) as [ino|] eqn:Eino; [|done]. pose proof Hg as [Hp Hs _].
  destruct (Hf ino) as [Hd Hy].
  eapply guarded_set_disk; [exact Hg|by apply put_private|by eapply put_own_shown].
Qed.

Lemma harmless_chmod r mode : harmless (fs_chmod r mode).
Proof. destruct (decide (r = p)) as [->|Hr]; [by apply harmless_own|by apply harmless_on_inode]. Qed.

Lemma harmless_sync r : harmless (fs_sync r).
Proof. destruct (decide (r = p)) as [->|Hr]; [by apply harmless_own|by apply harmless_on_inode]. Qed.

Lemma harmless_rename r s : r <> p -> s <> p -> r <> tmp -> s <> tmp -> r <> s -> harmless (fs_rename r s).
Proof.
  intros Hr Hs Hrt Hst Hrs. apply harmless_io; [intros; apply harmless_io_fails|]. intros hs fs Hg.
  destruct (dir (disk fs) !! r) as [i|] eqn:Ei; [|done]. pose proof Hg as [Hp Hsh _].
  set (dm := <[s := i]> (delete r (dir (disk fs)))).
  assert (forall q j, dm !! q = Some j -> dir (disk fs) !! (if decide (q = s) then r else q) = Some j) as Hdm.
  { intros q j. unfold dm. intros [[<- <-]|[Hq [_ Hj]%lookup_delete_Some]]%lookup_insert_Some.
    - by rewrite decide_True.
    - by rewrite decide_False. }
  eapply guarded_set_disk; [exact Hg| |].
  - apply (moved_private hs _ dm (fun q => if decide (q = s) then r else q)); [done| | | | |done].
    + intros q1 q2 j H1 H2. pose proof (pd_unlinked _ _ Hp _ _ _ (Hdm _ _ H1) (Hdm _ _ H2)) as E.
      assert (dm !! r = None) as Hn.
      { unfold dm. rewrite lookup_insert_ne by done. apply lookup_delete_eq. }
      repeat case_decide; congruence.
    + intros q j _ Hq. by case_decide.
    + left. by rewrite decide_False.
    + right. by rewrite decide_False.
  - apply moved_shown; [|done]. unfold dm. by rewrite lookup_insert_ne, lookup_delete_ne by done.
Qed.

Lemma harmless_remove r : r <> p -> harmless (fs_remove r).
Proof.
  intros Hr. apply harmless_io; [intros; apply harmless_io_fails|]. intros hs fs Hg.
  destruct (dir (disk fs) !! r) as [i|] eqn:Ei; [|done]. pose proof Hg as [Hp Hsh _].
  eapply guarded_set_disk; [exact Hg| |apply moved_shown; [|done]; by rewrite lookup_delete_ne].
  apply (moved_private hs _ (delete r (dir (disk fs))) id); [| |done|by left|by right|done].
  - by intros q j [_ ?]%lookup_delete_Some.
  - intros q1 q2 j [_ H1]%lookup_delete_Some [_ H2]%lookup_delete_Some.
    by apply (pd_unlinked _ _ Hp q1 q2 j).
Qed.

Lemma harmless_sync_dir d : harmless (fs_sync_dir d).
Proof.
  apply harmless_io; [intros; apply harmless_io_fails|]. intros hs fs Hg.
  pose proof Hg as [[[Hw1 Hw2] Hu Ha Hf] Hs _].
  assert (forall dm, dm ∈ [dir (disk fs)] -> dm ∈ dirs (disk fs)) as Hin.
  { intros dm ->%list_elem_of_singleton. left. }
  eapply guarded_set_disk; [exact Hg|split|].
  - split; [exact Hw1|]. intros dm q i ?%Hin. by apply Hw2.
  - done.
  - intros dm i q ?%Hin. by apply Ha.
  - eapply Forall_impl; [exact Hf|]. intros i (Hlt & Ht & Hx). split; [done|]. split; [done|].
    intros dm ?%Hin. by apply Hx.
  - intros v (dm & Hd & Hv). apply Hs. exists dm. split; [by apply Hin|done].
Qed.

(** *** Append handles *)

Lemma open_append_guarded hs r :
  r <> p -> r <> tmp ->
  hoare (guarded hs) (fs_open_append r)
    (fun o fs => match o with Ok i => guarded (i :: hs) fs | Err _ => guarded hs fs end).
Proof.
  intros Hr Ht. apply guarded_io; [intros junk; by apply hoare_ret|]. intros fs Hg.
  pose proof Hg as [Hp Hs Hpast]. destruct (dir (disk fs) !! r) as [i|] eqn:Ei.
  - split; [by eapply handle_private|done|done].
  - pose proof (create_private hs (disk fs) (umask_mode fs) r "" Hr Ei Hp) as Hc.
    rewrite decide_False in Hc by done.
    eapply guarded_set_disk; [exact Hg|exact Hc|by eapply create_shown].
Qed.

Lemma write_handle_guarded hs i b :
  i ∈ hs -> hoare (guarded hs) (fs_write_handle i b) (fun _ => guarded hs).
Proof.
  intros Hi.
  assert (forall b fs, guarded hs fs -> guarded hs (set_disk (append_inode i b (disk fs)) fs)) as Ha.
  { clear b. intros b fs Hg. pose proof Hg as [Hp Hs _]. unfold append_inode.
    destruct (inodes (disk fs) !! i) as [ino|] eqn:Eino; [|by eapply guarded_set_disk].
    eapply guarded_set_disk; [exact Hg|by apply put_private|]. apply put_shown; [|done].
    by destruct (proj1 (Forall_forall _ _) (pd_foreign _ _ Hp) i Hi) as (_ & _ & ?). }
  apply guarded_io; [intros junk|]; intros fs Hg; by apply Ha.
Qed.

Lemma guarded_drop hs i fs : guarded (i :: hs) fs -> guarded hs fs.
Proof. intros [[Hw Hu Ha Hf] Hs Hp]. split; [split; try done|done|done]. by apply Forall_cons in Hf as [_ Hf]. Qed.

(** *** Atomic writes *)

(** A file of its own: neither the protected one nor its temporary, nor is its
    temporary. *)
Definition elsewhere (q : path) : Prop := q <> p /\ q <> tmp /\ tmp_path q <> p.

Lemma harmless_atomic_write q data mode : elsewhere q -> harmless (atomic_write_mode q data mode).
Proof.
  intros (Hq & Hqt & Htq). assert (tmp_path q <> tmp) by (by intros ?%tmp_path_inj).
  pose proof (tmp_path_ne q). unfold atomic_write_mode.
  apply stable_bindR.
  { destruct (path_parent q); [|apply stable_ret].
    destruct (String.eqb _ ""); [apply stable_ret|]. apply stable_with_context, harmless_create_dir. }
  intros _. apply stable_bindR; [by apply stable_with_context, harmless_write|]. intros _.
  apply stable_bindR; [apply stable_with_context, harmless_chmod|]. intros _.
  apply stable_bindR; [apply stable_with_context, harmless_sync|]. intros _.
  apply stable_bindR; [by apply stable_with_context, harmless_rename|]. intros _.
  apply stable_bind.
  { destruct (path_parent q); [|apply stable_ret].
    apply stable_bind; [apply harmless_sync_dir|]. intros. apply stable_ret. }
  intros _. apply stable_bind; [apply harmless_chmod|]. intros. apply stable_ret.
Qed.

Section Own.
Context (data : bytes) (hs : list nat).

(** The new contents wait beside the file. *)
Definition waits (Q : Inode -> Prop) (fs : Fs) : Prop :=
  guarded hs fs /\ exists ino, inode_at (disk fs) tmp = Some ino /\ ino_data ino = data /\ Q ino.

Lemma tmp_waits :
  hoare (guarded hs) (fs_write tmp data)
    (fun r fs => match r with Ok _ => waits (fun _ => True) fs | Err _ => guarded hs fs end).
Proof.
  pose proof (tmp_path_ne p : tmp <> p) as Hne.
  apply guarded_io; [intros junk|]; intros fs Hg; [by apply write_guarded|].
  split; [by apply write_guarded|].
  pose proof (content_write_disk (umask_mode fs) tmp data (disk fs)) as Hc.
  apply content_Some in Hc as (i & ino & Hi & Hino & Hd). exists ino. split; [|done].
  apply inode_at_Some. by exists i.
Qed.

Lemma on_tmp_waits f (Q Q' : Inode -> Prop) :
  (forall ino, Q ino -> ino_data (f ino) = ino_data ino /\ Q' (f ino)) ->
  hoare (waits Q) (on_inode tmp f)
    (fun r fs => match r with Ok _ => waits Q' fs | Err _ => guarded hs fs end).
Proof.
  intros Hf fs [Hg (ino & Hino & Hd & HQ)].
  pose proof (harmless_on_inode tmp f (tmp_path_ne p) hs fs Hg) as Hg'.
  revert Hg'. unfold on_inode, io, bind, next_fault. destruct (mjoin (head (faults fs))); simpl; [done|].
  apply inode_at_Some in Hino as (i & Hi & Hi'). rewrite Hi, Hi'. simpl. intros Hg'.
  destruct (Hf ino HQ) as [Hd' HQ']. split; [exact Hg'|]. exists (f ino). split; [|by rewrite Hd'].
  apply inode_at_Some. exists i. split; [done|]. simpl. by rewrite lookup_insert_eq.
Qed.

Lemma rename_waits :
  good (Some data) ->
  hoare (waits (fun ino => ino_synced ino = true)) (fs_rename tmp p) (fun _ => guarded hs).
Proof.
  intros Hgood. pose proof (tmp_path_ne p : tmp <> p) as Hne.
  apply hoare_io; [by intros fs fl [[? ? ?] ?]|by intros junk fs [? _]|].
  intros fs [Hg (ino & Hino & Hd & Hy)]. apply inode_at_Some in Hino as (i & Hi & Hi').
  rewrite Hi. simpl. pose proof Hg as [Hp Hs _]. set (dm := <[p := i]> (delete tmp (dir (disk fs)))).
  assert (forall q j, dm !! q = Some j -> dir (disk fs) !! (if decide (q = p) then tmp else q) = Some j) as Hdm.
  { intros q j. unfold dm. intros [[<- <-]|[Hq [_ Hj]%lookup_delete_Some]]%lookup_insert_Some.
    - by rewrite decide_True.
    - by rewrite decide_False. }
  assert (dm !! tmp = None) as Hn.
  { unfold dm. rewrite lookup_insert_ne by done. apply lookup_delete_eq. }
  eapply guarded_set_disk; [exact Hg| |].
  - apply (moved_private hs _ dm (fun q => if decide (q = p) then tmp else q)); [done| | | | |done].
    + intros q1 q2 j H1 H2. pose proof (pd_unlinked _ _ Hp _ _ _ (Hdm _ _ H1) (Hdm _ _ H2)) as E.
      repeat case_decide; congruence.
    + intros q j _ Hq. by rewrite decide_False.
    + right. by rewrite decide_True.
    + by left.
  - intros v (dm' & Hin & Hv). apply elem_of_cons in Hin as [->|Hin].
    + unfold dm in Hv. simpl in Hv. rewrite lookup_insert_eq in Hv. destruct Hv as (b & -> & Hb).
      by rewrite (Hb ino Hi' Hy), Hd.
    + apply Hs. by exists dm'.
Qed.

Lemma own_atomic_write mode :
  good (Some data) -> hoare (guarded hs) (atomic_write_mode p data mode) (fun _ => guarded hs).
Proof.
  intros Hgood. unfold atomic_write_mode.
  apply hoare_bindR with (R := fun _ => guarded hs); [| |done].
  { destruct (path_parent p); [|apply stable_ret].
    destruct (String.eqb _ ""); [apply stable_ret|]. apply stable_with_context, harmless_create_dir. }
  intros []. eapply hoare_bindR; [apply hoare_with_context, tmp_waits| |done]. intros [].
  eapply hoare_bindR with (R := fun r fs => match r with
      | Ok _ => waits (fun _ => True) fs | Err _ => guarded hs fs end); [| |done].
  { by apply (hoare_with_context _ _ _ (fun _ => _)), on_tmp_waits. }
  intros []. eapply hoare_bindR with (R := fun r fs => match r with
      | Ok _ => waits (fun ino => ino_synced ino = true) fs | Err _ => guarded hs fs end); [| |done].
  { by apply (hoare_with_context _ _ _ (fun _ => _)), on_tmp_waits. }
  intros []. apply hoare_bindR with (R := fun _ => guarded hs); [| |done].
  { eapply hoare_bind; [by apply rename_waits|]. intros r. by apply hoare_ret. }
  intros _. eapply hoare_bind with (R := fun _ => guarded hs).
  { destruct (path_parent p); [|apply stable_ret].
    apply stable_bind; [apply harmless_sync_dir|]. intros. apply stable_ret. }
  intros _. apply stable_bind; [apply harmless_chmod|]. intros. apply stable_ret.
Qed.
End Own.
End Guard.

(** ** Reboots *)

(** What the process sees of a file is one of the things a crash may show. *)
Lemma current_view dk q : disk_wf dk -> crash_view dk q (content dk q).
Proof.
  intros [_ Hw]. exists (dir dk). split; [left|]. unfold content, inode_at.
  destruct (dir dk !! q) as [i|] eqn:Ei; [|done].
  destruct (Hw (dir dk) q i (list_elem_of_here _ _) Ei) as [ino Hino]. rewrite Hino.
  exists (ino_data ino). split; [done|]. congruence.
Qed.

(** A file system as a process finds it after a crash: a disk in order, on which
    the file shows something the crash of [dk] may have left. *)
Record rebooted (q : path) (dk : Disk) (fs : Fs) : Prop := {
  rb_private : private_disk q [] (disk fs);
  rb_fresh : trace fs = [];
  rb_shown : forall v, crash_view (disk fs) q v -> crash_view dk q v;
}.

(** A disk of flushed files shows exactly its files. *)
Lemma fresh_shows p v files : crash_view (fresh_disk files) p v -> v = content (fresh_disk files) p.
Proof.
  intros (dm & Hdm & Hv).
  assert (dm = dir (fresh_disk files)) as ->.
  { destruct files; apply elem_of_cons in Hdm as [->|[]%elem_of_nil]; done. }
  unfold content, inode_at. destruct (dir (fresh_disk files) !! p) as [i|] eqn:Ei; [|by subst v].
  destruct (fresh_disk_wf files) as [_ Hw].
  destruct (Hw _ p i (list_elem_of_here _ _) Ei) as [ino Hino]. rewrite Hino.
  destruct Hv as (b & -> & Hb). rewrite (Hb ino Hino); [done|].
  clear -Hino. revert Hino. induction files as [|[q c] files IH]; simpl; [by rewrite lookup_empty|].
  intros [[_ <-]|[_ Hi]]%lookup_insert_Some; [done|by apply IH].
Qed.

Lemma fresh_private p files : private_disk p [] (fresh_disk files).
Proof.
  split; [apply fresh_disk_wf|apply fresh_unlinked| |constructor].
  intros dm i r Hdm Hi Hr Hx. by apply (fresh_no_alias p r files (not_eq_sym Hr) dm i Hdm Hi).
Qed.

Lemma shows_content dk p b : content dk p = Some b -> crash_view dk p (Some b).
Proof.
  unfold content, inode_at. destruct (dir dk !! p) as [i|] eqn:Ei; [|done]. intros Hc.
  exists (dir dk). split; [left|]. rewrite Ei. exists b. split; [done|]. intros ino Hino _.
  rewrite Hino in Hc. by injection Hc.
Qed.
