(* ===== verification/Time.v ===== *)
(** Calendar time, the [chrono] crate as the program uses it.

    An instant ([DateTime<Utc>]) and a span ([Duration]) are integers of
    nanoseconds; an instant counts from the Unix epoch.  The crate's range of
    representable instants and its checked operations are the class [Chrono],
    with the laws its documentation states. *)

From S2P Require Import Prelude.

Definition instant : Type := Z.
Definition duration : Type := Z.

Definition NANOS : Z := 1000000000.
Definition secs (n : Z) : duration := n * NANOS.
Definition mins (n : Z) : duration := secs (60 * n).
Definition hours (n : Z) : duration := secs (3600 * n).
Definition weeks (n : Z) : duration := secs (604800 * n).

Class Chrono := {
  MIN_UTC : instant;
  MAX_UTC : instant;
  (** [DateTime::checked_add_signed]: [None] outside the representable range. *)
  checked_add_signed : instant -> duration -> option instant;
  checked_add_spec t d :
    checked_add_signed t d =
      if bool_decide (MIN_UTC <= t + d <= MAX_UTC) then Some (t + d) else None;
  (** [DateTime::from_timestamp] of whole seconds. *)
  from_timestamp : Z -> option instant;
  from_timestamp_spec n :
    from_timestamp n =
      if bool_decide (MIN_UTC <= n * NANOS <= MAX_UTC) then Some (n * NANOS) else None;
  (** [Duration::from_std]: [None] when the span is out of range. *)
  duration_from_std : duration -> option duration;
  duration_from_std_spec d d' : duration_from_std d = Some d' -> d' = d;
  (** how an instant is written *)
  to_rfc3339 : instant -> string;
}.

(** An instant the crate can represent. *)
Definition instant_ok `{Chrono} (t : instant) : Prop := MIN_UTC <= t <= MAX_UTC.

(** [Duration::to_std]: negative spans have no counterpart. *)
Definition to_std (d : duration) : option duration := if d <? 0 then None else Some d.

(** [signed_duration_since]. *)
Definition since (t u : instant) : duration := t - u.

Lemma checked_add_ge `{Chrono} t d u :
  0 <= d -> checked_add_signed t d = Some u -> t <= u /\ u = t + d.
Proof. rewrite checked_add_spec. case_bool_decide; [|done]. intros ? [= <-]. lia. Qed.

Lemma checked_add_default_ge `{Chrono} t d e :
  instant_ok t -> 0 <= d -> t <= e -> t <= default e (checked_add_signed t d).
Proof.
  intros Ht Hd He. destruct (checked_add_signed t d) eqn:E; simpl; [|done].
  by apply checked_add_ge in E as [? _].
Qed.

(** The crate's range of years, for the witnesses. *)
Definition chrono_range (d : duration) : option duration :=
  if Z.abs d <=? I32_MAX * NANOS then Some d else None.

Lemma chrono_range_spec d d' : chrono_range d = Some d' -> d' = d.
Proof. unfold chrono_range. destruct (_ <=? _); by intros [=]. Qed.

Definition witness_chrono : Chrono :=
  {| MIN_UTC := -8334601228800 * NANOS;
     MAX_UTC := 8210266876800 * NANOS - 1;
     checked_add_signed := fun t d =>
       if bool_decide (-8334601228800 * NANOS <= t + d <= 8210266876800 * NANOS - 1)
       then Some (t + d) else None;
     checked_add_spec := fun t d => eq_refl;
     from_timestamp := fun n =>
       if bool_decide (-8334601228800 * NANOS <= n * NANOS <= 8210266876800 * NANOS - 1)
       then Some (n * NANOS) else None;
     from_timestamp_spec := fun n => eq_refl;
     duration_from_std := chrono_range;
     duration_from_std_spec := chrono_range_spec;
     to_rfc3339 := fun t => pretty t |}.
