(* ===== verification/Quarantine.v ===== *)
(** The broken-piece quarantine: the registry entry after a trip and the
    detector that decides when a torrent trips ([engine/quarantine.rs]), with
    the completion rule that lifts an entry ([state.rs]). *)

From S2P Require Import Prelude Time.

(** [state::Quarantine]. *)
Record Quarantine := {
  q_title : string;
  q_reason : string;
  q_quarantined_at : instant;
  q_cooldown_until : instant;
  q_attempts : Z;
  q_wasted_bytes : Z;
}.

Record Trip := {
  wasted_bytes : Z;
  windows : Z;
}.

#[export] Instance trip_eq_dec : EqDecision Trip.
Proof. solve_decision. Defined.

Section Entry.
Context `{Chrono}.

Definition far_future (now : instant) : instant :=
  default MAX_UTC (checked_add_signed now (weeks 520)).

Definition next_quarantine_entry (prev : option Quarantine) (title : string)
    (reason_builder : Z -> string) (trip : Trip) (now : instant)
    (cooldown : duration) (max_retries : Z) : Quarantine :=
  let attempts := wrap32 (default 0 (q_attempts <$> prev) + 1) in
  let indefinite := far_future now in
  let cooldown_until :=
    if (0 <? max_retries) && (max_retries <? attempts) then indefinite
    else default indefinite (checked_add_signed now cooldown) in
  {| q_title := title; q_reason := reason_builder attempts; q_quarantined_at := now;
     q_cooldown_until := cooldown_until; q_attempts := attempts;
     q_wasted_bytes := wasted_bytes trip |}.

Lemma far_future_ge now : instant_ok now -> now <= far_future now.
Proof.
  intros Hn. unfold far_future. apply checked_add_default_ge; [done|by vm_compute|apply Hn].
Qed.
End Entry.

(** [completion_lifts] of [state.rs]. *)
Definition completion_lifts (checked size_bytes : Z) : bool :=
  (0 <? size_bytes) && (size_bytes <=? checked).

(** ** The detector *)

Record WatchState := {
  last_checked : Z;
  last_fetched : Z;
  wasted_since_progress : Z;
  windows_without_progress : Z;
}.

(** The detector is its [watch] map. *)
Abbreviation Detector := (gmap string WatchState).

Definition baseline (checked fetched : Z) : WatchState :=
  {| last_checked := checked; last_fetched := fetched;
     wasted_since_progress := 0; windows_without_progress := 0 |}.

Definition observe (info_hash : string) (checked fetched discard_threshold min_windows : Z)
    : M Detector (option Trip) := fun watch =>
  match watch !! info_hash with
  | None => (None, <[info_hash := baseline checked fetched]> watch)
  | Some ws =>
      if (checked <? last_checked ws) || (fetched <? last_fetched ws) then
        (None, <[info_hash := baseline checked fetched]> watch)
      else
        let checked_delta := checked - last_checked ws in
        let fetched_delta := fetched - last_fetched ws in
        if 0 <? checked_delta then
          (None, <[info_hash := baseline checked fetched]> watch)
        else
          let ws' :=
            {| last_checked := checked; last_fetched := fetched;
               wasted_since_progress := sat_add64 (wasted_since_progress ws) fetched_delta;
               windows_without_progress := sat_add32 (windows_without_progress ws) 1 |} in
          ((if (discard_threshold <=? wasted_since_progress ws')
               && (Z.max min_windows 1 <=? windows_without_progress ws')
            then Some {| wasted_bytes := wasted_since_progress ws';
                         windows := windows_without_progress ws' |}
            else None),
           <[info_hash := ws']> watch)
  end.

Definition forget (info_hash : string) : M Detector unit := modify (delete info_hash).

Definition retain_only (observed : gset string) : M Detector unit :=
  modify (filter (fun kv => kv.1 ∈ observed)).

(** ** Escalation *)

(** The entry after each of a sequence of trips of one hash. *)
Fixpoint after_trips `{Chrono} (title : string) (reason : Z -> string)
    (trips : list (Trip * instant)) (cooldown : duration) (max_retries : Z)
    (prev : option Quarantine) : option Quarantine :=
  match trips with
  | [] => prev
  | (trip, now) :: rest =>
      after_trips title reason rest cooldown max_retries
        (Some (next_quarantine_entry prev title reason trip now cooldown max_retries))
  end.

Lemma after_trips_app `{Chrono} title reason l l' cd mr prev :
  after_trips title reason (l ++ l') cd mr prev =
  after_trips title reason l' cd mr (after_trips title reason l cd mr prev).
Proof. revert prev. induction l as [|[? ?] l IH]; intros prev; simpl; auto. Qed.

Lemma after_trips_attempts `{Chrono} title reason l cd mr :
  Z.of_nat (length l) <= U32_MAX ->
  default 0 (q_attempts <$> after_trips title reason l cd mr None) = Z.of_nat (length l).
Proof.
  induction l as [|[t n] l IH] using rev_ind; [done|].
  rewrite length_app. simpl. intros Hl. rewrite after_trips_app. simpl.
  rewrite IH by lia. rewrite wrap32_small by ulia. lia.
Qed.

(** After [n] trips of a hash the registry entry counts [n] attempts; the
    cooldown is the configured one for the first [max_retries] attempts (always,
    when [max_retries] is 0) and the far-future sentinel from attempt
    [max_retries + 1] on, and it never lies in the past. *)
Theorem quarantine_escalation `{Chrono} title reason trips trip now cooldown max_retries :
  let n := Z.of_nat (length trips) + 1 in
  n <= U32_MAX -> instant_ok now -> 0 <= cooldown ->
  exists q,
    after_trips title reason (trips ++ [(trip, now)]) cooldown max_retries None = Some q /\
    q_attempts q = n /\ q_wasted_bytes q = wasted_bytes trip /\ q_quarantined_at q = now /\
    now <= q_cooldown_until q /\
    (0 < max_retries < n -> q_cooldown_until q = far_future now) /\
    (max_retries <= 0 \/ n <= max_retries ->
       q_cooldown_until q = default (far_future now) (checked_add_signed now cooldown)).
Proof.
  cbv zeta. intros Hn Hnow Hcd. rewrite after_trips_app. simpl.
  eexists. split; [reflexivity|]. simpl. rewrite after_trips_attempts by lia.
  rewrite wrap32_small by ulia. split; [done|]. split; [done|]. split; [done|].
  pose proof (far_future_ge now Hnow) as Hff.
  destruct (Z.ltb_spec 0 max_retries), (Z.ltb_spec max_retries (Z.of_nat (length trips) + 1));
    simpl; (split; [first [exact Hff|by apply checked_add_default_ge]|]);
    split; intros; try done; lia.
Qed.

Lemma quarantine_escalation_witness :
  let trips := [({| wasted_bytes := 5; windows := 3 |}, secs 10)] in
  let trip := {| wasted_bytes := 9; windows := 3 |} in
  exists q,
    @after_trips witness_chrono "t" (fun _ => "r") (trips ++ [(trip, secs 20)]) (hours 24) 1 None
      = Some q /\
    q_attempts q = 2 /\ q_wasted_bytes q = 9 /\ q_quarantined_at q = secs 20 /\
    secs 20 <= q_cooldown_until q /\
    (0 < 1 < 2 -> q_cooldown_until q = @far_future witness_chrono (secs 20)) /\
    (1 <= 0 \/ 2 <= 1 ->
       q_cooldown_until q = default (@far_future witness_chrono (secs 20))
         (@checked_add_signed witness_chrono (secs 20) (hours 24))).
Proof.
  apply (@quarantine_escalation witness_chrono "t" (fun _ => "r")
           [({| wasted_bytes := 5; windows := 3 |}, secs 10)]
           {| wasted_bytes := 9; windows := 3 |} (secs 20) (hours 24) 1).
  - by vm_compute.
  - split; by vm_compute.
  - by vm_compute.
Defined.

(** ** The detector against the history of counters *)

(** What happens to the detector between restarts. *)
Inductive watch_event :=
  | Observe (info_hash : string) (checked fetched discard_threshold min_windows : Z)
  | Forget (info_hash : string)
  | RetainOnly (observed : gset string).

Definition feed (d : Detector) (e : watch_event) : Detector :=
  match e with
  | Observe h c f t m => (observe h c f t m d).2
  | Forget h => (forget h d).2
  | RetainOnly o => (retain_only o d).2
  end.

(** The counters of one hash since it was last dropped, latest first. *)
Definition recorded (hash : string) (past : list (Z * Z)) (e : watch_event) : list (Z * Z) :=
  match e with
  | Observe h c f _ _ => if decide (h = hash) then (c, f) :: past else past
  | Forget h => if decide (h = hash) then [] else past
  | RetainOnly o => if decide (hash ∈ o) then past else []
  end.

(** The passes without progress that end a history, and the bytes they
    fetched.  A pass with a verified byte, or with a counter that went back,
    ends the run. *)
Fixpoint frozen (past : list (Z * Z)) : nat * Z :=
  match past with
  | (c, f) :: (((c', f') :: _) as rest) =>
      if (c =? c') && (f' <=? f)
      then let '(n, w) := frozen rest in (S n, w + (f - f'))
      else (0%nat, 0)
  | _ => (0%nat, 0)
  end.

Lemma frozen_step c f c' f' past :
  frozen ((c, f) :: (c', f') :: past) =
    if (c =? c') && (f' <=? f)
    then (S (frozen ((c', f') :: past)).1, (frozen ((c', f') :: past)).2 + (f - f'))
    else (0%nat, 0).
Proof.
  change (frozen ((c, f) :: (c', f') :: past)) with
    (if (c =? c') && (f' <=? f)
     then let '(n, w) := frozen ((c', f') :: past) in (S n, w + (f - f')) else (0%nat, 0)).
  by destruct (frozen ((c', f') :: past)).
Qed.

(** The bytes of a run are within the counter. *)
Lemma frozen_bytes c f past :
  Forall (fun p => in_u64 p.2) ((c, f) :: past) -> 0 <= (frozen ((c, f) :: past)).2 <= f.
Proof.
  revert c f. induction past as [|[c' f'] past IH]; intros c f Hf.
  - apply Forall_cons in Hf as [Hf _]. simpl in *. ulia.
  - apply Forall_cons in Hf as [Hf Hrest]. simpl in Hf. specialize (IH c' f' Hrest).
    rewrite frozen_step. destruct (Z.eqb_spec c c'), (Z.leb_spec f' f); cbn [andb fst snd]; ulia.
Qed.

(** What the detector holds for a hash with a given history. *)
Definition watches (d : Detector) (hash : string) (past : list (Z * Z)) : Prop :=
  match past with
  | [] => d !! hash = None
  | (c, f) :: _ =>
      d !! hash = Some {| last_checked := c; last_fetched := f;
                          wasted_since_progress := (frozen past).2;
                          windows_without_progress := Z.min (Z.of_nat (frozen past).1) U32_MAX |}
  end.

Definition trip_rule (past : list (Z * Z)) (discard_threshold min_windows : Z) : option Trip :=
  let '(n, w) := frozen past in
  let n := Z.min (Z.of_nat n) U32_MAX in
  if (discard_threshold <=? w) && (Z.max min_windows 1 <=? n)
  then Some {| wasted_bytes := w; windows := n |} else None.

Lemma observe_spec d hash past c f thr mw :
  Forall (fun p => in_u64 p.2) ((c, f) :: past) -> watches d hash past ->
  (observe hash c f thr mw d).1 = trip_rule ((c, f) :: past) thr mw /\
  watches (observe hash c f thr mw d).2 hash ((c, f) :: past).
Proof.
  intros Hf Hd. unfold observe, trip_rule, watches in *. destruct past as [|[c' f'] past].
  - simpl in Hd. rewrite Hd. cbn [fst snd frozen watches]. rewrite lookup_insert_eq.
    replace (Z.max mw 1 <=? _) with false by (symmetry; apply Z.leb_gt; ulia).
    rewrite andb_false_r. done.
  - rewrite Hd. cbn [last_checked last_fetched wasted_since_progress windows_without_progress].
    assert (0 <= (frozen ((c', f') :: past)).2 <= f') as Hb
      by (apply frozen_bytes; by apply Forall_cons in Hf as [_ ?]).
    apply Forall_cons in Hf as [Hf Hrest]. simpl in Hf.
    rewrite frozen_step.
    destruct (Z.ltb_spec c c'); cbn [orb].
    { rewrite (proj2 (Z.eqb_neq c c')) by lia. cbn [andb fst snd]. rewrite lookup_insert_eq.
      replace (Z.max mw 1 <=? _) with false by (symmetry; apply Z.leb_gt; ulia).
      by rewrite andb_false_r. }
    destruct (Z.ltb_spec f f'); cbn [orb].
    { rewrite (proj2 (Z.leb_gt f' f)) by lia. rewrite andb_false_r. cbn [fst snd]. rewrite lookup_insert_eq.
      replace (Z.max mw 1 <=? _) with false by (symmetry; apply Z.leb_gt; ulia).
      by rewrite andb_false_r. }
    rewrite (proj2 (Z.leb_le f' f)) by lia. rewrite andb_true_r.
    destruct (Z.ltb_spec 0 (c - c')).
    { rewrite (proj2 (Z.eqb_neq c c')) by lia. cbn [andb fst snd]. rewrite lookup_insert_eq.
      replace (Z.max mw 1 <=? _) with false by (symmetry; apply Z.leb_gt; ulia).
      by rewrite andb_false_r. }
    rewrite (proj2 (Z.eqb_eq c c')) by lia. cbn [andb fst snd]. rewrite lookup_insert_eq.
    rewrite sat_add64_exact by ulia.
    replace (sat_add32 (Z.min (Z.of_nat (frozen ((c', f') :: past)).1) U32_MAX) 1)
      with (Z.min (Z.of_nat (S (frozen ((c', f') :: past)).1)) U32_MAX) by ulia.
    done.
Qed.

Lemma feed_watches d hash past e :
  (match e with Observe h c f _ _ => h = hash -> in_u64 f | _ => True end) ->
  Forall (fun p => in_u64 p.2) past ->
  watches d hash past -> watches (feed d e) hash (recorded hash past e).
Proof.
  intros He Hp Hd. destruct e as [h c f thr mw|h|o]; simpl.
  - case_decide as Hh.
    + subst. apply observe_spec; [|done]. constructor; [by apply He|done].
    + assert ((observe h c f thr mw d).2 !! hash = d !! hash) as Hsame.
      { unfold observe. repeat case_match; simpl; by rewrite lookup_insert_ne. }
      destruct past as [|[? ?] ?]; simpl in *; by rewrite Hsame.
  - case_decide as Hh; [subst; simpl; by rewrite lookup_delete_eq|].
    destruct past as [|[? ?] ?]; simpl in *; by rewrite lookup_delete_ne.
  - case_decide as Hh; simpl.
    + destruct past as [|[? ?] ?]; simpl in *.
      * apply map_lookup_filter_None. by left.
      * apply map_lookup_filter_Some. done.
    + apply map_lookup_filter_None. right. by intros x _.
Qed.

(** C22: after any sequence of observations, drops and pruning of any hashes,
    the detector's verdict on an observation is the rule over the whole
    recorded history of that hash: it trips exactly when the latest run of
    passes without a verified byte is at least [max min_windows 1] long and
    fetched at least the threshold, and it reports that run's bytes exactly
    (nothing saturates, no subtraction underflows). *)
Theorem detector_matches_history hash events checked fetched threshold min_windows :
  Forall (fun e => match e with Observe _ _ f _ _ => in_u64 f | _ => True end) events ->
  in_u64 fetched ->
  let d := foldl feed ∅ events in
  let past := foldl (recorded hash) [] events in
  (observe hash checked fetched threshold min_windows d).1 =
    trip_rule ((checked, fetched) :: past) threshold min_windows.
Proof.
  intros He Hf. cbv zeta.
  assert (Forall (fun p => in_u64 p.2) (foldl (recorded hash) [] events) /\
          watches (foldl feed ∅ events) hash (foldl (recorded hash) [] events)) as [Hp Hw].
  { induction events as [|e events IH] using rev_ind; [split; [constructor|done]|].
    apply Forall_app in He as [He1 He2]. rewrite Forall_singleton in He2.
    specialize (IH He1) as [IHp IHw]. rewrite !foldl_app. simpl. split.
    - destruct e; simpl in *; case_decide; first [done|by constructor].
    - apply feed_watches; [|done|done]. by destruct e. }
  apply observe_spec; [by constructor|done].
Qed.

Lemma detector_matches_history_witness :
  let events := [Observe "h" 10 100 50 2; Observe "g" 1 1 50 2; Observe "h" 10 130 50 2] in
  (observe "h" 10 160 50 2 (foldl feed ∅ events)).1 =
    trip_rule ((10, 160) :: foldl (recorded "h") [] events) 50 2.
Proof.
  apply detector_matches_history; [repeat constructor; vm_compute; congruence|].
  vm_compute. split; congruence.
Defined.
