(* ===== verification/State.v ===== *)
(** The persisted view of what the node holds, [state.rs]: the torrent map, the
    quarantine registry, and the operations that change them and save the file
    in one atomic write.  The JSON encoding ([serde_json]) is the class
    [StateCodec] with its round-trip law. *)

From S2P Require Import Prelude Text Fs Persist Time Quarantine.

Record Torrent := {
  t_info_hash : string;
  t_title : string;
  t_size_bytes : Z;
  t_storage_location : path;
  t_added_at : instant;
  t_piece_count : Z;
  t_last_known_seeders : Z;
  t_completed_pieces : Z;
  t_last_progress_at : option instant;
  t_last_confirmed_in_catalog_at : option instant;
}.

Record Stored := {
  stored_torrents : gmap string Torrent;
  stored_quarantined : gmap string Quarantine;
}.

(** [serde_json] on [Stored]: what was written parses back. *)
Class StateCodec := {
  to_string_pretty : Stored -> option bytes;
  from_slice : bytes -> option Stored;
  from_to s b : to_string_pretty s = Some b -> from_slice b = Some s;
}.

Record State := {
  state_path : path;
  torrents : gmap string Torrent;
  quarantined : gmap string Quarantine;
}.

Definition set_torrents (m : gmap string Torrent) (st : State) : State :=
  {| state_path := state_path st; torrents := m; quarantined := quarantined st |}.
Definition set_quarantined (m : gmap string Quarantine) (st : State) : State :=
  {| state_path := state_path st; torrents := torrents st; quarantined := m |}.

(** [bump_progress]: what [update_progress_many] does to one torrent. *)
Definition bump_progress (checked : Z) (now : instant) (t : Torrent) : Torrent :=
  {| t_info_hash := t_info_hash t; t_title := t_title t; t_size_bytes := t_size_bytes t;
     t_storage_location := t_storage_location t; t_added_at := t_added_at t;
     t_piece_count := t_piece_count t; t_last_known_seeders := t_last_known_seeders t;
     t_completed_pieces := checked; t_last_progress_at := Some now;
     t_last_confirmed_in_catalog_at := t_last_confirmed_in_catalog_at t |}.

Definition relocate (p : path) (t : Torrent) : Torrent :=
  {| t_info_hash := t_info_hash t; t_title := t_title t; t_size_bytes := t_size_bytes t;
     t_storage_location := p; t_added_at := t_added_at t;
     t_piece_count := t_piece_count t; t_last_known_seeders := t_last_known_seeders t;
     t_completed_pieces := t_completed_pieces t; t_last_progress_at := t_last_progress_at t;
     t_last_confirmed_in_catalog_at := t_last_confirmed_in_catalog_at t |}.

Section State.
Context `{StateCodec}.

Abbreviation StateM := (M (State * Fs)).

Definition of_state (st : State) : Stored :=
  {| stored_torrents := torrents st; stored_quarantined := quarantined st |}.

Definition load (p : path) : M Fs (result error State) :=
  let* r := fs_read p in
  match r with
  | Err NotFound => ret (Ok {| state_path := p; torrents := ∅; quarantined := ∅ |})
  | Err OtherIo => ret (Err ("reading " +:+ p))
  | Ok data =>
      match from_slice data with
      | Some on_disk =>
          ret (Ok {| state_path := p; torrents := stored_torrents on_disk;
                     quarantined := stored_quarantined on_disk |})
      | None => ret (Err ("parsing " +:+ p))
      end
  end.

Definition save : StateM (result error unit) := fun '(st, fs) =>
  match to_string_pretty (of_state st) with
  | None => (Err "marshalling state", (st, fs))
  | Some data => let '(r, fs') := atomic_write (state_path st) data fs in (r, (st, fs'))
  end.

Definition on_state (f : State -> State) : StateM unit := modify (fun '(st, fs) => (f st, fs)).
Definition with_state {A} (f : State -> A) : StateM A := gets (fun '(st, fs) => f st).

Definition all `{HashIter} (st : State) : list Torrent := hash_values (torrents st).
Definition get (st : State) (hex : string) : option Torrent := torrents st !! hex.

Definition put (t : Torrent) : StateM (result error unit) :=
  on_state (fun st => set_torrents (<[t_info_hash t := t]> (torrents st)) st) ;;; save.

Definition update (hex : string) (f : Torrent -> Torrent) : StateM (result error bool) :=
  let* t := with_state (fun st => torrents st !! hex) in
  match t with
  | Some t =>
      on_state (fun st => set_torrents (<[hex := f t]> (torrents st)) st) ;;;
      let? _ := save in ret (Ok true)
  | None => ret (Ok false)
  end.

Definition remove (hex : string) : StateM (result error unit) :=
  on_state (fun st => set_torrents (delete hex (torrents st)) st) ;;; save.

Definition quarantine_count (st : State) : nat := size (quarantined st).
Definition quarantined_keys (st : State) : gset string := dom (quarantined st).
Definition quarantine_get (st : State) (hex : string) : option Quarantine := quarantined st !! hex.

Definition quarantine_put (hex : string) (q : Quarantine) : StateM (result error unit) :=
  on_state (fun st => set_quarantined (<[hex := q]> (quarantined st)) st) ;;; save.

Definition quarantine_and_remove (hex : string) (q : Quarantine) : StateM (result error unit) :=
  on_state (fun st => set_quarantined (<[hex := q]> (quarantined st)) st) ;;;
  on_state (fun st => set_torrents (delete hex (torrents st)) st) ;;;
  save.

Definition quarantine_remove_many (hashes : list string) : StateM (result error nat) :=
  let* removed := foldM (fun removed hex =>
    let* q := with_state (fun st => quarantined st !! hex) in
    on_state (fun st => set_quarantined (delete hex (quarantined st)) st) ;;;
    ret (if q then S removed else removed)) 0%nat hashes in
  if (0 <? removed)%nat then (let? _ := save in ret (Ok removed)) else ret (Ok removed).

Definition quarantine_remove (hex : string) : StateM (result error bool) :=
  let* q := with_state (fun st => quarantined st !! hex) in
  on_state (fun st => set_quarantined (delete hex (quarantined st)) st) ;;;
  match q with
  | Some _ => let? _ := save in ret (Ok true)
  | None => ret (Ok false)
  end.

Definition lift_completed (hex : string) (checked size_bytes : Z) : StateM (result error bool) :=
  let* q := with_state (fun st => quarantined st !! hex) in
  if negb (completion_lifts checked size_bytes) || negb (if q then true else false)
  then ret (Ok false)
  else quarantine_remove hex.

Definition update_each (updates : list (string * (Torrent -> Torrent))) : StateM (result error nat) :=
  let* changed := foldM (fun changed '(hex, f) =>
    let* t := with_state (fun st => torrents st !! hex) in
    match t with
    | Some t =>
        on_state (fun st => set_torrents (<[hex := f t]> (torrents st)) st) ;;; ret (S changed)
    | None => ret changed
    end) 0%nat updates in
  if (0 <? changed)%nat then (let? _ := save in ret (Ok changed)) else ret (Ok changed).

(** Whether a verified byte count is news for a torrent. *)
Definition progressed (checked : Z) (t : Torrent) : bool :=
  (t_completed_pieces t <? checked) || (if t_last_progress_at t then false else true).

Definition update_progress_many (progress : list (string * Z)) (now : instant)
    : StateM (result error bool) :=
  let* changed := foldM (fun changed '(hex, checked) =>
    let* t := with_state (fun st => torrents st !! hex) in
    match t with
    | None => ret changed
    | Some t =>
        if progressed checked t then
          on_state (fun st =>
            set_torrents (<[hex := bump_progress checked now t]> (torrents st)) st) ;;; ret true
        else ret changed
    end) false progress in
  if (changed : bool) then (let? _ := save in ret (Ok true)) else ret (Ok false).

(** [iter().sum()] wraps in a release build. *)
Definition bytes_used `{HashIter} (st : State) (location : path) : Z :=
  foldl (fun acc t => wrap64 (acc + t_size_bytes t)) 0
    (filter (fun t => t_storage_location t = location) (all st)).

(** What [rekey_storage_locations] does to one torrent; [canonicalize] is the
    file system's (it fails for a directory that does not exist). *)
Definition rekey (canonicalize : path -> option path) (locations : list path) (t : Torrent)
    : Torrent :=
  if decide (t_storage_location t ∈ locations) then t
  else match canonicalize (t_storage_location t) with
       | Some canon =>
           if decide (canon ∈ locations /\ t_storage_location t <> canon)
           then relocate canon t else t
       | None => t
       end.

Definition rekey_storage_locations (canonicalize : path -> option path) (locations : list path)
    : StateM bool :=
  let* before := with_state torrents in
  on_state (fun st => set_torrents (rekey canonicalize locations <$> torrents st) st) ;;;
  let changed := existsb (fun kt => negb (String.eqb
    (t_storage_location (rekey canonicalize locations kt.2)) (t_storage_location kt.2)))
    (map_to_list before) in
  (if changed then (let* _ := save in ret tt) else ret tt) ;;;
  ret changed.
End State.

(** ** Every operation keeps the file and the memory in step *)

Section Persistence.
Context `{StateCodec}.

(** The file parses to the in-memory maps. *)
Definition persisted (s : State * Fs) : Prop :=
  exists b, content (disk s.2) (state_path s.1) = Some b /\ from_slice b = Some (of_state s.1).

(** The next atomic write of the file is safe. *)
Definition writable (s : State * Fs) : Prop :=
  disk_wf (disk s.2) /\ no_alias (disk s.2) (tmp_path (state_path s.1)) (state_path s.1).

Lemma save_spec st fs :
  writable (st, fs) ->
  let '(r, (st', fs')) := save (st, fs) in
  st' = st /\ writable (st', fs') /\ (is_ok r = true -> persisted (st', fs')).
Proof.
  intros [Hwf Hn]. unfold save.
  destruct (to_string_pretty (of_state st)) as [data|] eqn:E; [|done].
  pose proof (atomic_write_crash_safe (state_path st) data 420 fs Hwf Hn) as Hw.
  unfold atomic_write. destruct (atomic_write_mode _ _ _ _) as [r fs'].
  destruct Hw as (new & _ & _ & Hr & Hwf' & Hn'). split; [done|]. split; [done|].
  intros Hok. rewrite Hok in Hr. destruct Hr as (ino & Hino & Hd & _).
  exists data. split; [|by apply from_to]. unfold content. simpl in *. by rewrite Hino, <- Hd.
Qed.

(** The operations a caller may run, with their results reduced to success. *)
Inductive op :=
  | Put (t : Torrent)
  | Update (hex : string) (f : Torrent -> Torrent)
  | Remove (hex : string)
  | QuarantinePut (hex : string) (q : Quarantine)
  | QuarantineAndRemove (hex : string) (q : Quarantine)
  | QuarantineRemoveMany (hashes : list string)
  | QuarantineRemove (hex : string)
  | LiftCompleted (hex : string) (checked size_bytes : Z)
  | UpdateEach (updates : list (string * (Torrent -> Torrent)))
  | UpdateProgressMany (progress : list (string * Z)) (now : instant).

Definition forget_value {S E A} (m : M S (result E A)) : M S bool :=
  let* r := m in ret (is_ok r).

Lemma forget_value_bind {S E A B} (m : M S A) (k : A -> M S (result E B)) s :
  forget_value (bind m k) s = bind m (fun a => forget_value (k a)) s.
Proof. unfold forget_value, bind. by destruct (m s). Qed.

Definition run_op (o : op) : M (State * Fs) bool :=
  match o with
  | Put t => forget_value (put t)
  | Update h f => forget_value (update h f)
  | Remove h => forget_value (remove h)
  | QuarantinePut h q => forget_value (quarantine_put h q)
  | QuarantineAndRemove h q => forget_value (quarantine_and_remove h q)
  | QuarantineRemoveMany hs => forget_value (quarantine_remove_many hs)
  | QuarantineRemove h => forget_value (quarantine_remove h)
  | LiftCompleted h c z => forget_value (lift_completed h c z)
  | UpdateEach us => forget_value (update_each us)
  | UpdateProgressMany ps now => forget_value (update_progress_many ps now)
  end.

(** The postcondition every operation meets: the path is kept, the next write
    is safe, and after a success the file holds the memory. *)
Definition in_step (p : path) (ok : bool) (s : State * Fs) : Prop :=
  state_path s.1 = p /\ writable s /\ (ok = true -> persisted s).

Lemma save_in_step {A} p (k : A) :
  hoare (fun s => state_path s.1 = p /\ writable s)
    (forget_value (let? _ := save in ret (Ok (E:=error) k))) (in_step p).
Proof.
  intros [st fs] [Hp Hw]. unfold forget_value, bindR, bind.
  pose proof (save_spec st fs Hw) as Hs. destruct (save (st, fs)) as [[u|e] [st' fs']];
    destruct Hs as (-> & ? & Hok); (split; [done|split; [done|]]); [by intros _; apply Hok|done].
Qed.

Lemma save_in_step' p :
  hoare (fun s => state_path s.1 = p /\ writable s) (forget_value save) (in_step p).
Proof.
  intros [st fs] [Hp Hw]. unfold forget_value, bind.
  pose proof (save_spec st fs Hw) as Hs. destruct (save (st, fs)) as [r [st' fs']].
  destruct Hs as (-> & ? & Hok). split; [done|]. split; [done|]. exact Hok.
Qed.

(** An in-memory change followed by a save. *)
Lemma change_then_save p f (m : M (State * Fs) (result error unit)) :
  (forall st, state_path (f st) = state_path st) ->
  (forall s, m s = (on_state f ;;; save) s) ->
  hoare (in_step p true) (forget_value m) (in_step p).
Proof.
  intros Hf Hm [st fs] (Hp & Hw & _). unfold forget_value, bind. rewrite Hm.
  apply (save_in_step' p (f st, fs)). simpl in *. unfold writable in *. simpl in *.
  by rewrite Hf.
Qed.

(** A batch that changes memory and saves when it changed something: if it
    did not, memory must be as it was. *)
Lemma batch_then_save {A B} p (m : M (State * Fs) A) (dirty : A -> bool) (v v' : A -> B) :
  (forall s, let '(a, s') := m s in
     s'.2 = s.2 /\ state_path s'.1 = state_path s.1 /\ (dirty a = false -> s' = s)) ->
  hoare (in_step p true)
    (forget_value (let* a := m in
       if dirty a then (let? _ := save in ret (Ok (v a))) else ret (Ok (v' a))))
    (in_step p).
Proof.
  intros Hm [st fs] (Hp & Hw & Hpers). specialize (Hm (st, fs)).
  rewrite forget_value_bind. unfold bind at 1 2. destruct (m (st, fs)) as [a [st' fs']].
  destruct Hm as (Hfs & Hpath & Hclean). simpl in Hfs, Hpath. subst fs'.
  destruct (dirty a).
  - apply (save_in_step p (v a) (st', fs)). simpl in *. unfold writable in *. simpl in *.
    by rewrite Hpath.
  - rewrite Hclean by done. split; [done|]. split; [done|exact Hpers].
Qed.

(** A batch of in-memory steps that report whether they changed anything. *)
Lemma batch_loop {A B} (f : B -> A -> M (State * Fs) B) (dirty : B -> bool) l b :
  (forall b x s, let '(b', s') := f b x s in
     s'.2 = s.2 /\ state_path s'.1 = state_path s.1 /\
     (dirty b' = false -> s' = s /\ dirty b = false)) ->
  forall s, let '(b', s') := foldM f b l s in
    s'.2 = s.2 /\ state_path s'.1 = state_path s.1 /\
    (dirty b' = false -> s' = s /\ dirty b = false).
Proof.
  intros Hf. revert b. induction l as [|x l IH]; intros b s; simpl; [done|].
  unfold bind. specialize (Hf b x s). destruct (f b x s) as [b1 s1].
  specialize (IH b1 s1). destruct (foldM f b1 l s1) as [b2 s2].
  destruct Hf as (H1 & H2 & H3), IH as (H4 & H5 & H6).
  split; [congruence|]. split; [congruence|]. intros Hb.
  destruct (H6 Hb) as [-> Hb1]. by apply H3.
Qed.

Lemma with_state_bind {A B} (f : State -> A) (k : A -> M (State * Fs) B) st fs :
  bind (with_state f) k (st, fs) = k (f st) (st, fs).
Proof. done. Qed.

Lemma on_state_bind {B} f (k : unit -> M (State * Fs) B) st fs :
  bind (on_state f) k (st, fs) = k tt (f st, fs).
Proof. done. Qed.

Lemma loop_clean {B} (r : B * (State * Fs)) (dirty : B -> bool) (s : State * Fs) (P : Prop) :
  (let '(b', s') := r in
    s'.2 = s.2 /\ state_path s'.1 = state_path s.1 /\ (dirty b' = false -> s' = s /\ P)) ->
  let '(b', s') := r in
    s'.2 = s.2 /\ state_path s'.1 = state_path s.1 /\ (dirty b' = false -> s' = s).
Proof. destruct r. naive_solver. Qed.

Lemma set_quarantined_delete st hex :
  quarantined st !! hex = None -> set_quarantined (delete hex (quarantined st)) st = st.
Proof. intros Hn. rewrite delete_id by done. by destruct st. Qed.

Lemma update_in_step p h f : hoare (in_step p true) (forget_value (update h f)) (in_step p).
Proof.
  intros [st fs] Hs. unfold update. rewrite forget_value_bind, with_state_bind.
  destruct (torrents st !! h) as [t|]; [|exact Hs].
  rewrite forget_value_bind, on_state_bind.
  apply (save_in_step p true (set_torrents (<[h := f t]> (torrents st)) st, fs)).
  destruct Hs as (? & ? & _). done.
Qed.

Lemma quarantine_remove_in_step p h :
  hoare (in_step p true) (forget_value (quarantine_remove h)) (in_step p).
Proof.
  intros [st fs] Hs. unfold quarantine_remove. rewrite forget_value_bind, with_state_bind.
  rewrite forget_value_bind, on_state_bind.
  destruct (quarantined st !! h) as [t|] eqn:E.
  - apply (save_in_step p true (set_quarantined (delete h (quarantined st)) st, fs)).
    destruct Hs as (? & ? & _). done.
  - rewrite set_quarantined_delete by done. exact Hs.
Qed.

(** C18: every operation of the state keeps the file and the memory in step:
    from a state whose file holds the maps and whose next write is safe, each
    operation that succeeds leaves a file that parses to exactly the
    in-memory maps; and whether it succeeds or fails the next write is safe
    again. *)
Theorem operations_persist o st fs :
  writable (st, fs) -> persisted (st, fs) ->
  let '(ok, (st', fs')) := run_op o (st, fs) in
  state_path st' = state_path st /\ writable (st', fs') /\
  (ok = true -> persisted (st', fs')).
Proof.
  intros Hw Hp.
  assert (hoare (in_step (state_path st) true) (run_op o) (in_step (state_path st))) as H1.
  2: { specialize (H1 (st, fs)). destruct (run_op o (st, fs)) as [ok [st' fs']].
       destruct H1 as (? & ? & ?); done. }
  generalize (state_path st) as p. clear. intros p.
  destruct o as [t|h f|h|h q|h q|hs|h|h c z|us|ps now]; simpl.
  - by apply (change_then_save p (fun st => set_torrents (<[t_info_hash t := t]> (torrents st)) st)).
  - by apply update_in_step.
  - by apply (change_then_save p (fun st => set_torrents (delete h (torrents st)) st)).
  - by apply (change_then_save p (fun st => set_quarantined (<[h := q]> (quarantined st)) st)).
  - apply (change_then_save p (fun st => set_torrents (delete h (torrents st))
             (set_quarantined (<[h := q]> (quarantined st)) st))); [done|]. by intros [].
  - apply (batch_then_save p _ (fun n => 0 <? n)%nat). intros s.
    eapply (loop_clean _ (fun n => 0 <? n)%nat s). apply batch_loop.
    intros b x [st fs]. unfold with_state, on_state, bind, gets, modify, ret. simpl.
    destruct (quarantined st !! x) eqn:E; simpl; (split; [done|]; split; [done|]); [done|].
    intros Hb. split; [|done]. by rewrite set_quarantined_delete.
  - by apply quarantine_remove_in_step.
  - intros [st fs] Hs. unfold lift_completed. rewrite forget_value_bind, with_state_bind.
    destruct (_ || _); [exact Hs|]. by apply quarantine_remove_in_step.
  - apply (batch_then_save p _ (fun n => 0 <? n)%nat). intros s.
    eapply (loop_clean _ (fun n => 0 <? n)%nat s). apply batch_loop.
    intros b [x f] [st fs]. unfold with_state, on_state, bind, gets, modify, ret. simpl.
    by destruct (torrents st !! x).
  - apply (batch_then_save p _ (fun n : bool => n) (fun _ => true) (fun _ => false)). intros s.
    eapply (loop_clean _ (fun n : bool => n) s). apply batch_loop.
    intros b [x c] [st fs]. unfold with_state, on_state, bind, gets, modify, ret. simpl.
    destruct (torrents st !! x) as [t|]; [|done]. by destruct (progressed c t).
Qed.
End Persistence.

(** ** The functional behaviour *)

Section Behaviour.
Context `{StateCodec}.

(** C19: the trip of a torrent moves it from the held map to the registry in one
    step: in memory, and at every point a crash can strike, where the file
    shows either what it showed before or maps in which the hash is
    quarantined and not held. *)
Theorem quarantine_and_remove_atomic hex q st fs :
  writable (st, fs) ->
  let '(r, (st', fs')) := quarantine_and_remove hex q (st, fs) in
  torrents st' = delete hex (torrents st) /\
  quarantined st' = <[hex := q]> (quarantined st) /\
  exists new, trace fs' = new ++ trace fs /\
    forall d v, d ∈ disk fs' :: new -> crash_view d (state_path st) v ->
      crash_view (disk fs) (state_path st) v \/
      exists b s, v = Some b /\ from_slice b = Some s /\
        stored_torrents s !! hex = None /\ stored_quarantined s !! hex = Some q.
Proof.
  intros [Hwf Hn]. unfold quarantine_and_remove. rewrite !on_state_bind.
  set (st1 := set_torrents _ _). unfold save.
  destruct (to_string_pretty (of_state st1)) as [data|] eqn:E.
  2: { split; [done|]. split; [done|]. exists []. split; [done|].
       intros d v [->|[]%elem_of_nil]%elem_of_cons ?. by left. }
  pose proof (atomic_write_crash_safe (state_path st1) data 420 fs Hwf Hn) as Hw.
  unfold atomic_write. destruct (atomic_write_mode _ _ _ _) as [r fs'].
  destruct Hw as (new & Ht & Hv & _). split; [done|]. split; [done|].
  exists new. split; [done|]. intros d v Hd Hc.
  destruct (Hv d v Hd Hc) as [?| ->]; [by left|right].
  exists data, (of_state st1). split; [done|]. split; [by apply from_to|].
  simpl. by rewrite lookup_delete_eq, lookup_insert_eq.
Qed.

(** A torrent after a pass of progress updates: untouched, or bumped to a
    count the pass reported. *)
Definition progress_of (progress : list (string * Z)) (now : instant) (hex : string)
    (t t' : Torrent) : Prop :=
  t' = t \/ exists c, (hex, c) ∈ progress /\ t' = bump_progress c now t.

(** What a pass makes of one key: a torrent stays one, its count reaches what
    the pass reported, and a first observation is stamped. *)
Definition progress_at (progress : list (string * Z)) (now : instant) (hex : string)
    (o o' : option Torrent) : Prop :=
  match o, o' with
  | Some t, Some t' => progress_of progress now hex t t' /\
      (t_last_progress_at t <> None ->
         t_completed_pieces t <= t_completed_pieces t' /\
         forall c, (hex, c) ∈ progress -> c <= t_completed_pieces t') /\
      (t_last_progress_at t = None -> (exists c, (hex, c) ∈ progress) ->
         t_last_progress_at t' = Some now)
  | None, None => True
  | _, _ => False
  end.

Lemma progress_at_nil now hex o : progress_at [] now hex o o.
Proof.
  destruct o as [t|]; [|done]. split; [by left|]. split; [|by intros _ [? []%elem_of_nil]].
  intros _. split; [lia|]. by intros c []%elem_of_nil.
Qed.

Lemma progress_at_other progress now h c hex o o' :
  h <> hex -> progress_at progress now hex o o' -> progress_at ((h, c) :: progress) now hex o o'.
Proof. unfold progress_at, progress_of. destruct o, o'; try done. set_solver. Qed.

Lemma progress_at_bump progress now c hex t o' :
  progressed c t = true -> progress_at progress now hex (Some (bump_progress c now t)) o' ->
  progress_at ((hex, c) :: progress) now hex (Some t) o'.
Proof.
  unfold progress_at, progress_of. intros Ep. destruct o' as [t'|]; [|done].
  intros (Ht' & Hmono & _). destruct (Hmono ltac:(done)) as [Hc Hrest]. simpl in Hc. split; [|split].
  - destruct Ht' as [->|(c' & Hin & ->)]; right; [exists c|exists c'; split; [by right|done]].
    split; [left|done].
  - intros Hsome. unfold progressed in Ep. apply orb_true_iff in Ep.
    destruct Ep as [?%Z.ltb_lt|Ep]; [|by destruct (t_last_progress_at t)].
    split; [lia|]. intros c' [[= ->]|Hin]%elem_of_cons; [lia|by apply Hrest].
  - intros _ _. by destruct Ht' as [->|(c' & Hin & ->)].
Qed.

Lemma progress_at_stay progress now c hex t o' :
  progressed c t = false -> progress_at progress now hex (Some t) o' ->
  progress_at ((hex, c) :: progress) now hex (Some t) o'.
Proof.
  unfold progress_at, progress_of, progressed. intros [Ep1%Z.ltb_ge Ep2]%orb_false_iff.
  destruct o' as [t'|]; [|done]. destruct (t_last_progress_at t) eqn:El; [|done].
  intros (Ht' & Hmono & _). destruct (Hmono ltac:(done)) as [Hc Hrest]. split; [|split; [|done]].
  - destruct Ht' as [->|(c' & Hin & ->)]; [by left|right; exists c'; split; [by right|done]].
  - intros _. split; [done|]. intros c' [[= ->]|Hin]%elem_of_cons; [lia|by apply Hrest].
Qed.

Lemma progress_loop progress now b st fs :
  let '(b', (st', fs')) := foldM (fun changed '(hex, checked) =>
    let* t := with_state (fun st => torrents st !! hex) in
    match t with
    | None => ret changed
    | Some t =>
        if progressed checked t then
          on_state (fun st =>
            set_torrents (<[hex := bump_progress checked now t]> (torrents st)) st) ;;; ret true
        else ret changed
    end) b progress (st, fs) in
  fs' = fs /\ quarantined st' = quarantined st /\ state_path st' = state_path st /\
  forall hex, progress_at progress now hex (torrents st !! hex) (torrents st' !! hex).
Proof.
  revert b st. induction progress as [|[h c] progress IH]; intros b st.
  { simpl. repeat split; try done. intros hex. apply progress_at_nil. }
  simpl foldM. unfold bind at 1. rewrite with_state_bind.
  set (st1 := match torrents st !! h with
              | Some t => if progressed c t
                          then set_torrents (<[h := bump_progress c now t]> (torrents st)) st else st
              | None => st end).
  assert (exists b1, match torrents st !! h with
    | Some t => if progressed c t then
        on_state (fun st => set_torrents (<[h := bump_progress c now t]> (torrents st)) st) ;;; ret true
        else ret b
    | None => ret b end (st, fs) = (b1, (st1, fs))) as [b1 ->].
  { unfold st1. destruct (torrents st !! h) as [t|]; [destruct (progressed c t)|]; eexists; done. }
  specialize (IH b1 st1). destruct (foldM _ b1 progress (st1, fs)) as [b' [st' fs']].
  destruct IH as (-> & Hq & Hp & Hhex).
  assert (quarantined st1 = quarantined st /\ state_path st1 = state_path st) as [Hq1 Hp1]
    by (unfold st1; repeat case_match; done).
  split; [done|]. split; [congruence|]. split; [congruence|].
  intros hex. specialize (Hhex hex). destruct (decide (h = hex)) as [->|Hne].
  - revert Hhex. unfold st1. destruct (torrents st !! hex) as [t|] eqn:Eh; [|by rewrite Eh].
    destruct (progressed c t) eqn:Ep; simpl.
    + rewrite lookup_insert_eq. by apply progress_at_bump.
    + rewrite Eh. by apply progress_at_stay.
  - apply progress_at_other; [done|]. revert Hhex. unfold st1.
    destruct (torrents st !! h) as [t|]; [destruct (progressed c t)|]; try done.
    simpl. by rewrite lookup_insert_ne by done.
Qed.

Lemma save_memory s : (save s).2.1 = s.1.
Proof.
  destruct s as [st fs]. unfold save. destruct (to_string_pretty _); [|done].
  by destruct (atomic_write _ _ _).
Qed.

Lemma save_if_memory (b : bool) s :
  ((if b then (let* _ := save in ret tt) else ret tt) s).2.1 = s.1.
Proof.
  destruct b; [|done]. unfold bind. pose proof (save_memory s) as Hm. by destruct (save s).
Qed.

(** A progress pass changes nothing but the progress fields, and only of
    torrents it names; a torrent with a progress stamp ends at a count no
    smaller than before and than any count the pass reported for it, so
    verified bytes never go back; one without a stamp gets one. *)
Theorem update_progress_many_spec progress now st fs :
  let '(_, (st', _)) := update_progress_many progress now (st, fs) in
  quarantined st' = quarantined st /\
  forall hex, match torrents st !! hex, torrents st' !! hex with
    | Some t, Some t' => progress_of progress now hex t t' /\
        (t_last_progress_at t <> None ->
           t_completed_pieces t <= t_completed_pieces t' /\
           forall c, (hex, c) ∈ progress -> c <= t_completed_pieces t') /\
        (t_last_progress_at t = None -> (exists c, (hex, c) ∈ progress) ->
           t_last_progress_at t' = Some now)
    | None, None => True
    | _, _ => False
    end.
Proof.
  unfold update_progress_many. unfold bind at 1.
  pose proof (progress_loop progress now false st fs) as Hl.
  destruct (foldM _ false progress (st, fs)) as [b [st1 fs1]].
  destruct Hl as (-> & Hq & _ & Hh). destruct b; [|done].
  pose proof (save_memory (st1, fs)) as Hm. unfold bindR, bind.
  destruct (save (st1, fs)) as [[u|e] [st2 fs2]]; simpl in *; by subst.
Qed.

(** A load after a save returns the state, when the read succeeds. *)
Lemma load_persisted st fs :
  persisted (st, fs) -> mjoin (head (faults fs)) = None ->
  (load (state_path st) fs).1 = Ok st.
Proof.
  intros (b & Hb & Hs) Hf. simpl in Hb, Hs. unfold load, bind at 1, fs_read, io, bind.
  unfold next_fault. rewrite Hf. simpl. rewrite Hb. simpl. rewrite Hs. by destruct st.
Qed.
End Behaviour.

Section Locations.
Context `{HashIter}.

Lemma foldl_wrap_sum l acc :
  Forall (fun t => 0 <= t_size_bytes t) l -> 0 <= acc ->
  acc + sumZ t_size_bytes l <= U64_MAX ->
  foldl (fun acc t => wrap64 (acc + t_size_bytes t)) acc l = acc + sumZ t_size_bytes l.
Proof.
  revert acc. induction l as [|t l IH]; intros acc Hl Hacc Hle; simpl in *; [lia|].
  pose proof (proj1 (Forall_cons _ _ _) Hl) as [Ht Hl'].
  assert (0 <= sumZ t_size_bytes l)
    by (apply sumZ_nonneg; by apply Forall_forall).
  unfold sumZ in *. rewrite wrap64_small by ulia. rewrite IH; [lia|done|lia|lia].
Qed.

(** The bytes a location's torrents occupy, as a number. *)
Definition occupied (st : State) (location : path) : Z :=
  sumZ t_size_bytes (filter (fun t => t_storage_location t = location) (all st)).

Lemma bytes_used_exact st location :
  map_Forall (fun _ t => 0 <= t_size_bytes t) (torrents st) ->
  occupied st location <= U64_MAX -> bytes_used st location = occupied st location.
Proof.
  intros Hpos Hle. unfold bytes_used. rewrite foldl_wrap_sum; [unfold occupied; lia| |lia|done].
  apply Forall_forall. intros t [_ Hin]%list_elem_of_filter.
  apply elem_of_hash_values in Hin as [k Hk]. by apply (Hpos k).
Qed.

(** Re-keying only ever moves a torrent's location from a spelling that is
    not configured to a configured one, and keeps every other field: no
    configured location loses a torrent. *)
Theorem rekey_storage_locations_spec `{StateCodec} canonicalize locations st fs :
  let '(changed, (st', _)) := rekey_storage_locations canonicalize locations (st, fs) in
  quarantined st' = quarantined st /\
  (forall hex, torrents st' !! hex = rekey canonicalize locations <$> (torrents st !! hex)) /\
  (forall t, let t' := rekey canonicalize locations t in
     t' = t \/ (t_storage_location t ∉ locations /\ t_storage_location t' ∈ locations /\
                canonicalize (t_storage_location t) = Some (t_storage_location t') /\
                t = relocate (t_storage_location t) t')) /\
  (changed = false -> st' = st).
Proof.
  unfold rekey_storage_locations. rewrite with_state_bind, on_state_bind.
  set (st1 := set_torrents _ _).
  assert (forall t, rekey canonicalize locations t = t \/
    (t_storage_location t ∉ locations /\
     t_storage_location (rekey canonicalize locations t) ∈ locations /\
     canonicalize (t_storage_location t) =
       Some (t_storage_location (rekey canonicalize locations t)) /\
     t_storage_location (rekey canonicalize locations t) <> t_storage_location t /\
     t = relocate (t_storage_location t) (rekey canonicalize locations t))) as Hr.
  { intros t. unfold rekey. case_decide; [by left|].
    destruct (canonicalize _) as [c|]; [|by left]. case_decide as Hc; [|by left].
    right. destruct Hc as [Hc1 Hc2]. repeat split; try done; first [by apply not_eq_sym|by destruct t]. }
  set (ch := existsb _ _). unfold bind at 1.
  pose proof (save_if_memory ch (st1, fs)) as Hst.
  match type of Hst with (?r).2.1 = _ => destruct r as [u [st2 fs2]] end.
  simpl in Hst. subst st2. simpl. split; [done|].
  split; [intros hex; by rewrite lookup_fmap|].
  split; [intros t; destruct (Hr t) as [?|(? & ? & ? & _ & ?)]; [by left|by right]|].
  intros Hch. unfold st1. destruct st as [p m q]. unfold set_torrents. simpl. f_equal.
  apply map_eq. intros k. rewrite lookup_fmap. destruct (m !! k) as [t|] eqn:Ek; [|done].
  simpl. f_equal. destruct (Hr t) as [?|(_ & _ & _ & Hne & _)]; [done|].
  exfalso. assert (ch = true) as Htrue; [|congruence].
  unfold ch. apply existsb_exists. exists (k, t). split.
  - apply list_elem_of_In, elem_of_map_to_list. exact Ek.
  - simpl. apply negb_true_iff. by apply String.eqb_neq.
Qed.
End Locations.

(** ** A codec for the witnesses *)

Section WitnessCodec.
#[local] Instance quarantine_eq_dec : EqDecision Quarantine.
Proof. solve_decision. Defined.
#[local] Instance torrent_eq_dec : EqDecision Torrent.
Proof. solve_decision. Defined.

#[local] Instance quarantine_countable : Countable Quarantine.
Proof.
  apply (inj_countable'
    (fun q => (q_title q, q_reason q, q_quarantined_at q, q_cooldown_until q, q_attempts q,
               q_wasted_bytes q))
    (fun '(a, b, c, d, e, f) => {| q_title := a; q_reason := b; q_quarantined_at := c;
       q_cooldown_until := d; q_attempts := e; q_wasted_bytes := f |})).
  by intros [].
Defined.

#[local] Instance torrent_countable : Countable Torrent.
Proof.
  apply (inj_countable'
    (fun t => (t_info_hash t, t_title t, t_size_bytes t, t_storage_location t, t_added_at t,
               t_piece_count t, t_last_known_seeders t, t_completed_pieces t,
               t_last_progress_at t, t_last_confirmed_in_catalog_at t))
    (fun '(a, b, c, d, e, f, g, h, i, j) =>
       {| t_info_hash := a; t_title := b; t_size_bytes := c; t_storage_location := d;
          t_added_at := e; t_piece_count := f; t_last_known_seeders := g;
          t_completed_pieces := h; t_last_progress_at := i;
          t_last_confirmed_in_catalog_at := j |})).
  by intros [].
Defined.

#[local] Instance stored_countable_eq : EqDecision Stored.
Proof. solve_decision. Defined.
#[local] Instance stored_countable : Countable Stored.
Proof.
  apply (inj_countable' (fun s => (stored_torrents s, stored_quarantined s))
           (fun '(a, b) => {| stored_torrents := a; stored_quarantined := b |})).
  by intros [].
Defined.

Lemma witness_from_to s b :
  Some (digits (encode s)) = Some b -> decode (of_digits b) = Some (s : Stored).
Proof. intros [= <-]. by rewrite of_digits_digits, decode_encode. Qed.

Definition witness_codec : StateCodec :=
  {| to_string_pretty := fun s => Some (digits (encode s));
     from_slice := fun b => decode (of_digits b);
     from_to := witness_from_to |}.
End WitnessCodec.

Definition witness_torrent (hash : string) : Torrent :=
  {| t_info_hash := hash; t_title := "t"; t_size_bytes := 10; t_storage_location := "/s";
     t_added_at := 0; t_piece_count := 1; t_last_known_seeders := 3; t_completed_pieces := 0;
     t_last_progress_at := None; t_last_confirmed_in_catalog_at := None |}.

Definition witness_quarantine : Quarantine :=
  {| q_title := "t"; q_reason := "r"; q_quarantined_at := 0; q_cooldown_until := 5;
     q_attempts := 1; q_wasted_bytes := 7 |}.

Definition witness_state : State :=
  {| state_path := "/d/state.json"; torrents := {["aa" := witness_torrent "aa"]};
     quarantined := ∅ |}.

Definition witness_fs : Fs :=
  fresh_fs [("/d/state.json",
             default "" (@to_string_pretty witness_codec (of_state witness_state)))] [].

Lemma witness_writable : writable (witness_state, witness_fs).
Proof. split; [apply fresh_disk_wf|apply fresh_no_alias; discriminate]. Qed.

Lemma operations_persist_witness :
  let '(ok, (st', fs')) :=
    @run_op witness_codec (QuarantineAndRemove "aa" witness_quarantine) (witness_state, witness_fs) in
  state_path st' = state_path witness_state /\ writable (st', fs') /\
  (ok = true -> @persisted witness_codec (st', fs')).
Proof.
  apply (@operations_persist witness_codec (QuarantineAndRemove "aa" witness_quarantine)
           witness_state witness_fs).
  - apply witness_writable.
  - eexists. split; [reflexivity|]. by apply (@from_to witness_codec).
Defined.

Lemma quarantine_and_remove_atomic_witness :
  let '(r, (st', fs')) :=
    @quarantine_and_remove witness_codec "aa" witness_quarantine (witness_state, witness_fs) in
  torrents st' = delete "aa" (torrents witness_state) /\
  quarantined st' = <["aa" := witness_quarantine]> (quarantined witness_state) /\
  exists new, trace fs' = new ++ trace witness_fs /\
    forall d v, d ∈ disk fs' :: new -> crash_view d (state_path witness_state) v ->
      crash_view (disk witness_fs) (state_path witness_state) v \/
      exists b s, v = Some b /\ @from_slice witness_codec b = Some s /\
        stored_torrents s !! "aa" = None /\ stored_quarantined s !! "aa" = Some witness_quarantine.
Proof.
  apply (@quarantine_and_remove_atomic witness_codec "aa" witness_quarantine
           witness_state witness_fs), witness_writable.
Defined.
