(* ===== verification/Pool.v ===== *)
(** The bounded file-handle pool, [engine/pool_storage.rs]: the LRU cache of
    open files, the per-torrent storage views over it, and the registry that
    gives a view its folder.

    The system calls are the class [Os] over a state of the outside world; an
    open file is the number the system gave it.  An [Arc] of a file is a
    reference the outside counts: [clone_handle] makes one more, [drop_handle]
    gives one up, and the file closes with its last. *)

From S2P Require Import Prelude Fs.

Definition POOL_CAP_MAX : Z := 4096.
Definition FD_RESERVE : Z := 2048.
Definition EMFILE : Z := 24.

Definition handle : Type := nat.
Definition PoolKey : Type := Z * nat.

(** What the pool asks of the system; an error is its [errno]. *)
Class Os (W : Type) := {
  open_rw : path -> M W (result Z handle);
  open_or_create : path -> M W (result Z handle);
  create_new : path -> M W (result Z handle);
  create_dir_all : path -> M W (result Z unit);
  read_exact_at : handle -> Z -> nat -> M W (result Z bytes);
  write_all_at : handle -> Z -> bytes -> M W (result Z unit);
  set_len : handle -> Z -> M W (result Z unit);
  clone_handle : handle -> W -> W;
  drop_handle : handle -> W -> W;
  unlink : path -> M W (result Z unit);
  is_dir : path -> W -> bool;
  (** [read_dir(..)?.next().is_none()] *)
  dir_empty : path -> M W (result Z bool);
  remove_dir : path -> M W (result Z unit);
}.

(** [FilePool] with its [PoolInner]. *)
Record FilePool := {
  pool_map : gmap PoolKey (handle * path);
  stamps : gmap PoolKey Z;
  stamp : Z;
  cap : Z;
  opens : Z;
  evictions : Z;
}.

Definition with_cap (cap : Z) : FilePool :=
  {| pool_map := ∅; stamps := ∅; stamp := 0; cap := Z.max cap 1; opens := 0; evictions := 0 |}.

(** The cap of the process-wide pool, from the process limits and the
    [KEEPAT_FD_POOL_CAP] override; [None] is the panic of [clamp] where the hard
    limit is zero. *)
Definition global_cap (limits : option (Z * Z)) (override : option Z) : option Z :=
  let '(_, hard) := default (0, POOL_CAP_MAX + FD_RESERVE) limits in
  match override with
  | Some v => if hard <? 1 then None else Some (Z.max (Z.min (Z.max v 1) hard) 1)
  | None => Some (Z.max (Z.min (sat_sub hard FD_RESERVE) POOL_CAP_MAX) 1)
  end.

(** [(opens, evictions, live handles, cap)]. *)
Definition stats (p : FilePool) : Z * Z * nat * Z :=
  (opens p, evictions p, size (pool_map p), cap p).

Definition evict (key : PoolKey) (p : FilePool) : FilePool :=
  {| pool_map := delete key (pool_map p); stamps := delete key (stamps p); stamp := stamp p;
     cap := cap p; opens := opens p; evictions := evictions p |}.

(** An eviction to make room, which is counted. *)
Definition evict_counted (key : PoolKey) (p : FilePool) : FilePool :=
  {| pool_map := delete key (pool_map p); stamps := delete key (stamps p); stamp := stamp p;
     cap := cap p; opens := opens p; evictions := wrap64 (evictions p + 1) |}.

Definition evict_by_path (full : path) (p : FilePool) : FilePool :=
  let victims := (map_to_list (filter (fun kv => kv.2.2 = full) (pool_map p))).*1 in
  foldl (fun p k => evict k p) p victims.

(** [iter().min_by_key(stamp)]: the least recently used key. *)
Definition older (best : option (PoolKey * Z)) (kv : PoolKey * Z) : option (PoolKey * Z) :=
  match best with
  | Some b => if kv.2 <? b.2 then Some kv else Some b
  | None => Some kv
  end.
Definition oldest (m : gmap PoolKey Z) : option PoolKey :=
  fst <$> foldl older None (map_to_list m).

(** [next_stamp] and the insertion of a stamp. *)
Definition touch (key : PoolKey) (p : FilePool) : FilePool :=
  {| pool_map := pool_map p; stamps := <[key := stamp p]> (stamps p); stamp := wrap64 (stamp p + 1);
     cap := cap p; opens := opens p; evictions := evictions p |}.

Definition cache (key : PoolKey) (f : handle) (full : path) (p : FilePool) : FilePool :=
  {| pool_map := <[key := (f, full)]> (pool_map p); stamps := stamps p; stamp := stamp p;
     cap := cap p; opens := opens p; evictions := evictions p |}.

Definition count_open (p : FilePool) : FilePool :=
  {| pool_map := pool_map p; stamps := stamps p; stamp := stamp p;
     cap := cap p; opens := wrap64 (opens p + 1); evictions := evictions p |}.

(** The [while] loop of [insert]; every round but the last drops a stamp, so one
    more round than there are stamps is enough. *)
Fixpoint make_room (fuel : nat) (key : PoolKey) (p : FilePool) : FilePool :=
  match fuel with
  | O => p
  | S fuel =>
      if Z.of_nat (size (pool_map p)) <? cap p then p
      else match oldest (stamps p) with
           | None => p
           | Some victim =>
               if decide (victim = key) then p
               else make_room fuel key (evict_counted victim p)
           end
  end.

Definition insert (key : PoolKey) (f : handle) (full : path) (p : FilePool) : FilePool :=
  let p := make_room (S (size (stamps p))) key p in
  cache key f full (touch key p).

(** Shed up to [n] of the oldest handles. *)
Fixpoint shed (n : nat) (p : FilePool) : FilePool :=
  match n with
  | O => p
  | S n => match oldest (stamps p) with
           | None => p
           | Some victim => shed n (evict_counted victim p)
           end
  end.

(** The handles that [p] keeps and [p'] does not. *)
Definition released (p p' : FilePool) : list handle :=
  (fun kv => kv.2.1) <$> map_to_list (filter (fun kv => pool_map p' !! kv.1 <> Some kv.2) (pool_map p)).

Section Pool.
Context {W : Type} `{Os W}.

Definition on_os {A} (m : M W A) : M (FilePool * W) A :=
  fun '(p, w) => let '(a, w') := m w in (a, (p, w')).
Definition on_outside (f : W -> W) : M (FilePool * W) unit :=
  modify (fun '(p, w) => (p, f w)).

(** An update of the pool drops the references it no longer keeps. *)
Definition on_pool (f : FilePool -> FilePool) : M (FilePool * W) unit :=
  modify (fun '(p, w) => (f p, foldr drop_handle w (released p (f p)))).

(** A file just opened goes into the pool; the caller gets a reference of its
    own. *)
Definition keep_open (key : PoolKey) (f : handle) (full : path) : M (FilePool * W) (result Z handle) :=
  on_pool (fun p => insert key f full (count_open p)) ;;;
  on_outside (clone_handle f) ;;;
  ret (Ok f).

Definition get_or_open (key : PoolKey) (full : path) : M (FilePool * W) (result Z handle) :=
  let* cached := gets (fun '(p, _) => pool_map p !! key) in
  match cached with
  | Some (f, _) =>
      on_outside (clone_handle f) ;;;
      on_pool (touch key) ;;;
      ret (Ok f)
  | None =>
      let* r := on_os (open_rw full) in
      match r with
      | Ok f => keep_open key f full
      | Err e =>
          if negb (e =? EMFILE) then ret (Err e)
          else
            on_pool (fun p => shed (Z.to_nat (Z.max (cap p / 4) 1)) p) ;;;
            let* r := on_os (open_rw full) in
            match r with
            | Ok f => keep_open key f full
            | Err e => ret (Err e)
            end
      end
  end.
End Pool.

Lemma released_same p p' : pool_map p ⊆ pool_map p' -> released p p' = [].
Proof.
  intros Hsub. unfold released. replace (filter _ (pool_map p)) with (∅ : gmap PoolKey (handle * path)).
  - by rewrite map_to_list_empty.
  - symmetry. apply map_empty. intros k. apply map_lookup_filter_None. right. intros x Hk Hn.
    apply Hn. by eapply lookup_weaken.
Qed.

(** ** The oldest handle *)

Lemma older_fold l b :
  match foldl older b l with
  | Some m => (Some m = b \/ m ∈ l) /\ (forall x, x ∈ l -> m.2 <= x.2) /\
              (forall x, b = Some x -> m.2 <= x.2)
  | None => b = None /\ l = []
  end.
Proof.
  revert b. induction l as [|x l IH]; intros b; simpl.
  - destruct b as [m|]; [|done]. split; [by left|]. split; [by intros x []%elem_of_nil|].
    by intros x [= ->].
  - specialize (IH (older b x)). destruct (foldl older (older b x) l) as [m|].
    + destruct IH as (Hm & Hl & Hb).
      assert (m.2 <= x.2 /\ forall y, b = Some y -> m.2 <= y.2) as [Hx Hb'].
      { unfold older in Hb. destruct b as [y|].
        - destruct (Z.ltb_spec x.2 y.2); specialize (Hb _ eq_refl); split; try lia;
            intros z [= <-]; lia.
        - split; [by apply Hb|]. done. }
      split; [|split; [|exact Hb']].
      * destruct Hm as [Hm|?]; [|right; by right]. unfold older in Hm.
        destruct b as [y|]; [destruct (x.2 <? y.2)|];
          injection Hm as ->; first [by left|right; left].
      * intros y [->|Hy]%elem_of_cons; [done|by apply Hl].
    + destruct IH as [IH _]. unfold older in IH. destruct b; [by case_match|done].
Qed.

Lemma oldest_spec m :
  match oldest m with
  | Some k => exists s, m !! k = Some s /\ forall k' s', m !! k' = Some s' -> s <= s'
  | None => m = ∅
  end.
Proof.
  unfold oldest. pose proof (older_fold (map_to_list m) None) as Hf.
  destruct (foldl older None (map_to_list m)) as [[k s]|]; simpl.
  - destruct Hf as ([?|Hin] & Hle & _); [done|]. exists s.
    split; [by apply elem_of_map_to_list|].
    intros k' s' Hk. by apply (Hle (k', s')), elem_of_map_to_list.
  - destruct Hf as [_ Hf]. by apply map_to_list_empty_iff.
Qed.

(** ** The invariant of the pool *)

(** The cached handles and the stamps have the same keys, no two keys share a
    stamp, every stamp was issued, and the cap holds. *)
Record pool_wf (p : FilePool) : Prop := {
  wf_dom : dom (pool_map p) = dom (stamps p);
  wf_inj : forall k k' s, stamps p !! k = Some s -> stamps p !! k' = Some s -> k = k';
  wf_issued : forall k s, stamps p !! k = Some s -> 0 <= s < stamp p;
  wf_cap : 1 <= cap p;
  wf_size : Z.of_nat (size (pool_map p)) <= cap p;
}.

(** Stamps are 64 bits: fewer than [2^64 - 1] uses so far. *)
Definition stamps_left (p : FilePool) : Prop := 0 <= stamp p < U64_MAX.

Lemma with_cap_wf n : pool_wf (with_cap n).
Proof.
  split; simpl; [set_solver| | | |]; try (intros *; by rewrite lookup_empty); [lia|].
  rewrite map_size_empty. lia.
Qed.

Lemma size_stamps p : pool_wf p -> size (pool_map p) = size (stamps p).
Proof. intros Hp. by rewrite <- !size_dom, (wf_dom p Hp). Qed.

Lemma evict_wf k p : pool_wf p -> pool_wf (evict k p).
Proof.
  intros [Hd Hi Hs Hc Hz]. split; simpl; [by rewrite !dom_delete_L, Hd| | |done|].
  - intros k1 k2 s [_ H1]%lookup_delete_Some [_ H2]%lookup_delete_Some. by eapply Hi.
  - intros k1 s [_ H1]%lookup_delete_Some. by eapply Hs.
  - pose proof (map_size_delete k (pool_map p)) as Hsz. rewrite Hsz.
    destruct (pool_map p !! k); simpl; lia.
Qed.

Lemma evict_counted_wf k p : pool_wf p -> pool_wf (evict_counted k p).
Proof. intros Hp. destruct (evict_wf k p Hp). by split. Qed.

(** [p'] keeps a part of [p]: what is gone was used no later than what is
    kept. *)
Record lru_part (p p' : FilePool) : Prop := {
  part_map : pool_map p' ⊆ pool_map p;
  part_stamps : stamps p' ⊆ stamps p;
  part_lru : forall k s k' s', stamps p !! k = Some s -> stamps p' !! k = None ->
    stamps p' !! k' = Some s' -> s <= s';
  part_cap : cap p' = cap p;
  part_stamp : stamp p' = stamp p;
}.

#[export] Instance lru_part_preorder : PreOrder lru_part.
Proof.
  split.
  - intros p. split; try done. intros k s k' s' Hk Hn. congruence.
  - intros p q r [M1 S1 L1 C1 T1] [M2 S2 L2 C2 T2]. split; try congruence.
    + by etrans.
    + by etrans.
    + intros k s k' s' Hk Hn Hk'. destruct (stamps q !! k) as [s1|] eqn:Eq.
      * assert (s1 = s) as -> by (pose proof (lookup_weaken _ _ _ _ Eq S1); congruence).
        by eapply L2.
      * eapply L1; [exact Hk|exact Eq|]. by eapply lookup_weaken.
Qed.

Lemma evict_oldest_part p k : oldest (stamps p) = Some k -> lru_part p (evict_counted k p).
Proof.
  intros Ho. pose proof (oldest_spec (stamps p)) as Hs. rewrite Ho in Hs.
  destruct Hs as (s & Hk & Hmin). split; simpl; try done; [apply delete_subseteq..|].
  intros k1 s1 k2 s2 H1 Hn [_ H2]%lookup_delete_Some.
  apply lookup_delete_None in Hn as [->|Hn]; [|congruence].
  assert (s1 = s) as -> by congruence. by eapply Hmin.
Qed.

Lemma evict_counted_size k p :
  is_Some (stamps p !! k) -> size (stamps p) = S (size (stamps (evict_counted k p))).
Proof.
  intros Hk. simpl. rewrite map_size_delete. destruct Hk as [s Hk]. rewrite Hk.
  pose proof (map_size_ne_0_lookup_2 (stamps p) k (ex_intro _ s Hk)). lia.
Qed.

(** The loop ends with room, having dropped only the oldest handles. *)
Lemma make_room_spec fuel key p :
  pool_wf p -> stamps p !! key = None -> (size (stamps p) < fuel)%nat ->
  let p' := make_room fuel key p in
  pool_wf p' /\ lru_part p p' /\ Z.of_nat (size (pool_map p')) < cap p' /\
  (Z.of_nat (size (pool_map p)) < cap p -> p' = p).
Proof.
  revert p. induction fuel as [|fuel IH]; intros p Hwf Hkey Hfuel; [lia|]. simpl.
  destruct (Z.ltb_spec (Z.of_nat (size (pool_map p))) (cap p)) as [Hlt|Hge]; [done|].
  pose proof (oldest_spec (stamps p)) as Hs. pose proof (evict_oldest_part p) as Hpart.
  destruct (oldest (stamps p)) as [victim|].
  2: { rewrite size_stamps, Hs, map_size_empty in Hge by done.
       pose proof (wf_cap p Hwf). lia. }
  destruct Hs as (s & Hv & _). rewrite decide_False by congruence.
  pose proof (evict_counted_size victim p (ex_intro _ s Hv)) as Hsz.
  destruct (IH (evict_counted victim p)) as (H1 & H2 & H3 & _).
  - by apply evict_counted_wf.
  - simpl. apply lookup_delete_None. by right.
  - lia.
  - split; [done|]. split; [|split; [done|lia]]. etrans; [by apply Hpart|exact H2].
Qed.

(** Shedding ends, within its count, with the oldest handles dropped. *)
Lemma shed_spec n p : pool_wf p -> pool_wf (shed n p) /\ lru_part p (shed n p).
Proof.
  revert p. induction n as [|n IH]; intros p Hwf; simpl; [done|].
  pose proof (evict_oldest_part p) as Hpart. destruct (oldest (stamps p)) as [victim|]; [|done].
  destruct (IH (evict_counted victim p)) as [H1 H2]; [by apply evict_counted_wf|].
  split; [done|]. etrans; [by apply Hpart|exact H2].
Qed.

Lemma shed_frees n p :
  pool_wf p -> (size (stamps (shed n p)) <= size (stamps p) - n)%nat.
Proof.
  revert p. induction n as [|n IH]; intros p Hwf; simpl; [lia|].
  pose proof (oldest_spec (stamps p)) as Hs. destruct (oldest (stamps p)) as [victim|].
  - destruct Hs as (s & Hv & _). specialize (IH (evict_counted victim p) (evict_counted_wf _ _ Hwf)).
    pose proof (evict_counted_size victim p (ex_intro _ s Hv)). simpl in *. lia.
  - rewrite Hs, map_size_empty. lia.
Qed.

Lemma touch_wf key p :
  pool_wf p -> stamps_left p -> is_Some (stamps p !! key) -> pool_wf (touch key p).
Proof.
  intros [Hd Hi Hs Hc Hz] Hleft Hk. unfold stamps_left in Hleft.
  split; simpl; [| | |done|done].
  - rewrite dom_insert_L, Hd. apply elem_of_dom in Hk. set_solver.
  - intros k1 k2 s. rewrite !lookup_insert_Some. intros [[<- <-]|[? H1]] [[<- Hq]|[? H2]]; try done.
    + apply Hs in H2. lia.
    + subst. apply Hs in H1. lia.
    + by eapply Hi.
  - intros k1 s. rewrite wrap64_small by ulia.
    rewrite lookup_insert_Some. intros [[<- <-]|[? H1]]; [lia|]. apply Hs in H1. lia.
Qed.

Lemma insert_wf key f full p :
  pool_wf p -> stamps_left p -> stamps p !! key = None ->
  pool_wf (insert key f full p) /\
  pool_map (insert key f full p) !! key = Some (f, full) /\
  lru_part p (make_room (S (size (stamps p))) key p) /\
  (Z.of_nat (size (pool_map p)) < cap p ->
     pool_map (insert key f full p) = <[key := (f, full)]> (pool_map p)).
Proof.
  intros Hwf Hleft Hkey. unfold insert.
  destruct (make_room_spec (S (size (stamps p))) key p Hwf Hkey ltac:(lia))
    as (Hwf' & Hpart & Hroom & Hsame).
  set (q := make_room _ key p) in *.
  assert (stamps q !! key = None) as Hq.
  { destruct (stamps q !! key) as [s|] eqn:E; [|done].
    pose proof (lookup_weaken _ _ _ _ E (part_stamps _ _ Hpart)). congruence. }
  assert (stamps_left q) as Hleft' by (unfold stamps_left; by rewrite (part_stamp _ _ Hpart)).
  destruct Hwf' as [Hd Hi Hs Hc Hz]. unfold stamps_left in Hleft'.
  split; [|split; [|split; [exact Hpart|]]].
  - split; simpl; [| | |done|].
    + by rewrite !dom_insert_L, Hd.
    + intros k1 k2 s. rewrite !lookup_insert_Some. intros [[<- <-]|[? H1]] [[<- Hx]|[? H2]]; try done.
      * apply Hs in H2. lia.
      * subst. apply Hs in H1. lia.
      * by eapply Hi.
    + intros k1 s. rewrite wrap64_small by ulia.
      rewrite lookup_insert_Some. intros [[<- <-]|[? H1]]; [lia|]. apply Hs in H1. lia.
    + rewrite map_size_insert. destruct (pool_map q !! key); simpl; lia.
  - simpl. apply lookup_insert_eq.
  - intros Hlt. simpl. by rewrite (Hsame Hlt).
Qed.

Lemma opened_spec key f full p q :
  pool_wf q -> lru_part p q -> stamps_left q -> stamps q !! key = None ->
  let p' := insert key f full (count_open q) in
  pool_wf p' /\ cap p' = cap p /\
  pool_map p' !! key = Some (f, full) /\
  (exists r, lru_part p r /\ pool_map p' = <[key := (f, full)]> (pool_map r)) /\
  (Z.of_nat (size (pool_map q)) < cap q -> pool_map p' = <[key := (f, full)]> (pool_map q)).
Proof.
  intros Hwf Hpart Hleft Hk.
  destruct (insert_wf key f full (count_open q)) as (H1 & H2 & H3 & H4); [|done|done|].
  { by destruct Hwf. }
  assert (lru_part q (count_open q)) as Hc
    by (split; try done; intros k s k' s' Hs Hn; simpl in Hn; congruence).
  split; [done|]. split; [etrans; [exact (part_cap _ _ H3)|exact (part_cap _ _ Hpart)]|].
  split; [done|]. split; [|done].
  exists (make_room (S (size (stamps (count_open q)))) key (count_open q)). split; [|done].
  etrans; [exact Hpart|]. etrans; [exact Hc|exact H3].
Qed.

Section PoolSpec.
Context {W : Type} `{Os W}.

(** [get_or_open] keeps the pool within its cap and its books straight.  A
    cached file costs no system call and evicts nothing; an open into a pool
    with room evicts nothing; a full pool (or one told that the process is out
    of descriptors) gives up only handles used no later than every handle it
    keeps; a success caches the returned handle; a failure caches nothing. *)
Theorem get_or_open_spec key full p w :
  pool_wf p -> stamps_left p ->
  let '(r, (p', w')) := get_or_open key full (p, w) in
  pool_wf p' /\ cap p' = cap p /\
  match pool_map p !! key, r with
  | Some (f, _), r => r = Ok f /\ w' = clone_handle f w /\ pool_map p' = pool_map p
  | None, Ok f =>
      pool_map p' !! key = Some (f, full) /\
      (exists q, lru_part p q /\ pool_map p' = <[key := (f, full)]> (pool_map q)) /\
      (is_ok (open_rw full w).1 = true -> Z.of_nat (size (pool_map p)) < cap p ->
         pool_map p' = <[key := (f, full)]> (pool_map p))
  | None, Err _ => lru_part p p'
  end.
Proof.
  intros Hwf Hleft. unfold get_or_open, bind at 1, gets.
  destruct (pool_map p !! key) as [[f full0]|] eqn:Ekey.
  { assert (is_Some (stamps p !! key)) as Hk.
    { apply elem_of_dom. rewrite <- (wf_dom p Hwf). apply elem_of_dom. eauto. }
    pose proof (touch_wf key p Hwf Hleft Hk). unfold on_pool, on_outside, modify, bind, ret.
    by rewrite (released_same p (touch key p)). }
  assert (stamps p !! key = None) as Hk.
  { apply not_elem_of_dom. rewrite <- (wf_dom p Hwf). by apply not_elem_of_dom. }
  unfold bind at 1, on_os. destruct (open_rw full w) as [[f|e] w1].
  { destruct (opened_spec key f full p p) as (? & ? & ? & ? & ?); done. }
  destruct (negb (e =? EMFILE)); [by split|].
  set (n := Z.to_nat (Z.max (cap p / 4) 1)).
  destruct (shed_spec n p Hwf) as [Hwf' Hpart].
  unfold on_pool at 1, modify, bind at 1 2. destruct (open_rw full _) as [[f|e'] w2].
  - fold n. assert (stamps (shed n p) !! key = None) as Hk'.
    { destruct (stamps (shed n p) !! key) as [s|] eqn:E; [|done].
      pose proof (lookup_weaken _ _ _ _ E (part_stamps _ _ Hpart)). congruence. }
    assert (stamps_left (shed n p)) as Hleft'
      by (unfold stamps_left; by rewrite (part_stamp _ _ Hpart)).
    destruct (opened_spec key f full p (shed n p)) as (? & ? & ? & ? & ?); try done.
  - simpl. split; [done|]. split; [apply (part_cap _ _ Hpart)|done].
Qed.

End PoolSpec.

(** ** The per-torrent views *)

(** [Registered], and the registry and uid source of the process. *)
Record Registered := {
  reg_output_folder : path;
  reg_overwrite : bool;
}.

Record Registry := {
  registered : gmap string Registered;
  uid_source : Z;
}.

Definition register_torrent (info_hash : string) (output_folder : path) (overwrite : bool)
    (r : Registry) : Registry :=
  {| registered := <[info_hash := {| reg_output_folder := output_folder;
                                     reg_overwrite := overwrite |}]> (registered r);
     uid_source := uid_source r |}.

Definition unregister_torrent (info_hash : string) (r : Registry) : Registry :=
  {| registered := delete info_hash (registered r); uid_source := uid_source r |}.

Definition lookup_registered (info_hash : string) (r : Registry) : result error Registered :=
  match registered r !! info_hash with
  | Some reg => Ok reg
  | None => Err "torrent not registered for pooled storage"
  end.

Record PooledStorage := {
  ps_uid : Z;
  ps_output_folder : path;
  ps_overwrite : bool;
  (** file id to relative path; [None] for padding *)
  ps_paths : list (option path);
}.

Definition next_uid : M Registry Z := fun r =>
  (uid_source r, {| registered := registered r; uid_source := wrap64 (uid_source r + 1) |}).

(** [PooledStorageFactory::create]. *)
Definition create (info_hash : string) : M Registry (result error PooledStorage) := fun r =>
  match lookup_registered info_hash r with
  | Err e => (Err e, r)
  | Ok reg =>
      let '(uid, r') := next_uid r in
      (Ok {| ps_uid := uid; ps_output_folder := reg_output_folder reg;
             ps_overwrite := reg_overwrite reg; ps_paths := [] |}, r')
  end.

(** [TorrentStorage::take]: the same view again. *)
Definition take_storage (s : PooledStorage) : PooledStorage :=
  {| ps_uid := ps_uid s; ps_output_folder := ps_output_folder s;
     ps_overwrite := ps_overwrite s; ps_paths := ps_paths s |}.

(** The entries of a torrent's file list. *)
Record FileInfo := {
  fi_padding : bool;
  fi_relative_filename : path;
}.

Section Storage.
Context {W : Type} `{Os W}.

(** Create or open one file of a torrent and close it again. *)
Definition init_file (s : PooledStorage) (fi : FileInfo) : M W (result error (option path)) :=
  if fi_padding fi then ret (Ok None)
  else
    let full := path_join (ps_output_folder s) (fi_relative_filename fi) in
    let? dir := ret match path_parent full with
                    | Some d => Ok d
                    | None => Err ("no parent for " +:+ full)
                    end in
    let? _ := with_context "create_dir_all" (create_dir_all dir) in
    let? f := (if ps_overwrite s
               then with_context ("opening " +:+ full) (open_or_create full)
               else let? f := with_context ("creating " +:+ full) (create_new full) in
                    modify (drop_handle f) ;;;
                    with_context ("reopening " +:+ full) (open_rw full)) in
    modify (drop_handle f) ;;;
    ret (Ok (Some (fi_relative_filename fi))).

Fixpoint init_files (s : PooledStorage) (fis : list FileInfo)
    : M W (result error (list (option path))) :=
  match fis with
  | [] => ret (Ok [])
  | fi :: rest =>
      let? p := init_file s fi in
      let? ps := init_files s rest in
      ret (Ok (p :: ps))
  end.

(** [init]: on success the view knows its files; the pool is not touched. *)
Definition init (s : PooledStorage) (fis : list FileInfo) : M W (result error PooledStorage) :=
  let? paths := init_files s fis in
  ret (Ok {| ps_uid := ps_uid s; ps_output_folder := ps_output_folder s;
             ps_overwrite := ps_overwrite s; ps_paths := paths |}).

(** [PooledStorage::handle]. *)
Definition handle_of (s : PooledStorage) (file_id : nat) : M (FilePool * W) (result error handle) :=
  match mjoin (ps_paths s !! file_id) with
  | None => ret (Err ("no such file id " +:+ pretty file_id +:+ " in storage " +:+ pretty (ps_uid s)))
  | Some rel =>
      let full := path_join (ps_output_folder s) rel in
      with_context ("opening " +:+ full +:+ " through the fd pool")
        (get_or_open (ps_uid s, file_id) full)
  end.

(** An IO on the handle it was given, which is dropped at its end. *)
Definition pread_at (f : handle) (file_id : nat) (offset : Z) (len : nat)
    : M (FilePool * W) (result error bytes) :=
  let* r := with_context ("pread " +:+ pretty offset +:+ " len " +:+ pretty len +:+ " id " +:+ pretty file_id)
              (on_os (read_exact_at f offset len)) in
  on_outside (drop_handle f) ;;;
  ret r.

Definition pwrite_at (f : handle) (file_id : nat) (offset : Z) (buf : bytes)
    : M (FilePool * W) (result error unit) :=
  let* r := with_context ("pwrite " +:+ pretty offset +:+ " len " +:+ pretty (String.length buf) +:+
                          " id " +:+ pretty file_id)
              (on_os (write_all_at f offset buf)) in
  on_outside (drop_handle f) ;;;
  ret r.

Definition set_length (f : handle) (file_id : nat) (length : Z)
    : M (FilePool * W) (result error unit) :=
  let* r := with_context ("set_len " +:+ pretty length +:+ " id " +:+ pretty file_id)
              (on_os (set_len f length)) in
  on_outside (drop_handle f) ;;;
  ret r.

Definition pread_exact (s : PooledStorage) (file_id : nat) (offset : Z) (len : nat)
    : M (FilePool * W) (result error bytes) :=
  let? f := handle_of s file_id in
  pread_at f file_id offset len.

Definition pwrite_all (s : PooledStorage) (file_id : nat) (offset : Z) (buf : bytes)
    : M (FilePool * W) (result error unit) :=
  let? f := handle_of s file_id in
  pwrite_at f file_id offset buf.

Definition ensure_file_length (s : PooledStorage) (file_id : nat) (length : Z)
    : M (FilePool * W) (result error unit) :=
  let? f := handle_of s file_id in
  set_length f file_id length.

(** [FilePool::evict_path]. *)
Definition evict_path (full : path) : M (FilePool * W) unit := on_pool (evict_by_path full).

Definition remove_file (s : PooledStorage) (filename : path)
    : M (FilePool * W) (result error unit) :=
  let full := path_join (ps_output_folder s) filename in
  let? _ := with_context ("removing " +:+ full) (on_os (unlink full)) in
  evict_path full ;;;
  ret (Ok tt).

Definition remove_directory_if_empty (s : PooledStorage) (p : path) : M W (result error unit) :=
  let full := path_join (ps_output_folder s) p in
  let* dir := gets (is_dir full) in
  if negb dir then ret (Err ("cannot remove dir: " +:+ full +:+ " is not a directory"))
  else
    let? empty := with_context "reading directory" (dir_empty full) in
    if (empty : bool) then with_context ("removing " +:+ full) (remove_dir full)
    else ret (Ok tt).
End Storage.

(** ** Deletion leaves no handle behind *)

Lemma evict_all_spec l p :
  pool_map (foldl (fun p k => evict k p) p l) =
    filter (fun kv => kv.1 ∉ l) (pool_map p) /\
  (pool_wf p -> pool_wf (foldl (fun p k => evict k p) p l)).
Proof.
  revert p. induction l as [|k l IH]; intros p; simpl.
  - split; [|done]. symmetry. apply map_filter_id. intros i x _. apply not_elem_of_nil.
  - destruct (IH (evict k p)) as [Hm Hw]. split; [|intros Hp; by apply Hw, evict_wf].
    rewrite Hm. simpl. rewrite map_filter_delete. apply map_eq. intros i.
    apply option_eq. intros x. rewrite lookup_delete_Some, !map_lookup_filter_Some. simpl. set_solver.
Qed.

Lemma evict_by_path_spec full p k f path' :
  pool_map (evict_by_path full p) !! k = Some (f, path') ->
  pool_map p !! k = Some (f, path') /\ path' <> full.
Proof.
  unfold evict_by_path. rewrite (proj1 (evict_all_spec _ _)).
  rewrite map_lookup_filter_Some. intros [Hk Hn]. split; [done|]. intros ->.
  apply Hn. simpl. apply list_elem_of_fmap. exists (k, (f, full)). split; [done|].
  apply elem_of_map_to_list, map_lookup_filter_Some. done.
Qed.

Section StorageSpec.
Context {W : Type} `{Os W}.

(** After a file of any view is deleted, no cached handle of any view (of any
    uid, errored torrents included) points at its path, the other handles stay,
    and the pool keeps its invariant. *)
Theorem remove_file_sweeps s filename p w :
  pool_wf p ->
  let full := path_join (ps_output_folder s) filename in
  let '(r, (p', _)) := remove_file s filename (p, w) in
  pool_wf p' /\
  (is_ok r = true ->
     (forall k f, pool_map p' !! k <> Some (f, full)) /\
     (forall k f q, q <> full -> pool_map p !! k = Some (f, q) -> pool_map p' !! k = Some (f, q))) /\
  (is_ok r = false -> p' = p).
Proof.
  intros Hwf. cbv zeta. unfold remove_file, bindR, bind, with_context, bind, on_os.
  set (full := path_join _ _). destruct (unlink full w) as [[u|e] w']; simpl; [|done].
  split; [unfold evict_by_path; by apply evict_all_spec|]. split; [|done]. intros _. split.
  - intros k f Hk. by apply evict_by_path_spec in Hk as [_ ?].
  - intros k f q Hq Hk. unfold evict_by_path. rewrite (proj1 (evict_all_spec _ _)).
    apply map_lookup_filter_Some. split; [done|]. simpl.
    intros ([k' [f' q']] & -> & Hin)%list_elem_of_fmap.
    apply elem_of_map_to_list, map_lookup_filter_Some in Hin as [Hk' Heq]. simpl in *. congruence.
Qed.
End StorageSpec.

(** ** Witnesses *)

(** A system whose descriptors count up and that runs out once. *)
Definition witness_os : Os nat :=
  {| open_rw := fun _ w => (if decide (w = 5%nat) then Err EMFILE else Ok w, S w);
     open_or_create := fun _ w => (Ok w, S w);
     create_new := fun _ w => (Ok w, S w);
     create_dir_all := fun _ w => (Ok tt, w);
     read_exact_at := fun _ _ _ w => (Ok "", w);
     write_all_at := fun _ _ _ w => (Ok tt, w);
     set_len := fun _ _ w => (Ok tt, w);
     clone_handle := fun _ w => w;
     drop_handle := fun _ w => w;
     unlink := fun _ w => (Ok tt, w);
     is_dir := fun _ _ => true;
     dir_empty := fun _ w => (Ok true, w);
     remove_dir := fun _ w => (Ok tt, w) |}.

(** A pool of two with one cached file. *)
Definition witness_pool : FilePool := insert (1, 0%nat) 4%nat "/s/a" (with_cap 2).

Lemma witness_pool_wf : pool_wf witness_pool.
Proof. by apply insert_wf; [apply with_cap_wf| |]. Qed.

Lemma get_or_open_spec_witness :
  let '(r, (p', w')) := @get_or_open nat witness_os (1, 1%nat) "/s/b" (witness_pool, 5%nat) in
  pool_wf p' /\ cap p' = cap witness_pool /\
  match pool_map witness_pool !! (1, 1%nat), r with
  | Some (f, _), r => r = Ok f /\ w' = @clone_handle nat witness_os f 5%nat /\ pool_map p' = pool_map witness_pool
  | None, Ok f =>
      pool_map p' !! (1, 1%nat) = Some (f, "/s/b") /\
      (exists q, lru_part witness_pool q /\ pool_map p' = <[(1, 1%nat) := (f, "/s/b")]> (pool_map q)) /\
      (is_ok (@open_rw nat witness_os "/s/b" 5%nat).1 = true ->
         Z.of_nat (size (pool_map witness_pool)) < cap witness_pool ->
         pool_map p' = <[(1, 1%nat) := (f, "/s/b")]> (pool_map witness_pool))
  | None, Err _ => lru_part witness_pool p'
  end.
Proof.
  apply (@get_or_open_spec nat witness_os (1, 1%nat) "/s/b" witness_pool 5%nat).
  - apply witness_pool_wf.
  - by vm_compute.
Defined.

Definition witness_view : PooledStorage :=
  {| ps_uid := 9; ps_output_folder := "/s"; ps_overwrite := true; ps_paths := [] |}.

Lemma remove_file_sweeps_witness :
  let '(r, (p', _)) := @remove_file nat witness_os witness_view "a" (witness_pool, 0%nat) in
  pool_wf p' /\
  (is_ok r = true ->
     (forall k f, pool_map p' !! k <> Some (f, "/s/a")) /\
     (forall k f q, q <> "/s/a" -> pool_map witness_pool !! k = Some (f, q) ->
        pool_map p' !! k = Some (f, q))) /\
  (is_ok r = false -> p' = witness_pool).
Proof.
  apply (@remove_file_sweeps nat witness_os witness_view "a" witness_pool 0%nat), witness_pool_wf.
Defined.
