(* ===== verification/Descriptors.v ===== *)
(** The system under the handle pool of [engine/pool_storage.rs]: a concrete one,
    [Unix], with a directory, the contents of its files, and the table of open
    descriptors with the references each has; and the books ([good]) that every
    call of [Pool] keeps on it.  [Sharing] builds the process on this. *)

From S2P Require Import Prelude Fs Pool.

(** ** The system *)

Definition ENOENT : Z := 2.
Definition EBADF : Z := 9.
Definition EEXIST : Z := 17.
Definition ENOTDIR : Z := 20.
Definition EISDIR : Z := 21.
Definition ENOTEMPTY : Z := 39.
(** A read that meets the end of the file carries no [errno]. *)
Definition UNEXPECTED_EOF : Z := -1.

Record Unix := {
  (** file names to inodes, and the directories *)
  u_dir : gmap path nat;
  u_dirs : gset path;
  u_data : gmap nat bytes;
  (** open descriptors: the inode, and the number of references *)
  u_open : gmap handle (nat * nat);
  (** descriptors in other use, and the ceiling on all *)
  u_others : Z;
  u_limit : Z;
  (** the calls to come that fail, with how much of a write goes through *)
  u_faults : list (option (Z * nat));
}.

Definition set_open (o : gmap handle (nat * nat)) (u : Unix) : Unix :=
  {| u_dir := u_dir u; u_dirs := u_dirs u; u_data := u_data u; u_open := o; u_others := u_others u;
     u_limit := u_limit u; u_faults := u_faults u |}.
Definition set_dir (d : gmap path nat) (u : Unix) : Unix :=
  {| u_dir := d; u_dirs := u_dirs u; u_data := u_data u; u_open := u_open u; u_others := u_others u;
     u_limit := u_limit u; u_faults := u_faults u |}.
Definition set_dirs (d : gset path) (u : Unix) : Unix :=
  {| u_dir := u_dir u; u_dirs := d; u_data := u_data u; u_open := u_open u; u_others := u_others u;
     u_limit := u_limit u; u_faults := u_faults u |}.
Definition set_data (d : gmap nat bytes) (u : Unix) : Unix :=
  {| u_dir := u_dir u; u_dirs := u_dirs u; u_data := d; u_open := u_open u; u_others := u_others u;
     u_limit := u_limit u; u_faults := u_faults u |}.
Definition set_faults (l : list (option (Z * nat))) (u : Unix) : Unix :=
  {| u_dir := u_dir u; u_dirs := u_dirs u; u_data := u_data u; u_open := u_open u;
     u_others := u_others u; u_limit := u_limit u; u_faults := l |}.
Definition set_others (n : Z) (u : Unix) : Unix :=
  {| u_dir := u_dir u; u_dirs := u_dirs u; u_data := u_data u; u_open := u_open u; u_others := n;
     u_limit := u_limit u; u_faults := u_faults u |}.

Definition next_fault : M Unix (option (Z * nat)) := fun u =>
  match u_faults u with [] => (None, u) | e :: l => (e, set_faults l u) end.

(** A call that may fail for reasons of its own. *)
Definition faulty {A} (m : M Unix (result Z A)) : M Unix (result Z A) :=
  let* e := next_fault in
  match e with Some (e, _) => ret (Err e) | None => m end.

(** An open descriptor for an inode, under a number that is not in use, with one
    reference. *)
Definition new_descriptor (ino : nat) : M Unix (result Z handle) := fun u =>
  let fd := fresh (dom (u_open u)) in
  (Ok fd, set_open (<[fd := (ino, 1%nat)]> (u_open u)) u).

Definition new_file (p : path) : M Unix nat := fun u =>
  let ino := fresh (dom (u_data u)) in
  (ino, set_data (<[ino := ""]> (u_data u)) (set_dir (<[p := ino]> (u_dir u)) u)).

Inductive OpenMode := Existing | OrCreate | CreateNew.

Definition creates (m : OpenMode) : bool := match m with Existing => false | _ => true end.

Definition open_now (mode : OpenMode) (p : path) : M Unix (result Z handle) := fun u =>
  if u_limit u <=? Z.of_nat (size (u_open u)) + u_others u then (Err EMFILE, u)
  else if bool_decide (p ∈ u_dirs u) then (Err EISDIR, u)
  else match u_dir u !! p with
       | Some ino => match mode with CreateNew => (Err EEXIST, u) | _ => new_descriptor ino u end
       | None =>
           if creates mode && match path_parent p with Some d => bool_decide (d ∈ u_dirs u) | None => true end
           then (let* ino := new_file p in new_descriptor ino) u
           else (Err ENOENT, u)
       end.

Definition open_file (mode : OpenMode) (p : path) : M Unix (result Z handle) := faulty (open_now mode p).

Definition clone_ref (f : handle) (u : Unix) : Unix :=
  match u_open u !! f with
  | Some (ino, n) => set_open (<[f := (ino, S n)]> (u_open u)) u
  | None => u
  end.

(** The file closes with its last reference. *)
Definition drop_ref (f : handle) (u : Unix) : Unix :=
  match u_open u !! f with
  | Some (ino, S (S n)) => set_open (<[f := (ino, S n)]> (u_open u)) u
  | Some _ => set_open (delete f (u_open u)) u
  | None => u
  end.

Definition ino_of (u : Unix) (f : handle) : option nat := fst <$> u_open u !! f.
Definition refs (u : Unix) (f : handle) : nat := default 0%nat (snd <$> u_open u !! f).
Definition contents (u : Unix) (ino : nat) : bytes := default "" (u_data u !! ino).

Fixpoint zeros (n : nat) : bytes :=
  match n with O => "" | S n => String "000" (zeros n) end.

Definition read_data (b : bytes) (offset : Z) (len : nat) : result Z bytes :=
  if offset + Z.of_nat len <=? Z.of_nat (String.length b)
  then Ok (String.substring (Z.to_nat offset) len b) else Err UNEXPECTED_EOF.

(** The bytes of a file over which [buf] was written; a gap reads as zeros, and
    writing nothing changes nothing. *)
Definition splice (offset : nat) (buf b : bytes) : bytes :=
  if String.eqb buf "" then b
  else
  String.substring 0 offset (b +:+ zeros offset) +:+ buf +:+
  String.substring (offset + String.length buf) (String.length b) b.

Definition resize (n : nat) (b : bytes) : bytes := String.substring 0 n (b +:+ zeros n).

Definition update_data (f : handle) (g : bytes -> bytes) (u : Unix) : Unix :=
  match ino_of u f with
  | Some ino => set_data (<[ino := g (contents u ino)]> (u_data u)) u
  | None => u
  end.

Definition write_all (f : handle) (offset : Z) (buf : bytes) : M Unix (result Z unit) :=
  let* e := next_fault in
  match e with
  | Some (e, n) =>
      modify (update_data f (splice (Z.to_nat offset) (String.substring 0 n buf))) ;;; ret (Err e)
  | None => modify (update_data f (splice (Z.to_nat offset) buf)) ;;; ret (Ok tt)
  end.

(** A directory and those above it. *)
Fixpoint ancestors (fuel : nat) (p : path) : gset path :=
  match fuel with
  | O => {[p]}
  | S fuel => match path_parent p with Some d => {[p]} ∪ ancestors fuel d | None => {[p]} end
  end.

Definition is_in (d p : path) : bool := bool_decide (path_parent p = Some d).

#[export] Instance unix : Os Unix := {|
  open_rw := open_file Existing;
  open_or_create := open_file OrCreate;
  create_new := open_file CreateNew;
  create_dir_all := fun p => faulty (fun u =>
    let ds := ancestors (String.length p) p in
    if existsb (fun d => bool_decide (is_Some (u_dir u !! d))) (elements ds) then (Err ENOTDIR, u)
    else (Ok tt, set_dirs (ds ∪ u_dirs u) u));
  read_exact_at := fun f offset len => faulty (gets (fun u =>
    match ino_of u f with
    | Some ino => read_data (contents u ino) offset len
    | None => Err EBADF
    end));
  write_all_at := write_all;
  set_len := fun f len => faulty (modify (update_data f (resize (Z.to_nat len))) ;;; ret (Ok tt));
  clone_handle := clone_ref;
  drop_handle := drop_ref;
  unlink := fun p => faulty (fun u =>
    match u_dir u !! p with
    | Some _ => (Ok tt, set_dir (delete p (u_dir u)) u)
    | None => (Err ENOENT, u)
    end);
  is_dir := fun p u => bool_decide (p ∈ u_dirs u);
  dir_empty := fun p => faulty (gets (fun u =>
    if bool_decide (p ∈ u_dirs u)
    then Ok (negb (existsb (is_in p) ((map_to_list (u_dir u)).*1 ++ elements (u_dirs u))))
    else Err ENOTDIR));
  remove_dir := fun p => faulty (fun u =>
    if bool_decide (p ∈ u_dirs u)
    then if existsb (is_in p) ((map_to_list (u_dir u)).*1 ++ elements (u_dirs u)) then (Err ENOTEMPTY, u)
         else (Ok tt, set_dirs (u_dirs u ∖ {[p]}) u)
    else (Err ENOTDIR, u));
|}.

(** ** References *)

Definition tally (l : list handle) (f : handle) : nat := count_occ Nat.eq_dec l f.
Arguments tally l f : simpl never.

(** The handles a map keeps. *)
Definition handles {K V} `{Countable K} (m : gmap K (handle * V)) : list handle :=
  (fun kv => kv.2.1) <$> map_to_list m.

Lemma tally_app l l' f : tally (l ++ l') f = (tally l f + tally l' f)%nat.
Proof. apply count_occ_app. Qed.

Lemma tally_cons g l f : tally (g :: l) f = ((if decide (g = f) then 1 else 0) + tally l f)%nat.
Proof.
  unfold tally. destruct (decide (g = f)) as [->|Hn];
    [by rewrite count_occ_cons_eq|by rewrite count_occ_cons_neq].
Qed.

Lemma tally_nil f : tally [] f = 0%nat.
Proof. done. Qed.

Lemma tally_pos l f : (0 < tally l f)%nat <-> f ∈ l.
Proof.
  rewrite list_elem_of_In. unfold tally. rewrite (count_occ_In Nat.eq_dec). lia.
Qed.

Lemma tally_perm l l' f : l ≡ₚ l' -> tally l f = tally l' f.
Proof. intros Hp. unfold tally. by apply (Permutation_count_occ Nat.eq_dec). Qed.

Section Handles.
Context {K V : Type} `{Countable K}.
Implicit Type m : gmap K (handle * V).

Lemma handles_insert m k x : m !! k = None -> handles (<[k := x]> m) ≡ₚ x.1 :: handles m.
Proof. intros Hk. unfold handles. by rewrite map_to_list_insert. Qed.

Lemma handles_delete m k x : m !! k = Some x -> handles m ≡ₚ x.1 :: handles (delete k m).
Proof. intros Hk. unfold handles. by rewrite <- (map_to_list_delete m k x Hk). Qed.

Lemma elem_of_handles m f : f ∈ handles m <-> exists k v, m !! k = Some (f, v).
Proof.
  unfold handles. rewrite list_elem_of_fmap. split.
  - intros ([k [g v]] & -> & Hin). exists k, v. by apply elem_of_map_to_list.
  - intros (k & v & Hk). exists (k, (f, v)). split; [done|]. by apply elem_of_map_to_list.
Qed.

Lemma handles_length m : length (handles m) = size m.
Proof. unfold handles. by rewrite length_fmap, length_map_to_list. Qed.

(** A part of the entries and the rest. *)
Lemma handles_split (P : K * (handle * V) -> Prop) `{!forall x, Decision (P x)} m f :
  tally (handles m) f =
    (tally (handles (filter P m)) f + tally (handles (filter (fun x => ~ P x) m)) f)%nat.
Proof.
  induction m as [|k x m Hk IH] using map_ind.
  { by rewrite !map_filter_empty. }
  rewrite (tally_perm _ _ f (handles_insert m k x Hk)), tally_cons, IH, !map_filter_insert.
  assert (filter P m !! k = None) as H1 by (apply map_lookup_filter_None; by left).
  assert (filter (fun x => ~ P x) m !! k = None) as H2 by (apply map_lookup_filter_None; by left).
  destruct (decide (P (k, x))) as [Hp|Hp], (decide (~ P (k, x))) as [Hn|Hn];
    [by exfalso; apply Hn| | |by exfalso; apply Hn].
  - rewrite (tally_perm _ _ f (handles_insert _ k x H1)), tally_cons, delete_id by done. lia.
  - rewrite (tally_perm _ _ f (handles_insert _ k x H2)), tally_cons, delete_id by done. lia.
Qed.
End Handles.

(** What an update of the pool releases makes up for what it keeps. *)
Lemma released_count p p' q f :
  pool_map q ⊆ pool_map p ->
  (forall k x, pool_map p !! k = Some x -> pool_map p' !! k = Some x <-> pool_map q !! k = Some x) ->
  (tally (released p p') f + tally (handles (pool_map q)) f)%nat = tally (handles (pool_map p)) f.
Proof.
  intros Hsub Hsame. unfold released.
  rewrite (handles_split (fun kv => pool_map p' !! kv.1 <> Some kv.2) (pool_map p)).
  unfold handles at 2. f_equal. f_equal. f_equal. symmetry. apply map_eq. intros k. apply option_eq. intros x.
  rewrite map_lookup_filter_Some. simpl. split.
  - intros [Hk Hn]. apply Hsame; [done|]. by apply dec_stable.
  - intros Hk. pose proof (lookup_weaken _ _ _ _ Hk Hsub) as Hp. split; [done|]. intros Hn. apply Hn.
    by apply Hsame.
Qed.

(** ** What the calls do to the table *)

(** No descriptor is open without a reference. *)
Definition no_leak (u : Unix) : Prop := forall f i, u_open u !! f <> Some (i, 0%nat).

(** The named files and their contents are the same, and so is the room for
    descriptors. *)
Definition same_files (u u' : Unix) : Prop :=
  u_dir u' = u_dir u /\ u_data u' = u_data u /\ u_others u' = u_others u /\ u_limit u' = u_limit u.

#[export] Instance same_files_preorder : PreOrder same_files.
Proof. split; [done|]. intros u v w (? & ? & ? & ?) (? & ? & ? & ?). repeat split; congruence. Qed.

Lemma refs_open u f : no_leak u -> (0 < refs u f)%nat <-> is_Some (u_open u !! f).
Proof.
  intros Hn. unfold refs. destruct (u_open u !! f) as [[i n]|] eqn:E; simpl.
  - split; [eauto|]. intros _. destruct n; [|lia]. by apply Hn in E.
  - split; [lia|]. by intros [? ?].
Qed.

Lemma clone_ref_spec f u :
  is_Some (u_open u !! f) -> no_leak u ->
  let u' := clone_ref f u in
  no_leak u' /\ same_files u u' /\ u_faults u' = u_faults u /\
  (forall g, refs u' g = (tally [f] g + refs u g)%nat) /\ (forall g, ino_of u' g = ino_of u g).
Proof.
  intros [[i n] Hf] Hn. unfold clone_ref. rewrite Hf. cbv zeta. split; [|split; [done|split; [done|]]].
  - intros g j. simpl. rewrite lookup_insert_Some. intros [[_ [=]]|[_ Hg]]. by apply Hn in Hg.
  - split; intros g.
    + rewrite tally_cons, tally_nil. unfold refs. simpl. destruct (decide (f = g)) as [->|Hne].
      * by rewrite lookup_insert_eq, Hf.
      * by rewrite lookup_insert_ne.
    + unfold ino_of. simpl. destruct (decide (f = g)) as [->|Hne].
      * by rewrite lookup_insert_eq, Hf.
      * by rewrite lookup_insert_ne.
Qed.

Lemma drop_ref_spec f u :
  no_leak u ->
  let u' := drop_ref f u in
  no_leak u' /\ same_files u u' /\ u_faults u' = u_faults u /\
  (forall g, refs u' g = (refs u g - tally [f] g)%nat) /\
  (forall g, (0 < refs u' g)%nat -> ino_of u' g = ino_of u g) /\ dom (u_open u') ⊆ dom (u_open u).
Proof.
  intros Hn. unfold drop_ref. cbv zeta. destruct (u_open u !! f) as [[i [|[|n]]]|] eqn:Hf.
  - by apply Hn in Hf.
  - split; [|split; [done|split; [done|split; [|split]]]]; try intros g.
    + intros j. simpl. intros [_ Hg]%lookup_delete_Some. by apply Hn in Hg.
    + rewrite tally_cons, tally_nil. unfold refs. simpl. destruct (decide (f = g)) as [->|Hne].
      * by rewrite lookup_delete_eq, Hf.
      * rewrite lookup_delete_ne by done. lia.
    + unfold refs, ino_of. simpl. destruct (decide (f = g)) as [->|Hne].
      * rewrite lookup_delete_eq. simpl. lia.
      * by rewrite lookup_delete_ne.
    + simpl. set_solver.
  - split; [|split; [done|split; [done|split; [|split]]]]; try intros g.
    + intros j. simpl. rewrite lookup_insert_Some. intros [[_ [=]]|[_ Hg]]. by apply Hn in Hg.
    + rewrite tally_cons, tally_nil. unfold refs. simpl. destruct (decide (f = g)) as [->|Hne].
      * rewrite lookup_insert_eq, Hf. simpl. lia.
      * rewrite lookup_insert_ne by done. lia.
    + unfold ino_of. simpl. destruct (decide (f = g)) as [->|Hne].
      * by rewrite lookup_insert_eq, Hf.
      * by rewrite lookup_insert_ne.
    + simpl. rewrite dom_insert_L. apply elem_of_dom_2 in Hf. set_solver.
  - split; [done|]. split; [done|]. split; [done|]. split; [|done]. intros g. rewrite tally_cons, tally_nil. unfold refs.
    destruct (decide (f = g)) as [->|Hne]; [by rewrite Hf|lia].
Qed.

Lemma drop_refs_spec l u :
  no_leak u ->
  let u' := foldr drop_ref u l in
  no_leak u' /\ same_files u u' /\ u_faults u' = u_faults u /\
  (forall g, refs u' g = (refs u g - tally l g)%nat) /\
  (forall g, (0 < refs u' g)%nat -> ino_of u' g = ino_of u g) /\ dom (u_open u') ⊆ dom (u_open u).
Proof.
  intros Hn. cbv zeta. induction l as [|f l IH]; simpl.
  { repeat split; try done. intros g. rewrite tally_nil. lia. }
  destruct IH as (H1 & H2 & H3 & H4 & H5 & H6).
  destruct (drop_ref_spec f _ H1) as (H1' & H2' & H3' & H4' & H5' & H6').
  split; [done|]. split; [by etrans|]. split; [congruence|]. split; [|split; [|set_solver]]; intros g.
  - rewrite H4', H4, !tally_cons, tally_nil. lia.
  - intros Hg. rewrite H5' by done. apply H5. rewrite H4' in Hg. lia.
Qed.

(** ** The books *)

(** The references are those of the pool and of the holders [held]; what the
    pool keeps for a path is the file of that name, unless the path's deletion is
    under way ([pend]); and each held handle of [pins] is open on its inode. *)
Record good (pins : list (handle * nat)) (pend : path -> Prop) (held : list handle)
    (p : FilePool) (u : Unix) : Prop := {
  g_leak : no_leak u;
  g_refs : forall f, refs u f = (tally (handles (pool_map p)) f + tally held f)%nat;
  g_once : forall f, (tally (handles (pool_map p)) f <= 1)%nat;
  g_named : forall k f q, pool_map p !! k = Some (f, q) ->
    pend q \/ exists i, u_dir u !! q = Some i /\ ino_of u f = Some i;
  g_pins : forall f i, (f, i) ∈ pins -> f ∈ held /\ ino_of u f = Some i;
}.

Section Books.
Context (pins : list (handle * nat)) (pend : path -> Prop).
Local Abbreviation Good := (good pins pend).

Lemma good_perm held held' p u : held ≡ₚ held' -> Good held p u -> Good held' p u.
Proof.
  intros Hp [H1 H2 H3 H4 H5]. split; try done.
  - intros f. rewrite H2. by rewrite (tally_perm _ _ f Hp).
  - intros f i Hin. rewrite <- Hp. by apply H5.
Qed.

Lemma held_open held p u f : Good held p u -> f ∈ held -> is_Some (u_open u !! f).
Proof.
  intros Hg Hf. apply refs_open; [apply Hg|]. rewrite (g_refs _ _ _ _ _ Hg).
  apply tally_pos in Hf. lia.
Qed.

Lemma cached_open held p u k f q :
  Good held p u -> pool_map p !! k = Some (f, q) -> is_Some (u_open u !! f).
Proof.
  intros Hg Hk. apply refs_open; [apply Hg|]. rewrite (g_refs _ _ _ _ _ Hg).
  assert (f ∈ handles (pool_map p)) as Hf%tally_pos by (apply elem_of_handles; eauto). lia.
Qed.

Lemma good_clone held p u f :
  is_Some (u_open u !! f) -> Good held p u -> Good (f :: held) p (clone_ref f u).
Proof.
  intros Hf [H1 H2 H3 H4 H5]. destruct (clone_ref_spec f u Hf H1) as (C1 & (D & _) & _ & C2 & C3).
  split; [done| |done| |].
  - intros g. rewrite C2, H2, !tally_cons, tally_nil. lia.
  - intros k g q Hk. rewrite D, C3. by eapply H4.
  - intros g i Hin. rewrite C3. destruct (H5 g i Hin). split; [by right|done].
Qed.

(** Held references are dropped; what is pinned stays held. *)
Lemma good_drops l held p u :
  (forall f i, (f, i) ∈ pins -> f ∈ held) ->
  Good (l ++ held) p u -> Good held p (foldr drop_ref u l).
Proof.
  intros Hpin [H1 H2 H3 H4 H5]. destruct (drop_refs_spec l u H1) as (C1 & (D & _) & _ & C2 & C3 & _).
  assert (forall f, refs (foldr drop_ref u l) f = (tally (handles (pool_map p)) f + tally held f)%nat) as Hr.
  { intros f. rewrite C2, H2, tally_app. lia. }
  split; [done|done|done| |].
  - intros k f q Hk. destruct (H4 k f q Hk) as [?|(i & Hd & Hi)]; [by left|right]. exists i.
    rewrite D. split; [done|]. rewrite C3; [done|]. rewrite Hr.
    assert (f ∈ handles (pool_map p)) as Hf%tally_pos by (apply elem_of_handles; eauto). lia.
  - intros f i Hin. split; [by eapply Hpin|]. rewrite C3; [by apply H5|]. rewrite Hr.
    apply Hpin, tally_pos in Hin. lia.
Qed.

(** The pool gives up a part of what it keeps: the references are its caller's. *)
Lemma good_shrink held p q u :
  pool_map q ⊆ pool_map p -> Good held p u -> Good (released p q ++ held) q u.
Proof.
  intros Hsub [H1 H2 H3 H4 H5].
  assert (forall f, tally (released p q) f + tally (handles (pool_map q)) f = tally (handles (pool_map p)) f)%nat as Hc.
  { intros f. by apply released_count. }
  split; [done| | | |].
  - intros f. rewrite H2, tally_app. specialize (Hc f). lia.
  - intros f. specialize (Hc f). specialize (H3 f). lia.
  - intros k f q0 Hk. eapply H4. by eapply lookup_weaken.
  - intros f i Hin. rewrite elem_of_app. destruct (H5 f i Hin). split; [by right|done].
Qed.

(** The pool takes over a handle just opened, in place of what it gives up. *)
Lemma good_keep held p q p' u key f full :
  pool_map p !! key = None -> pool_map q ⊆ pool_map p ->
  pool_map p' = <[key := (f, full)]> (pool_map q) -> tally (handles (pool_map p)) f = 0%nat ->
  (forall i, (f, i) ∈ pins -> f ∈ held) ->
  (exists i, u_dir u !! full = Some i /\ ino_of u f = Some i) ->
  Good (f :: held) p u -> Good (released p p' ++ held) p' u.
Proof.
  intros Hkey Hsub Hp' Hfresh Hpin Hname [H1 H2 H3 H4 H5].
  assert (pool_map q !! key = None) as Hq.
  { destruct (pool_map q !! key) eqn:E; [|done]. apply (lookup_weaken _ (pool_map p)) in E; [congruence|done]. }
  assert (forall g, tally (released p p') g + tally (handles (pool_map q)) g = tally (handles (pool_map p)) g)%nat as Hc.
  { intros g. apply released_count; [done|]. intros k x Hk. rewrite Hp'.
    rewrite lookup_insert_ne; [done|]. intros ->. congruence. }
  assert (forall g, tally (handles (pool_map p')) g = tally (f :: handles (pool_map q)) g) as Hn.
  { intros g. apply tally_perm. rewrite Hp'. by apply (handles_insert (pool_map q) key (f, full)). }
  split; [done| | | |].
  - intros g. rewrite H2, Hn, tally_app, !tally_cons. specialize (Hc g). lia.
  - intros g. rewrite Hn, tally_cons. specialize (Hc g). specialize (H3 g).
    destruct (decide (f = g)) as [->|]; lia.
  - intros k g q0. rewrite Hp', lookup_insert_Some. intros [[<- [= <- <-]]|[_ Hk]]; [by right|].
    eapply H4. by eapply lookup_weaken.
  - intros g i Hin. destruct (H5 g i Hin) as [Hg Hi]. split; [|done]. apply elem_of_app. right.
    apply elem_of_cons in Hg as [->|Hg]; [by eapply Hpin|done].
Qed.

(** Calls that only add names. *)
Lemma good_names held p u u' :
  u_open u' = u_open u -> u_dir u ⊆ u_dir u' -> Good held p u -> Good held p u'.
Proof.
  intros Ho Hd [H1 H2 H3 H4 H5].
  assert (forall f, ino_of u' f = ino_of u f) as Hi by (intros f; unfold ino_of; by rewrite Ho).
  split; [|intros f; unfold refs; rewrite Ho; apply H2|done| |].
  - unfold no_leak. by rewrite Ho.
  - intros k f q Hk. destruct (H4 k f q Hk) as [?|(i & Hq & Hf)]; [by left|right]. exists i.
    rewrite Hi. split; [by eapply lookup_weaken|done].
  - intros f i Hin. rewrite Hi. by apply H5.
Qed.

Lemma good_opened held p u u' f i :
  u_open u !! f = None -> u_open u' = <[f := (i, 1%nat)]> (u_open u) -> u_dir u ⊆ u_dir u' ->
  Good held p u -> Good (f :: held) p u' /\ tally (handles (pool_map p)) f = 0%nat /\ ino_of u' f = Some i.
Proof.
  intros Hf Ho Hd Hg. pose proof Hg as [H1 H2 H3 H4 H5].
  assert (forall g, g <> f -> u_open u' !! g = u_open u !! g) as Hsame
    by (intros g Hg'; rewrite Ho; by apply lookup_insert_ne).
  assert (refs u f = 0%nat) as Hr by (unfold refs; by rewrite Hf).
  assert (u_open u' !! f = Some (i, 1%nat)) as Hf' by (rewrite Ho; apply lookup_insert_eq).
  assert (forall g j, ino_of u g = Some j -> ino_of u' g = Some j) as Hino.
  { intros g j. unfold ino_of. destruct (decide (g = f)) as [->|Hne]; [by rewrite Hf|by rewrite Hsame]. }
  specialize (H2 f) as H2f.
  split; [|split; [lia|unfold ino_of; by rewrite Hf']]. split.
  - intros g j. rewrite Ho, lookup_insert_Some. intros [[_ [=]]|[_ Hg']]. by apply H1 in Hg'.
  - intros g. rewrite tally_cons. unfold refs. destruct (decide (f = g)) as [<-|Hne].
    + rewrite Hf'. simpl. lia.
    + rewrite Hsame by done. rewrite Nat.add_0_l. apply H2.
  - done.
  - intros k g q Hk. destruct (H4 k g q Hk) as [?|(j & Hq & Hg')]; [by left|right]. exists j.
    split; [by eapply lookup_weaken|by apply Hino].
  - intros g j Hin. destruct (H5 g j Hin). split; [by right|by apply Hino].
Qed.

(** A call that may fail: it does, with nothing changed, or it runs. *)
Lemma faulty_cases {A} (m : M Unix (result Z A)) u :
  (exists l, faulty m u = m (set_faults l u) /\ (u_faults u = [] -> l = [])) \/
  exists e l, faulty m u = (Err e, set_faults l u).
Proof.
  unfold faulty, next_fault, bind, ret. destruct (u_faults u) as [|[[e n]|] l] eqn:E.
  - left. exists []. split; [|done]. f_equal. destruct u. simpl in *. by subst.
  - right. by exists e, l.
  - left. by exists l.
Qed.

Lemma open_existing_spec full u :
  let '(r, u') := open_file Existing full u in
  same_files u u' /\
  match r with
  | Ok f => u_open u !! f = None /\
      exists i, u_dir u !! full = Some i /\ u_open u' = <[f := (i, 1%nat)]> (u_open u)
  | Err _ => u_open u' = u_open u
  end.
Proof.
  unfold open_file. destruct (faulty_cases (open_now Existing full) u) as [(l & -> & _)|(e & l & ->)]; [|done].
  unfold open_now. simpl. destruct (_ <=? _); [done|]. destruct (bool_decide _); [done|].
  destruct (u_dir u !! full) as [i|] eqn:Ei; [|done]. simpl. split; [done|].
  split; [apply not_elem_of_dom, is_fresh|by exists i].
Qed.

(** ** The pool's calls *)

(** What a call leaves of the pool: its invariant, its cap, at most one stamp
    more, and no key but [key], for the file [full], that it did not have. *)
Record pool_step (key : PoolKey) (full : path) (p p' : FilePool) : Prop := {
  ps_wf : pool_wf p';
  ps_cap : cap p' = cap p;
  ps_stamp : stamp p <= stamp p' <= stamp p + 1;
  ps_keys : forall k x, pool_map p' !! k = Some x -> pool_map p !! k = Some x \/ (k = key /\ x.2 = full);
}.

Lemma keep_open_good held p u key f full :
  pool_wf p -> stamps_left p -> stamps p !! key = None ->
  (forall g i, (g, i) ∈ pins -> g ∈ held) ->
  tally (handles (pool_map p)) f = 0%nat ->
  (exists i, u_dir u !! full = Some i /\ ino_of u f = Some i) ->
  Good (f :: held) p u ->
  let '(r, (p', u')) := keep_open key f full (p, u) in
  r = Ok f /\ pool_step key full p p' /\ same_files u u' /\ pool_map p' !! key = Some (f, full) /\
  Good (f :: held) p' u'.
Proof.
  intros Hwf Hleft Hkey Hpins Hfresh Hname Hg.
  assert (pool_map p !! key = None) as Hk.
  { apply not_elem_of_dom. rewrite (wf_dom p Hwf). by apply not_elem_of_dom. }
  destruct (opened_spec key f full p p) as (Hwf' & Hcap & Hcached & (q & Hpart & Hmap) & _); [done..|].
  unfold keep_open, on_pool, on_outside, modify, bind, ret. simpl.
  set (p' := insert key f full (count_open p)) in *.
  pose proof (good_keep held p q p' u key f full Hk (part_map _ _ Hpart) Hmap Hfresh
    (fun i Hin => Hpins f i Hin) Hname Hg) as Hg1.
  apply good_drops in Hg1; [|done]. pose proof (cached_open _ _ _ _ _ _ Hg1 Hcached) as Hopen.
  destruct (drop_refs_spec (released p p') u) as (Hl & Hs & _); [apply Hg|].
  destruct (clone_ref_spec f _ Hopen Hl) as (_ & Hs' & _).
  split; [done|]. split; [|split; [by etrans|split; [done|by apply good_clone]]].
  split; [done|done| |].
  - change (stamp p') with (wrap64 (stamp (make_room (S (size (stamps p))) key (count_open p)) + 1)).
    destruct (make_room_spec (S (size (stamps p))) key (count_open p)) as (_ & Hr & _);
      [by destruct Hwf|done|simpl; lia|].
    rewrite (part_stamp _ _ Hr). cbn [stamp count_open]. unfold stamps_left in Hleft. rewrite wrap64_small by ulia. lia.
  - intros k x. rewrite Hmap, lookup_insert_Some. intros [[<- <-]|[_ Hx]]; [by right|left].
    eapply lookup_weaken; [exact Hx|apply Hpart].
Qed.

(** A file that could be opened, kept. *)
Lemma open_keep_good held p u key f full u1 :
  pool_wf p -> stamps_left p -> stamps p !! key = None ->
  (forall g i, (g, i) ∈ pins -> g ∈ held) -> Good held p u ->
  open_file Existing full u = (Ok f, u1) ->
  let '(r, (p', u')) := keep_open key f full (p, u1) in
  r = Ok f /\ pool_step key full p p' /\ same_files u u' /\ pool_map p' !! key = Some (f, full) /\
  Good (f :: held) p' u'.
Proof.
  intros Hwf Hleft Hk Hpins Hg Hopen. pose proof (open_existing_spec full u) as Ho. rewrite Hopen in Ho.
  destruct Ho as (Hs & Hf & i & Hd & Ho).
  destruct (good_opened held p u u1 f i Hf Ho) as (Hg1 & Hfresh & Hi); [by rewrite (proj1 Hs)|done|].
  pose proof (keep_open_good held p u1 key f full Hwf Hleft Hk Hpins Hfresh) as Hko.
  destruct (keep_open key f full (p, u1)) as [r [p' u']].
  destruct Hko as (-> & Hp & Hs' & Hc & Hg'); [|done|by split; [|split; [|split; [etrans|]]]].
  exists i. by rewrite (proj1 Hs).
Qed.

(** A handle of the cache, once more. *)
Lemma cached_good held p u key f q :
  pool_wf p -> stamps_left p -> pool_map p !! key = Some (f, q) -> Good held p u ->
  let '(r, (p', u')) := get_or_open key q (p, u) in
  r = Ok f /\ pool_step key q p p' /\ same_files u u' /\ pool_map p' !! key = Some (f, q) /\
  Good (f :: held) p' u'.
Proof.
  intros Hwf Hleft Ek Hg. unfold get_or_open, bind at 1, gets. rewrite Ek.
  assert (is_Some (stamps p !! key)) as Hk.
  { apply elem_of_dom. rewrite <- (wf_dom p Hwf). apply elem_of_dom. eauto. }
  pose proof (touch_wf key p Hwf Hleft Hk) as Hwf'. unfold on_pool, on_outside, modify, bind, ret.
  rewrite (released_same p (touch key p)) by done. simpl.
  pose proof (cached_open _ _ _ _ _ _ Hg Ek) as Hopen.
  destruct (clone_ref_spec f u Hopen (g_leak _ _ _ _ _ Hg)) as (_ & Hs & _).
  split; [done|]. split; [|split; [done|split; [done|]]].
  - split; [done|done| |intros k x Hx; by left].
    simpl. unfold stamps_left in Hleft. rewrite wrap64_small by ulia. lia.
  - destruct (good_clone _ _ _ _ Hopen Hg) as [H1 H2 H3 H4 H5]. by split.
Qed.

(** Shedding closes what no one else holds, and leaves the books straight. *)
Lemma shed_good held p u key full n :
  pool_wf p -> (forall g i, (g, i) ∈ pins -> g ∈ held) -> Good held p u ->
  let u' := foldr drop_ref u (released p (shed n p)) in
  pool_step key full p (shed n p) /\ stamp (shed n p) = stamp p /\ same_files u u' /\ Good held (shed n p) u'.
Proof.
  intros Hwf Hpins Hg. destruct (shed_spec n p Hwf) as [Hwf' Hpart]. split; [|split; [|split]].
  - split; [done|apply Hpart|rewrite (part_stamp _ _ Hpart); lia|].
    intros k x Hx. left. eapply lookup_weaken; [exact Hx|apply Hpart].
  - apply Hpart.
  - by destruct (drop_refs_spec (released p (shed n p)) u (g_leak _ _ _ _ _ Hg)) as (_ & Hs & _).
  - apply good_drops; [done|]. by apply good_shrink; [apply Hpart|].
Qed.

Lemma pool_step_after key full p q p' :
  pool_step key full p q -> stamp q = stamp p -> pool_step key full q p' -> pool_step key full p p'.
Proof.
  intros [Q1 Q2 Q3 Q4] Hs [P1 P2 P3 P4]. split; [done|congruence|lia|].
  intros k x Hx. destruct (P4 k x Hx) as [Hy|?]; [by apply Q4|by right].
Qed.

Lemma get_or_open_good held p u key full :
  pool_wf p -> stamps_left p -> (forall g i, (g, i) ∈ pins -> g ∈ held) ->
  (forall f q, pool_map p !! key = Some (f, q) -> q = full) ->
  Good held p u ->
  let '(r, (p', u')) := get_or_open key full (p, u) in
  pool_step key full p p' /\ same_files u u' /\
  match r with
  | Ok f => pool_map p' !! key = Some (f, full) /\ Good (f :: held) p' u'
  | Err _ => Good held p' u'
  end.
Proof.
  intros Hwf Hleft Hpins Hsame Hg. destruct (pool_map p !! key) as [[f q]|] eqn:Ek.
  { assert (q = full) as -> by by eapply Hsame.
    pose proof (cached_good held p u key f full Hwf Hleft Ek Hg) as Hc.
    destruct (get_or_open key full (p, u)) as [r [p' u']]. by destruct Hc as (-> & ? & ? & ? & ?). }
  assert (stamps p !! key = None) as Hk.
  { apply not_elem_of_dom. rewrite <- (wf_dom p Hwf). by apply not_elem_of_dom. }
  unfold get_or_open, bind at 1, gets. rewrite Ek. unfold bind at 1, on_os.
  change (open_rw full) with (open_file Existing full). pose proof (open_existing_spec full u) as Hopen.
  destruct (open_file Existing full u) as [[f|e] u1] eqn:Eo.
  { pose proof (open_keep_good held p u key f full u1 Hwf Hleft Hk Hpins Hg Eo) as Hko.
    destruct (keep_open key f full (p, u1)) as [r [p' u']]. by destruct Hko as (-> & ? & ? & ? & ?). }
  destruct Hopen as (Hs & Ho).
  assert (Good held p u1) as Hg1 by (eapply good_names; [exact Ho|by rewrite (proj1 Hs)|done]).
  destruct (negb (e =? EMFILE)); [by split; [split; [done|done|lia|by left]|]|].
  unfold on_pool at 1, modify, bind at 1 2. set (n := Z.to_nat (Z.max (cap p / 4) 1)).
  destruct (shed_good held p u1 key full n Hwf Hpins Hg1) as (Hshed & Hst & Hs2 & Hg2).
  change drop_handle with drop_ref. set (u2 := foldr drop_ref u1 _) in *.
  change (open_rw full) with (open_file Existing full). pose proof (open_existing_spec full u2) as Hopen.
  destruct (open_file Existing full u2) as [[f|e'] u3] eqn:Eo2.
  - assert (stamps (shed n p) !! key = None) as Hk'.
    { destruct (shed_spec n p Hwf) as [_ Hpart]. by eapply lookup_weaken_None; [|apply Hpart]. }
    assert (stamps_left (shed n p)) as Hleft' by (unfold stamps_left; by rewrite Hst).
    pose proof (open_keep_good held _ u2 key f full u3 (ps_wf _ _ _ _ Hshed) Hleft' Hk' Hpins Hg2 Eo2) as Hko.
    destruct (keep_open key f full (shed n p, u3)) as [r [p' u']].
    destruct Hko as (-> & Hp & Hs' & Hc & Hg'). split; [by eapply pool_step_after|].
    split; [|done]. etrans; [exact Hs|]. by etrans.
  - destruct Hopen as (Hs3 & Ho3). split; [done|]. split.
    + etrans; [exact Hs|]. by etrans.
    + eapply good_names; [exact Ho3|by rewrite (proj1 Hs3)|done].
Qed.

(** ** Initialising a view *)

Lemma open_any_spec mode full u :
  let '(r, u') := open_file mode full u in
  u_dir u ⊆ u_dir u' /\
  match r with
  | Ok f => u_open u !! f = None /\ exists i, u_open u' = <[f := (i, 1%nat)]> (u_open u)
  | Err _ => u_open u' = u_open u
  end.
Proof.
  unfold open_file. destruct (faulty_cases (open_now mode full) u) as [(l & -> & _)|(e & l & ->)]; [|done].
  unfold open_now. simpl. destruct (_ <=? _); [done|]. destruct (bool_decide _); [done|].
  destruct (u_dir u !! full) as [i|] eqn:Ei.
  - destruct mode; [| |done]; (split; [done|]); (split; [apply not_elem_of_dom, is_fresh|by eexists]).
  - destruct (creates mode && _); [|done]. unfold bind, new_file, new_descriptor. simpl.
    split; [by apply insert_subseteq|]. split; [apply not_elem_of_dom, is_fresh|by eexists].
Qed.

Lemma hoare_open held p mode full :
  hoare (Good held p) (open_file mode full)
    (fun r u => match r with Ok f => Good (f :: held) p u | Err _ => Good held p u end).
Proof.
  intros u Hg. pose proof (open_any_spec mode full u) as Ho. destruct (open_file mode full u) as [[f|e] u'].
  - destruct Ho as (Hd & Hf & i & Ho). by eapply good_opened.
  - destruct Ho as (Hd & Ho). by eapply good_names.
Qed.

Lemma hoare_drop held p f :
  (forall g i, (g, i) ∈ pins -> g ∈ held) ->
  hoare (Good (f :: held) p) (modify (drop_ref f)) (fun _ => Good held p).
Proof. intros Hpins u Hg. by apply (good_drops [f]). Qed.

(** A call on names only. *)
Lemma hoare_faulty {A} held p (m : M Unix (result Z A)) :
  (forall u, u_open (m u).2 = u_open u /\ u_dir u ⊆ u_dir (m u).2) ->
  hoare (Good held p) (faulty m) (fun _ => Good held p).
Proof.
  intros Hm u Hg. destruct (faulty_cases m u) as [(l & -> & _)|(e & l & ->)].
  - destruct (Hm (set_faults l u)) as [Ho Hd]. by apply (good_names held p u).
  - by apply (good_names held p u).
Qed.

Lemma init_file_good held p v fi :
  (forall g i, (g, i) ∈ pins -> g ∈ held) ->
  hoare (Good held p) (init_file v fi) (fun _ => Good held p).
Proof.
  intros Hpins. unfold init_file. destruct (fi_padding fi); [by apply hoare_ret|].
  destruct (path_parent _) as [d|]; [|by apply hoare_ret].
  apply (hoare_bindR _ _ _ (fun _ => Good held p)); [by apply hoare_ret| |done]. intros d'.
  apply (hoare_bindR _ _ _ (fun _ => Good held p)); [| |done].
  { apply (hoare_bind _ _ _ (fun _ => Good held p)); [|intros r; by apply hoare_ret]. apply hoare_faulty. intros u. simpl.
    by destruct (existsb _ (elements _)). }
  intros _. set (R := fun (r : result error handle) u => match r with Ok f => Good (f :: held) p u | Err _ => Good held p u end).
  assert (forall mode msg full, hoare (Good held p) (with_context msg (open_file mode full)) R) as Hopen.
  { intros. apply (hoare_with_context _ _ _ (fun f => Good (f :: held) p)), hoare_open. }
  eapply (hoare_bindR _ _ _ R); [|intros f|done].
  - destruct (ps_overwrite v); [apply Hopen|].
    apply (hoare_bindR _ _ _ R); [apply Hopen| |intros e u Hg; exact Hg]. intros f.
    apply (hoare_bind _ _ _ (fun _ => Good held p)); [by apply hoare_drop|]. intros _. apply Hopen.
  - apply (hoare_bind _ _ _ (fun _ => Good held p)); [by apply hoare_drop|]. intros _. by apply hoare_ret.
Qed.

Lemma init_good held p v fis :
  (forall g i, (g, i) ∈ pins -> g ∈ held) ->
  hoare (Good held p) (init v fis) (fun _ => Good held p).
Proof.
  intros Hpins. apply (hoare_bindR _ _ _ (fun _ => Good held p)); [|intros; by apply hoare_ret|done].
  induction fis as [|fi fis IH]; [by apply hoare_ret|].
  apply (hoare_bindR _ _ _ (fun _ => Good held p)); [by apply init_file_good| |done]. intros q.
  apply (hoare_bindR _ _ _ (fun _ => Good held p)); [exact IH| |done]. intros qs. by apply hoare_ret.
Qed.
End Books.

(** ** Deletions *)

(** Unlinking makes the deletion pending. *)
Lemma good_unlink pins (pend pend' : path -> Prop) held p u full :
  (forall q, pend q -> pend' q) -> pend' full ->
  good pins pend held p u -> good pins pend' held p (set_dir (delete full (u_dir u)) u).
Proof.
  intros Hpend Hfull [H1 H2 H3 H4 H5]. split; [done|done|done| |done].
  intros k f q Hk. destruct (H4 k f q Hk) as [?|(i & Hd & Hi)]; [by left; apply Hpend|].
  destruct (decide (q = full)) as [->|Hne]; [by left|right]. exists i. simpl.
  by rewrite lookup_delete_ne.
Qed.

Lemma evict_by_path_same full p :
  cap (evict_by_path full p) = cap p /\ stamp (evict_by_path full p) = stamp p /\
  pool_map (evict_by_path full p) ⊆ pool_map p /\ (pool_wf p -> pool_wf (evict_by_path full p)).
Proof.
  unfold evict_by_path. split; [|split; [|split; [|apply evict_all_spec]]].
  - generalize ((map_to_list (filter (fun kv => kv.2.2 = full) (pool_map p))).*1). intros l. revert p.
    induction l as [|k l IH]; intros p; [done|]. simpl. by rewrite IH.
  - generalize ((map_to_list (filter (fun kv => kv.2.2 = full) (pool_map p))).*1). intros l. revert p.
    induction l as [|k l IH]; intros p; [done|]. simpl. by rewrite IH.
  - rewrite (proj1 (evict_all_spec _ _)). apply map_filter_subseteq.
Qed.

(** The sweep ends it. *)
Lemma good_sweep pins (pend pend' : path -> Prop) held p u full :
  (forall q, pend q -> pend' q \/ q = full) -> (forall g i, (g, i) ∈ pins -> g ∈ held) ->
  good pins pend held p u ->
  let '(_, (p', u')) := evict_path full (p, u) in
  p' = evict_by_path full p /\ same_files u u' /\ good pins pend' held p' u'.
Proof.
  intros Hpend Hpins Hg. unfold evict_path, on_pool, modify. split; [done|]. split.
  { by destruct (drop_refs_spec (released p (evict_by_path full p)) u (g_leak _ _ _ _ _ Hg)) as (_ & Hs & _). }
  change drop_handle with drop_ref.
  pose proof (evict_by_path_same full p) as (_ & _ & Hsub & _).
  pose proof (good_drops _ _ _ _ _ _ Hpins (good_shrink _ _ _ _ _ _ Hsub Hg)) as [H1 H2 H3 H4 H5].
  split; [done|done|done| |done]. intros k f q Hk. destruct (H4 k f q Hk) as [Hq|?]; [|by right].
  apply evict_by_path_spec in Hk as [_ Hne]. destruct (Hpend q Hq); [by left|done].
Qed.
