(* ===== verification/Sharing.v ===== *)
(** The handle pool in use, [engine/pool_storage.rs]: many threads read, write
    and delete the files of many torrents through one pool.

    The order in which the threads' calls take the pool's lock is a list of
    events; between a thread's [handle] and its positioned IO, and between the
    unlink and the sweep of a deletion, any other events may come. *)

From S2P Require Import Prelude Fs Pool Descriptors.

(** ** The process *)

(** The threads' IOs under way, with the handle each holds and the file it is
    for, and their deletions that are between the unlink and the sweep. *)
Record Proc := {
  p_pool : FilePool;
  p_reg : Registry;
  p_os : Unix;
  p_views : list PooledStorage;
  p_busy : gmap nat (handle * (path * nat));
  p_sweeps : gmap nat path;
}.

Definition boot (cap : Z) (u : Unix) : Proc :=
  {| p_pool := with_cap cap; p_reg := {| registered := ∅; uid_source := 0 |}; p_os := u;
     p_views := []; p_busy := ∅; p_sweeps := ∅ |}.

(** The calls of the engine and of rqbit, each thread's by its number, each view
    by its place. *)
Inductive Event :=
  | ERegister (info_hash : string) (output_folder : path) (overwrite : bool)
  | EUnregister (info_hash : string)
  | ECreate (info_hash : string)
  | EInit (i : nat) (fis : list FileInfo)
  | ETake (i : nat)
  | EBegin (t i file_id : nat)
  | ERead (t : nat) (offset : Z) (len : nat)
  | EWrite (t : nat) (offset : Z) (buf : bytes)
  | ESetLen (t : nat) (length : Z)
  | EUnlink (t i : nat) (filename : path)
  | ESweep (t : nat)
  | ERemoveDir (i : nat) (p : path)
  | EOthers (n : Z).

Definition set_shared (pu : FilePool * Unix) (s : Proc) : Proc :=
  {| p_pool := pu.1; p_reg := p_reg s; p_os := pu.2; p_views := p_views s; p_busy := p_busy s;
     p_sweeps := p_sweeps s |}.
Definition set_reg (r : Registry) (s : Proc) : Proc :=
  {| p_pool := p_pool s; p_reg := r; p_os := p_os s; p_views := p_views s; p_busy := p_busy s;
     p_sweeps := p_sweeps s |}.
Definition set_views (v : list PooledStorage) (s : Proc) : Proc :=
  {| p_pool := p_pool s; p_reg := p_reg s; p_os := p_os s; p_views := v; p_busy := p_busy s;
     p_sweeps := p_sweeps s |}.
Definition set_busy (b : gmap nat (handle * (path * nat))) (s : Proc) : Proc :=
  {| p_pool := p_pool s; p_reg := p_reg s; p_os := p_os s; p_views := p_views s; p_busy := b;
     p_sweeps := p_sweeps s |}.
Definition set_sweeps (w : gmap nat path) (s : Proc) : Proc :=
  {| p_pool := p_pool s; p_reg := p_reg s; p_os := p_os s; p_views := p_views s; p_busy := p_busy s;
     p_sweeps := w |}.

Definition shared (s : Proc) : FilePool * Unix := (p_pool s, p_os s).

(** The result of a call, for calls that give no bytes. *)
Definition call_result {A} (r : result error A) : result error bytes :=
  match r with Ok _ => Ok "" | Err e => Err e end.

(** The file a view means by an id. *)
Definition file_path (v : PooledStorage) (file_id : nat) : option path :=
  match mjoin (ps_paths v !! file_id) with
  | Some rel => Some (path_join (ps_output_folder v) rel)
  | None => None
  end.

(** A view is initialised by rqbit once, before it is used or handed on. *)
Definition uninitialised (i : nat) (v : PooledStorage) (l : list PooledStorage) : bool :=
  match ps_paths v with
  | [] => forallb (fun v' => negb (ps_uid v' =? ps_uid v)) (delete i l)
  | _ :: _ => false
  end.

(** The end of a thread's IO, with the handle it holds. *)
Definition finish {A} (t : nat) (io : handle -> nat -> M (FilePool * Unix) (result error A)) (s : Proc)
    : option (result error A * Proc) :=
  match p_busy s !! t with
  | Some (f, (_, file_id)) =>
      let '(r, pu) := io f file_id (shared s) in
      Some (r, set_busy (delete t (p_busy s)) (set_shared pu s))
  | None => None
  end.

(** One event: what the call returned, and the process after it; [None] when it
    cannot happen. *)
Definition step (e : Event) (s : Proc) : option (result error bytes * Proc) :=
  match e with
  | ERegister h folder ow => Some (Ok "", set_reg (register_torrent h folder ow (p_reg s)) s)
  | EUnregister h => Some (Ok "", set_reg (unregister_torrent h (p_reg s)) s)
  | ECreate h =>
      let '(r, reg) := create h (p_reg s) in
      Some (call_result r, match r with
                    | Ok v => set_views (p_views s ++ [v]) (set_reg reg s)
                    | Err _ => set_reg reg s
                    end)
  | EInit i fis =>
      v ← p_views s !! i;
      if uninitialised i v (p_views s) then
        let '(r, u) := init v fis (p_os s) in
        let s := set_shared (p_pool s, u) s in
        Some (call_result r, match r with
                      | Ok v' => set_views (<[i := v']> (p_views s)) s
                      | Err _ => s
                      end)
      else None
  | ETake i =>
      v ← p_views s !! i;
      Some (Ok "", set_views (p_views s ++ [take_storage v]) s)
  | EBegin t i file_id =>
      v ← p_views s !! i;
      match p_busy s !! t with
      | Some _ => None
      | None =>
          let '(r, pu) := handle_of v file_id (shared s) in
          let s := set_shared pu s in
          Some (call_result r, match r with
                        | Ok f => set_busy (<[t := (f, (default "" (file_path v file_id), file_id))]> (p_busy s)) s
                        | Err _ => s
                        end)
      end
  | ERead t offset len => finish t (fun f id => pread_at f id offset len) s
  | EWrite t offset buf => prod_map call_result id <$> finish t (fun f id => pwrite_at f id offset buf) s
  | ESetLen t length => prod_map call_result id <$> finish t (fun f id => set_length f id length) s
  | EUnlink t i filename =>
      v ← p_views s !! i;
      match p_sweeps s !! t with
      | Some _ => None
      | None =>
          let full := path_join (ps_output_folder v) filename in
          let '(r, u) := with_context ("removing " +:+ full) (unlink full) (p_os s) in
          let s := set_shared (p_pool s, u) s in
          Some (call_result r, match r with
                        | Ok _ => set_sweeps (<[t := full]> (p_sweeps s)) s
                        | Err _ => s
                        end)
      end
  | ESweep t =>
      full ← p_sweeps s !! t;
      let '(_, pu) := evict_path full (shared s) in
      Some (Ok "", set_sweeps (delete t (p_sweeps s)) (set_shared pu s))
  | ERemoveDir i p =>
      v ← p_views s !! i;
      let '(r, u) := remove_directory_if_empty v p (p_os s) in
      Some (call_result r, set_shared (p_pool s, u) s)
  | EOthers n => Some (Ok "", set_shared (p_pool s, set_others n (p_os s)) s)
  end.

Fixpoint run (es : list Event) (s : Proc) : option Proc :=
  match es with
  | [] => Some s
  | e :: es => '(_, s') ← step e s; run es s'
  end.

(** ** The invariant of the process *)

Definition pending (s : Proc) (full : path) : Prop := exists t, p_sweeps s !! t = Some full.

Section Sound.
Context (c : Z).

(** After at most [n] events: the pool's invariant and the books hold, each uid
    was issued and stands for one view, what the pool keeps under a key is the
    file that the key's view means, and its cap is [c]. *)
Record sound (n : Z) (pins : list (handle * nat)) (s : Proc) : Prop := {
  s_wf : pool_wf (p_pool s);
  s_stamp : 0 <= stamp (p_pool s) <= n;
  s_good : good pins (pending s) (handles (p_busy s)) (p_pool s) (p_os s);
  s_source : 0 <= uid_source (p_reg s) <= n;
  s_uids : forall v, v ∈ p_views s -> ps_uid v < uid_source (p_reg s);
  s_same : forall v v', v ∈ p_views s -> v' ∈ p_views s -> ps_uid v = ps_uid v' -> v = v';
  s_keyed : forall k f q, pool_map (p_pool s) !! k = Some (f, q) ->
    exists v, v ∈ p_views s /\ ps_uid v = k.1 /\ file_path v k.2 = Some q;
  s_cap : cap (p_pool s) = c;
}.

(** The thread whose IO an event ends. *)
Definition ended (e : Event) : option nat :=
  match e with ERead t _ _ | EWrite t _ _ | ESetLen t _ => Some t | _ => None end.

Lemma sound_weaken n n' pins s : n <= n' -> sound n pins s -> sound n' pins s.
Proof. intros Hn [H1 H2 H3 H4 H5 H6 H7 H8]. split; try done; lia. Qed.

Lemma sound_pins n pins s : sound n pins s -> forall f i, (f, i) ∈ pins -> f ∈ handles (p_busy s).
Proof. intros Hs f i Hin. by apply (g_pins _ _ _ _ _ (s_good _ _ _ Hs)) in Hin as [? _]. Qed.

(** A change of the system alone. *)
Lemma sound_os n pins s u :
  sound n pins s -> good pins (pending s) (handles (p_busy s)) (p_pool s) u ->
  sound n pins (set_shared (p_pool s, u) s).
Proof. intros [H1 H2 H3 H4 H5 H6 H7 H8] Hg. by split. Qed.

(** A view more, or one in place of the only one of its uid. *)
Lemma sound_create n pins s h :
  sound n pins s -> n < U64_MAX ->
  let '(r, reg) := create h (p_reg s) in
  sound (n + 1) pins (match r with
                      | Ok v => set_views (p_views s ++ [v]) (set_reg reg s)
                      | Err _ => set_reg reg s
                      end).
Proof.
  intros Hs Hn. pose proof Hs as [H1 H2 H3 H4 H5 H6 H7 H8]. unfold create.
  destruct (lookup_registered h (p_reg s)) as [reg|e]; simpl.
  2: { apply (sound_weaken n); [lia|]. by split. }
  assert (wrap64 (uid_source (p_reg s) + 1) = uid_source (p_reg s) + 1) as Hw by (apply wrap64_small; ulia).
  split; simpl; try done; try lia.
  - intros v [Hv| ->%list_elem_of_singleton]%elem_of_app; [apply H5 in Hv|simpl]; lia.
  - intros v v' [Hv| ->%list_elem_of_singleton]%elem_of_app [Hv'| ->%list_elem_of_singleton]%elem_of_app; simpl.
    + by apply H6.
    + apply H5 in Hv. lia.
    + apply H5 in Hv'. lia.
    + done.
  - intros k f q Hk. destruct (H7 k f q Hk) as (v & Hv & ?). exists v.
    split; [apply elem_of_app; by left|done].
Qed.

Lemma init_ok_view v fis u v' u' :
  init v fis u = (Ok v', u') -> ps_uid v' = ps_uid v.
Proof.
  unfold init, bindR, bind. destruct (init_files v fis u) as [[ps|e] u1]; [|done].
  by intros [= <- _].
Qed.

Lemma sound_init n pins s i v v' :
  sound n pins s -> p_views s !! i = Some v -> uninitialised i v (p_views s) = true ->
  ps_uid v' = ps_uid v -> sound n pins (set_views (<[i := v']> (p_views s)) s).
Proof.
  intros [H1 H2 H3 H4 H5 H6 H7 H8] Hi Hun Huid. pose proof (list_elem_of_lookup_2 _ _ _ Hi) as Hv.
  unfold uninitialised in Hun. destruct (ps_paths v) eqn:Ep; [|done].
  rewrite forallb_forall in Hun.
  assert (forall w, w ∈ <[i := v']> (p_views s) -> w = v' \/ (w ∈ p_views s /\ ps_uid w <> ps_uid v)) as Hin.
  { intros w [j Hj]%list_elem_of_lookup. destruct (decide (i = j)) as [<-|Hne].
    - rewrite list_lookup_insert_eq in Hj by by eapply lookup_lt_Some. left. congruence.
    - rewrite list_lookup_insert_ne in Hj by done. right. split; [by eapply list_elem_of_lookup_2|].
      assert (w ∈ delete i (p_views s)) as Hd.
      { destruct (decide (j < i)%nat).
        - apply list_elem_of_lookup. exists j. by rewrite list_lookup_delete_lt.
        - apply list_elem_of_lookup. exists (pred j). rewrite list_lookup_delete_ge by lia.
          by replace (S (pred j)) with j by lia. }
      apply list_elem_of_In, Hun in Hd. simpl_bool. done. }
  split; simpl; try done.
  - intros w [->|[Hw _]]%Hin; [rewrite Huid|]; by apply H5.
  - intros w w' [->|[Hw Hwu]]%Hin [->|[Hw' Hwu']]%Hin Heq; [done|congruence|congruence|by apply H6].
  - intros k f q Hk. destruct (H7 k f q Hk) as (w & Hw & Hwk & Hq). exists w. split; [|done].
    apply list_elem_of_lookup in Hw as [j Hj]. apply list_elem_of_lookup. exists j.
    rewrite list_lookup_insert_ne; [done|]. intros <-. assert (w = v) as -> by congruence.
    unfold file_path in Hq. by rewrite Ep, lookup_nil in Hq.
Qed.

Lemma handle_of_file {W} `{Os W} v file_id :
  handle_of v file_id =
    match file_path v file_id with
    | Some full => with_context ("opening " +:+ full +:+ " through the fd pool")
                     (get_or_open (ps_uid v, file_id) full)
    | None => ret (Err ("no such file id " +:+ pretty file_id +:+ " in storage " +:+ pretty (ps_uid v)))
    end.
Proof. unfold handle_of, file_path. by destruct (mjoin _). Qed.

(** A thread gets a handle. *)
Lemma sound_begin n pins s t i v file_id :
  sound n pins s -> n < U64_MAX -> p_views s !! i = Some v -> p_busy s !! t = None ->
  let '(r, (p', u')) := handle_of v file_id (shared s) in
  match r with
  | Ok f => exists full, file_path v file_id = Some full /\
      pool_map p' !! (ps_uid v, file_id) = Some (f, full) /\ same_files (p_os s) u' /\
      sound (n + 1) pins (set_busy (<[t := (f, (full, file_id))]> (p_busy s)) (set_shared (p', u') s))
  | Err _ => same_files (p_os s) u' /\ sound (n + 1) pins (set_shared (p', u') s)
  end.
Proof.
  intros Hs Hn Hi Ht. pose proof Hs as [H1 H2 H3 H4 H5 H6 H7 H8].
  pose proof (list_elem_of_lookup_2 _ _ _ Hi) as Hv. rewrite handle_of_file.
  destruct (file_path v file_id) as [full|] eqn:Ef.
  2: { split; [done|]. apply (sound_weaken n); [lia|]. by apply sound_os. }
  pose proof (get_or_open_good pins (pending s) (handles (p_busy s)) (p_pool s) (p_os s)
    (ps_uid v, file_id) full H1) as Hget.
  unfold with_context, bind, shared. destruct (get_or_open _ _ _) as [r [p' u']].
  destruct Hget as ([P1 P2 P3 P4] & Hfiles & Hr).
  { unfold stamps_left. lia. }
  { by apply sound_pins with (n := n). }
  { intros f q Hk. destruct (H7 _ _ _ Hk) as (w & Hw & Hwu & Hq). simpl in *.
    assert (w = v) as -> by by apply H6. congruence. }
  { done. }
  assert (forall k f q, pool_map p' !! k = Some (f, q) ->
    exists v, v ∈ p_views s /\ ps_uid v = k.1 /\ file_path v k.2 = Some q) as Hkeys.
  { intros k f q Hk. destruct (P4 _ _ Hk) as [Hk'|[-> Hq]]; [by eapply H7|]. simpl in *. subst q. by exists v. }
  destruct r as [f|e]; simpl.
  - destruct Hr as [Hc Hg]. exists full. split; [done|]. split; [done|]. split; [done|].
    split; simpl; try done; try lia.
    eapply good_perm; [|exact Hg]. by rewrite (handles_insert (p_busy s) t (f, (full, file_id)) Ht).
  - split; [done|]. by split; simpl; try done; try lia.
Qed.

(** An IO changes contents at most, and gives its handle up. *)
Definition gives_up {A} (io : handle -> nat -> M (FilePool * Unix) (result error A)) : Prop :=
  forall f file_id p u, exists u1, (io f file_id (p, u)).2 = (p, drop_ref f u1) /\
    u_open u1 = u_open u /\ u_dir u1 = u_dir u.

Lemma update_data_same f g u :
  u_open (update_data f g u) = u_open u /\ u_dir (update_data f g u) = u_dir u.
Proof. unfold update_data. by destruct (ino_of u f). Qed.

Lemma pread_gives_up offset len : gives_up (fun f id => pread_at f id offset len).
Proof.
  intros f id p u. unfold pread_at, with_context, on_os, on_outside, modify, bind, ret. simpl.
  match goal with |- context [faulty ?m u] => destruct (faulty_cases m u) as [(l & -> & _)|(e & l & ->)] end.
  - by exists (set_faults l u).
  - by exists (set_faults l u).
Qed.

Lemma pwrite_gives_up offset buf : gives_up (fun f id => pwrite_at f id offset buf).
Proof.
  intros f id p u. unfold pwrite_at, with_context, on_os, on_outside, modify, bind, ret. simpl.
  unfold write_all, next_fault, modify, bind, ret. destruct (u_faults u) as [|[[e n]|] l]; simpl.
  - exists (update_data f (splice (Z.to_nat offset) buf) u). split; [done|apply update_data_same].
  - eexists. split; [done|]. apply (update_data_same f _ (set_faults l u)).
  - eexists. split; [done|]. apply (update_data_same f _ (set_faults l u)).
Qed.

Lemma set_length_gives_up length : gives_up (fun f id => set_length f id length).
Proof.
  intros f id p u. unfold set_length, with_context, on_os, on_outside, modify, bind, ret. simpl.
  match goal with |- context [faulty ?m u] => destruct (faulty_cases m u) as [(l & -> & _)|(e & l & ->)] end.
  - eexists. split; [done|]. apply (update_data_same f _ (set_faults l u)).
  - by exists (set_faults l u).
Qed.

(** A thread's IO ends; the others keep their handles. *)
Lemma sound_finish {A} n pins s t (io : handle -> nat -> M (FilePool * Unix) (result error A)) r s' :
  gives_up io -> sound n pins s -> finish t io s = Some (r, s') ->
  (forall f i, (f, i) ∈ pins -> f ∈ handles (delete t (p_busy s))) ->
  sound n pins s' /\ p_busy s' = delete t (p_busy s).
Proof.
  intros Hio [H1 H2 H3 H4 H5 H6 H7 H8] Hf Hpins. unfold finish in Hf.
  destruct (p_busy s !! t) as [[f [full id]]|] eqn:Et; [|done].
  destruct (Hio f id (p_pool s) (p_os s)) as (u1 & Hr & Ho & Hd).
  unfold shared in Hf. destruct (io f id _) as [r' pu]. simpl in Hr. subst pu. injection Hf as <- <-.
  split; [|done]. split; simpl; try done. apply (good_drops _ _ [f]); [done|]. simpl.
  eapply good_names; [exact Ho|by rewrite Hd|].
  eapply good_perm; [|exact H3]. by rewrite (handles_delete (p_busy s) t (f, (full, id)) Et).
Qed.

(** A file is unlinked, and its deletion is under way. *)
Lemma sound_unlink n pins s t full r u' msg :
  sound n pins s -> p_sweeps s !! t = None ->
  with_context msg (unlink full) (p_os s) = (r, u') ->
  sound n pins (match r with
                | Ok _ => set_sweeps (<[t := full]> (p_sweeps s)) (set_shared (p_pool s, u') s)
                | Err _ => set_shared (p_pool s, u') s
                end).
Proof.
  intros Hs Ht. pose proof Hs as [H1 H2 H3 H4 H5 H6 H7 H8].
  unfold with_context, bind, ret. simpl.
  match goal with |- context [faulty ?m ?u] => destruct (faulty_cases m u) as [(l & -> & _)|(e & l & ->)] end.
  2: { intros [= <- <-]. apply sound_os; [done|]. by eapply good_names; [..|exact H3]. }
  assert (good pins (pending s) (handles (p_busy s)) (p_pool s) (set_faults l (p_os s))) as Hg
    by (by eapply good_names; [..|exact H3]).
  change (u_dir (set_faults l (p_os s))) with (u_dir (p_os s)).
  destruct (u_dir (p_os s) !! full); intros [= <- <-]; [|by apply sound_os].
  split; simpl; try done.
  apply (good_unlink pins (pending s) _ _ _ (set_faults l (p_os s))); [| |exact Hg].
  - intros q [t' Hq]. exists t'. simpl. rewrite lookup_insert_ne; [done|]. intros ->. congruence.
  - exists t. simpl. apply lookup_insert_eq.
Qed.

(** Its handles are swept out of the pool. *)
Lemma sound_sweep n pins s t full :
  sound n pins s -> p_sweeps s !! t = Some full ->
  sound n pins (set_sweeps (delete t (p_sweeps s)) (set_shared (evict_path full (shared s)).2 s)).
Proof.
  intros Hs Ht. pose proof Hs as [H1 H2 H3 H4 H5 H6 H7 H8]. unfold shared.
  pose proof (good_sweep pins (pending s) (fun q => exists t', delete t (p_sweeps s) !! t' = Some q)
    (handles (p_busy s)) (p_pool s) (p_os s) full) as Hsw.
  destruct (evict_path full (p_pool s, p_os s)) as [x [p' u']]. destruct Hsw as (-> & _ & Hg).
  { intros q [t' Hq]. destruct (decide (t' = t)) as [->|Hne]; [right; congruence|left].
    exists t'. by rewrite lookup_delete_ne. }
  { by apply sound_pins with (n := n). }
  { done. }
  destruct (evict_by_path_same full (p_pool s)) as (Hcap & Hst & Hsub & Hwf).
  split; simpl; try done; [by apply Hwf|by rewrite Hst| |congruence].
  intros k f q Hk. eapply H7. by eapply lookup_weaken.
Qed.

Lemma rmdir_open v p u :
  u_open (remove_directory_if_empty v p u).2 = u_open u /\ u_dir (remove_directory_if_empty v p u).2 = u_dir u.
Proof.
  unfold remove_directory_if_empty, bindR, with_context, bind, gets, ret. simpl.
  destruct (negb _); [done|].
  match goal with |- context [faulty ?m u] => destruct (faulty_cases m u) as [(l & -> & _)|(e & l & ->)] end; [|done].
  unfold gets. simpl. destruct (bool_decide _); [|done]. destruct (existsb _ _); [done|]. simpl.
  match goal with |- context [faulty ?m ?w] => destruct (faulty_cases m w) as [(l' & -> & _)|(e & l' & ->)] end; [|done].
  simpl. destruct (bool_decide _); [|done]. by destruct (existsb _ _).
Qed.

Lemma sound_rmdir n pins s v p :
  sound n pins s -> sound n pins (set_shared (p_pool s, (remove_directory_if_empty v p (p_os s)).2) s).
Proof.
  intros Hs. destruct (rmdir_open v p (p_os s)) as [Ho Hd]. apply sound_os; [done|].
  eapply good_names; [exact Ho|by rewrite Hd|apply Hs].
Qed.

Lemma sound_take n pins s v :
  sound n pins s -> v ∈ p_views s -> sound n pins (set_views (p_views s ++ [take_storage v]) s).
Proof.
  intros [H1 H2 H3 H4 H5 H6 H7 H8] Hv. assert (take_storage v = v) as -> by by destruct v.
  assert (forall w, w ∈ p_views s ++ [v] -> w ∈ p_views s) as Hin
    by (by intros w [?| ->%list_elem_of_singleton]%elem_of_app).
  split; simpl; try done; [by intros w Hw%Hin; apply H5|by intros w w' Hw%Hin Hw'%Hin; apply H6|].
  intros k f q Hk. destruct (H7 k f q Hk) as (w & ? & ?). exists w. split; [apply elem_of_app; by left|done].
Qed.

Lemma sound_init_call n pins s i v fis :
  sound n pins s -> p_views s !! i = Some v -> uninitialised i v (p_views s) = true ->
  let '(r, u) := init v fis (p_os s) in
  sound n pins (match r with
                | Ok v' => set_views (<[i := v']> (p_views s)) (set_shared (p_pool s, u) s)
                | Err _ => set_shared (p_pool s, u) s
                end).
Proof.
  intros Hs Hi Hun.
  pose proof (init_good pins (pending s) (handles (p_busy s)) (p_pool s) v fis
    (sound_pins _ _ _ Hs) (p_os s) (s_good _ _ _ Hs)) as Hg.
  destruct (init v fis (p_os s)) as [res u] eqn:Einit. pose proof (sound_os _ _ _ _ Hs Hg) as Hs2.
  destruct res as [v'|]; [|done].
  apply (sound_init _ _ (set_shared (p_pool s, u) s) i v v'); [exact Hs2|done|done|by eapply init_ok_view].
Qed.

(** Every event keeps the invariant, with the pins of the IOs it does not end. *)
Lemma step_sound n pins s e r s' :
  sound n pins s -> n < U64_MAX -> step e s = Some (r, s') ->
  (forall t, ended e = Some t -> forall f i, (f, i) ∈ pins -> f ∈ handles (delete t (p_busy s))) ->
  sound (n + 1) pins s'.
Proof.
  intros Hs Hn Hstep Hpins. assert (sound (n + 1) pins s) as Hs1 by (by eapply sound_weaken; [|exact Hs]; lia).
  assert (forall i v, p_views s !! i = Some v -> v ∈ p_views s) as Hviews
    by (intros; by eapply list_elem_of_lookup_2).
  destruct e; simpl in Hstep;
    try (destruct (p_views s !! i) as [v|] eqn:Ei; [|done]; simpl in Hstep).
  - injection Hstep as <- <-. by destruct Hs1.
  - injection Hstep as <- <-. by destruct Hs1.
  - pose proof (sound_create n pins s info_hash Hs Hn) as Hc. destruct (create _ _) as [res reg].
    by injection Hstep as <- <-.
  - destruct (uninitialised i v (p_views s)) eqn:Eu; [|done].
    pose proof (sound_init_call _ _ _ _ _ fis Hs1 Ei Eu) as Hi.
    destruct (init v fis (p_os s)) as [res u]. by injection Hstep as <- <-.
  - injection Hstep as <- <-. by apply sound_take; [|by eapply Hviews].
  - destruct (p_busy s !! t) eqn:Et; [done|].
    pose proof (sound_begin n pins s t i v file_id Hs Hn Ei Et) as Hb.
    destruct (handle_of v file_id (shared s)) as [res [p' u']]. injection Hstep as <- <-.
    destruct res as [f|]; [|by destruct Hb]. by destruct Hb as (full & -> & _ & _ & Hb).
  - by eapply sound_finish; [apply pread_gives_up|exact Hs1|exact Hstep|apply Hpins].
  - destruct (finish t _ s) as [[res s1]|] eqn:Ef; [|done]. injection Hstep as _ <-.
    by eapply sound_finish; [apply pwrite_gives_up|exact Hs1|exact Ef|apply Hpins].
  - destruct (finish t _ s) as [[res s1]|] eqn:Ef; [|done]. injection Hstep as _ <-.
    by eapply sound_finish; [apply set_length_gives_up|exact Hs1|exact Ef|apply Hpins].
  - destruct (p_sweeps s !! t) eqn:Et; [done|].
    destruct (with_context _ _ (p_os s)) as [res u'] eqn:Eu. injection Hstep as <- <-.
    by eapply sound_unlink.
  - destruct (p_sweeps s !! t) as [full|] eqn:Et; [|done]. simpl in Hstep.
    pose proof (sound_sweep _ _ _ _ _ Hs1 Et) as Hw. injection Hstep as <- <-. exact Hw.
  - pose proof (sound_rmdir _ _ _ v p Hs1) as Hw.
    destruct (remove_directory_if_empty v p (p_os s)) as [res u']. by injection Hstep as <- <-.
  - injection Hstep as <- <-. apply sound_os; [done|].
    apply (good_names _ _ _ _ (p_os s)); [done|done|apply Hs1].
Qed.

Lemma finish_busy {A} t (io : handle -> nat -> M (FilePool * Unix) (result error A)) s r s' :
  finish t io s = Some (r, s') -> p_busy s' = delete t (p_busy s).
Proof.
  unfold finish. destruct (p_busy s !! t) as [[f [q id]]|]; [|done].
  destruct (io f id (shared s)) as [r' pu]. by intros [= <- <-].
Qed.

(** A thread's IO is its own to end. *)
Lemma step_busy s e r s' t x :
  step e s = Some (r, s') -> p_busy s !! t = Some x -> ended e <> Some t -> p_busy s' !! t = Some x.
Proof.
  intros Hstep Ht Hne.
  assert (forall t' A (io : handle -> nat -> M (FilePool * Unix) (result error A)) res s1,
    finish t' io s = Some (res, s1) -> t' <> t -> p_busy s1 !! t = Some x) as Hfin.
  { intros t' A io res s1 Hf Ht'. by rewrite (finish_busy _ _ _ _ _ Hf), lookup_delete_ne. }
  destruct e; simpl in Hstep, Hne;
    try (destruct (p_views s !! i) as [v|] eqn:Ei; [|done]; simpl in Hstep).
  - by injection Hstep as <- <-.
  - by injection Hstep as <- <-.
  - destruct (create _ _) as [[?|?] reg]; by injection Hstep as <- <-.
  - destruct (uninitialised _ _ _); [|done]. destruct (init _ _ _) as [[?|?] u]; by injection Hstep as <- <-.
  - by injection Hstep as <- <-.
  - destruct (p_busy s !! t0) eqn:Et; [done|].
    destruct (handle_of _ _ _) as [[f|?] pu]; injection Hstep as <- <-; simpl; [|done].
    rewrite lookup_insert_ne; [done|]. intros ->. congruence.
  - eapply Hfin; [exact Hstep|congruence].
  - destruct (finish t0 _ s) as [[res s1]|] eqn:Ef; [|done]. injection Hstep as _ <-.
    eapply Hfin; [exact Ef|congruence].
  - destruct (finish t0 _ s) as [[res s1]|] eqn:Ef; [|done]. injection Hstep as _ <-.
    eapply Hfin; [exact Ef|congruence].
  - destruct (p_sweeps s !! t0); [done|].
    destruct (with_context _ _ _) as [[?|?] u']; by injection Hstep as <- <-.
  - destruct (p_sweeps s !! t0); [|done]. by injection Hstep as <- <-.
  - destruct (remove_directory_if_empty _ _ _) as [res u']. by injection Hstep as <- <-.
  - by injection Hstep as <- <-.
Qed.

Lemma boot_sound cap u : u_open u = ∅ -> c = Z.max cap 1 -> sound 0 [] (boot cap u).
Proof.
  intros Ho Hc. split; simpl; try done; try (by intros ? ?%elem_of_nil).
  - apply with_cap_wf.
  - split; simpl.
    + intros f i. by rewrite Ho, lookup_empty.
    + intros f. unfold refs. rewrite Ho, lookup_empty. done.
    + intros f. vm_compute. lia.
    + intros k f q. by rewrite lookup_empty.
    + by intros f i ?%elem_of_nil.
  - by intros v v' ?%elem_of_nil.
Qed.

(** Over a run, with an IO [t] that it does not end. *)
Lemma run_sound n pins s es s' :
  sound n pins s -> n + Z.of_nat (length es) <= U64_MAX -> run es s = Some s' ->
  (forall f i, (f, i) ∈ pins -> exists t x, p_busy s !! t = Some (f, x) /\ Forall (fun e => ended e <> Some t) es) ->
  sound (n + Z.of_nat (length es)) pins s' /\
  forall t x, p_busy s !! t = Some x -> Forall (fun e => ended e <> Some t) es -> p_busy s' !! t = Some x.
Proof.
  revert n s. induction es as [|e es IH]; intros n s Hs Hn Hrun Hpins.
  { injection Hrun as <-. split; [|done]. by eapply sound_weaken; [|exact Hs]; simpl; lia. }
  simpl in Hrun, Hn. destruct (step e s) as [[r s1]|] eqn:Es; [|done]. simpl in Hrun.
  assert (sound (n + 1) pins s1) as Hs1.
  { eapply step_sound; [exact Hs|lia|exact Es|]. intros t Ht f i Hin.
    destruct (Hpins f i Hin) as (t' & x & Hb & Hf). apply Forall_cons in Hf as [Hne _].
    apply elem_of_handles. exists t', x. rewrite lookup_delete_ne; [done|]. congruence. }
  destruct (IH (n + 1) s1 Hs1) as [Hs' Hb']; [lia|done| |].
  - intros f i Hin. destruct (Hpins f i Hin) as (t' & x & Hb & Hf). apply Forall_cons in Hf as [Hne Hf].
    exists t', x. split; [by eapply step_busy|done].
  - split.
    + replace (n + Z.of_nat (length (e :: es))) with (n + 1 + Z.of_nat (length es)) by (simpl; lia). done.
    + intros t x Ht [Hne Hf]%Forall_cons. apply Hb'; [by eapply step_busy|done].
Qed.
End Sound.

Lemma run_boot cap u es s :
  u_open u = ∅ -> Z.of_nat (length es) <= U64_MAX -> run es (boot cap u) = Some s ->
  sound (Z.max cap 1) (Z.of_nat (length es)) [] s.
Proof.
  intros Ho Hlen Hrun. eapply (run_sound _ 0) in Hrun as [Hs _]; [exact Hs|by apply boot_sound|done|].
  by intros f i ?%elem_of_nil.
Qed.

(** ** Descriptors *)

(** C37: in every interleaving of the threads, the process holds no more descriptors
    for torrent files than the cap and one per IO under way; and once no IO and no
    deletion is under way, every file it holds open has a name: the space of a
    deleted one is free. *)
Theorem descriptors_bounded cap u es s :
  u_open u = ∅ -> Z.of_nat (length es) <= U64_MAX -> run es (boot cap u) = Some s ->
  Z.of_nat (size (u_open (p_os s))) <= Z.max cap 1 + Z.of_nat (size (p_busy s)) /\
  (p_busy s = ∅ -> p_sweeps s = ∅ -> forall f i n, u_open (p_os s) !! f = Some (i, n) ->
     exists q, u_dir (p_os s) !! q = Some i).
Proof.
  intros Ho Hlen Hrun. pose proof (run_boot cap u es s Ho Hlen Hrun) as Hs.
  pose proof (s_good _ _ _ _ Hs) as Hg.
  assert (forall f, f ∈ dom (u_open (p_os s)) ->
    f ∈ handles (pool_map (p_pool s)) ++ handles (p_busy s)) as Hopen.
  { intros f Hf%elem_of_dom. apply (refs_open _ _ (g_leak _ _ _ _ _ Hg)) in Hf.
    rewrite (g_refs _ _ _ _ _ Hg), <- tally_app in Hf. by apply tally_pos. }
  split.
  - rewrite <- size_dom. change (size (dom ?m)) with (length (elements (dom m))).
    assert (elements (dom (u_open (p_os s))) ⊆+ handles (pool_map (p_pool s)) ++ handles (p_busy s)) as Hsub.
    { apply NoDup_submseteq; [apply NoDup_elements|]. intros f Hf. by apply Hopen, elem_of_elements. }
    apply submseteq_length in Hsub. rewrite length_app, !handles_length in Hsub.
    pose proof (wf_size _ (s_wf _ _ _ _ Hs)) as Hsz. rewrite (s_cap _ _ _ _ Hs) in Hsz.
    change (size (dom (u_open (p_os s)))) with (length (elements (dom (u_open (p_os s))))). lia.
  - intros Hb Hw f i n Hf. specialize (Hopen f (elem_of_dom_2 _ _ _ Hf)).
    rewrite Hb in Hopen. unfold handles at 2 in Hopen. rewrite map_to_list_empty, app_nil_r in Hopen.
    apply elem_of_handles in Hopen as (k & q & Hk).
    destruct (g_named _ _ _ _ _ Hg k f q Hk) as [[t Ht]|(j & Hq & Hj)].
    + by rewrite Hw, lookup_empty in Ht.
    + exists q. unfold ino_of in Hj. rewrite Hf in Hj. by injection Hj as ->.
Qed.

(** ** Every IO is on its own file *)

Lemma good_pin pend held p u f i :
  good [] pend held p u -> f ∈ held -> ino_of u f = Some i -> good [(f, i)] pend held p u.
Proof.
  intros [H1 H2 H3 H4 H5] Hf Hi. split; [done..|]. by intros g j [= -> ->]%list_elem_of_singleton.
Qed.

Lemma sound_pin c n s f i :
  sound c n [] s -> f ∈ handles (p_busy s) -> ino_of (p_os s) f = Some i -> sound c n [(f, i)] s.
Proof. intros [H1 H2 H3 H4 H5 H6 H7 H8] Hf Hi. split; try done. by apply good_pin. Qed.

Lemma update_contents f g u ino j :
  ino_of u f = Some ino ->
  contents (update_data f g u) j = if decide (ino = j) then g (contents u j) else contents u j.
Proof.
  intros Hi. unfold update_data, contents. rewrite Hi. simpl.
  destruct (decide (ino = j)) as [->|Hne]; [by rewrite lookup_insert_eq|by rewrite lookup_insert_ne].
Qed.

Lemma contents_drop f u j : contents (drop_ref f u) j = contents u j.
Proof. unfold drop_ref. by destruct (u_open u !! f) as [[? [|[|]]]|]. Qed.

(** What a read and a write do through a descriptor of the inode [ino]. *)
Lemma read_reaches t f x ino (s : Proc) off len b s' :
  p_busy s !! t = Some (f, x) -> ino_of (p_os s) f = Some ino ->
  step (ERead t off len) s = Some (Ok b, s') -> read_data (contents (p_os s) ino) off len = Ok b.
Proof.
  intros Ht Hi. simpl. unfold finish. rewrite Ht. destruct x as [q id].
  unfold pread_at, with_context, on_os, on_outside, modify, bind, ret, shared. simpl.
  match goal with |- context [faulty ?m ?u] => destruct (faulty_cases m u) as [(l & -> & _)|(e & l & ->)] end;
    [|done].
  unfold gets. simpl. change (ino_of (set_faults l (p_os s)) f) with (ino_of (p_os s) f). rewrite Hi.
  change (contents (set_faults l (p_os s)) ino) with (contents (p_os s) ino).
  destruct (read_data _ _ _); [|done]. by intros [= ->].
Qed.

Lemma write_reaches t f x ino (s : Proc) off buf r s' :
  p_busy s !! t = Some (f, x) -> ino_of (p_os s) f = Some ino ->
  step (EWrite t off buf) s = Some (r, s') ->
  (forall j, j <> ino -> contents (p_os s') j = contents (p_os s) j) /\
  (is_ok r = true -> contents (p_os s') ino = splice (Z.to_nat off) buf (contents (p_os s) ino)).
Proof.
  intros Ht Hi. simpl. unfold finish. rewrite Ht. destruct x as [q id].
  unfold pwrite_at, with_context, on_os, on_outside, modify, bind, ret, shared. simpl.
  unfold write_all, next_fault, modify, bind, ret.
  assert (forall l, ino_of (set_faults l (p_os s)) f = Some ino) as Hl by done.
  destruct (u_faults (p_os s)) as [|[[e n]|] l]; simpl; intros [= <- <-]; simpl; split;
    try done; try (intros j Hj); rewrite contents_drop.
  - by rewrite (update_contents _ _ _ _ _ Hi), decide_False.
  - intros _. by rewrite (update_contents _ _ _ _ _ Hi), decide_True.
  - by rewrite (update_contents _ _ _ _ _ (Hl l)), decide_False.
  - by rewrite (update_contents _ _ _ _ _ (Hl l)), decide_False.
  - intros _. by rewrite (update_contents _ _ _ _ _ (Hl l)), decide_True.
Qed.

(** C36: in every interleaving, a handle that a thread was given for a file whose
    deletion is not under way is a descriptor of the file of that name, just as
    if it had been opened there and then; it stays one until the thread's IO
    ends, whatever the others evict, delete and open meanwhile; a read gives that
    file's bytes, and a write touches no other file. *)
Theorem io_reaches_its_file cap u es (s : Proc) t i file_id v full s1 :
  u_open u = ∅ -> Z.of_nat (length es) < U64_MAX -> run es (boot cap u) = Some s ->
  p_views s !! i = Some v -> file_path v file_id = Some full -> ~ pending s full ->
  step (EBegin t i file_id) s = Some (Ok "", s1) ->
  exists ino, u_dir (p_os s) !! full = Some ino /\
  forall es2 s2, Forall (fun e => ended e <> Some t) es2 ->
    Z.of_nat (length es) + 1 + Z.of_nat (length es2) <= U64_MAX -> run es2 s1 = Some s2 ->
    (forall off len b s3, step (ERead t off len) s2 = Some (Ok b, s3) ->
       read_data (contents (p_os s2) ino) off len = Ok b) /\
    (forall off buf r s3, step (EWrite t off buf) s2 = Some (r, s3) ->
       (forall j, j <> ino -> contents (p_os s3) j = contents (p_os s2) j) /\
       (is_ok r = true -> contents (p_os s3) ino = splice (Z.to_nat off) buf (contents (p_os s2) ino))).
Proof.
  intros Ho Hlen Hrun Hv Hfull Hpend Hstep.
  pose proof (run_boot cap u es s Ho ltac:(lia) Hrun) as Hs.
  simpl in Hstep. rewrite Hv in Hstep. simpl in Hstep. destruct (p_busy s !! t) eqn:Et; [done|].
  pose proof (sound_begin _ _ _ s t i v file_id Hs Hlen Hv Et) as Hb.
  destruct (handle_of v file_id (shared s)) as [[f|e] [p' u']]; [|done].
  destruct Hb as (full' & Hf' & Hc & Hfiles & Hs1). rewrite Hf' in Hstep. simpl in Hstep.
  assert (full' = full) as -> by congruence. injection Hstep as <-.
  set (s1 := set_busy _ _) in *.
  destruct (g_named _ _ _ _ _ (s_good _ _ _ _ Hs1) _ _ _ Hc) as [Hp|(ino & Hd & Hi)]; [done|].
  exists ino. split; [by rewrite <- (proj1 Hfiles)|]. intros es2 s2 Hes Hlen2 Hrun2.
  assert (p_busy s1 !! t = Some (f, (full, file_id))) as Ht by (simpl; apply lookup_insert_eq).
  assert (sound (Z.max cap 1) (Z.of_nat (length es) + 1) [(f, ino)] s1) as Hs1'.
  { apply sound_pin; [done|apply elem_of_handles; by eexists _, _|exact Hi]. }
  destruct (run_sound _ _ _ s1 es2 s2 Hs1') as [Hs2 Hbusy]; [lia|done| |].
  { intros g j [= -> ->]%list_elem_of_singleton. by exists t, (full, file_id). }
  destruct (g_pins _ _ _ _ _ (s_good _ _ _ _ Hs2) f ino) as [_ Hi2]; [by apply list_elem_of_singleton|].
  pose proof (Hbusy t _ Ht Hes) as Ht2. split; intros; [by eapply read_reaches|by eapply write_reaches].
Qed.

(** ** The calls, undisturbed *)

(** A thread that is not disturbed makes a [pread_exact] of its two halves. *)
Lemma undisturbed_read s t i v file_id off len :
  p_views s !! i = Some v -> p_busy s !! t = None ->
  match step (EBegin t i file_id) s with
  | Some (Ok _, s1) => exists r s2, step (ERead t off len) s1 = Some (r, s2) /\
      pread_exact v file_id off len (shared s) = (r, shared s2)
  | Some (Err e, s1) => pread_exact v file_id off len (shared s) = (Err e, shared s1)
  | None => False
  end.
Proof.
  intros Hv Ht. simpl. rewrite Hv. simpl. rewrite Ht.
  assert (pread_exact v file_id off len (shared s) =
    let '(r, pu) := handle_of v file_id (shared s) in
    match r with Ok f => pread_at f file_id off len pu | Err e => (Err e, pu) end) as ->
    by (unfold pread_exact, bindR, bind; by destruct (handle_of _ _ _) as [[?|?] ?]).
  destruct (handle_of v file_id (shared s)) as [[f|e] [p u]]; [|reflexivity]. cbn [call_result].
  unfold finish. simpl. rewrite lookup_insert_eq. unfold shared. simpl.
  destruct (pread_at f file_id off len (p, u)) as [r [p' u']]. by eexists _, _.
Qed.

(** And a [remove_file] of the unlink and the sweep. *)
Lemma undisturbed_remove s t i v filename :
  p_views s !! i = Some v -> p_sweeps s !! t = None ->
  match step (EUnlink t i filename) s with
  | Some (Ok _, s1) => exists s2, step (ESweep t) s1 = Some (Ok "", s2) /\
      remove_file v filename (shared s) = (Ok tt, shared s2)
  | Some (Err e, s1) => remove_file v filename (shared s) = (Err e, shared s1)
  | None => False
  end.
Proof.
  intros Hv Ht. simpl. rewrite Hv. simpl. rewrite Ht. unfold remove_file, bindR, bind at 1.
  unfold with_context, bind, on_os, ret, shared. simpl.
  destruct (faulty _ (p_os s)) as [[[]|e] u]; [|done]. simpl. rewrite lookup_insert_eq. simpl. by eexists.
Qed.

(** ** Running out of descriptors *)

Lemma shed_closes pins pend held p u n f :
  good pins pend held p u -> (forall g i, (g, i) ∈ pins -> g ∈ held) -> pool_wf p ->
  f ∈ released p (shed n p) -> f ∉ held ->
  (size (u_open (foldr drop_ref u (released p (shed n p)))) < size (u_open u))%nat.
Proof.
  intros Hg Hpins Hwf Hf Hn. destruct (shed_spec n p Hwf) as [_ Hpart].
  pose proof (good_drops _ _ _ _ _ _ Hpins (good_shrink _ _ _ _ _ _ (part_map _ _ Hpart) Hg)) as Hg2.
  assert (tally (released p (shed n p)) f + tally (handles (pool_map (shed n p))) f =
    tally (handles (pool_map p)) f)%nat as Hc by by apply released_count; [apply Hpart|].
  pose proof (g_once _ _ _ _ _ Hg f) as Ho. apply tally_pos in Hf.
  assert (~ (0 < tally held f)%nat) as Hz by (by rewrite tally_pos).
  destruct (drop_refs_spec (released p (shed n p)) u (g_leak _ _ _ _ _ Hg)) as (_ & _ & _ & _ & _ & Hdom).
  rewrite <- !size_dom. apply subset_size. split; [done|]. intros Hsub.
  assert (f ∈ dom (u_open u)) as Hopen.
  { apply elem_of_dom, refs_open; [apply Hg|]. rewrite (g_refs _ _ _ _ _ Hg). lia. }
  apply Hsub, elem_of_dom, (refs_open _ _ (g_leak _ _ _ _ _ Hg2)) in Hopen.
  rewrite (g_refs _ _ _ _ _ Hg2) in Hopen. lia.
Qed.

Lemma open_with_room full u ino :
  u_faults u = [] -> Z.of_nat (size (u_open u)) + u_others u < u_limit u ->
  u_dir u !! full = Some ino -> full ∉ u_dirs u ->
  exists f u', open_file Existing full u = (Ok f, u').
Proof.
  intros Hf Hroom Hd Hn. destruct u as [d ds da o n l []]; [|done]. simpl in *.
  unfold open_file, faulty, next_fault, bind, open_now. simpl.
  rewrite (proj2 (Z.leb_gt _ _)) by lia. rewrite bool_decide_eq_false_2 by done. rewrite Hd.
  by eexists _, _.
Qed.

Lemma open_at_ceiling full u :
  u_faults u = [] -> u_limit u <= Z.of_nat (size (u_open u)) + u_others u ->
  open_file Existing full u = (Err EMFILE, u).
Proof.
  intros Hf Hroom. destruct u as [d ds da o n l []]; [|done]. simpl in *.
  unfold open_file, faulty, next_fault, bind, open_now. simpl. by rewrite (proj2 (Z.leb_le _ _)) by lia.
Qed.

(** C38: out of descriptors, an IO on a file that is there goes through all the same
    as long as one of the handles that are shed, a quarter of the cap at least
    one, is not in use: closing it makes the room the retry needs. *)
Theorem exhaustion_recovers cap0 u es (s : Proc) t i v file_id full ino f :
  u_open u = ∅ -> Z.of_nat (length es) < U64_MAX -> run es (boot cap0 u) = Some s ->
  p_views s !! i = Some v -> file_path v file_id = Some full -> p_busy s !! t = None ->
  u_dir (p_os s) !! full = Some ino -> full ∉ u_dirs (p_os s) -> u_faults (p_os s) = [] ->
  Z.of_nat (size (u_open (p_os s))) + u_others (p_os s) = u_limit (p_os s) ->
  f ∈ released (p_pool s) (shed (Z.to_nat (Z.max (cap (p_pool s) / 4) 1)) (p_pool s)) ->
  f ∉ handles (p_busy s) ->
  exists s1, step (EBegin t i file_id) s = Some (Ok "", s1).
Proof.
  intros Ho Hlen Hrun Hv Hfull Ht Hd Hdirs Hfaults Hlimit Hf Hfree.
  pose proof (run_boot cap0 u es s Ho ltac:(lia) Hrun) as Hs. pose proof (s_good _ _ _ _ Hs) as Hg.
  simpl. rewrite Hv. simpl. rewrite Ht, handle_of_file, Hfull. unfold with_context, bind at 1, shared.
  enough (exists h pu, get_or_open (ps_uid v, file_id) full (p_pool s, p_os s) = (Ok h, pu)) as (h & pu & ->)
    by by eexists.
  unfold get_or_open, bind at 1, gets. destruct (pool_map (p_pool s) !! _) as [[h q]|]; [by eexists _, _|].
  unfold bind at 1, on_os. change (open_rw full) with (open_file Existing full).
  rewrite open_at_ceiling by (done || lia). change (negb (EMFILE =? EMFILE)) with false. cbn iota.
  unfold on_pool at 1, modify, bind at 1 2. change drop_handle with drop_ref.
  set (n := Z.to_nat _) in *. pose proof (s_wf _ _ _ _ Hs) as Hwf.
  pose proof (shed_closes _ _ _ _ _ n f Hg (fun g j Hin => sound_pins _ _ _ _ Hs g j Hin) Hwf Hf Hfree) as Hsz.
  destruct (drop_refs_spec (released (p_pool s) (shed n (p_pool s))) (p_os s) (g_leak _ _ _ _ _ Hg))
    as (_ & (D & _ & O & L) & F & _).
  set (u2 := foldr drop_ref _ _) in *. change (open_rw full) with (open_file Existing full).
  destruct (open_with_room full u2 ino) as (h & u3 & ->); [congruence|lia|congruence| |].
  - assert (u_dirs u2 = u_dirs (p_os s)) as ->; [|done]. unfold u2.
    generalize (released (p_pool s) (shed n (p_pool s))). intros l. induction l as [|g l IH]; [done|].
    simpl. rewrite <- IH. unfold drop_ref at 1. by destruct (u_open _ !! g) as [[? [|[|]]]|].
  - by eexists _, _.
Qed.

(** ** Witnesses *)

Definition witness_unix : Unix :=
  {| u_dir := ∅; u_dirs := {["/"; "/s"]}; u_data := ∅; u_open := ∅; u_others := 3; u_limit := 6;
     u_faults := [] |}.

Definition file (name : path) : FileInfo := {| fi_padding := false; fi_relative_filename := name |}.

(** A torrent of three files, two of them written through a pool of two. *)
Definition witness_events : list Event :=
  [ERegister "h" "/s" true; ECreate "h"; EInit 0 [file "a"; file "b"; file "c"];
   EBegin 0 0 0; EWrite 0 0 "hello"; EBegin 0 0 1; EWrite 0 0 "other"].

Definition witness_start : Proc := default (boot 2 witness_unix) (run witness_events (boot 2 witness_unix)).
Definition witness_begun : Proc :=
  default witness_start (snd <$> step (EBegin 1 0 0) witness_start).

(** While thread 1 is at the file [a], the others push its handle out of the pool,
    delete it and read what it was not. *)
Definition witness_others : list Event :=
  [EBegin 2 0 1; EBegin 3 0 2; EWrite 3 0 "third"; EUnlink 4 0 "a"; ESweep 4; ERead 2 0 5].

Definition witness_disturbed : Proc := default witness_begun (run witness_others witness_begun).

Example pushed_out_and_deleted :
  fst <$> step (ERead 1 0 5) witness_disturbed = Some (Ok "hello") /\
  pool_map (p_pool witness_disturbed) !! (0, 0%nat) = None /\
  u_dir (p_os witness_disturbed) !! "/s/a" = None.
Proof. vm_compute. done. Qed.

Lemma no_deletion s full : p_sweeps s = ∅ -> ~ pending s full.
Proof. intros He [t Ht]. by rewrite He, lookup_empty in Ht. Qed.

Definition witness_storage : PooledStorage :=
  {| ps_uid := 0; ps_output_folder := "/s"; ps_overwrite := true;
     ps_paths := [Some "a"; Some "b"; Some "c"] |}.

Lemma io_reaches_its_file_witness :
  exists ino, u_dir (p_os witness_start) !! "/s/a" = Some ino /\
  forall es2 s2, Forall (fun e => ended e <> Some 1%nat) es2 ->
    Z.of_nat (length witness_events) + 1 + Z.of_nat (length es2) <= U64_MAX -> run es2 witness_begun = Some s2 ->
    (forall off len b s3, step (ERead 1 off len) s2 = Some (Ok b, s3) ->
       read_data (contents (p_os s2) ino) off len = Ok b) /\
    (forall off buf r s3, step (EWrite 1 off buf) s2 = Some (r, s3) ->
       (forall j, j <> ino -> contents (p_os s3) j = contents (p_os s2) j) /\
       (is_ok r = true -> contents (p_os s3) ino = splice (Z.to_nat off) buf (contents (p_os s2) ino))).
Proof.
  apply (io_reaches_its_file 2 witness_unix witness_events witness_start 1 0 0 witness_storage "/s/a" witness_begun).
  - reflexivity.
  - vm_compute. reflexivity.
  - vm_compute. reflexivity.
  - vm_compute. reflexivity.
  - vm_compute. reflexivity.
  - apply no_deletion. vm_compute. reflexivity.
  - vm_compute. reflexivity.
Defined.

Lemma descriptors_bounded_witness :
  Z.of_nat (size (u_open (p_os witness_start))) <= Z.max 2 1 + Z.of_nat (size (p_busy witness_start)) /\
  (p_busy witness_start = ∅ -> p_sweeps witness_start = ∅ ->
   forall f i n, u_open (p_os witness_start) !! f = Some (i, n) ->
     exists q, u_dir (p_os witness_start) !! q = Some i).
Proof.
  apply (descriptors_bounded 2 witness_unix witness_events); [reflexivity|done|vm_compute; reflexivity].
Defined.

(** A socket takes the last descriptor: the third file's open needs the room of
    the one used least lately. *)
Definition witness_full : Proc := default witness_start (snd <$> step (EOthers 4) witness_start).

Lemma exhaustion_recovers_witness :
  exists s1, step (EBegin 1 0 2) witness_full = Some (Ok "", s1).
Proof.
  apply (exhaustion_recovers 2 witness_unix (witness_events ++ [EOthers 4]) witness_full 1 0 witness_storage 2
    "/s/c" 2%nat 0%nat); try (vm_compute; reflexivity).
  - by apply (bool_decide_unpack _); vm_compute.
  - by apply (bool_decide_unpack _); vm_compute.
  - by apply (bool_decide_unpack _); vm_compute.
Defined.
