(* ===== verification/AtKey.v ===== *)
(** The API key of the tracker operator, [atkey.rs]: the key may reach only the
    operator's own https trackers, and the tracker list may be restricted to
    them.  The [url] crate is the class [UrlCrate]. *)

From S2P Require Import Prelude Text.

Class UrlCrate := {
  Url : Type;
  url_parse : string -> option Url;
  scheme : Url -> string;
  host_str : Url -> option string;
  (** [set_host] and [to_string]; [None] when the host is refused *)
  with_host : Url -> string -> option string;
}.

Section AtKey.
Context `{UrlCrate}.

Definition AT_HOST : string := "academictorrents.com".
Definition AT_IPV6_HOST : string := "ipv6.academictorrents.com".

Definition upgrade_to_ipv6_host (url : string) : string :=
  match url_parse url with
  | Some u =>
      if bool_decide (host_str u = Some AT_HOST)
      then default "" (with_host u AT_IPV6_HOST) else ""
  | None => ""
  end.

(** The reply of the [userannounce] endpoint: whether the status is a success,
    and the body. *)
Definition resolve_user_announce (from_slice : string -> option string)
    (reply : result error (bool * result error string)) : result error (string * string) :=
  match reply with
  | Err _ => Err "fetching user announce URL"
  | Ok (_, Err _) => Err "reading userannounce response"
  | Ok (success, Ok body) =>
      if negb success then Err "userannounce endpoint returned an error status"
      else
        match from_slice (String.substring 0 (Z.to_nat (Z.min (Z.of_nat (String.length body)) (Z.shiftl 1 20))) body) with
        | None => Err "parsing userannounce response"
        | Some userannounce =>
            if String.eqb userannounce "" then Err "userannounce response had no announce URL"
            else Ok (userannounce, upgrade_to_ipv6_host userannounce)
        end
  end.

Definition at_announce_url (announce user_announce user_announce_ipv6 : string) : option string :=
  match url_parse announce with
  | None => None
  | Some u =>
      if negb (String.eqb (scheme u) "https") then None
      else match host_str u with
           | None => None
           | Some host =>
               if String.eqb host AT_HOST && negb (String.eqb user_announce "")
               then Some user_announce
               else if String.eqb host AT_IPV6_HOST && negb (String.eqb user_announce_ipv6 "")
               then Some user_announce_ipv6
               else None
           end
  end.

Definition keyed_trackers (tiers : list (list string)) (user_announce user_announce_ipv6 : string)
    : list (list string) :=
  if String.eqb user_announce "" then tiers
  else map (map (fun t => default t (at_announce_url t user_announce user_announce_ipv6))) tiers.

Definition is_at_tracker_url (url : string) : bool :=
  match url_parse url with
  | Some u =>
      match host_str u with
      | Some h => eq_ignore_ascii_case h AT_HOST
                  || ends_with (ascii_lower h) (String "." AT_HOST)
      | None => false
      end
  | None => false
  end.

(** The closure that keeps a tracker of the operator's own, keyed where it may
    be. *)
Definition keyed_at (ua ua6 t : string) : option string :=
  if is_at_tracker_url t then Some (default t (at_announce_url t ua ua6)) else None.

Definition at_trackers_only (tiers : list (list string)) (user_announce user_announce_ipv6 : string)
    : list (list string) :=
  let found := existsb (fun t =>
    (if at_announce_url t user_announce user_announce is Some _ then true else false)
    || is_at_tracker_url t) (concat tiers) in
  if negb found then tiers
  else
    omap (fun tier =>
      let kept := omap (keyed_at user_announce user_announce_ipv6) tier in
      match kept with [] => None | _ => Some kept end) tiers.

(** ** Who may see the key *)

(** An https URL on one of the operator's two tracker hosts. *)
Definition at_https (t : string) : Prop :=
  exists u, url_parse t = Some u /\ scheme u = "https" /\
    (host_str u = Some AT_HOST \/ host_str u = Some AT_IPV6_HOST).

Lemma at_announce_url_spec t ua ua6 k :
  at_announce_url t ua ua6 = Some k ->
  at_https t /\ k <> "" /\ (k = ua \/ k = ua6).
Proof.
  unfold at_announce_url, at_https. destruct (url_parse t) as [u|]; [|done].
  destruct (String.eqb_spec (scheme u) "https"); simpl; [|done].
  destruct (host_str u) as [h|] eqn:Eh; [|done].
  destruct (String.eqb_spec h AT_HOST), (String.eqb_spec ua "");
    destruct (String.eqb_spec h AT_IPV6_HOST), (String.eqb_spec ua6 ""); simpl;
    intros [= <-]; subst; (split; [exists u; eauto|]); eauto.
Qed.

Lemma at_https_is_at t : at_https t -> is_at_tracker_url t = true.
Proof.
  intros (u & Hu & _ & Hh). unfold is_at_tracker_url. rewrite Hu.
  destruct Hh as [-> | ->]; reflexivity.
Qed.

(** A tracker on a host of the operator's, over https. *)
Definition on_at (host t : string) : Prop :=
  exists u, url_parse t = Some u /\ scheme u = "https" /\ host_str u = Some host.

(** What becomes of a tracker when there are per-user URLs. *)
Record keyed_as (ua ua6 t t' : string) : Prop := {
  keyed_main : on_at AT_HOST t -> t' = ua;
  keyed_ipv6 : on_at AT_IPV6_HOST t -> ua6 <> "" -> t' = ua6;
  unkeyed_ipv6 : on_at AT_IPV6_HOST t -> ua6 = "" -> t' = t;
  unkeyed_other : ~ on_at AT_HOST t -> ~ on_at AT_IPV6_HOST t -> t' = t;
}.

Lemma at_announce_url_keyed ua ua6 t :
  ua <> "" -> keyed_as ua ua6 t (default t (at_announce_url t ua ua6)).
Proof.
  intros Hua. unfold at_announce_url. apply String.eqb_neq in Hua. rewrite Hua.
  assert (forall h, on_at h t -> exists u, url_parse t = Some u /\ String.eqb (scheme u) "https" = true /\
    host_str u = Some h) as Hon.
  { intros h (u & Hu & Hs & Hh). exists u. by rewrite Hs. }
  split.
  - intros (u & -> & -> & ->)%Hon. done.
  - intros (u & -> & -> & ->)%Hon H6%String.eqb_neq. by rewrite H6.
  - intros (u & -> & -> & ->)%Hon ->. done.
  - intros H1 H2. destruct (url_parse t) as [u|] eqn:Eu; [|done].
    destruct (String.eqb_spec (scheme u) "https") as [Es|]; [|done]. cbn [negb].
    destruct (host_str u) as [h|] eqn:Eh; [|done].
    destruct (String.eqb_spec h AT_HOST) as [->|]; [destruct H1; by exists u|].
    destruct (String.eqb_spec h AT_IPV6_HOST) as [->|]; [destruct H2; by exists u|]. done.
Qed.

(** C34: keying a tracker list changes exactly the announces that are to be keyed.
    Without a per-user URL the list is returned as it is.  With one, every tier
    and every tracker stays in its place, and a tracker becomes the per-user URL
    when it is an https URL on the operator's main host, the IPv6 variant when
    it is one on the IPv6 host and there is a variant, and stays as it is
    otherwise: a third-party or plain http tracker is never replaced.  Where the
    per-user URL itself points is the word of the operator's endpoint. *)
Theorem keyed_trackers_exact tiers ua ua6 :
  (ua = "" -> keyed_trackers tiers ua ua6 = tiers) /\
  (ua <> "" -> Forall2 (Forall2 (keyed_as ua ua6)) tiers (keyed_trackers tiers ua ua6)).
Proof.
  unfold keyed_trackers. split; [by intros ->|]. intros Hua. rewrite (proj2 (String.eqb_neq _ _) Hua).
  apply Forall2_fmap_r, Forall_Forall2_diag, Forall_forall. intros tier _.
  apply Forall2_fmap_r, Forall_Forall2_diag, Forall_forall. intros t _. by apply at_announce_url_keyed.
Qed.

(** Restricting a tracker list keeps exactly the operator's trackers (keyed
    where they may be), in order and without empty tiers, and never leaves an
    empty list: when the list has none of them it is returned unchanged. *)
Theorem at_trackers_only_spec tiers ua ua6 :
  let at_ones := filter (fun t => is_at_tracker_url t = true) (concat tiers) in
  let out := at_trackers_only tiers ua ua6 in
  (at_ones = [] -> out = tiers) /\
  (at_ones <> [] ->
     concat out = omap (keyed_at ua ua6) (concat tiers) /\
     concat out <> [] /\ [] ∉ out).
Proof.
  cbv zeta. unfold at_trackers_only. set (found := existsb _ _).
  assert (found = true <-> filter (fun t => is_at_tracker_url t = true) (concat tiers) <> []) as Hf.
  { unfold found. rewrite existsb_exists. split.
    - intros (t & Hin & Ht). apply list_elem_of_In in Hin.
      assert (t ∈ filter (fun t => is_at_tracker_url t = true) (concat tiers)) as Hel.
      { apply list_elem_of_filter. split; [|done].
        destruct (at_announce_url t ua ua) eqn:E; [|exact Ht].
        by apply at_https_is_at, (at_announce_url_spec _ _ _ _ E). }
      intros Hnil. rewrite Hnil in Hel. by apply elem_of_nil in Hel.
    - intros Hne. destruct (filter _ _) as [|t l] eqn:E; [done|].
      assert (t ∈ filter (fun t => is_at_tracker_url t = true) (concat tiers)) as Hel
        by (rewrite E; left).
      apply list_elem_of_filter in Hel as [Ht Hin]. exists t. split; [by apply list_elem_of_In|].
      rewrite Ht. apply orb_true_r. }
  destruct found; simpl.
  - split; [intros Hn; by destruct (proj1 Hf eq_refl)|]. intros Hne.
    assert (forall tiers, concat (omap (fun tier => match omap (keyed_at ua ua6) tier with
              [] => None | _ :: _ => Some (omap (keyed_at ua ua6) tier) end) tiers)
            = omap (keyed_at ua ua6) (concat tiers)) as Hc.
    { clear. induction tiers as [|tier tiers IH]; [done|]. simpl.
      rewrite omap_app, <- IH. by destruct (omap (keyed_at ua ua6) tier). }
    split; [apply Hc|]. split.
    + rewrite (Hc tiers). intros Hnil. destruct (filter _ _) as [|t l] eqn:E; [done|].
      assert (t ∈ filter (fun t => is_at_tracker_url t = true) (concat tiers)) as Hel
        by (rewrite E; left).
      apply list_elem_of_filter in Hel as [Ht Hin].
      assert (default t (at_announce_url t ua ua6) ∈ omap (keyed_at ua ua6) (concat tiers)) as Ho.
      { apply list_elem_of_omap. exists t. split; [done|]. unfold keyed_at. by rewrite Ht. }
      rewrite Hnil in Ho. by apply elem_of_nil in Ho.
    + intros (tier & _ & Ht)%list_elem_of_omap. by destruct (omap _ tier).
  - split; [done|]. intros Hne. by apply Hf in Hne.
Qed.
End AtKey.

(** ** A URL parser for the witnesses: [https://host/...] *)

Definition witness_url_parse (s : string) : option string :=
  if starts_with "https://" s then head (split_on "/" (String.substring 8 (String.length s) s))
  else None.

Definition witness_urls : UrlCrate :=
  {| Url := string; url_parse := witness_url_parse; scheme := fun _ => "https";
     host_str := fun u => Some u; with_host := fun _ h => Some ("https://" +:+ h +:+ "/a") |}.

Lemma keyed_trackers_exact_witness :
  let tiers := [["https://academictorrents.com/a"; "https://t.org/a"]; ["https://ipv6.academictorrents.com/a"]] in
  let out := [["https://k/p"; "https://t.org/a"]; ["https://k6/p"]] in
  @keyed_trackers witness_urls tiers "https://k/p" "https://k6/p" = out /\
  Forall2 (Forall2 (@keyed_as witness_urls "https://k/p" "https://k6/p")) tiers out.
Proof.
  split; [vm_compute; reflexivity|].
  apply (@keyed_trackers_exact witness_urls
           [["https://academictorrents.com/a"; "https://t.org/a"]; ["https://ipv6.academictorrents.com/a"]]
           "https://k/p" "https://k6/p"). discriminate.
Defined.
