(* ===== verification/Net.v ===== *)
(** The outside services as the program sees them: HTTP requests, over a state
    [N] of the network, and hexadecimal encoding (the [hex] crate). *)

From S2P Require Import Prelude Text.

(** A reply: its status as it is displayed, whether that is a success, and its
    body, whose transfer may fail. *)
Record HttpReply := {
  status : string;
  is_success : bool;
  body : result error string;
}.

Class Http (N : Type) := {
  http_get : string -> M N (result error HttpReply);
}.

(** [anyhow]'s context, as [{:#}] displays it: the message, then the cause. *)
Definition with_cause {S A} (msg : error) (m : M S (result error A)) : M S (result error A) :=
  bind m (fun r => ret match r with Ok a => Ok a | Err e => Err (msg +:+ ": " +:+ e) end).

(** The status check and [bytes()] of a reply, with the caller's messages. *)
Definition reply_bytes (not_ok reading : error) (r : HttpReply) : result error string :=
  if negb (is_success r) then Err (not_ok +:+ " returned " +:+ status r)
  else match body r with Ok b => Ok b | Err e => Err (reading +:+ ": " +:+ e) end.

Class HexCrate := {
  hex_encode : string -> string;
  hex_decode : string -> option string;
  hex_decode_encode b : hex_decode (hex_encode b) = Some b;
  (** digits only *)
  hex_encode_trim b : trim (hex_encode b) = hex_encode b;
}.

Lemma hex_encode_inj `{HexCrate} a b : hex_encode a = hex_encode b -> a = b.
Proof. intros Hab. apply (f_equal hex_decode) in Hab. rewrite !hex_decode_encode in Hab. congruence. Qed.

(** A network for the witnesses: a list of replies still to come. *)
Definition witness_http : Http (list (result error HttpReply)) :=
  {| http_get := fun _ n => match n with r :: n' => (r, n') | [] => (Err "no route", []) end |}.

(** The hexadecimal digits of a byte string. *)
Definition nibble (n : N) : ascii :=
  ascii_of_N (if (n <? 10)%N then 48 + n else 87 + n)%N.

Definition of_nibble (a : ascii) : option N :=
  let n := N_of_ascii a in
  if ((48 <=? n) && (n <=? 57))%N then Some (n - 48)%N
  else if ((97 <=? n) && (n <=? 102))%N then Some (n - 87)%N
  else if ((65 <=? n) && (n <=? 70))%N then Some (n - 55)%N
  else None.

Fixpoint to_hex (s : string) : string :=
  match s with
  | EmptyString => EmptyString
  | String a s => let n := N_of_ascii a in
      String (nibble (n / 16)) (String (nibble (n mod 16)) (to_hex s))
  end.

Fixpoint of_hex (s : string) : option string :=
  match s with
  | EmptyString => Some EmptyString
  | String a (String b s) =>
      match of_nibble a, of_nibble b, of_hex s with
      | Some h, Some l, Some t => Some (String (ascii_of_N (16 * h + l)) t)
      | _, _, _ => None
      end
  | String _ EmptyString => None
  end.

Lemma of_hex_to_hex s : of_hex (to_hex s) = Some s.
Proof.
  induction s as [|a s IH]; [done|]. cbn [to_hex of_hex]. rewrite IH.
  destruct a as [b0 b1 b2 b3 b4 b5 b6 b7].
  destruct b0, b1, b2, b3, b4, b5, b6, b7; reflexivity.
Qed.

Lemma to_hex_trim s : trim (to_hex s) = to_hex s.
Proof.
  apply trim_no_space. induction s as [|a s IH]; [done|]. cbn [to_hex string_forall]. rewrite IH.
  destruct a as [b0 b1 b2 b3 b4 b5 b6 b7].
  destruct b0, b1, b2, b3, b4, b5, b6, b7; reflexivity.
Qed.

Definition witness_hex : HexCrate :=
  {| hex_encode := to_hex; hex_decode := of_hex; hex_decode_encode := of_hex_to_hex;
     hex_encode_trim := to_hex_trim |}.
