(* ===== verification/AtTorrent.v ===== *)
(** Access to the tracker operator's torrents, [attorrent.rs]: the metadata of a
    .torrent file, the clean-up of leaked tracker strings, and tracker scrapes.
    The bencode parsers are arguments; what they return is modelled by the
    shape the code matches on. *)

From S2P Require Import Prelude Text Time Fs Persist Net.

Record SwarmCounts := {
  seeders : Z;
  leechers : Z;
  completed : Z;
}.

Record TorrentMeta := {
  tm_info_hash : string;
  tm_trackers : list string;
  tm_created_at : option instant;
  tm_total_length : Z;
  tm_piece_count : Z;
  tm_file_count : Z;
  tm_name : string;
}.

(** ** Tracker strings, as bytes *)

Definition raw : Type := list ascii.

Definition printable (a : ascii) : bool := (33 <=? byte a) && (byte a <=? 126).
Definition is_slash (a : ascii) : bool := Ascii.eqb a "/".
Definition is_colon (a : ascii) : bool := Ascii.eqb a ":".

(** [iter().position(p)]. *)
Fixpoint position (p : ascii -> bool) (l : raw) : option nat :=
  match l with
  | [] => None
  | a :: l => if p a then Some 0%nat else S <$> position p l
  end.

(** [rposition]. *)
Fixpoint rposition (p : ascii -> bool) (l : raw) : option nat :=
  match l with
  | [] => None
  | a :: l => match rposition p l with
              | Some i => Some (S i)
              | None => if p a then Some 0%nat else None
              end
  end.

Definition alphanumeric (a : ascii) : bool :=
  let b := byte a in
  is_digit a || ((65 <=? b) && (b <=? 90)) || ((97 <=? b) && (b <=? 122)).

Definition scheme_char (a : ascii) : bool :=
  alphanumeric a || Ascii.eqb a "+" || Ascii.eqb a "-" || Ascii.eqb a ".".

Definition scheme_sep : raw := [":"%char; "/"%char; "/"%char].

Definition is_url (s : raw) : bool :=
  let i := default (length s) (position (fun a => negb (scheme_char a)) s) in
  if (i =? 0)%nat || negb (bool_decide (take 3 (drop i s) = scheme_sep)) then false
  else (i + 3 <? length s)%nat.

(** [windows(3).position(== "://")]. *)
Fixpoint find_sep (l : raw) : option nat :=
  match l with
  | [] => None
  | _ :: rest => if bool_decide (take 3 l = scheme_sep) then Some 0%nat else S <$> find_sep rest
  end.

(** The end of the authority section. *)
Definition auth_end (s : raw) : nat :=
  match find_sep s with
  | Some p => match position is_slash (drop (p + 3) s) with
              | Some q => p + 3 + q
              | None => length s
              end
  | None => 0
  end%nat.

(** The end of the digit run from [i]. *)
Fixpoint digits_end (fuel : nat) (s : raw) (j end_ : nat) : nat :=
  match fuel with
  | O => j
  | S fuel =>
      if (j <? end_)%nat && (if s !! j is Some a then is_digit a else false)
      then digits_end fuel s (S j) end_ else j
  end.

(** The search for a leaked length prefix: the new end of the URL.  Every round
    moves [i] forward, so the length of [s] bounds them. *)
Fixpoint find_leak (fuel : nat) (s : raw) (auth i end_ : nat) : nat :=
  match fuel with
  | O => end_
  | S fuel =>
      if negb (i <? end_)%nat then end_
      else if (if s !! i is Some a then is_digit a else false) then
        let j := digits_end (length s) s i end_ in
        if (j <? end_)%nat && (if s !! j is Some a then is_colon a else false)
           && (i <? j)%nat && (auth <=? i)%nat
        then if is_url (take i s) then i else find_leak fuel s auth (S j) end_
        else find_leak fuel s auth j end_
      else find_leak fuel s auth (S i) end_
  end.

(** Cut back to the previous slash until what is left is a URL. *)
Fixpoint back_off (fuel : nat) (s : raw) (e : nat) : raw :=
  match fuel with
  | O => []
  | S fuel =>
      if (e =? 0)%nat then []
      else if is_url (take e s) then take e s
      else match rposition is_slash (take (e - 1) s) with
           | Some p => back_off fuel s p
           | None => []
           end
  end.

Definition trunc_url (s : raw) : raw :=
  let end_ := default (length s) (position (fun a => negb (printable a)) s) in
  let end_ := find_leak (S (length s)) s (auth_end s) 0 end_ in
  back_off (S end_) s end_.

(** ** Metadata *)

(** What [librqbit] makes of a .torrent file. *)
Record RawInfo := {
  ri_total_length : Z;
  ri_total_pieces : Z;
  (** for each file, whether it is padding *)
  ri_files_padding : list bool;
  ri_name : option string;
}.

Record RawMeta := {
  rm_info_hash : string;
  rm_announce : list string;
  rm_creation_date : option Z;
  (** [None]: the validation fails *)
  rm_validated : option RawInfo;
}.

(** Add a tracker unless it is empty or already listed. *)
Definition push_tracker (trackers : list string) (announce : string) : list string :=
  let s := String.string_of_list_ascii (trunc_url (String.list_ascii_of_string announce)) in
  if String.eqb s "" || bool_decide (s ∈ trackers) then trackers else trackers ++ [s].

Section Meta.
Context `{Chrono} `{HexCrate}.
Variable torrent_from_bytes : bytes -> option RawMeta.

Definition parse_torrent_bytes (b : bytes) : result error TorrentMeta :=
  match torrent_from_bytes b with
  | None => Err "parsing torrent file"
  | Some meta =>
      let trackers := foldl push_tracker [] (rm_announce meta) in
      let created_at := rm_creation_date meta ≫= fun n => from_timestamp (as_i64 n) in
      match rm_validated meta with
      | None => Err "validating torrent info"
      | Some v =>
          Ok {| tm_info_hash := rm_info_hash meta;
                tm_trackers := trackers;
                tm_created_at := created_at;
                tm_total_length := ri_total_length v;
                tm_piece_count := ri_total_pieces v;
                tm_file_count :=
                  Z.min (Z.of_nat (length (filter (fun p => p = false) (ri_files_padding v)))) U32_MAX;
                tm_name :=
                  match ri_name v with
                  | Some n => if String.eqb n "" then hex_encode (rm_info_hash meta) else n
                  | None => hex_encode (rm_info_hash meta)
                  end |}
      end
  end.

(** [Fetcher::fetch_torrent], over the network and the file system. *)
Definition fetch_torrent {N} `{Http N} (base_url info_hash_hex : string)
    (cache_path : option path) : M (N * Fs) (result error (TorrentMeta * bytes)) :=
  let url := base_url +:+ "/download/" +:+ info_hash_hex +:+ ".torrent" in
  let? resp := with_cause ("fetching " +:+ url) (on_fst (http_get url)) in
  let? b := ret (reply_bytes ("fetching " +:+ url) ("reading " +:+ url) resp) in
  let? md := ret (parse_torrent_bytes b) in
  (match cache_path with
   | Some p => let* _ := on_snd (atomic_write p b) in ret tt
   | None => ret tt
   end) ;;;
  ret (Ok (md, b)).
End Meta.

(** ** Scrapes *)

(** [replacen(pat, by, 1)]. *)
Fixpoint replace_first (pat by_ s : string) : string :=
  if starts_with pat s
  then by_ +:+ String.substring (String.length pat) (String.length s) s
  else match s with
       | EmptyString => EmptyString
       | String a s => String a (replace_first pat by_ s)
       end.

(** [rfind('/')] and [split_at]: what precedes the last slash, with it, and what
    follows. *)
Fixpoint rsplit_slash (s : string) : option (string * string) :=
  match s with
  | EmptyString => None
  | String a s' =>
      match rsplit_slash s' with
      | Some (b, seg) => Some (String a b, seg)
      | None => if is_slash a then Some (String a EmptyString, s') else None
      end
  end.

Definition derive_http_scrape_url (announce_url : string) : option string :=
  match rsplit_slash announce_url with
  | None => None
  | Some (base, segment) =>
      if negb (contains segment "announce") then None
      else Some (base +:+ replace_first "announce" "scrape" segment)
  end.

(** [BencodeValue], as far as the decoder looks. *)
Inductive Bencode :=
  | BDict (entries : list (string * Bencode))
  | BInteger (n : Z)
  | BOther.

(** [iter().find(key)]. *)
Fixpoint find_key (key : string) (d : list (string * Bencode)) : option Bencode :=
  match d with
  | [] => None
  | (k, v) :: d => if String.eqb k key then Some v else find_key key d
  end.

(** A count of the entry; anything but an integer within [u32] is 0. *)
Definition get_count (d : list (string * Bencode)) (name : string) : Z :=
  match find_key name d with
  | Some (BInteger i) => if (0 <=? i) && (i <=? U32_MAX) then i else 0
  | _ => 0
  end.

(** The first entry of the files dict for the hash that is a dict. *)
Fixpoint find_entry (info_hash : string) (files : list (string * Bencode)) : option SwarmCounts :=
  match files with
  | [] => None
  | (k, f) :: rest =>
      if negb (String.eqb k info_hash) then find_entry info_hash rest
      else match f with
           | BDict d => Some {| seeders := get_count d "complete";
                                completed := get_count d "downloaded";
                                leechers := get_count d "incomplete" |}
           | _ => find_entry info_hash rest
           end
  end.

Section Scrape.
Variable bencode_from_bytes : bytes -> option Bencode.

Definition decode_scrape_response (b : bytes) (info_hash : string) : result error SwarmCounts :=
  match bencode_from_bytes b with
  | None => Err "decoding scrape response"
  | Some (BDict d) =>
      match find_key "files" d with
      | Some (BDict files) =>
          match find_entry info_hash files with
          | Some c => Ok c
          | None => Err "scrape response had no entry for the requested hash"
          end
      | _ => Err "scrape response has no files dict"
      end
  | Some _ => Err "scrape response is not a dict"
  end.

(** The percent-encoding of the raw hash. *)
Definition upper_nibble (n : N) : ascii :=
  ascii_of_N (if (n <? 10)%N then 48 + n else 55 + n)%N.

Fixpoint percent_encode (s : string) : string :=
  match s with
  | EmptyString => EmptyString
  | String a s => let n := N_of_ascii a in
      String "%" (String (upper_nibble (n / 16)) (String (upper_nibble (n mod 16))
        (percent_encode s)))
  end.

Definition scrape_http {N} `{Http N} (announce_url info_hash : string)
    : M N (result error SwarmCounts) :=
  match derive_http_scrape_url announce_url with
  | None => ret (Err "tracker does not follow the announce/scrape URL convention")
  | Some scrape_url =>
      let url := scrape_url +:+ "?info_hash=" +:+ percent_encode info_hash in
      let? resp := with_cause ("scrape request to " +:+ scrape_url) (http_get url) in
      let? b := ret (reply_bytes ("scrape " +:+ scrape_url) "reading scrape response" resp) in
      ret (decode_scrape_response b info_hash)
  end.
End Scrape.

(** ** Tracker strings are clean *)

Lemma position_prefix p l :
  Forall (fun a => p a = false) (take (default (length l) (position p l)) l).
Proof.
  induction l as [|a l IH]; simpl; [constructor|].
  destruct (p a) eqn:E; simpl; [constructor|].
  destruct (position p l) as [i|]; simpl in *; by constructor.
Qed.

Lemma find_leak_le fuel s auth i e : (find_leak fuel s auth i e <= e)%nat.
Proof.
  revert i. induction fuel as [|fuel IH]; intros i; simpl; [done|].
  destruct (Nat.ltb_spec i e); simpl; [|done].
  repeat case_match; auto; lia.
Qed.

Lemma rposition_lt p l i : rposition p l = Some i -> (i < length l)%nat.
Proof.
  revert i. induction l as [|a l IH]; intros i; simpl; [done|].
  destruct (rposition p l) as [j|]; [intros [= <-]; specialize (IH j eq_refl); lia|].
  destruct (p a); intros [=]; lia.
Qed.

Lemma back_off_spec fuel s e :
  back_off fuel s e = [] \/
  exists n, (n <= e)%nat /\ back_off fuel s e = take n s /\ is_url (take n s) = true.
Proof.
  revert e. induction fuel as [|fuel IH]; intros e; simpl; [by left|].
  destruct (e =? 0)%nat; [by left|]. destruct (is_url (take e s)) eqn:E; [right; by exists e|].
  destruct (rposition is_slash (take (e - 1) s)) as [p|] eqn:Ep; [|by left].
  apply rposition_lt in Ep. rewrite length_take in Ep.
  destruct (IH p) as [?|(n & ? & ? & ?)]; [by left|right]. exists n. split; [lia|done].
Qed.

(** The cut-back loop needs no more rounds than the length it starts from. *)
Lemma back_off_fuel fuel s e : (e < fuel)%nat -> back_off fuel s e = back_off (S fuel) s e.
Proof.
  revert e. induction fuel as [|fuel IH]; intros e He; [lia|].
  change (back_off (S fuel) s e) with
    (if (e =? 0)%nat then [] else if is_url (take e s) then take e s
     else match rposition is_slash (take (e - 1) s) with
          | Some p => back_off fuel s p | None => [] end).
  change (back_off (S (S fuel)) s e) with
    (if (e =? 0)%nat then [] else if is_url (take e s) then take e s
     else match rposition is_slash (take (e - 1) s) with
          | Some p => back_off (S fuel) s p | None => [] end).
  destruct (Nat.eqb_spec e 0); [done|]. destruct (is_url _); [done|].
  destruct (rposition _ _) as [p|] eqn:Ep; [|done].
  apply rposition_lt in Ep. rewrite length_take in Ep. apply IH. lia.
Qed.

Lemma trunc_url_clean s :
  (exists n, trunc_url s = take n s) /\
  Forall (fun a => printable a = true) (trunc_url s) /\
  (trunc_url s = [] \/ is_url (trunc_url s) = true).
Proof.
  unfold trunc_url. set (e0 := default _ _). set (e := find_leak _ _ _ _ _).
  assert (e <= e0)%nat as He by apply find_leak_le.
  destruct (back_off_spec (S e) s e) as [Hb|(n & Hn & Hb & Hu)]; rewrite Hb.
  - split; [by exists 0%nat|]. split; [constructor|by left].
  - split; [by exists n|]. split; [|by right].
    pose proof (position_prefix (fun a => negb (printable a)) s) as Hp. fold e0 in Hp.
    assert (take n s = take n (take e0 s)) as -> by (rewrite take_take; f_equal; lia).
    apply Forall_take. eapply Forall_impl; [exact Hp|]. intros a. apply negb_false_iff.
Qed.

Lemma push_tracker_inv trackers a :
  NoDup trackers ->
  Forall (fun t => is_url (String.list_ascii_of_string t) = true) trackers ->
  NoDup (push_tracker trackers a) /\
  Forall (fun t => is_url (String.list_ascii_of_string t) = true) (push_tracker trackers a).
Proof.
  intros Hd Hu. unfold push_tracker.
  pose proof (trunc_url_clean (String.list_ascii_of_string a)) as (_ & _ & Hurl).
  set (r := trunc_url _) in *. set (t := String.string_of_list_ascii r).
  destruct (String.eqb_spec t ""); [done|]. case_bool_decide; simpl; [done|].
  destruct Hurl as [Hnil|Hurl]; [unfold t in *; by rewrite Hnil in *|].
  split.
  - apply NoDup_app. split; [done|]. split; [|apply NoDup_singleton].
    intros x Hx ->%list_elem_of_singleton. done.
  - apply Forall_app. split; [done|]. rewrite Forall_singleton.
    unfold t. by rewrite String.list_ascii_of_string_of_list_ascii.
Qed.

(** Whatever trailing bencode leaked into the announce strings of a file,
    every tracker of the parsed metadata is a printable prefix of an announce
    string that has the shape of a URL, listed once; a file count never
    overflows, and a torrent always has a name. *)
Theorem parse_torrent_bytes_clean `{Chrono} `{HexCrate} torrent_from_bytes b md :
  (forall h, hex_encode h = "" -> h = "") ->
  parse_torrent_bytes torrent_from_bytes b = Ok md ->
  tm_info_hash md <> "" ->
  NoDup (tm_trackers md) /\
  Forall (fun t => is_url (String.list_ascii_of_string t) = true) (tm_trackers md) /\
  0 <= tm_file_count md <= U32_MAX /\ tm_name md <> "".
Proof.
  intros Hhex. unfold parse_torrent_bytes.
  destruct (torrent_from_bytes b) as [meta|]; [|done].
  destruct (rm_validated meta) as [v|]; [|done]. intros [= <-]. simpl. intros Hh.
  assert (forall acc, NoDup acc ->
    Forall (fun t => is_url (String.list_ascii_of_string t) = true) acc ->
    NoDup (foldl push_tracker acc (rm_announce meta)) /\
    Forall (fun t => is_url (String.list_ascii_of_string t) = true)
           (foldl push_tracker acc (rm_announce meta))) as Hf.
  { induction (rm_announce meta) as [|a l IH]; intros acc Hd Hu; [done|]. simpl.
    destruct (push_tracker_inv acc a Hd Hu). by apply IH. }
  destruct (Hf [] (NoDup_nil_2) (Forall_nil_2 _)) as [H1 H2].
  split; [done|]. split; [done|]. split; [ulia|].
  destruct (ri_name v) as [n|]; [destruct (String.eqb_spec n "")|]; try done;
    intros He; by apply Hhex in He.
Qed.

(** ** Scrapes answer for the hash that was asked *)

Lemma get_count_u32 d name : 0 <= get_count d name <= U32_MAX.
Proof.
  unfold get_count. destruct (find_key name d) as [[]|]; try ulia.
  destruct (Z.leb_spec 0 n), (Z.leb_spec n U32_MAX); simpl; ulia.
Qed.

Lemma find_entry_sound h files c :
  find_entry h files = Some c ->
  exists d, (h, BDict d) ∈ files /\
    c = {| seeders := get_count d "complete"; completed := get_count d "downloaded";
           leechers := get_count d "incomplete" |}.
Proof.
  induction files as [|[k f] files IH]; simpl; [done|].
  destruct (String.eqb_spec k h) as [->|]; simpl.
  - destruct f as [d| |]; [intros [= <-]; exists d; split; [left|done]| |];
      intros (d & ? & ?)%IH; exists d; (split; [by right|done]).
  - intros (d & ? & ?)%IH. exists d. split; [by right|done].
Qed.

(** A scrape that succeeds reports counts taken from a dict the tracker
    listed under exactly the requested hash, each within [u32] (a missing,
    negative or oversized count is 0). *)
Theorem decode_scrape_response_sound bencode_from_bytes b info_hash c :
  decode_scrape_response bencode_from_bytes b info_hash = Ok c ->
  (exists top files d,
     bencode_from_bytes b = Some (BDict top) /\ find_key "files" top = Some (BDict files) /\
     (info_hash, BDict d) ∈ files /\
     seeders c = get_count d "complete" /\ leechers c = get_count d "incomplete" /\
     completed c = get_count d "downloaded") /\
  in_u32 (seeders c) /\ in_u32 (leechers c) /\ in_u32 (completed c).
Proof.
  unfold decode_scrape_response.
  destruct (bencode_from_bytes b) as [[top| |]|]; try done.
  destruct (find_key "files" top) as [[files| |]|] eqn:Ef; try done.
  destruct (find_entry info_hash files) as [c'|] eqn:Ee; [|done]. intros [= ->].
  apply find_entry_sound in Ee as (d & Hin & ->). simpl.
  split; [exists top, files, d; done|]. repeat split; apply get_count_u32.
Qed.

(** ** The scrape URL *)

Fixpoint has_slash (s : string) : bool :=
  match s with EmptyString => false | String a s => is_slash a || has_slash s end.

Lemma rsplit_slash_spec s base seg :
  rsplit_slash s = Some (base, seg) -> s = base +:+ seg /\ has_slash seg = false /\ has_slash base = true.
Proof.
  revert base. induction s as [|a s IH]; intros base; simpl; [done|].
  destruct (rsplit_slash s) as [[b seg']|] eqn:E.
  - intros [= <- ->]. destruct (IH b eq_refl) as (-> & Hs & Hb).
    split; [done|]. split; [done|]. simpl. by rewrite Hb, orb_true_r.
  - destruct (is_slash a) eqn:Ea; intros [= <- <-]. split; [done|]. split; [|simpl; by rewrite Ea].
    clear -E. induction s as [|b s IH]; [done|]. simpl in *.
    destruct (rsplit_slash s) as [[]|]; [done|]. destruct (is_slash b); [done|]. by apply IH.
Qed.

Lemma substring_skip pat t n :
  (String.length t <= n)%nat -> String.substring (String.length pat) n (pat +:+ t) = t.
Proof.
  revert n. induction pat as [|c pat IH]; intros n Hn.
  - change ("" +:+ t) with t. simpl String.length. revert n Hn.
    induction t as [|d t IH]; intros n Hn; [by destruct n|].
    destruct n as [|n]; simpl in *; [lia|]. f_equal. apply IH. lia.
  - rewrite string_app_cons. simpl. by apply IH.
Qed.

Lemma replace_first_spec pat by_ s :
  contains s pat = true ->
  exists pre post, s = pre +:+ pat +:+ post /\ replace_first pat by_ s = pre +:+ by_ +:+ post.
Proof.
  induction s as [|a s IH]; cbn [contains].
  - rewrite orb_false_r. intros [t Ht]%starts_with_spec. exists "", t. split; [done|].
    destruct pat as [|c pat]; [|done]. change ("" = t) in Ht. by subst t.
  - cbn [replace_first]. destruct (starts_with pat (String a s)) eqn:E.
    + intros _. apply starts_with_spec in E as [t Ht]. exists "", t. split; [done|].
      rewrite Ht, substring_skip; [done|]. rewrite string_length_app. lia.
    + intros Hc. destruct (IH Hc) as (pre & post & -> & Hr). exists (String a pre), post.
      rewrite Hr. done.
Qed.

(** The scrape URL is the announce URL with one "announce" of its last path
    segment replaced by "scrape": the tracker's host and path are never
    changed, and an URL that does not follow the convention has none. *)
Theorem derive_http_scrape_url_spec url :
  match derive_http_scrape_url url with
  | Some u => exists base pre post,
      url = base +:+ pre +:+ "announce" +:+ post /\ u = base +:+ pre +:+ "scrape" +:+ post /\
      has_slash base = true /\ has_slash (pre +:+ "announce" +:+ post) = false
  | None => forall base seg, rsplit_slash url = Some (base, seg) -> contains seg "announce" = false
  end.
Proof.
  unfold derive_http_scrape_url. destruct (rsplit_slash url) as [[base seg]|] eqn:E; [|done].
  destruct (contains seg "announce") eqn:Ec; simpl; [|by intros ? ? [= <- <-]].
  apply rsplit_slash_spec in E as (-> & Hs & Hb).
  destruct (replace_first_spec "announce" "scrape" seg Ec) as (pre & post & Hseg & Hr).
  exists base, pre, post. rewrite Hr, Hseg in *. done.
Qed.

(** ** Witnesses *)

Example trunc_url_leak :
  String.string_of_list_ascii (trunc_url (String.list_ascii_of_string
    "https://academictorrents.com/announce.php13:creation date")) =
  "https://academictorrents.com/announce.php".
Proof. vm_compute. reflexivity. Qed.

Example trunc_url_port :
  String.string_of_list_ascii (trunc_url (String.list_ascii_of_string
    "udp://127.0.0.1:42315/announce")) = "udp://127.0.0.1:42315/announce".
Proof. vm_compute. reflexivity. Qed.

Definition witness_meta : RawMeta :=
  {| rm_info_hash := "h"; rm_announce := ["http://a.b/announce"; "http://a.b/announce"; "x"];
     rm_creation_date := Some 5;
     rm_validated := Some {| ri_total_length := 10; ri_total_pieces := 1;
                             ri_files_padding := [false; true]; ri_name := None |} |}.

Lemma parse_torrent_bytes_clean_witness :
  exists md, @parse_torrent_bytes witness_chrono witness_hex (fun _ => Some witness_meta) "" = Ok md /\
  NoDup (tm_trackers md) /\
  Forall (fun t => is_url (String.list_ascii_of_string t) = true) (tm_trackers md) /\
  0 <= tm_file_count md <= U32_MAX /\ tm_name md <> "".
Proof.
  eexists. split; [vm_compute; reflexivity|].
  apply (@parse_torrent_bytes_clean witness_chrono witness_hex (fun _ => Some witness_meta) "").
  - intros [|a s]; [reflexivity|discriminate].
  - vm_compute. reflexivity.
  - discriminate.
Defined.

Definition witness_scrape : Bencode :=
  BDict [("files", BDict [("g", BDict [("complete", BInteger 9)]);
                          ("h", BDict [("complete", BInteger 4); ("incomplete", BInteger (-1))])])].

Lemma decode_scrape_response_sound_witness :
  exists c, decode_scrape_response (fun _ => Some witness_scrape) "" "h" = Ok c /\
  (exists top files d,
     Some witness_scrape = Some (BDict top) /\ find_key "files" top = Some (BDict files) /\
     ("h", BDict d) ∈ files /\
     seeders c = get_count d "complete" /\ leechers c = get_count d "incomplete" /\
     completed c = get_count d "downloaded") /\
  in_u32 (seeders c) /\ in_u32 (leechers c) /\ in_u32 (completed c).
Proof.
  eexists. split; [reflexivity|].
  apply (decode_scrape_response_sound (fun _ => Some witness_scrape) "" "h"). reflexivity.
Defined.
