(* ===== verification/Filter.v ===== *)
(** The keyword blocklist, [filter.rs].  [to_lowercase] maps by the Unicode
    tables and is an argument. *)

From S2P Require Import Prelude Text.

Record KeywordBlocklist := { keywords : list string }.

Section Filter.
Variable to_lowercase : string -> string.

Definition new_blocklist (keywords : list string) : KeywordBlocklist :=
  {| keywords := filter (fun k => k <> "") (map to_lowercase keywords) |}.

Definition blocks (b : KeywordBlocklist) (title description : string) : option string :=
  match keywords b with
  | [] => None
  | _ =>
      let title := to_lowercase title in
      let desc := to_lowercase description in
      List.find (fun k => contains title k || contains desc k) (keywords b)
  end.

(** Which keyword is reported: the first that occurs in either text. *)
Lemma blocks_spec ks title description :
  match blocks (new_blocklist ks) title description with
  | Some k => (exists k0, k0 ∈ ks /\ k = to_lowercase k0 /\ k <> "") /\
      (contains (to_lowercase title) k = true \/ contains (to_lowercase description) k = true)
  | None => forall k, k ∈ ks -> to_lowercase k <> "" ->
      contains (to_lowercase title) (to_lowercase k) = false /\
      contains (to_lowercase description) (to_lowercase k) = false
  end.
Proof.
  unfold blocks, new_blocklist. simpl.
  set (l := filter _ _).
  assert (forall k, k ∈ l <-> exists k0, k0 ∈ ks /\ k = to_lowercase k0 /\ k <> "") as Hl.
  { intros k. unfold l. rewrite list_elem_of_filter.
    change (map to_lowercase ks) with (to_lowercase <$> ks). rewrite list_elem_of_fmap. naive_solver. }
  assert (match l with [] => None | _ => List.find (fun k =>
            contains (to_lowercase title) k || contains (to_lowercase description) k) l end
          = List.find (fun k =>
            contains (to_lowercase title) k || contains (to_lowercase description) k) l) as ->
    by (by destruct l).
  destruct (List.find _ l) as [k|] eqn:E.
  - apply List.find_some in E as [Hin Hk]. apply list_elem_of_In, Hl in Hin.
    split; [done|]. by apply orb_true_iff.
  - intros k Hin Hne. pose proof (List.find_none _ _ E (to_lowercase k)) as Hn.
    apply orb_false_iff. apply Hn, list_elem_of_In, Hl. eauto.
Qed.
End Filter.
