(* ===== verification/Humanize.v ===== *)
(** Rendering of remote text, byte counts and durations, [humanize.rs]. *)

From S2P Require Import Prelude Text Float64 Time.

(** [sanitize_title] drops every control character: the bytes below 32, DEL, and
    the two-byte sequences of U+0080 to U+009F. *)
Definition is_c0 (a : ascii) : bool := (byte a <? 32) || (byte a =? 127).

Fixpoint sanitize_title (s : string) : string :=
  match s with
  | EmptyString => EmptyString
  | String a s' =>
      if is_c0 a then sanitize_title s'
      else match s' with
           | String b s'' =>
               if (byte a =? 194) && (128 <=? byte b) && (byte b <? 160) then sanitize_title s''
               else String a (sanitize_title s')
           | EmptyString => String a EmptyString
           end
  end.

Definition UNITS : list string := ["B"; "KiB"; "MiB"; "GiB"; "TiB"; "PiB"].

(** The scaling loop: at most five divisions, as there are six units. *)
Fixpoint scale (fuel : nat) (v : f64) (u : nat) : f64 * nat :=
  match fuel with
  | O => (v, u)
  | S fuel =>
      if fle (f64_of_Z 1024) v && (S u <? length UNITS)%nat
      then scale fuel (fdiv v (f64_of_Z 1024)) (S u)
      else (v, u)
  end.

(** [m * 2 ^ e * pow], rounded half to even. *)
Definition scaled (pow : Z) (m : positive) (e : Z) : Z :=
  if 0 <=? e then Z.pos m * 2 ^ e * pow
  else
    let d := 2 ^ (- e) in
    let q := Z.pos m * pow / d in
    let r := Z.pos m * pow mod d in
    if 2 * r <? d then q
    else if d <? 2 * r then q + 1
    else if Z.even q then q else q + 1.

(** [{v:.1}]: the exact value rounded at the first decimal. *)
Definition tenths (v : f64) : Z :=
  match v with S754_finite false m e => scaled 10 m e | _ => 0 end.

Definition fmt1 (v : f64) : string :=
  let t := tenths v in pretty (t / 10) +:+ "." +:+ pretty (t mod 10).

(** [{v:.2}], of any number. *)
Definition fmt2 (v : f64) : string :=
  let show (s : bool) (t : Z) :=
    (if s then "-" else "") +:+ pretty (t / 100) +:+ "." +:+
    (if t mod 100 <? 10 then "0" else "") +:+ pretty (t mod 100) in
  match v with
  | S754_zero s => show s 0
  | S754_finite s m e => show s (scaled 100 m e)
  | S754_infinity s => if s then "-inf" else "inf"
  | S754_nan => "NaN"
  end.

Example fmt2_two_decimals : fmt2 (f64_lit 44 100) = "0.44" /\ fmt2 (f64_of_Z 1) = "1.00".
Proof. by vm_compute. Qed.

Definition human_bytes_pos (n : Z) : string :=
  let '(v, u) := scale (length UNITS) (f64_of_Z n) 0 in
  if (u =? 0)%nat then pretty n +:+ " B"
  else fmt1 v +:+ " " +:+ nth u UNITS "".

(** [human_bytes] on an [i64]: a negative count is rendered by a recursive call
    on its negation, which for the least [i64] is itself, so that call never
    returns ([None]). *)
Definition human_bytes (n : Z) : option string :=
  if n <? 0 then
    if n =? - 2 ^ 63 then None
    else Some ("-" +:+ human_bytes_pos (- n))
  else Some (human_bytes_pos n).

Definition human_bytes_per_sec (bps : f64) : option string :=
  (fun s => s +:+ "/s") <$> human_bytes (f64_to_i64 bps).

(** [human_duration] on a span of nanoseconds. *)
Definition duration_part (st : Z * string) (part : Z * string) : Z * string :=
  let '(secs, out) := st in
  let '(len, suffix) := part in
  let q := secs / len in
  (secs mod len,
   if (0 <? q) || negb (String.eqb out "") then out +:+ pretty q +:+ suffix else out).

Definition human_duration (d : duration) : string :=
  let secs := d / NANOS in
  if secs =? 0 then pretty (d / 1000000) +:+ "ms"
  else
    let '(_, out) :=
      foldl duration_part (secs, "") [(86400, "d"); (3600, "h"); (60, "m"); (1, "s")] in
    if String.eqb out "" then "0s" else out.

(** ** What a terminal gets to see *)

(** The second byte of a C1 control. *)
Definition c1_pair (a b : ascii) : bool := (byte a =? 194) && (128 <=? byte b) && (byte b <? 160).

Fixpoint no_control (s : string) : bool :=
  match s with
  | EmptyString => true
  | String a s' =>
      negb (is_c0 a) &&
      match s' with String b _ => negb (c1_pair a b) | EmptyString => true end &&
      no_control s'
  end.

(** In UTF-8 the lead byte 0xC2 is followed by a continuation byte. *)
Fixpoint c2_paired (s : string) : bool :=
  match s with
  | EmptyString => true
  | String a s' =>
      (negb (byte a =? 194) ||
       match s' with String b _ => (128 <=? byte b) && (byte b <? 192) | EmptyString => false end)
      && c2_paired s'
  end.

Lemma sanitize_cons a b s :
  is_c0 a = false ->
  sanitize_title (String a (String b s)) =
    if c1_pair a b then sanitize_title s else String a (sanitize_title (String b s)).
Proof. intros Ha. unfold c1_pair. cbn [sanitize_title]. by rewrite Ha. Qed.

(** Whatever title a registrant chose, the sanitized title has no C0 or C1
    control character left, so it cannot drive a terminal; and a title without
    any is kept as it is. *)
Theorem sanitize_title_safe s :
  c2_paired s = true ->
  no_control (sanitize_title s) = true /\
  (no_control s = true -> sanitize_title s = s).
Proof.
  remember (String.length s) as n eqn:Hn. revert s Hn.
  induction n as [n IH] using lt_wf_ind. intros [|a s] Hn Hp; [done|].
  cbn [c2_paired] in Hp. apply andb_true_iff in Hp as [Ha Hp].
  destruct (IH (String.length s) ltac:(subst; simpl; lia) s eq_refl Hp) as [IH1 IH2].
  destruct (is_c0 a) eqn:Ec.
  { cbn [sanitize_title no_control]. rewrite Ec. split; [done|]. intros H; discriminate H. }
  destruct s as [|b s].
  { cbn [sanitize_title]. rewrite Ec. cbn [no_control]. by rewrite Ec. }
  rewrite sanitize_cons by done. cbn [no_control]. rewrite Ec.
  destruct (c1_pair a b) eqn:Epair.
  { cbn [c2_paired] in Hp. apply andb_true_iff in Hp as [_ Hp]. split; [|done].
    by apply (IH (String.length s) ltac:(subst; simpl; lia) s eq_refl Hp). }
  cbn [negb andb]. split; [|intros H; by rewrite IH2]. cbn [no_control]. rewrite Ec.
  cbn [negb andb]. apply andb_true_iff. split; [|exact IH1].
  destruct (Z.eqb_spec (byte a) 194) as [Ea|Ea].
  - simpl in Ha. simpl_bool.
    assert (is_c0 b = false) as Hb by (unfold is_c0; apply orb_false_iff; split; [apply Z.ltb_ge|apply Z.eqb_neq]; lia).
    assert (sanitize_title (String b s) = String b (sanitize_title s)) as ->.
    { destruct s as [|d s]; [cbn [sanitize_title]; by rewrite Hb|].
      rewrite sanitize_cons by done. unfold c1_pair. by rewrite (proj2 (Z.eqb_neq (byte b) 194)) by lia. }
    by rewrite Epair.
  - destruct (sanitize_title (String b s)) as [|d r]; [done|].
    unfold c1_pair. by rewrite (proj2 (Z.eqb_neq _ _) Ea).
Qed.

Lemma sanitize_title_safe_witness :
  no_control (sanitize_title (String "027" "[2Jtitle")) = true /\
  (no_control (String "027" "[2Jtitle") = true ->
   sanitize_title (String "027" "[2Jtitle") = String "027" "[2Jtitle").
Proof. apply sanitize_title_safe. vm_compute. reflexivity. Defined.

Example human_bytes_small : human_bytes 1023 = Some "1023 B".
Proof. vm_compute. reflexivity. Qed.

Example human_bytes_mib : human_bytes 10905190 = Some "10.4 MiB".
Proof. vm_compute. reflexivity. Qed.

Example human_duration_hm : human_duration (secs 15540) = "4h19m0s".
Proof. vm_compute. reflexivity. Qed.
