(* ===== verification/Config.v ===== *)
(** Configuration, [config.rs]: the settings with their defaults, how they are
    read from and written to the YAML file and the key file, and the validation
    that every entry point applies.

    serde_yaml is the class [Yaml]: it turns a file into the fields it spells
    ([RawConfig]); what an absent or null field means and how each value is read
    and written is the program's own code, modelled here. *)

From S2P Require Import Prelude Text Float64 Fs Persist Time Humanize.

(** ** Constants *)

Definition DEFAULT_PORT : Z := 37550.
Definition DEFAULT_AGGRESSIVENESS : f64 := f64_lit 6 10.
Definition DEFAULT_MIN_SEED_MARGIN : Z := 4.
Definition DEFAULT_CATALOG_COLLAPSE_PERCENT : Z := 30.
Definition DEFAULT_SCAN_INTERVAL : duration := secs (14 * 24 * 3600).
Definition DEFAULT_MODERATION_DELAY : duration := secs (7 * 24 * 3600).
Definition DEFAULT_RATE_LIMIT_PER_SEC : f64 := f64_lit 5 10.
Definition DEFAULT_STATS_INTERVAL : duration := secs (30 * 60).
Definition DEFAULT_STALL_EVICTION_TIMEOUT : duration := secs (90 * 24 * 3600).
Definition DEFAULT_VANISHED_EVICTION_TIMEOUT : duration := secs (90 * 24 * 3600).
Definition DEFAULT_QUARANTINE_CHECK_INTERVAL : duration := secs (30 * 60).
Definition DEFAULT_BROKEN_PIECE_DISCARD_BYTES : Z := 256 * 1024 * 1024.
Definition DEFAULT_BROKEN_PIECE_MIN_WINDOWS : Z := 2.
Definition DEFAULT_QUARANTINE_COOLDOWN : duration := secs (3 * 24 * 3600).
Definition DEFAULT_QUARANTINE_MAX_RETRIES : Z := 0.
Definition ALL_LIMIT_FRACTION : f64 := f64_lit 975 1000.
Definition MIN_STORAGE_LIMIT : Z := 100 * 1024 * 1024.
Definition MIN_BANDWIDTH_LIMIT : Z := 100 * 1024.
Definition MAX_DURATION_KNOB : duration := secs (366 * 24 * 3600).
Definition MIN_RATE_LIMIT_PER_SECOND : f64 := f64_lit 1 1000000.
Definition API_KEY_FILE : string := "api_key".

(** ** The settings *)

Inductive StorageLimit := Unset | Bytes (b : Z) | All.

#[export] Instance storage_limit_eq_dec : EqDecision StorageLimit.
Proof. solve_decision. Defined.

Record StorageLocation := {
  location_path : path;
  limit : StorageLimit;
}.

Record ScanConfig := {
  interval : duration;
  rate_limit_per_second : f64;
  min_seed_margin : Z;
  moderation_delay : duration;
  stall_eviction_timeout : duration;
  vanished_eviction_timeout : duration;
  quarantine_check_interval : duration;
  broken_piece_discard_bytes : Z;
  broken_piece_min_windows : Z;
  quarantine_cooldown : duration;
  quarantine_max_retries : Z;
}.

Record Config := {
  port : Z;
  data_dir : path;
  storage : list StorageLocation;
  scan : ScanConfig;
  aggressiveness : f64;
  keyword_blocklist : list string;
  preserve_deleted_torrents : bool;
  catalog_collapse_percent : Z;
  max_ram : Z;
  api_key : string;
  upload_rate_limit : Z;
  download_rate_limit : Z;
  stats_interval : duration;
  debug : bool;
  log_file : option path;
}.

Definition scan_default : ScanConfig :=
  {| interval := DEFAULT_SCAN_INTERVAL;
     rate_limit_per_second := DEFAULT_RATE_LIMIT_PER_SEC;
     min_seed_margin := DEFAULT_MIN_SEED_MARGIN;
     moderation_delay := DEFAULT_MODERATION_DELAY;
     stall_eviction_timeout := DEFAULT_STALL_EVICTION_TIMEOUT;
     vanished_eviction_timeout := DEFAULT_VANISHED_EVICTION_TIMEOUT;
     quarantine_check_interval := DEFAULT_QUARANTINE_CHECK_INTERVAL;
     broken_piece_discard_bytes := DEFAULT_BROKEN_PIECE_DISCARD_BYTES;
     broken_piece_min_windows := DEFAULT_BROKEN_PIECE_MIN_WINDOWS;
     quarantine_cooldown := DEFAULT_QUARANTINE_COOLDOWN;
     quarantine_max_retries := DEFAULT_QUARANTINE_MAX_RETRIES |}.

(** [default_data_dir]; [home] is the [HOME] variable. *)
Definition default_data_dir (home : option string) : path :=
  match home with
  | Some h => if String.eqb h "" then "/var/lib/keep-at" else path_join h ".local/share/keep-at"
  | None => "/var/lib/keep-at"
  end.

Definition default_storage_location (home : option string) : path :=
  path_join (default_data_dir home) "storage".

Definition config_default (home : option string) : Config :=
  {| port := DEFAULT_PORT;
     data_dir := default_data_dir home;
     storage := [];
     scan := scan_default;
     aggressiveness := DEFAULT_AGGRESSIVENESS;
     keyword_blocklist := [];
     preserve_deleted_torrents := false;
     catalog_collapse_percent := DEFAULT_CATALOG_COLLAPSE_PERCENT;
     max_ram := 0;
     api_key := "";
     upload_rate_limit := 0;
     download_rate_limit := 0;
     stats_interval := DEFAULT_STATS_INTERVAL;
     debug := false;
     log_file := None |}.

Definition set_api_key (k : string) (c : Config) : Config :=
  {| port := port c; data_dir := data_dir c; storage := storage c; scan := scan c;
     aggressiveness := aggressiveness c; keyword_blocklist := keyword_blocklist c;
     preserve_deleted_torrents := preserve_deleted_torrents c;
     catalog_collapse_percent := catalog_collapse_percent c; max_ram := max_ram c;
     api_key := k; upload_rate_limit := upload_rate_limit c;
     download_rate_limit := download_rate_limit c; stats_interval := stats_interval c;
     debug := debug c; log_file := log_file c |}.

(** ** Byte sizes *)

(** [str::parse::<f64>] on digits and dots: digits with at most one dot among
    or around them, rounded correctly from the exact decimal. *)
Definition parse_decimal (s : string) : option f64 :=
  let exact n k :=
    match n with
    | Zpos m => fdiv (S754_finite false m 0) (S754_finite false (Z.to_pos (10 ^ k)) 0)
    | _ => fzero
    end in
  match split_on "." s with
  | [w] => if String.eqb w "" then None else (fun n => exact n 0) <$> parse_digits 0 w
  | [w; f] => if String.eqb (w +:+ f) "" then None
              else (fun n => exact n (Z.of_nat (String.length f))) <$> parse_digits 0 (w +:+ f)
  | _ => None
  end.

(** [split_at] the first character that is neither a digit nor a dot. *)
Fixpoint split_number (s : string) : string * string :=
  match s with
  | String a s' =>
      if is_digit a || Ascii.eqb a "." then let '(n, suf) := split_number s' in (String a n, suf)
      else ("", s)
  | EmptyString => ("", "")
  end.

(** The unit a suffix names: [to_ascii_uppercase] compared with the table. *)
Definition suffix_multiplier (suffix : string) : option Z :=
  let names p := [p; p +:+ "b"; p +:+ "i"; p +:+ "ib"] in
  let s := ascii_lower suffix in
  if bool_decide (s ∈ [""; "b"]) then Some 1
  else if bool_decide (s ∈ names "k") then Some 1024
  else if bool_decide (s ∈ names "m") then Some (1024 * 1024)
  else if bool_decide (s ∈ names "g") then Some (1024 * 1024 * 1024)
  else if bool_decide (s ∈ names "t") then Some (1024 ^ 4)
  else if bool_decide (s ∈ names "p") then Some (1024 ^ 5)
  else None.

Definition parse_byte_size (s : string) : result error Z :=
  let t := trim s in
  try? _ := ensure (negb (String.eqb t ""))
              "empty byte size (e.g. 500G, 2T, or max for a dedicated drive)" in
  let '(num, suffix) := split_number t in
  try? n := match parse_decimal num with
            | Some n => Ok n
            | None => Err ("invalid byte size " +:+ s)
            end in
  try? _ := ensure (negb (flt n fzero)) ("byte size must not be negative: " +:+ s) in
  try? _ := ensure (negb (String.eqb num "")) ("byte size " +:+ s +:+ " has no number") in
  try? mult := match suffix_multiplier (trim suffix) with
               | Some m => Ok (f64_of_Z m)
               | None => Err ("unknown byte-size suffix " +:+ trim suffix +:+ " in " +:+ s)
               end in
  let b := fmul n mult in
  if fle (f64_of_Z U64_MAX) b then Err ("byte size " +:+ s +:+ " overflows")
  else Ok (f64_to_u64 b).

(** [format_byte_size]; [None] where [human_bytes] never returns. *)
Definition format_byte_size (n : Z) : option string :=
  string_filter (fun a => negb (Ascii.eqb a " ")) <$> human_bytes (as_i64 n).

(** [StorageLimit::parse]. *)
Definition parse_limit (s : string) : result error StorageLimit :=
  let t := trim s in
  if eq_ignore_ascii_case t "max" || eq_ignore_ascii_case t "all" then Ok All
  else try? b := parse_byte_size t in Ok (Bytes b).

(** ** The configuration file *)

(** A field as the file spells it. *)
Inductive field (A : Type) := Absent | Null | Value (a : A).
Arguments Absent {A}.
Arguments Null {A}.
Arguments Value {A} a.

Record RawLocation := {
  raw_path : path;
  raw_limit : option string;
}.

Record RawScan := {
  raw_interval : field Z;
  raw_rate : option f64;
  raw_margin : option Z;
  raw_moderation : field Z;
  raw_stall : field Z;
  raw_vanished : field Z;
  raw_check : field Z;
  raw_discard : option Z;
  raw_windows : option Z;
  raw_cooldown : field Z;
  raw_retries : option Z;
}.

Record RawConfig := {
  raw_port : option Z;
  raw_data_dir : option path;
  raw_storage : option (list RawLocation);
  raw_scan : option RawScan;
  raw_aggressiveness : option f64;
  raw_blocklist : option (list string);
  raw_preserve : option bool;
  raw_collapse : option Z;
  raw_max_ram : field string;
  raw_api_key : option string;
  raw_upload : field string;
  raw_download : field string;
  raw_stats : field Z;
  raw_debug : option bool;
  raw_log_file : option path;
}.

(** *** Reading *)

(** [de_duration_secs] under a [default] attribute: null and absence both mean
    the field's own default. *)
Definition de_duration_secs (fallback : duration) (f : field Z) : duration :=
  match f with Value n => secs n | _ => fallback end.

Definition de_limit (f : option string) : result error StorageLimit :=
  match f with Some s => parse_limit s | None => Ok Unset end.

Definition de_bytesize_opt (f : field string) : result error Z :=
  match f with Value s => parse_byte_size s | _ => Ok 0 end.

Fixpoint de_storage (l : list RawLocation) : result error (list StorageLocation) :=
  match l with
  | [] => Ok []
  | r :: l =>
      try? lim := de_limit (raw_limit r) in
      try? locs := de_storage l in
      Ok ({| location_path := raw_path r; limit := lim |} :: locs)
  end.

Definition de_scan (r : option RawScan) : ScanConfig :=
  match r with
  | None => scan_default
  | Some r =>
      {| interval := de_duration_secs DEFAULT_SCAN_INTERVAL (raw_interval r);
         rate_limit_per_second := default DEFAULT_RATE_LIMIT_PER_SEC (raw_rate r);
         min_seed_margin := default DEFAULT_MIN_SEED_MARGIN (raw_margin r);
         moderation_delay := de_duration_secs DEFAULT_MODERATION_DELAY (raw_moderation r);
         stall_eviction_timeout :=
           de_duration_secs DEFAULT_STALL_EVICTION_TIMEOUT (raw_stall r);
         vanished_eviction_timeout :=
           de_duration_secs DEFAULT_VANISHED_EVICTION_TIMEOUT (raw_vanished r);
         quarantine_check_interval :=
           de_duration_secs DEFAULT_QUARANTINE_CHECK_INTERVAL (raw_check r);
         broken_piece_discard_bytes :=
           default DEFAULT_BROKEN_PIECE_DISCARD_BYTES (raw_discard r);
         broken_piece_min_windows := default DEFAULT_BROKEN_PIECE_MIN_WINDOWS (raw_windows r);
         quarantine_cooldown := de_duration_secs DEFAULT_QUARANTINE_COOLDOWN (raw_cooldown r);
         quarantine_max_retries := default DEFAULT_QUARANTINE_MAX_RETRIES (raw_retries r) |}
  end.

Definition de_config (home : option string) (r : RawConfig) : result error Config :=
  try? locs := de_storage (default [] (raw_storage r)) in
  try? ram := de_bytesize_opt (raw_max_ram r) in
  try? up := de_bytesize_opt (raw_upload r) in
  try? down := de_bytesize_opt (raw_download r) in
  Ok {| port := default DEFAULT_PORT (raw_port r);
        data_dir := default (default_data_dir home) (raw_data_dir r);
        storage := locs;
        scan := de_scan (raw_scan r);
        aggressiveness := default DEFAULT_AGGRESSIVENESS (raw_aggressiveness r);
        keyword_blocklist := default [] (raw_blocklist r);
        preserve_deleted_torrents := default false (raw_preserve r);
        catalog_collapse_percent := default DEFAULT_CATALOG_COLLAPSE_PERCENT (raw_collapse r);
        max_ram := ram;
        api_key := default "" (raw_api_key r);
        upload_rate_limit := up;
        download_rate_limit := down;
        stats_interval := de_duration_secs DEFAULT_STATS_INTERVAL (raw_stats r);
        debug := default false (raw_debug r);
        log_file := raw_log_file r |}.

(** *** Writing *)

(** [skip_serializing_if = "is_default_..."]. *)
Definition unless_default {A} `{EqDecision A} (dflt v : A) : option A :=
  if decide (v = dflt) then None else Some v.

Definition ser_duration_secs_opt (dflt d : duration) : field Z :=
  match unless_default dflt d with Some d => Value (d / NANOS) | None => Absent end.

Definition ser_limit (l : StorageLimit) : option string :=
  match l with
  | All => Some "max"
  | Bytes b => format_byte_size b
  | Unset => Some ""
  end.

Definition ser_bytesize_opt (v : Z) : option (field string) :=
  if v =? 0 then Some Null else Value <$> format_byte_size v.

Definition ser_location (l : StorageLocation) : option RawLocation :=
  (fun s => {| raw_path := location_path l; raw_limit := Some s |}) <$> ser_limit (limit l).

Definition ser_scan (s : ScanConfig) : RawScan :=
  {| raw_interval := ser_duration_secs_opt DEFAULT_SCAN_INTERVAL (interval s);
     raw_rate := Some (rate_limit_per_second s);
     raw_margin := Some (min_seed_margin s);
     raw_moderation := ser_duration_secs_opt DEFAULT_MODERATION_DELAY (moderation_delay s);
     raw_stall :=
       ser_duration_secs_opt DEFAULT_STALL_EVICTION_TIMEOUT (stall_eviction_timeout s);
     raw_vanished :=
       ser_duration_secs_opt DEFAULT_VANISHED_EVICTION_TIMEOUT (vanished_eviction_timeout s);
     raw_check :=
       ser_duration_secs_opt DEFAULT_QUARANTINE_CHECK_INTERVAL (quarantine_check_interval s);
     raw_discard :=
       unless_default DEFAULT_BROKEN_PIECE_DISCARD_BYTES (broken_piece_discard_bytes s);
     raw_windows := unless_default DEFAULT_BROKEN_PIECE_MIN_WINDOWS (broken_piece_min_windows s);
     raw_cooldown := ser_duration_secs_opt DEFAULT_QUARANTINE_COOLDOWN (quarantine_cooldown s);
     raw_retries := unless_default DEFAULT_QUARANTINE_MAX_RETRIES (quarantine_max_retries s) |}.

(** [None] where a byte size cannot be formatted. *)
Definition ser_config (c : Config) : option RawConfig :=
  locs ← mapM ser_location (storage c);
  ram ← ser_bytesize_opt (max_ram c);
  up ← ser_bytesize_opt (upload_rate_limit c);
  down ← ser_bytesize_opt (download_rate_limit c);
  Some {| raw_port := Some (port c);
          raw_data_dir := Some (data_dir c);
          raw_storage := Some locs;
          raw_scan := Some (ser_scan (scan c));
          raw_aggressiveness := Some (aggressiveness c);
          raw_blocklist := Some (keyword_blocklist c);
          raw_preserve := Some (preserve_deleted_torrents c);
          raw_collapse := Some (catalog_collapse_percent c);
          raw_max_ram := ram;
          raw_api_key := if String.eqb (api_key c) "" then None else Some (api_key c);
          raw_upload := up;
          raw_download := down;
          raw_stats := ser_duration_secs_opt DEFAULT_STATS_INTERVAL (stats_interval c);
          raw_debug := Some (debug c);
          raw_log_file := log_file c |}.

(** ** Validation *)

Definition no_positive_limit (l : StorageLimit) : bool :=
  match l with Unset => true | Bytes b => b =? 0 | All => false end.

Definition check_storage_limit (p : path) (l : StorageLimit) : result error unit :=
  match l with
  | All | Unset => Ok tt
  | Bytes b => ensure (MIN_STORAGE_LIMIT <=? b)
                 ("storage location " +:+ p +:+ " limit is under 100M")
  end.

Definition check_bandwidth_limit (flag : string) (b : Z) : result error unit :=
  if b =? 0 then Ok tt
  else ensure (MIN_BANDWIDTH_LIMIT <=? b) (flag +:+ " is under 100K/s").

Definition check_duration_knob (name : string) (d : duration) : result error unit :=
  ensure (negb ((0 <? d) && (MAX_DURATION_KNOB <? d)))
    (name +:+ " must be 0 (disabled) or at most 366 days").

Definition check_rate_limit (per_second : f64) : result error unit :=
  try? _ := ensure (negb (is_nan per_second || fle per_second fzero))
              "scan.rate_limit_per_second must be a positive finite number" in
  ensure (negb (flt per_second MIN_RATE_LIMIT_PER_SECOND))
    "scan.rate_limit_per_second is too low".

(** One round of the location loop; [canonicalize] is the file system's answer
    for a path, symbolic links resolved. *)
Definition check_location (canonicalize : path -> option path) (seen : gset path)
    (loc : StorageLocation) : result error (gset path) :=
  let p := location_path loc in
  try? _ := ensure (negb (String.eqb p "")) "storage location has an empty path" in
  try? _ := ensure (negb (no_positive_limit (limit loc)))
              ("storage location " +:+ p +:+ " has no positive limit set") in
  try? _ := check_storage_limit p (limit loc) in
  let key := default p (canonicalize p) in
  try? _ := ensure (bool_decide (key ∉ seen))
              ("storage location " +:+ p +:+ " is listed more than once") in
  Ok ({[key]} ∪ seen).

Fixpoint check_locations (canonicalize : path -> option path) (seen : gset path)
    (locs : list StorageLocation) : result error unit :=
  match locs with
  | [] => Ok tt
  | loc :: locs =>
      try? seen := check_location canonicalize seen loc in
      check_locations canonicalize seen locs
  end.

Fixpoint check_duration_knobs (l : list (string * duration)) : result error unit :=
  match l with
  | [] => Ok tt
  | (name, d) :: l => try? _ := check_duration_knob name d in check_duration_knobs l
  end.

Definition duration_knobs (c : Config) : list (string * duration) :=
  [("scan.interval", interval (scan c));
   ("scan.moderation_delay", moderation_delay (scan c));
   ("scan.stall_eviction_timeout", stall_eviction_timeout (scan c));
   ("scan.vanished_eviction_timeout", vanished_eviction_timeout (scan c));
   ("scan.quarantine_check_interval", quarantine_check_interval (scan c));
   ("scan.quarantine_cooldown", quarantine_cooldown (scan c));
   ("stats_interval", stats_interval c)].

Definition validate (canonicalize : path -> option path) (c : Config) : result error unit :=
  try? _ := ensure (negb (bool_decide (storage c = []))) "no storage locations configured" in
  try? _ := check_locations canonicalize ∅ (storage c) in
  try? _ := ensure (flt fzero (aggressiveness c) && flt (aggressiveness c) fone)
              "aggressiveness must be between 0 and 1 (exclusive)" in
  try? _ := ensure (negb (100 <? catalog_collapse_percent c))
              "catalog_collapse_percent must be 0-100" in
  try? _ := ensure (negb (min_seed_margin (scan c) <? 0))
              "scan.min_seed_margin must not be negative" in
  try? _ := ensure (negb (broken_piece_min_windows (scan c) =? 0))
              "scan.broken_piece_min_windows must be at least 1" in
  try? _ := ensure (negb (broken_piece_discard_bytes (scan c) =? 0))
              "scan.broken_piece_discard_bytes must be at least 1 byte" in
  try? _ := ensure (negb ((0 <? quarantine_check_interval (scan c)) &&
                          (quarantine_check_interval (scan c) <? secs 60)))
              "scan.quarantine_check_interval must be 0 (disabled) or at least 60s" in
  try? _ := ensure (negb (port c =? 0)) "port 0 is out of range" in
  try? _ := check_rate_limit (rate_limit_per_second (scan c)) in
  try? _ := check_duration_knobs (duration_knobs c) in
  try? _ := check_bandwidth_limit "max_ram" (max_ram c) in
  try? _ := check_bandwidth_limit "upload_rate_limit" (upload_rate_limit c) in
  check_bandwidth_limit "download_rate_limit" (download_rate_limit c).

(** ** Loading and saving *)

(** The comment header [save] writes. *)
Definition SAVE_HEADER : string :=
  "# keep-at config. Edit this file directly and restart keep-at
# (`systemctl restart keep-at`, or `keep-at service install` again)
# to apply changes. Every field here also has a --flag equivalent
# (`keep-at run --help`).
#
# The Academic Torrents API key is NOT stored here: it lives in
# <data_dir>/api_key (owner-only, 0600), so this file can stay
# world-readable for `status`/`hosted-torrents` run as any user.
# Set it with --api-key or write the file directly.

".

(** What a YAML document can carry: text, and numbers in their canonical form. *)
Definition plain_float (x : f64) : bool := valid_binary f64_prec f64_emax x && negb (is_nan x).

Definition text_field (f : field string) : bool :=
  match f with Value s => utf8_valid s | _ => true end.

Definition raw_ok (r : RawConfig) : bool :=
  let text o := match o with Some s => utf8_valid s | None => true end in
  let float o := match o with Some x => plain_float x | None => true end in
  text (raw_data_dir r) && text (raw_api_key r) && text (raw_log_file r) &&
  forallb (fun l => utf8_valid (raw_path l) && text (raw_limit l)) (default [] (raw_storage r)) &&
  forallb utf8_valid (default [] (raw_blocklist r)) &&
  text_field (raw_max_ram r) && text_field (raw_upload r) && text_field (raw_download r) &&
  float (raw_aggressiveness r) &&
  match raw_scan r with Some sc => float (raw_rate sc) | None => true end.

(** serde_yaml on the program's configuration type; writing fails on a path that
    is not text.  Comments are skipped and a document reads back as written. *)
Class Yaml := {
  yaml_from : bytes -> option RawConfig;
  yaml_to : RawConfig -> option string;
  yaml_roundtrip r :
    raw_ok r = true ->
    exists text, yaml_to r = Some text /\ yaml_from (SAVE_HEADER +:+ text) = Some r;
}.

Definition STARTER_HEADER : string :=
  "# keep-at starter config. This is entirely optional - every field here has
# a --flag equivalent (run `keep-at run --help`). Reach for a config file
# once you want more than one storage location, or don't want to repeat
# flags every time.
#
# At minimum, set a real limit (e.g. 500G, 2T) below.
#
# To get credit for the torrents you seed, set an Academic Torrents API key
# (https://academictorrents.com/my.php) via --api-key or <data_dir>/api_key
# (owner-only file) - it's only sent to AT's own trackers and never logged.

".

Definition newline : string := String "010" "".

(** A double quote character. *)
Definition dquote : string := String "034" "".

Section Files.
Context `{Yaml}.
Context (canonicalize : path -> option path) (home : option string).

Definition key_path (c : Config) : path := path_join (data_dir c) API_KEY_FILE.

Definition write_api_key_file (c : Config) : M Fs (result error unit) :=
  let p := key_path c in
  with_context ("writing " +:+ p) (atomic_write_mode p (api_key c +:+ newline) 384).

Definition merge_key_file (c : Config) : M Fs Config :=
  if negb (String.eqb (api_key c) "") then ret c
  else
    let* r := fs_read (key_path c) in
    ret match r with
        | Ok b =>
            if utf8_valid b then
              let k := trim b in if String.eqb k "" then c else set_api_key k c
            else c
        | Err _ => c
        end.

Definition write_starter_config (p : path) : M Fs (result error unit) :=
  let cfg := config_default home in
  atomic_write p
    (STARTER_HEADER +:+
     "port: " +:+ pretty (port cfg) +:+ newline +:+
     "data_dir: " +:+ data_dir cfg +:+ newline +:+
     "storage:" +:+ newline +:+
     "- path: " +:+ default_storage_location home +:+ newline +:+
     "  limit: " +:+ dquote +:+ dquote +:+ newline).

(** [load_inner]: a denied read only has a message of its own. *)
Definition load_inner (p : path) (write_starter : bool) : M Fs (result error Config) :=
  let* r := fs_read p in
  match r with
  | Err NotFound =>
      if negb write_starter then ret (Err ("no config at " +:+ p))
      else
        let? _ := with_context
                    ("no config at " +:+ p +:+ ", and failed to write a starter one")
                    (write_starter_config p) in
        ret (Err ("wrote a starter config to " +:+ p))
  | Err OtherIo => ret (Err ("reading config " +:+ p))
  | Ok data =>
      match yaml_from data with
      | None => ret (Err ("parsing config " +:+ p))
      | Some raw =>
          match de_config home raw with
          | Err _ => ret (Err ("parsing config " +:+ p))
          | Ok cfg =>
              let* cfg := merge_key_file cfg in
              ret (try? _ := validate canonicalize cfg in Ok cfg)
          end
      end
  end.

Definition load (p : path) : M Fs (result error Config) := load_inner p true.
Definition load_readonly (p : path) : M Fs (result error Config) := load_inner p false.

(** [create_dir_all] of the parent, which is a no-op for the empty path. *)
Definition create_parent (p : path) : M Fs (result error unit) :=
  match path_parent p with
  | Some d => if String.eqb d "" then ret (Ok tt)
              else with_context ("creating directory for " +:+ p) (fs_create_dir d)
  | None => ret (Ok tt)
  end.

(** [save]; [None] when formatting a size never returns (the process dies of
    stack overflow there). *)
Definition save (c : Config) (p : path) : M Fs (option (result error unit)) :=
  let* r := (let? _ := create_parent p in
             if negb (String.eqb (api_key c) "") then write_api_key_file c else ret (Ok tt)) in
  match r with
  | Err e => ret (Some (Err e))
  | Ok _ =>
      match ser_config (set_api_key "" c) with
      | None => ret None
      | Some raw =>
          match yaml_to raw with
          | None => ret (Some (Err "marshalling config"))
          | Some text => let* r := atomic_write_mode p (SAVE_HEADER +:+ text) 420 in ret (Some r)
          end
      end
  end.

Definition split_inline_secret (p : path) (c : Config) : M Fs (option (result error unit)) :=
  let* r := fs_mode p in
  match r with
  | Err NotFound => ret (Some (Ok tt))
  | Err OtherIo => ret (Some (Err ("stating " +:+ p)))
  | Ok mode =>
      if String.eqb (api_key c) "" then
        if Z.land mode 63 =? 0 then
          let* r := with_context ("widening " +:+ p) (fs_chmod p 420) in ret (Some r)
        else ret (Some (Ok tt))
      else save c p
  end.
End Files.

(** [ensure_shared_dirs], best effort; the modes of directories are an argument,
    and the result is the mode set, if any. *)
Definition ensure_shared_dirs (mode : option Z) : option Z :=
  match mode with
  | Some m =>
      let mode := Z.land m 511 in
      let fixed := shared_dir_mode m in
      if fixed =? mode then None else Some fixed
  | None => None
  end.

(** ** Validation is what it says *)

(** The conditions a configuration must meet. *)
Record valid (canonicalize : path -> option path) (c : Config) : Prop := {
  valid_some_storage : storage c <> [];
  valid_paths : Forall (fun l => location_path l <> "") (storage c);
  valid_limits : Forall (fun l => limit l = All \/
                   exists b, limit l = Bytes b /\ MIN_STORAGE_LIMIT <= b) (storage c);
  valid_distinct : NoDup ((fun l => default (location_path l) (canonicalize (location_path l))) <$>
                           storage c);
  valid_aggressiveness : flt fzero (aggressiveness c) = true /\ flt (aggressiveness c) fone = true;
  valid_collapse : catalog_collapse_percent c <= 100;
  valid_margin : 0 <= min_seed_margin (scan c);
  valid_windows : broken_piece_min_windows (scan c) <> 0;
  valid_discard : broken_piece_discard_bytes (scan c) <> 0;
  valid_check_interval :
    quarantine_check_interval (scan c) <= 0 \/ secs 60 <= quarantine_check_interval (scan c);
  valid_port : port c <> 0;
  valid_rate : is_nan (rate_limit_per_second (scan c)) = false /\
    fle (rate_limit_per_second (scan c)) fzero = false /\
    flt (rate_limit_per_second (scan c)) MIN_RATE_LIMIT_PER_SECOND = false;
  valid_durations : Forall (fun nd => nd.2 <= MAX_DURATION_KNOB) (duration_knobs c);
  valid_bandwidth : Forall (fun b => b = 0 \/ MIN_BANDWIDTH_LIMIT <= b)
    [max_ram c; upload_rate_limit c; download_rate_limit c];
}.

Lemma rbind_unit {E A} (r : result E unit) (k : result E A) a :
  rbind r (fun _ => k) = Ok a <-> r = Ok tt /\ k = Ok a.
Proof. rewrite rbind_ok. split; [by intros ([] & ? & ?)|]. intros [? ?]. by exists tt. Qed.

Lemma negb_iff (b : bool) (P : Prop) : (b = true <-> P) -> (negb b = true <-> ~ P).
Proof. destruct b; naive_solver. Qed.

Lemma check_duration_knobs_spec l :
  check_duration_knobs l = Ok tt <-> Forall (fun nd => nd.2 <= MAX_DURATION_KNOB) l.
Proof.
  induction l as [|[name d] l IH]; [done|]. cbn -[check_duration_knob].
  rewrite rbind_unit, IH, Forall_cons. unfold check_duration_knob. rewrite ensure_ok.
  rewrite (negb_iff _ (0 < d /\ MAX_DURATION_KNOB < d)).
  - simpl. unfold MAX_DURATION_KNOB, secs, NANOS. split; intros [? ?]; (split; [lia|done]).
  - by rewrite andb_true_iff, !Z.ltb_lt.
Qed.

Lemma check_storage_limit_spec p l :
  negb (no_positive_limit l) = true /\ check_storage_limit p l = Ok tt <->
  l = All \/ exists b, l = Bytes b /\ MIN_STORAGE_LIMIT <= b.
Proof.
  unfold no_positive_limit, check_storage_limit. destruct l as [|b|]; simpl.
  - naive_solver.
  - rewrite ensure_ok, negb_true_iff, Z.eqb_neq, Z.leb_le. split.
    + intros [_ ?]. right. eauto.
    + intros [|(b' & [= <-] & Hb)]; [done|]. split; [|done]. unfold MIN_STORAGE_LIMIT in Hb. lia.
  - naive_solver.
Qed.

Lemma check_bandwidth_spec flag b :
  check_bandwidth_limit flag b = Ok tt <-> b = 0 \/ MIN_BANDWIDTH_LIMIT <= b.
Proof.
  unfold check_bandwidth_limit. destruct (b =? 0) eqn:E; simpl_bool; [naive_solver|].
  rewrite ensure_ok, Z.leb_le. naive_solver.
Qed.

Section Locations.
Context (canonicalize : path -> option path).
Let key (l : StorageLocation) : path := default (location_path l) (canonicalize (location_path l)).

Lemma check_locations_spec seen locs :
  check_locations canonicalize seen locs = Ok tt <->
  Forall (fun l => location_path l <> "") locs /\
  Forall (fun l => limit l = All \/ exists b, limit l = Bytes b /\ MIN_STORAGE_LIMIT <= b) locs /\
  NoDup (key <$> locs) /\ Forall (fun l => key l ∉ seen) locs.
Proof.
  revert seen. induction locs as [|l locs IH]; intros seen; [simpl; rewrite NoDup_nil; naive_solver|].
  cbn [check_locations fmap list_fmap]. rewrite rbind_ok. unfold check_location.
  rewrite !Forall_cons, NoDup_cons.
  rewrite <- (check_storage_limit_spec (location_path l)).
  assert (forall s : gset path, Forall (fun l' => key l' ∉ {[key l]} ∪ s) locs <->
                    key l ∉ key <$> locs /\ Forall (fun l' => key l' ∉ s) locs) as Hkey.
  { intros s. rewrite !Forall_forall. setoid_rewrite list_elem_of_fmap. set_solver. }
  split.
  - intros (s & Hs & Hrest). rewrite !rbind_unit, !ensure_ok in Hs.
    destruct Hs as (Hp & Hpos & Hlim & Hseen & [= <-]). fold (key l) in *.
    apply IH in Hrest as (H1 & H2 & H3 & [H4 H5]%Hkey).
    apply negb_true_iff, String.eqb_neq in Hp. apply bool_decide_eq_true in Hseen. done.
  - intros ((Hp & H1) & ((Hpos & Hlim) & H2) & (H4 & H3) & Hseen & H5). eexists. split.
    + rewrite !rbind_unit, !ensure_ok. split; [by apply negb_true_iff, String.eqb_neq|].
      split; [done|]. split; [done|]. split; [by apply bool_decide_eq_true|reflexivity].
    + apply IH. repeat (split; [done|]). by apply Hkey.
Qed.
End Locations.

Lemma validate_valid canonicalize c :
  validate canonicalize c = Ok tt <-> valid canonicalize c.
Proof.
  unfold validate, check_rate_limit. rewrite !rbind_unit, !ensure_ok, check_locations_spec.
  rewrite check_duration_knobs_spec, !check_bandwidth_spec, !negb_true_iff, bool_decide_eq_false.
  rewrite !andb_true_iff, orb_false_iff, !Z.ltb_ge, !Z.eqb_neq, andb_false_iff, !Z.ltb_ge.
  split.
  - intros (? & (? & ? & ? & _) & ? & ? & ? & ? & ? & ? & ? & ((? & ?) & ?) & ? & ? & ? & ?).
    constructor; try done. rewrite !Forall_cons. split; [done|]. split; [done|]. split; [done|constructor].
  - intros []. rewrite !Forall_cons in valid_bandwidth0.
    destruct valid_bandwidth0 as (? & ? & ? & _).
    repeat split; try done; try tauto. apply Forall_forall. set_solver.
Qed.

(** A configuration passes validation exactly when it has at least one
    storage location, every location has a path and a real limit, no two
    locations are one directory, and every knob is inside its documented range:
    nothing out of range reaches the daemon, and nothing in range is refused. *)
Theorem validate_spec canonicalize c :
  validate canonicalize c = Ok tt <-> valid canonicalize c.
Proof. apply validate_valid. Qed.

(** ** Byte sizes survive the file *)

(** A size that [format_byte_size] writes so that [parse_byte_size] reads it
    back. *)
Definition storable_size (b : Z) : Prop :=
  exists s, format_byte_size b = Some s /\ parse_byte_size s = Ok b.

Definition storable_size_bool (b : Z) : bool :=
  match format_byte_size b with
  | Some s => match parse_byte_size s with Ok b' => b' =? b | Err _ => false end
  | None => false
  end.

Lemma storable_size_bool_spec b : storable_size_bool b = true -> storable_size b.
Proof.
  unfold storable_size_bool, storable_size. destruct (format_byte_size b) as [s|]; [|done].
  destruct (parse_byte_size s) eqn:E; [|done]. intros ->%Z.eqb_eq. by exists s.
Qed.

Definition whole_units : list Z :=
  (fun u => 1024 ^ Z.of_nat u) <$> seq 0 6.

Lemma whole_sizes :
  forallb (fun u => forallb (fun k => storable_size_bool (Z.of_nat k * u)) (seq 0 1024))
    whole_units = true.
Proof. vm_compute. reflexivity. Qed.

(** The sizes an operator writes in whole units survive every rewrite of the
    file: below 1024 of any unit from bytes to PiB, what [format_byte_size]
    writes [parse_byte_size] reads back exactly. *)
Theorem size_roundtrip k u :
  0 <= k < 1024 -> 0 <= u <= 5 -> storable_size (k * 1024 ^ u).
Proof.
  intros Hk Hu. apply storable_size_bool_spec.
  pose proof whole_sizes as H. rewrite forallb_forall in H.
  assert (In (1024 ^ u) whole_units) as Hin.
  { apply list_elem_of_In, list_elem_of_fmap. exists (Z.to_nat u).
    rewrite Z2Nat.id by lia. split; [done|]. apply elem_of_seq. lia. }
  specialize (H _ Hin). rewrite forallb_forall in H.
  replace k with (Z.of_nat (Z.to_nat k)) by lia. apply H.
  apply list_elem_of_In, elem_of_seq. lia.
Qed.

(** Finer sizes do not: 1.55 GiB comes back rounded to a tenth. *)
Example size_rounded :
  format_byte_size 1664299827 = Some "1.5GiB" /\ parse_byte_size "1.5GiB" = Ok 1610612736.
Proof. vm_compute. done. Qed.

Lemma size_roundtrip_witness : storable_size (500 * 1024 ^ 3).
Proof. apply size_roundtrip; lia. Defined.

(** ** The key and the file *)

Section Save.
Context `{Yaml}.
Context (canonicalize : path -> option path) (home : option string).
Context (c : Config) (p : path).
Let kp := key_path c.

(** The two files and their temporary siblings are four files. *)
Definition files_apart : Prop := p <> kp /\ p <> tmp_path kp /\ tmp_path p <> kp.

(** A sane disk on which a write of either file is safe. *)
Definition files_safe (d : Disk) : Prop :=
  disk_wf d /\ unlinked_names d /\ no_alias d (tmp_path p) p /\ no_alias d (tmp_path kp) kp.

Lemma apart_key : files_apart -> apart p kp /\ apart p (tmp_path kp).
Proof.
  intros (H1 & H2 & H3). repeat split; try congruence. by intros ->%tmp_path_inj.
Qed.

Lemma apart_config : files_apart -> apart kp p /\ apart kp (tmp_path p).
Proof.
  intros (H1 & H2 & H3). repeat split; try congruence. by intros ->%tmp_path_inj.
Qed.

(** The key file after a save: the key, owner-only; untouched without a key. *)
Definition key_saved (d0 d : Disk) : Prop :=
  if String.eqb (api_key c) "" then inode_at d kp = inode_at d0 kp
  else exists ino, inode_at d kp = Some ino /\ ino_data ino = api_key c +:+ newline /\
         ino_mode ino = 384.

(** The state between the two writes. *)
Definition halfway (fs0 fs : Fs) (done : bool) : Prop :=
  files_safe (disk fs) /\ inode_at (disk fs) p = inode_at (disk fs0) p /\
  (if done then key_saved (disk fs0) (disk fs)
   else content (disk fs) kp = content (disk fs0) kp).

Lemma create_parent_disk q fs : disk ((create_parent q fs).2) = disk fs.
Proof.
  unfold create_parent. destruct (path_parent q); [|done]. destruct (String.eqb _ _); [done|].
  unfold with_context, fs_create_dir, io, bind, next_fault.
  by destruct (mjoin (head (faults fs))).
Qed.

(** One atomic write to [a], seen from [a] and from another file [b]. *)
Lemma write_pair a b data mode fs :
  apart b a -> apart b (tmp_path a) ->
  disk_wf (disk fs) -> unlinked_names (disk fs) ->
  no_alias (disk fs) (tmp_path a) a -> no_alias (disk fs) (tmp_path b) b ->
  let '(r, fs') := atomic_write_mode a data mode fs in
  (disk_wf (disk fs') /\ unlinked_names (disk fs') /\
   no_alias (disk fs') (tmp_path a) a /\ no_alias (disk fs') (tmp_path b) b) /\
  inode_at (disk fs') b = inode_at (disk fs) b /\
  (if is_ok r
   then exists ino, inode_at (disk fs') a = Some ino /\ ino_data ino = data /\ ino_mode ino = mode
   else content (disk fs') a = content (disk fs) a).
Proof.
  intros Ha Ht Hw Hu Hna Hnb.
  pose proof (atomic_write_crash_safe a data mode fs Hw Hna) as Hc.
  pose proof (atomic_write_frame b (inode_at (disk fs) b) a data mode Ha Ht fs) as Hf.
  destruct (atomic_write_mode a data mode fs) as [r fs']. simpl in Hf.
  destruct Hc as (new & _ & _ & Hr & _ & Hna').
  destruct Hf as (Hw' & Hu' & Hb & Hnb'); [done|]. done.
Qed.

Lemma inode_content d d' q : inode_at d q = inode_at d' q -> content d q = content d' q.
Proof. unfold content. by intros ->. Qed.

Lemma save_key_first fs :
  files_apart -> files_safe (disk fs) ->
  let '(r, fs') := (let? _ := create_parent p in
     if negb (String.eqb (api_key c) "") then write_api_key_file c else ret (Ok tt)) fs in
  halfway fs fs' (is_ok r).
Proof.
  intros Hap Hs. unfold bindR, bind. pose proof (create_parent_disk p fs) as Hd.
  destruct (create_parent p fs) as [[u|e] fs1]; simpl in Hd; [|cbn; unfold halfway; by rewrite Hd].
  destruct (String.eqb (api_key c) "") eqn:Ek; simpl.
  { cbn. unfold halfway, key_saved. rewrite Hd, Ek. done. }
  unfold write_api_key_file, with_context, bind, halfway. fold kp.
  destruct Hs as (Hw & Hu & Hnp & Hnk). destruct (apart_key Hap) as [Ha Ht].
  rewrite <- Hd in *.
  pose proof (write_pair kp p (api_key c +:+ newline) 384 fs1) as H1.
  destruct (atomic_write_mode kp _ 384 fs1) as [r fs2].
  destruct H1 as ((? & ? & ? & ?) & Hp & Hr); try done.
  destruct r; (split; [done|]); (split; [done|]); simpl in Hr |- *; [|done].
  unfold key_saved. by rewrite Ek.
Qed.

Lemma save_cases fs :
  files_apart -> files_safe (disk fs) ->
  let '(r, fs') := save c p fs in
  files_safe (disk fs') /\
  match r with
  | Some (Ok _) => key_saved (disk fs) (disk fs') /\ exists raw text,
      ser_config (set_api_key "" c) = Some raw /\ yaml_to raw = Some text /\
      content (disk fs') p = Some (SAVE_HEADER +:+ text)
  | _ => content (disk fs') p = content (disk fs) p
  end.
Proof.
  intros Hap Hs. unfold save, bind. pose proof (save_key_first fs Hap Hs) as Hh.
  destruct (bindR _ _ fs) as [[u|e] fs1]; destruct Hh as (Hs1 & Hp & Hk);
    [|split; [done|by apply inode_content]]. simpl in Hk.
  destruct (ser_config _) as [raw|] eqn:Eraw; [|split; [done|by apply inode_content]].
  destruct (yaml_to raw) as [text|] eqn:Etext; [|split; [done|by apply inode_content]].
  destruct Hs1 as (Hw & Hu & Hnp & Hnk). destruct (apart_config Hap) as [Ha Ht].
  pose proof (write_pair p kp (SAVE_HEADER +:+ text) 420 fs1 Ha Ht Hw Hu Hnp Hnk) as H1.
  destruct (atomic_write_mode p _ 420 fs1) as [r fs2].
  destruct H1 as ((? & ? & ? & ?) & Hkp & Hr). split; [done|].
  destruct r; simpl in Hr |- *; [|by rewrite Hr; apply inode_content].
  destruct Hr as (ino & Hino & Hdata & _). split.
  - unfold key_saved in *. by rewrite Hkp.
  - exists raw, text. split; [done|]. split; [done|]. unfold content. rewrite Hino. simpl. by rewrite Hdata.
Qed.

Lemma save_succeeds fs raw :
  faultless fs -> ser_config (set_api_key "" c) = Some raw -> raw_ok raw = true ->
  exists fs', save c p fs = (Some (Ok tt), fs') /\ faultless fs'.
Proof.
  intros Hf Hraw Hok. destruct (yaml_roundtrip raw Hok) as (text & Htext & _).
  assert (succeeds faultless (let? _ := create_parent p in
     if negb (String.eqb (api_key c) "") then write_api_key_file c else ret (Ok tt)) faultless) as H1.
  { apply (succeeds_bindR _ faultless).
    - unfold create_parent. destruct (path_parent p); [|by apply hoare_ret].
      destruct (String.eqb _ _); [by apply hoare_ret|].
      apply succeeds_context, succeeds_io; [done|]. by apply hoare_ret.
    - intros []. destruct (negb _); [|by apply hoare_ret].
      apply succeeds_context, atomic_write_succeeds. }
  specialize (H1 fs Hf). unfold save, bind. destruct (bindR _ _ fs) as [[u|e] fs1]; [|by destruct H1].
  rewrite Hraw, Htext. destruct H1 as [_ Hf1].
  pose proof (atomic_write_succeeds p (SAVE_HEADER +:+ text) 420 fs1 Hf1) as [H2 Hf2].
  destruct (atomic_write_mode p _ 420 fs1) as [[[]|e] fs2]; [|done]. by exists fs2.
Qed.
End Save.

(** Saving never loses the API key and never leaves it in the configuration
    file.  Whatever fails on the way (even a size that cannot be formatted), a
    save that does not succeed leaves the configuration file as it was, with
    whatever key it carries inline; one that succeeds has the key in the
    owner-only key file and writes a text that does not depend on the key. *)
Theorem save_keeps_key `{Yaml} c p fs :
  files_apart c p -> files_safe c p (disk fs) ->
  let '(r, fs') := save c p fs in
  match r with
  | Some (Ok _) => key_saved c (disk fs) (disk fs') /\ exists raw text,
      ser_config (set_api_key "" c) = Some raw /\ raw_api_key raw = None /\
      yaml_to raw = Some text /\ content (disk fs') p = Some (SAVE_HEADER +:+ text)
  | _ => content (disk fs') p = content (disk fs) p
  end.
Proof.
  intros Hap Hs. pose proof (save_cases c p fs Hap Hs) as Hc.
  destruct (save c p fs) as [r fs']. destruct Hc as [_ Hc].
  destruct r as [[u|e]|]; [|done|done]. destruct Hc as (Hk & raw & text & Hraw & Htext & Hp).
  split; [done|]. exists raw, text. split; [done|]. split; [|done].
  unfold ser_config in Hraw. do 4 apply bind_Some in Hraw as (? & _ & Hraw). by injection Hraw as <-.
Qed.

(** ** Save, then load *)

(** Every field is one the file can spell exactly. *)
Record storable (c : Config) : Prop := {
  storable_limits : Forall (fun l => match limit l with Bytes b => storable_size b | _ => True end)
    (storage c);
  storable_sizes : Forall (fun b => b = 0 \/ storable_size b)
    [max_ram c; upload_rate_limit c; download_rate_limit c];
  storable_durations : Forall (fun nd => exists n, nd.2 = secs n) (duration_knobs c);
}.

Lemma ser_duration_roundtrip dflt n :
  de_duration_secs dflt (ser_duration_secs_opt dflt (secs n)) = secs n.
Proof.
  unfold ser_duration_secs_opt, unless_default. destruct (decide _) as [->|]; [done|]. simpl.
  unfold secs. by rewrite Z.div_mul.
Qed.

Lemma unless_default_roundtrip {A} `{EqDecision A} (d v : A) : default d (unless_default d v) = v.
Proof. unfold unless_default. by destruct (decide _). Qed.

Lemma ser_bytesize_roundtrip b f :
  b = 0 \/ storable_size b -> ser_bytesize_opt b = Some f -> de_bytesize_opt f = Ok b.
Proof.
  intros Hb. unfold ser_bytesize_opt. destruct (b =? 0) eqn:E; simpl_bool.
  - intros [= <-]. by rewrite E.
  - destruct Hb as [?|(s & Hs & Hp)]; [done|]. rewrite Hs. by intros [= <-].
Qed.

(** A text that parses as a size is no keyword. *)
Lemma parse_limit_size s b : parse_byte_size s = Ok b -> parse_limit s = Ok (Bytes b).
Proof.
  intros Hp. assert (parse_byte_size (trim s) = Ok b) as Ht.
  { unfold parse_byte_size in *. rewrite trim_idem.
    destruct (String.eqb (trim s) ""); [done|]. simpl in *.
    destruct (split_number (trim s)) as [num suffix].
    destruct (parse_decimal num); [|done]. simpl in *.
    destruct (flt _ _); [done|]. simpl in *. destruct (String.eqb num ""); [done|]. simpl in *.
    destruct (suffix_multiplier _); [|done]. simpl in *. by destruct (fle _ _). }
  unfold parse_limit. destruct (_ || _) eqn:E; [|by rewrite Ht].
  exfalso. unfold parse_byte_size in Ht. rewrite trim_idem in Ht.
  destruct (trim s) as [|a t]; [done|].
  assert (is_digit a = false /\ Ascii.eqb a "." = false) as [Hd Hdot].
  { unfold eq_ignore_ascii_case in E.
    apply orb_true_iff in E as [E|E]; apply String.eqb_eq in E; injection E as E _;
      destruct a as [[] [] [] [] [] [] [] []]; try (by split); vm_compute in E; discriminate. }
  simpl in Ht. by rewrite Hd, Hdot in Ht.
Qed.

Lemma ser_storage_roundtrip locs raws :
  Forall (fun l => match limit l with Bytes b => storable_size b | _ => True end) locs ->
  Forall (fun l => limit l <> Unset) locs ->
  mapM ser_location locs = Some raws -> de_storage raws = Ok locs.
Proof.
  intros Hs Hu Hm. apply mapM_Some in Hm.
  induction Hm as [|l r locs raws Hr Hm IH]; [done|].
  rewrite Forall_cons in Hs. rewrite Forall_cons in Hu.
  destruct Hs as [Hs Hss], Hu as [Hu Huu]. simpl.
  unfold ser_location in Hr. destruct (ser_limit (limit l)) as [s|] eqn:El; [|done].
  injection Hr as <-. simpl. assert (parse_limit s = Ok (limit l)) as ->.
  { unfold ser_limit in El. destruct (limit l) as [|b|]; [done| |by injection El as <-].
    destruct Hs as (s' & Hf & Hp). rewrite El in Hf. injection Hf as <-.
    by apply parse_limit_size. }
  simpl. rewrite IH by done. by destruct l.
Qed.

Lemma ser_scan_roundtrip c :
  Forall (fun nd => exists n, nd.2 = secs n) (duration_knobs c) ->
  de_scan (Some (ser_scan (scan c))) = scan c.
Proof.
  intros Hd. unfold duration_knobs in Hd. rewrite !Forall_cons in Hd.
  destruct Hd as ((? & H1) & (? & H2) & (? & H3) & (? & H4) & (? & H5) & (? & H6) & _).
  simpl in *. rewrite H1, H2, H3, H4, H5, H6, !ser_duration_roundtrip, !unless_default_roundtrip.
  rewrite <- H1, <- H2, <- H3, <- H4, <- H5, <- H6. by destruct (scan c).
Qed.

Lemma ser_config_roundtrip home canonicalize c raw :
  valid canonicalize c -> storable c -> ser_config c = Some raw -> de_config home raw = Ok c.
Proof.
  intros Hv [Hl Hs Hd] Hraw. unfold ser_config in Hraw.
  apply bind_Some in Hraw as (locs & Hlocs & Hraw).
  apply bind_Some in Hraw as (ram & Hram & Hraw).
  apply bind_Some in Hraw as (up & Hup & Hraw).
  apply bind_Some in Hraw as (down & Hdown & Hraw). injection Hraw as <-.
  rewrite !Forall_cons in Hs. destruct Hs as (H1 & H2 & H3 & _).
  unfold de_config. simpl.
  assert (Forall (fun l => limit l <> Unset) (storage c)) as Hu.
  { eapply Forall_impl; [exact (valid_limits _ _ Hv)|]. intros l [Hlim|(? & Hlim & _)]; by rewrite Hlim. }
  rewrite (ser_storage_roundtrip (storage c)) by done. simpl. rewrite (ser_bytesize_roundtrip (max_ram c)) by done. simpl.
  rewrite (ser_bytesize_roundtrip (upload_rate_limit c)) by done. simpl.
  rewrite (ser_bytesize_roundtrip (download_rate_limit c)) by done. simpl.
  pose proof (ser_scan_roundtrip c Hd) as Hscan. simpl in Hscan. rewrite Hscan.
  unfold duration_knobs in Hd. rewrite !Forall_cons in Hd.
  destruct Hd as (_ & _ & _ & _ & _ & _ & (? & Hst) & _). simpl in Hst.
  rewrite Hst, ser_duration_roundtrip, <- Hst.
  assert (default "" (if String.eqb (api_key c) "" then None else Some (api_key c)) = api_key c) as ->.
  { destruct (String.eqb (api_key c) "") eqn:E; [|done]. by apply String.eqb_eq in E. }
  by destruct c.
Qed.

(** The key survives its file. *)
Definition storable_key (c : Config) (d : Disk) : Prop :=
  utf8_valid (api_key c +:+ newline) = true /\ trim (api_key c +:+ newline) = api_key c /\
  (api_key c = "" -> inode_at d (key_path c) = None).

Lemma set_api_key_self c k : set_api_key (api_key c) (set_api_key k c) = c.
Proof. by destruct c. Qed.

Lemma merge_key_file_fs c fs : faultless fs -> (merge_key_file c fs).2 = fs.
Proof.
  intros Hf. unfold merge_key_file. destruct (String.eqb (api_key c) ""); [|done].
  unfold bind, fs_read. pose proof (io_nofault (A:=bytes) io_fails (gets (fun fs =>
    match content (disk fs) (key_path c) with Some b => Ok b | None => Err NotFound end)) fs Hf) as Hio.
  cbn [negb]. rewrite Hio. by destruct (content (disk fs) (key_path c)).
Qed.

Lemma merge_saved_key c fs d0 :
  faultless fs -> storable_key c d0 -> key_saved c d0 (disk fs) ->
  (merge_key_file (set_api_key "" c) fs).1 = c.
Proof.
  intros Hf (Hu & Ht & Hn) Hk. unfold merge_key_file, bind, fs_read. simpl.
  change (key_path (set_api_key "" c)) with (key_path c).
  rewrite (io_nofault _ _ fs Hf). simpl. unfold content. unfold key_saved in Hk.
  destruct (String.eqb (api_key c) "") eqn:E.
  - apply String.eqb_eq in E. rewrite Hk, Hn by done. simpl. rewrite <- E. by destruct c.
  - destruct Hk as (ino & -> & Hd & _). simpl. rewrite Hd, Hu, Ht, E. apply set_api_key_self.
Qed.

(** Everything but what can fail: the file of a saved configuration reads as that
    configuration, and reading it changes nothing. *)
Lemma saved_config_loads `{Yaml} canonicalize home c p fs fs' raw w :
  files_apart c p -> files_safe c p (disk fs) -> faultless fs ->
  valid canonicalize c -> storable c -> storable_key c (disk fs) ->
  ser_config (set_api_key "" c) = Some raw -> raw_ok raw = true ->
  save c p fs = (Some (Ok tt), fs') -> faultless fs' ->
  load_inner canonicalize home p w fs' = (Ok c, fs').
Proof.
  intros Hap Hs Hf Hv Hst Hkey Hraw Hok Hsave Hf'.
  pose proof (save_cases c p fs Hap Hs) as Hc. rewrite Hsave in Hc.
  destruct Hc as (_ & Hk & raw' & text & Hraw' & Htext & Hp). rewrite Hraw in Hraw'.
  injection Hraw' as <-. destruct (yaml_roundtrip raw Hok) as (text' & Htext' & Hfrom).
  rewrite Htext in Htext'. injection Htext' as <-.
  unfold load_inner, bind, fs_read. simpl. rewrite (io_nofault _ _ fs' Hf'). simpl.
  rewrite Hp, Hfrom.
  assert (valid canonicalize (set_api_key "" c)) as Hv' by (by destruct Hv; constructor).
  assert (storable (set_api_key "" c)) as Hst' by (by destruct Hst; constructor).
  rewrite (ser_config_roundtrip home canonicalize _ raw Hv' Hst' Hraw).
  pose proof (merge_saved_key c fs' (disk fs) Hf' Hkey Hk) as Hm.
  pose proof (merge_key_file_fs (set_api_key "" c) fs' Hf') as Hm2.
  destruct (merge_key_file (set_api_key "" c) fs') as [c' fs2]. simpl in Hm, Hm2 |- *. subst c' fs2.
  apply validate_valid in Hv. by rewrite Hv.
Qed.

(** C35: a saved configuration is the configuration: when nothing fails, saving a
    valid configuration succeeds, and loading the file gives back every setting,
    the key merged from its own file included, provided the sizes are ones the
    file's notation can spell and the durations whole seconds. *)
Theorem save_load_roundtrip `{Yaml} canonicalize home c p fs raw :
  files_apart c p -> files_safe c p (disk fs) -> faultless fs ->
  valid canonicalize c -> storable c -> storable_key c (disk fs) ->
  ser_config (set_api_key "" c) = Some raw -> raw_ok raw = true ->
  (save c p fs).1 = Some (Ok tt) /\
  (load canonicalize home p (save c p fs).2).1 = Ok c.
Proof.
  intros Hap Hs Hf Hv Hst Hkey Hraw Hok.
  destruct (save_succeeds c p fs raw Hf Hraw Hok) as (fs' & Hsave & Hf').
  rewrite Hsave. split; [done|]. cbn [snd]. unfold load.
  by rewrite (saved_config_loads canonicalize home c p fs fs' raw true).
Qed.

(** An inline key in the file takes precedence over the key file, which is
    read only when the field is empty; whatever happens, no other setting
    changes and a failure is never fatal. *)
Theorem merge_key_file_precedence c fs :
  let c' := (merge_key_file c fs).1 in
  c' = set_api_key (api_key c') c /\
  (api_key c <> "" -> c' = c /\ (merge_key_file c fs).2 = fs) /\
  (faultless fs -> api_key c = "" ->
   api_key c' = match content (disk fs) (key_path c) with
                | Some b => if utf8_valid b then trim b else ""
                | None => ""
                end).
Proof.
  assert (set_api_key (api_key c) c = c) as Hself by (by destruct c).
  cbv zeta. unfold merge_key_file. destruct (String.eqb (api_key c) "") eqn:E.
  - apply String.eqb_eq in E. simpl. unfold bind.
    assert (forall (b : result io_error bytes) fs', (ret (match b with
        | Ok b => if utf8_valid b then if String.eqb (trim b) "" then c else set_api_key (trim b) c else c
        | Err _ => c end) : M Fs Config) fs' = (match b with
        | Ok b => if utf8_valid b then set_api_key (trim b) c else c
        | Err _ => c end, fs')) as Hset.
    { intros [b|e] fs'; [|done]. unfold ret. destruct (utf8_valid b); [|done].
      destruct (String.eqb (trim b) "") eqn:Et; [|done]. apply String.eqb_eq in Et.
      rewrite Et, <- E. by rewrite Hself. }
    split; [|split; [done|]].
    + destruct (fs_read (key_path c) fs) as [b fs']. rewrite Hset. simpl.
      destruct b as [b|]; [destruct (utf8_valid b)|]; by rewrite ?Hself.
    + intros Hf _. unfold fs_read. rewrite (io_nofault _ _ fs Hf). simpl.
      destruct (content (disk fs) (key_path c)) as [b|]; [|done].
      pose proof (Hset (@Ok io_error _ b) fs) as Hb. unfold ret in Hb. injection Hb as Hb.
      simpl. rewrite Hb. by destruct (utf8_valid b).
  - apply String.eqb_neq in E. simpl. split; [done|]. split; [done|]. intros _ ?. done.
Qed.

(** ** Witnesses *)

#[local] Instance f64_eq_dec : EqDecision f64.
Proof. solve_decision. Defined.

#[local] Instance f64_countable : Countable f64.
Proof.
  refine (inj_countable'
    (fun x => match x with
              | S754_zero s => inl (inl s)
              | S754_infinity s => inl (inr s)
              | S754_nan => inr (inl tt)
              | S754_finite s m e => inr (inr (s, m, e))
              end)
    (fun x => match x with
              | inl (inl s) => S754_zero s
              | inl (inr s) => S754_infinity s
              | inr (inl _) => S754_nan
              | inr (inr (s, m, e)) => S754_finite s m e
              end) _).
  by intros [].
Defined.

#[local] Instance field_eq_dec {A} `{EqDecision A} : EqDecision (field A).
Proof. solve_decision. Defined.
#[local] Instance field_countable {A} `{Countable A} : Countable (field A).
Proof.
  refine (inj_countable'
    (fun x => match x with Absent => None | Null => Some None | Value a => Some (Some a) end)
    (fun x => match x with None => Absent | Some None => Null | Some (Some a) => Value a end) _).
  by intros [].
Defined.

#[local] Instance raw_location_eq_dec : EqDecision RawLocation.
Proof. solve_decision. Defined.
#[local] Instance raw_location_countable : Countable RawLocation.
Proof.
  refine (inj_countable' (fun l => (raw_path l, raw_limit l))
    (fun '(p, l) => {| raw_path := p; raw_limit := l |}) _).
  by intros [].
Defined.

#[local] Instance raw_scan_eq_dec : EqDecision RawScan.
Proof. solve_decision. Defined.
#[local] Instance raw_scan_countable : Countable RawScan.
Proof.
  refine (inj_countable'
    (fun s => (raw_interval s, raw_rate s, raw_margin s, (raw_moderation s, raw_stall s,
               raw_vanished s, raw_check s), (raw_discard s, raw_windows s, raw_cooldown s, raw_retries s)))
    (fun '(a, b, c, (d, e, f, g), (h, i, j, k)) =>
       {| raw_interval := a; raw_rate := b; raw_margin := c; raw_moderation := d; raw_stall := e;
          raw_vanished := f; raw_check := g; raw_discard := h; raw_windows := i; raw_cooldown := j;
          raw_retries := k |}) _).
  by intros [].
Defined.

#[local] Instance raw_config_eq_dec : EqDecision RawConfig.
Proof. solve_decision. Defined.
#[local] Instance raw_config_countable : Countable RawConfig.
Proof.
  refine (inj_countable'
    (fun r => ((raw_port r, raw_data_dir r, raw_storage r, raw_scan r),
               (raw_aggressiveness r, raw_blocklist r, raw_preserve r, raw_collapse r),
               (raw_max_ram r, raw_api_key r, raw_upload r, raw_download r),
               (raw_stats r, raw_debug r, raw_log_file r)))
    (fun '((a, b, c, d), (e, f, g, h), (i, j, k, l), (m, n, o)) =>
       {| raw_port := a; raw_data_dir := b; raw_storage := c; raw_scan := d;
          raw_aggressiveness := e; raw_blocklist := f; raw_preserve := g; raw_collapse := h;
          raw_max_ram := i; raw_api_key := j; raw_upload := k; raw_download := l;
          raw_stats := m; raw_debug := n; raw_log_file := o |}) _).
  by intros [].
Defined.

Definition witness_yaml_from (b : bytes) : option RawConfig :=
  decode (of_digits (default b (strip_prefix SAVE_HEADER b))).

Lemma witness_yaml_roundtrip (r : RawConfig) :
  raw_ok r = true ->
  exists text, Some (digits (encode r)) = Some text /\
    witness_yaml_from (SAVE_HEADER +:+ text) = Some r.
Proof.
  intros _. eexists. split; [reflexivity|]. unfold witness_yaml_from.
  rewrite strip_prefix_app. simpl. by rewrite of_digits_digits, decode_encode.
Qed.

Definition witness_yaml : Yaml :=
  {| yaml_from := witness_yaml_from; yaml_to := fun r => Some (digits (encode r));
     yaml_roundtrip := witness_yaml_roundtrip |}.

Definition witness_config : Config :=
  set_api_key "k3y"
    {| port := 37550; data_dir := "/d";
       storage := [{| location_path := "/s"; limit := Bytes (500 * 1024 ^ 3) |};
                   {| location_path := "/t"; limit := All |}];
       scan := scan_default; aggressiveness := DEFAULT_AGGRESSIVENESS;
       keyword_blocklist := ["porn"]; preserve_deleted_torrents := false;
       catalog_collapse_percent := 30; max_ram := 4 * 1024 ^ 3; api_key := "";
       upload_rate_limit := 0; download_rate_limit := 0; stats_interval := DEFAULT_STATS_INTERVAL;
       debug := false; log_file := None |}.

Definition witness_config_fs : Fs := fresh_fs [("/d/config.yaml", "old")] [].

Lemma witness_files : files_apart witness_config "/d/config.yaml" /\
  files_safe witness_config "/d/config.yaml" (disk witness_config_fs).
Proof.
  split; [repeat split; by vm_compute|]. split; [apply fresh_disk_wf|].
  split; [apply fresh_unlinked|]. split; apply fresh_no_alias; discriminate.
Qed.

Lemma save_keeps_key_witness :
  let '(r, fs') := @save witness_yaml witness_config "/d/config.yaml" witness_config_fs in
  match r with
  | Some (Ok _) => key_saved witness_config (disk witness_config_fs) (disk fs') /\
      exists raw text,
      ser_config (set_api_key "" witness_config) = Some raw /\ raw_api_key raw = None /\
      @yaml_to witness_yaml raw = Some text /\
      content (disk fs') "/d/config.yaml" = Some (SAVE_HEADER +:+ text)
  | _ => content (disk fs') "/d/config.yaml" = content (disk witness_config_fs) "/d/config.yaml"
  end.
Proof. apply (@save_keeps_key witness_yaml); apply witness_files. Defined.

Lemma witness_valid : valid (fun _ => None) witness_config.
Proof. apply validate_valid. vm_compute. reflexivity. Qed.

Lemma witness_storable : storable witness_config.
Proof.
  constructor.
  - repeat constructor. apply (size_roundtrip 500 3); lia.
  - rewrite !Forall_cons. split; [right; apply (size_roundtrip 4 3); lia|].
    split; [by left|]. split; [by left|constructor].
  - repeat constructor; eexists; reflexivity.
Qed.

Lemma save_load_roundtrip_witness :
  (@save witness_yaml witness_config "/d/config.yaml" witness_config_fs).1 = Some (Ok tt) /\
  (@load witness_yaml (fun _ => None) None "/d/config.yaml"
     (@save witness_yaml witness_config "/d/config.yaml" witness_config_fs).2).1 =
  Ok witness_config.
Proof.
  apply (@save_load_roundtrip witness_yaml (fun _ => None) None witness_config "/d/config.yaml"
           witness_config_fs (default (Build_RawConfig None None None None None None None None
             Absent None Absent Absent Absent None None)
             (ser_config (set_api_key "" witness_config)))).
  - apply witness_files.
  - apply witness_files.
  - reflexivity.
  - apply witness_valid.
  - apply witness_storable.
  - split; [vm_compute; reflexivity|]. split; [vm_compute; reflexivity|]. discriminate.
  - vm_compute. reflexivity.
  - vm_compute. reflexivity.
Defined.
