(* ===== verification/BuildInfo.v ===== *)
(** What the program calls itself, [buildinfo.rs].  The version is fixed when the
    program is built and is an argument here. *)

From S2P Require Import Prelude Text Fs.

Definition CLIENT_NAME : string := "keep-at".
Definition ROLE_SEEDER : string := "seeder".
Definition ROLE_SCRAPER : string := "scraper".
Definition PEER_ID_PREFIX : bytes := "-KA0100-".

Section BuildInfo.
Context (VERSION : string).

Definition role_client_version (role : string) : string :=
  CLIENT_NAME +:+ "/" +:+ VERSION +:+ " (" +:+ role +:+ ")".

Definition extended_handshake_version : string := role_client_version ROLE_SEEDER.
Definition scraper_extended_handshake_version : string := role_client_version ROLE_SCRAPER.

Definition user_agent : string :=
  CLIENT_NAME +:+ "/" +:+ VERSION +:+ " (+https://github.com/tweedge/keep-at)".
Definition seeder_user_agent : string :=
  CLIENT_NAME +:+ "/" +:+ VERSION +:+ " (" +:+ ROLE_SEEDER +:+ ") (+https://github.com/tweedge/keep-at)".
Definition scraper_user_agent : string :=
  CLIENT_NAME +:+ "/" +:+ VERSION +:+ " (" +:+ ROLE_SCRAPER +:+ ") (+https://github.com/tweedge/keep-at)".
End BuildInfo.

Definition is_keep_at_seeder (client_name : string) : bool :=
  if negb (starts_with CLIENT_NAME client_name) then false
  else negb (contains client_name ("(" +:+ ROLE_SCRAPER +:+ ")")).

(** [make_peer_id]; the random bytes are those of the generator. *)
Definition make_peer_id (random : bytes) : bytes := PEER_ID_PREFIX +:+ str_take 12 random.

(** ** The roles are told apart *)

Lemma contains_app p sub q : contains (p +:+ (sub +:+ q)) sub = true.
Proof.
  induction p as [|a p IH].
  - change ("" +:+ (sub +:+ q)) with (sub +:+ q).
    destruct (sub +:+ q) as [|b s] eqn:E; cbn [contains].
    + by destruct sub.
    + rewrite <- E. apply orb_true_iff. left. apply starts_with_spec. eauto.
  - rewrite string_app_cons. cbn [contains]. by rewrite IH, orb_true_r.
Qed.

(** A pattern is not found in what lacks its first character. *)
Lemma contains_skip c sub p t :
  string_forall (fun a => negb (Ascii.eqb a c)) p = true ->
  contains (p +:+ t) (String c sub) = contains t (String c sub).
Proof.
  induction p as [|a p IH]; [done|]. cbn [string_forall]. intros [Ha Hp]%andb_true_iff.
  rewrite string_app_cons. cbn [contains starts_with].
  apply negb_true_iff in Ha. rewrite IH, Ascii.eqb_sym, Ha by done. done.
Qed.

(** Whatever the version (a parenthesis apart), a seeding node is recognised by
    each name it goes by, and a probing one by none. *)
Theorem roles_told_apart v :
  string_forall (fun a => negb (Ascii.eqb a "(")) v = true ->
  is_keep_at_seeder (extended_handshake_version v) = true /\
  is_keep_at_seeder (seeder_user_agent v) = true /\
  is_keep_at_seeder (scraper_extended_handshake_version v) = false /\
  is_keep_at_seeder (scraper_user_agent v) = false.
Proof.
  intros Hv. unfold is_keep_at_seeder.
  assert (forall t, starts_with CLIENT_NAME (CLIENT_NAME +:+ t) = true) as Hs
    by (intros t; apply starts_with_spec; eauto).
  assert (forall t, contains (CLIENT_NAME +:+ "/" +:+ v +:+ t) ("(" +:+ ROLE_SCRAPER +:+ ")") =
                    contains t ("(" +:+ ROLE_SCRAPER +:+ ")")) as Hc.
  { intros t. change ("(" +:+ ROLE_SCRAPER +:+ ")") with (String "(" "scraper)").
    rewrite !contains_skip by (done || vm_compute; done). done. }
  split_and!; unfold extended_handshake_version, scraper_extended_handshake_version, role_client_version,
    seeder_user_agent, scraper_user_agent; rewrite Hs, Hc; vm_compute; done.
Qed.

Lemma roles_told_apart_witness :
  is_keep_at_seeder (extended_handshake_version "0.8.25") = true /\
  is_keep_at_seeder (seeder_user_agent "0.8.25") = true /\
  is_keep_at_seeder (scraper_extended_handshake_version "0.8.25") = false /\
  is_keep_at_seeder (scraper_user_agent "0.8.25") = false.
Proof. exact (roles_told_apart "0.8.25" eq_refl). Defined.
