(* ===== verification/Service.v ===== *)
(** Installing the daemon as a systemd service, [service.rs]: the pointer to
    the data directory, the unit file, the choice of how to become root, and
    the install and uninstall sequences.  What runs programs ([systemctl],
    [sudo], [pkexec]) is the class [Programs]. *)

From S2P Require Import Prelude Text Float64 Fs Persist Time Config.

Definition UNIT_PATH : path := "/etc/systemd/system/keep-at.service".
Definition CONFIG_DIR : path := "/etc/keep-at".
Definition CONFIG_PATH : path := "/etc/keep-at/config.yaml".
Definition DATA_DIR_POINTER : path := "/etc/keep-at/data_dir".
Definition SYSTEMCTL : string := "/usr/bin/systemctl".

(** ** The pointer file *)

(** The pointer is only written where the configuration directory exists. *)
Definition write_data_dir_pointer (config_dir_exists : bool) (data_dir : path) : M Fs unit :=
  if negb config_dir_exists then ret tt
  else
    let* _ := atomic_write_mode DATA_DIR_POINTER (data_dir +:+ newline) 420 in ret tt.

Definition read_pointer_file_at (p : path) : M Fs (option path) :=
  let* r := fs_read p in
  ret match r with
      | Err _ => None
      | Ok b =>
          if utf8_valid b then
            let t := trim b in if String.eqb t "" then None else Some t
          else None
      end.

Definition read_data_dir_pointer : M Fs (option path) := read_pointer_file_at DATA_DIR_POINTER.

(** ** The unit file *)

Definition backslash : ascii := "092".
Definition quote_char : ascii := "034".

(** [s.replace] of each double quote by an escaped one. *)
Fixpoint escape_quotes (s : string) : string :=
  match s with
  | EmptyString => EmptyString
  | String a s =>
      if Ascii.eqb a quote_char then String backslash (String quote_char (escape_quotes s))
      else String a (escape_quotes s)
  end.

Definition needs_quoting (s : string) : bool :=
  negb (string_forall (fun a => negb (Ascii.eqb a " " || Ascii.eqb a "009" || Ascii.eqb a quote_char)) s).

Definition quote_if_needed (s : string) : string :=
  if needs_quoting s then String quote_char (escape_quotes s) +:+ String quote_char "" else s.

(** [join(" ")]. *)
Fixpoint join (sep : string) (l : list string) : string :=
  match l with
  | [] => ""
  | [x] => x
  | x :: l => x +:+ sep +:+ join sep l
  end.

Definition exec_start_line (exec_path : string) (args : list string) : string :=
  join " " (quote_if_needed exec_path :: (quote_if_needed <$> args)).

(** The template up to [ExecStart=], between it and [User=], and the rest. *)
Definition UNIT_HEAD : string :=
  "[Unit]" +:+ newline +:+
  "Description=keep-at - Academic Torrents smart seeding node" +:+ newline +:+
  "After=network-online.target" +:+ newline +:+
  "Wants=network-online.target" +:+ newline +:+ newline +:+
  "[Service]" +:+ newline +:+
  "Type=simple" +:+ newline +:+
  "ExecStart=".

Definition UNIT_MIDDLE : string :=
  newline +:+ "Restart=on-failure" +:+ newline +:+
  "RestartSec=5" +:+ newline +:+
  "User=".

Definition UNIT_TAIL : string :=
  newline +:+
  "# keep-at stops promptly even mid-scan (cancellation-aware scan loop), but" +:+ newline +:+
  "# this caps how long systemd waits before force-killing it if something ever" +:+ newline +:+
  "# hangs, so 'systemctl stop keep-at' can't block forever on a stuck process." +:+ newline +:+
  "TimeoutStopSec=30" +:+ newline +:+
  "# keep-at holds one fd per file of every held torrent (rqbit opens all files" +:+ newline +:+
  "# at add time and keeps them open), plus one fd per live peer connection " +:+ String "226" (String "128" (String "148" "")) +:+ newline +:+
  "# so a few hundred torrents easily exceed systemd's 1024 default. The daemon" +:+ newline +:+
  "# also raises its own soft limit toward the hard limit at startup (see" +:+ newline +:+
  "# fdlimit), so manual `run` invocations get the same headroom." +:+ newline +:+
  "LimitNOFILE=65536" +:+ newline +:+ newline +:+
  "[Install]" +:+ newline +:+
  "WantedBy=multi-user.target" +:+ newline.

(** [str::replace]: the occurrences from left to right. *)
Fixpoint replace_from (fuel : nat) (pat by_ s : string) : string :=
  match fuel with
  | O => s
  | S fuel =>
      match s with
      | EmptyString => EmptyString
      | String a s' =>
          match strip_prefix pat s with
          | Some rest => by_ +:+ replace_from fuel pat by_ rest
          | None => String a (replace_from fuel pat by_ s')
          end
      end
  end.

Definition replace (pat by_ s : string) : string := replace_from (String.length s) pat by_ s.

Definition UNIT_TEMPLATE : string :=
  UNIT_HEAD +:+ "__EXEC_START__" +:+ UNIT_MIDDLE +:+ "__USER__" +:+ UNIT_TAIL.

Definition unit_file (exec_path user : string) : string :=
  replace "__USER__" user
    (replace "__EXEC_START__" (exec_start_line exec_path ["run"; "--config"; CONFIG_PATH])
       UNIT_TEMPLATE).

(** ** Becoming root *)

(** A program with its arguments. *)
Definition Plan : Type := list (string * list string).

(** [std::env::split_paths] of the search path; none when it is not set. *)
Definition path_dirs (PATH : option string) : list path :=
  match PATH with Some p => split_on ":" p | None => [] end.

(** [elevation_command_on_path]; [is_file] tells whether a path is a file. *)
Definition elevation_command_on_path (exe : string) (args : list string) (dirs : list path)
    (is_file : path -> bool) (tty : bool) : Plan :=
  let has := fun name => existsb (fun dir => is_file (path_join dir name)) dirs in
  (if has "sudo" then
     ("sudo", "-n" :: exe :: args) :: (if tty then [("sudo", exe :: args)] else [])
   else []) ++
  (if has "pkexec" then [("pkexec", exe :: args)] else []).

Definition is_noninteractive (p : string * list string) : bool :=
  String.eqb p.1 "sudo" && match p.2 with a :: _ => String.eqb a "-n" | [] => false end.

(** The filter of [elevation_command_filtered]: [sudo -n] exactly when it works. *)
Definition plan_filtered (noninteractive_ok : bool) (plan : Plan) : Plan :=
  filter (fun p => (Bool.eqb (is_noninteractive p) noninteractive_ok ||
                    negb (String.eqb p.1 "sudo")) = true) plan.

(** What a program that was run to its end leaves: its exit code, [None] when a
    signal ended it, and what it wrote to its standard error. *)
Record Output := { exit_code : option Z; stderr : bytes }.

Definition success (o : Output) : bool :=
  match exit_code o with Some c => c =? 0 | None => false end.

Class Programs (W : Type) := {
  geteuid : M W Z;
  isatty : Z -> M W bool;
  (** [std::env::var_os] *)
  var_os : string -> M W (option string);
  current_exe : M W (result error string);
  (** [std::env::args().skip(1)] *)
  own_args : M W (list string);
  (** which paths are files *)
  files_there : M W (path -> bool);
  (** run a program to its end, with the variables added to its environment;
      an error when it cannot be launched *)
  run_program : list (string * string) -> string -> list string -> M W (result error Output);
  config_dir_exists : M W bool;
}.

(** What becomes of the process: it goes on, or ends with an exit code. *)
Inductive Elevated := GoOn (r : result error unit) | Exits (code : Z).

(** A list of strings as [{:?}] shows it; those shown here need no escapes. *)
Definition debug_list (l : list string) : string :=
  "[" +:+ join ", " ((fun s => String quote_char (s +:+ String quote_char "")) <$> l) +:+ "]".

Section Install.
Context {W : Type} `{Programs W} `{Yaml}.

Definition env_set (name : string) : M W bool := let* v := var_os name in ret (bool_decide (is_Some v)).

Definition is_root : M W bool := let* uid := geteuid in ret (uid =? 0).

Definition stdin_is_tty : M W bool := isatty 0.

Definition helper_works_noninteractive : M W bool :=
  let* r := run_program [] "sudo" ["-n"; "true"] in
  ret match r with Ok out => success out | Err _ => false end.

Definition elevation_command (exe : string) (args : list string) : M W Plan :=
  let* PATH := var_os "PATH" in
  let* tty := stdin_is_tty in
  let* is_file := files_there in
  ret (elevation_command_on_path exe args (path_dirs PATH) is_file tty).

Definition elevation_command_filtered (exe : string) (args : list string)
    (noninteractive_ok : bool) : M W Plan :=
  let* plan := elevation_command exe args in
  ret (plan_filtered noninteractive_ok plan).

(** The plan in order, up to the first program that can be launched: the process
    ends with its exit code.  The child is marked as the elevated half. *)
Fixpoint try_plan (plan : Plan) (action : string) : M W Elevated :=
  match plan with
  | [] => ret (GoOn (Err ("elevation failed for " +:+ action)))
  | (program, argv) :: plan =>
      let* r := run_program [("KEEPAT_ELEVATED", "1")] program argv in
      match r with
      | Err _ => try_plan plan action
      | Ok out => ret (Exits (default 1 (exit_code out)))
      end
  end.

Definition elevate_exec (exe : string) (args : list string) (action : string) : M W Elevated :=
  let* ok := helper_works_noninteractive in
  let* plan := elevation_command_filtered exe args ok in
  match plan with
  | [] => ret (GoOn (Err ("need root to " +:+ action +:+ ", and no elevation helper is available")))
  | plan => try_plan plan action
  end.

Definition elevate (action : string) : M W Elevated :=
  let* root := is_root in
  if (root : bool) then ret (GoOn (Ok tt))
  else
    let* marked := env_set "KEEPAT_ELEVATED" in
    if (marked : bool) then
      ret (GoOn (Err ("tried to elevate for " +:+ action +:+ " but still not root")))
    else
      let* exe := current_exe in
      match exe with
      | Err _ => ret (GoOn (Err "locating keep-at executable"))
      | Ok exe =>
          let* args := own_args in
          elevate_exec exe args action
      end.

Definition run_systemctl (args : list string) : M W (result error unit) :=
  let? out := with_context ("running " +:+ SYSTEMCTL +:+ " " +:+ debug_list args)
                (run_program [] SYSTEMCTL args) in
  ret (if success out then Ok tt
       else Err (SYSTEMCTL +:+ " " +:+ debug_list args +:+ " failed: " +:+ lossy (stderr out))).

Definition require_systemd : M W (result error unit) :=
  let* r := run_program [] SYSTEMCTL ["--version"] in
  let ok := match r with Ok out => success out | Err _ => false end in
  ret (if ok then Ok tt
       else Err ("service: " +:+ SYSTEMCTL +:+
         " not found; systemd service management isn't available on this system")).

Fixpoint run_all (cmds : list (list string)) : M W (result error unit) :=
  match cmds with
  | [] => ret (Ok tt)
  | c :: cmds => let? _ := run_systemctl c in run_all cmds
  end.

(** The outside and the file system; [None]: formatting a size never returns. *)
Abbreviation Host := (W * Fs)%type.

(** [install]; after [elevate] returned. *)
Definition install_as_root (c : Config) (exec_path user : string)
    : M Host (option (result error unit)) :=
  let* systemd := on_fst require_systemd in
  match systemd with
  | Err e => ret (Some (Err e))
  | Ok _ =>
      let* saved := on_snd (save c CONFIG_PATH) in
      match saved with
      | None => ret None
      | Some (Err e) => ret (Some (Err e))
      | Some (Ok _) =>
          let* there := on_fst config_dir_exists in
          on_snd (write_data_dir_pointer there (data_dir c)) ;;;
          let* r := (let? _ := with_context ("creating " +:+ UNIT_PATH)
                                 (on_snd (fs_write UNIT_PATH (unit_file exec_path user))) in
                     on_fst (run_all [["daemon-reload"]; ["enable"; "keep-at"]; ["start"; "keep-at"]])) in
          ret (Some r)
      end
  end.

Definition uninstall_as_root : M Host (result error unit) :=
  let? _ := on_fst require_systemd in
  let* _ := on_fst (run_systemctl ["stop"; "keep-at"]) in
  let* _ := on_fst (run_systemctl ["disable"; "keep-at"]) in
  let* removed := on_snd (fs_remove UNIT_PATH) in
  match removed with
  | Err OtherIo => ret (Err ("removing " +:+ UNIT_PATH))
  | _ => on_fst (run_systemctl ["daemon-reload"])
  end.

Record InstallOpts := { exec_path : string; opts_config : Config; opts_user : string }.

(** [install] and [uninstall]; [None]: formatting a size never returns. *)
Definition install (o : InstallOpts) : M Host (option Elevated) :=
  let* e := on_fst (elevate "install the systemd service") in
  match e with
  | GoOn (Ok _) =>
      let* r := install_as_root (opts_config o) (exec_path o) (opts_user o) in
      ret (GoOn <$> r)
  | stopped => ret (Some stopped)
  end.

Definition uninstall : M Host Elevated :=
  let* e := on_fst (elevate "remove the systemd service") in
  match e with
  | GoOn (Ok _) => let* r := uninstall_as_root in ret (GoOn r)
  | stopped => ret stopped
  end.
End Install.

Example exec_start_plain :
  exec_start_line "/usr/bin/keep-at" ["run"; "--config"; CONFIG_PATH] =
    "/usr/bin/keep-at run --config /etc/keep-at/config.yaml".
Proof. vm_compute. reflexivity. Qed.

Example unit_file_filled :
  unit_file "/usr/bin/keep-at" "root" =
    UNIT_HEAD +:+ "/usr/bin/keep-at run --config /etc/keep-at/config.yaml" +:+ UNIT_MIDDLE +:+
    "root" +:+ UNIT_TAIL.
Proof. vm_compute. reflexivity. Qed.

Example debug_list_shown :
  debug_list ["enable"; "keep-at"] =
    "[" +:+ String quote_char ("enable" +:+ String quote_char (", " +:+
     String quote_char ("keep-at" +:+ String quote_char "]"))).
Proof. reflexivity. Qed.

(** Only the program's own image is run elevated, with exactly its arguments;
    when [sudo] needs no password it is the only use of [sudo], and a prompt is
    only shown where there is a terminal and it does. *)
Lemma elevation_plan_safe exe args dirs is_file tty ok p :
  exe <> "-n" -> p ∈ plan_filtered ok (elevation_command_on_path exe args dirs is_file tty) ->
  (exists dir, dir ∈ dirs /\ is_file (path_join dir p.1) = true) /\
  ((p = ("sudo", "-n" :: exe :: args) /\ ok = true) \/
   (p = ("sudo", exe :: args) /\ ok = false /\ tty = true) \/
   p = ("pkexec", exe :: args)).
Proof.
  intros Hexe. unfold plan_filtered, elevation_command_on_path.
  assert (forall name, existsb (fun dir => is_file (path_join dir name)) dirs = true ->
    exists dir, dir ∈ dirs /\ is_file (path_join dir name) = true) as Hhas.
  { intros name (dir & Hin & Hf)%existsb_exists. exists dir. by rewrite list_elem_of_In. }
  rewrite list_elem_of_filter, elem_of_app. intros [Hk Hp].
  assert (String.eqb exe "-n" = false) as Hne by by apply String.eqb_neq.
  destruct Hp as [Hp|Hp].
  - destruct (existsb _ _) eqn:Es; [|by apply elem_of_nil in Hp]. apply Hhas in Es.
    apply elem_of_cons in Hp as [->|Hp].
    + simpl in Hk. destruct ok; [|done]. split; [done|]. by left.
    + destruct tty; [|by apply elem_of_nil in Hp]. apply list_elem_of_singleton in Hp as ->.
      unfold is_noninteractive in Hk. cbn in Hk. rewrite Hne in Hk. destruct ok; [done|].
      split; [done|]. right. by left.
  - destruct (existsb _ _) eqn:Ep; [|by apply elem_of_nil in Hp]. apply Hhas in Ep.
    apply list_elem_of_singleton in Hp as ->. split; [done|]. right. by right.
Qed.

(** Elevation stops at the child: a process that carries the mark and is not
    root runs no program, it only reads its user id and its environment. *)
Lemma marked_never_elevates {W} `{Programs W} action (w : W) uid w1 v w2 :
  geteuid w = (uid, w1) -> uid <> 0 -> var_os "KEEPAT_ELEVATED" w1 = (Some v, w2) ->
  elevate action w =
    (GoOn (Err ("tried to elevate for " +:+ action +:+ " but still not root")), w2).
Proof.
  intros Hu Hne Hv. unfold elevate, is_root, env_set, bind. rewrite Hu. simpl.
  destruct (Z.eqb_spec uid 0); [done|]. by rewrite Hv.
Qed.
