(* ===== verification/FdLimit.v ===== *)
(** Descriptor limits, [fdlimit.rs]: the headroom of the process and the
    admission check of an add.  The answers of [getrlimit], [setrlimit] and
    [/proc/self/fd] are arguments. *)

From S2P Require Import Prelude.

Definition TARGET_SOFT_LIMIT : Z := 65536.
Definition SOCKET_RESERVE : Z := 512.

Record RLimit := { rlim_cur : Z; rlim_max : Z }.

(** [current_limits]: [getrlimit]'s return code, and what it wrote. *)
Definition current_limits (rc : Z) (lim : RLimit) : option (Z * Z) :=
  if negb (rc =? 0) then None else Some (rlim_cur lim, rlim_max lim).

(** [open_count], from the listing of [/proc/self/fd]. *)
Definition open_count (fds : option (list string)) : option Z :=
  match fds with
  | None => None
  | Some fds =>
      let n := Z.of_nat (length fds) in
      if n <=? U64_MAX then Some n else None
  end.

(** [fd_headroom], from the limits [(soft, hard)] and the open count. *)
Definition fd_headroom (limits : option (Z * Z)) (open_count : option Z) : option Z :=
  match limits, open_count with
  | Some (soft, _), Some open => Some (sat_sub soft open)
  | _, _ => None
  end.

(** The soft limit [raise_soft_limit] asks for, when it asks. *)
Definition raise_soft_limit (limits : option (Z * Z)) : option Z :=
  match limits with
  | Some (soft, hard) =>
      let target := Z.min TARGET_SOFT_LIMIT hard in
      if target <=? soft then None else Some target
  | None => None
  end.

(** The limits after it: [setrlimit]'s return code tells whether it took effect. *)
Definition limits_after_raise (get_rc set_rc : Z) (lim : RLimit) : RLimit :=
  match raise_soft_limit (current_limits get_rc lim) with
  | Some target => if set_rc =? 0 then {| rlim_cur := target; rlim_max := rlim_max lim |} else lim
  | None => lim
  end.

Definition fits_in_headroom (need_files : Z) (headroom : option Z) : bool :=
  match headroom with
  | None => true
  | Some h => sat_add64 need_files SOCKET_RESERVE <=? h
  end.

(** Raising never costs a descriptor: the soft limit does not fall, the hard
    limit stays, and what was within it stays within it. *)
Lemma raise_never_lowers get_rc set_rc lim :
  let lim' := limits_after_raise get_rc set_rc lim in
  rlim_max lim' = rlim_max lim /\ rlim_cur lim <= rlim_cur lim' /\
  (rlim_cur lim <= rlim_max lim -> rlim_cur lim' <= rlim_max lim') /\
  (get_rc = 0 -> set_rc = 0 -> Z.min TARGET_SOFT_LIMIT (rlim_max lim) <= rlim_cur lim').
Proof.
  unfold limits_after_raise, raise_soft_limit, current_limits. cbv zeta.
  destruct (Z.eqb_spec get_rc 0); simpl; [|lia].
  destruct (Z.leb_spec (Z.min TARGET_SOFT_LIMIT (rlim_max lim)) (rlim_cur lim)); [lia|].
  destruct (Z.eqb_spec set_rc 0); simpl; lia.
Qed.

(** An add the check admits leaves the socket reserve: with the limits and
    the open count known, opening all its files keeps at least
    [SOCKET_RESERVE] descriptors below the soft limit. *)
Theorem fits_in_headroom_reserve need soft hard open :
  0 <= need -> in_u64 soft -> 0 <= open ->
  fits_in_headroom need (fd_headroom (Some (soft, hard)) (Some open)) = true ->
  open + need + SOCKET_RESERVE <= soft \/ soft = U64_MAX.
Proof.
  unfold fits_in_headroom, fd_headroom, SOCKET_RESERVE. intros Hn Hs Ho H%Z.leb_le. ulia.
Qed.

Lemma fits_in_headroom_reserve_witness :
  100 + 50 + SOCKET_RESERVE <= 1024 \/ 1024 = U64_MAX.
Proof.
  apply (fits_in_headroom_reserve 50 1024 4096 100); [lia|by vm_compute|lia|vm_compute; reflexivity].
Defined.
