(* ===== verification/Bandwidth.v ===== *)
(** The rolling bandwidth log, [bandwidth.rs]: each tick appends one entry that
    covers the elapsed span, so that rates are exact under any cadence.
    Instants and spans are nanoseconds. *)

From S2P Require Import Prelude Float64 Time.

Definition DAY : duration := secs 86400.
Definition MAX_ENTRIES : nat := 1500.

Record Entry := {
  start : instant;
  span : duration;
  up : Z;
  down : Z;
}.

Definition entry_end (e : Entry) : instant := start e + span e.

Record RateTracker := {
  entries : list Entry;
  last_up : Z;
  last_down : Z;
  last_tick : instant;
  started : instant;
}.

Definition new (started : instant) (up_total down_total : Z) : RateTracker :=
  {| entries := []; last_up := up_total; last_down := down_total; last_tick := started;
     started := started |}.

(** [saturating_duration_since]. *)
Definition sat_since (t u : instant) : duration := Z.max (t - u) 0.

(** The two pruning loops: pop the front while it is older than a day, then
    while the log is too long. *)
Fixpoint prune_old (now : instant) (l : list Entry) : list Entry :=
  match l with
  | [] => []
  | e :: rest => if DAY <? sat_since now (entry_end e) then prune_old now rest else l
  end.

Fixpoint prune_excess (l : list Entry) : list Entry :=
  match l with
  | [] => []
  | _ :: rest => if (MAX_ENTRIES <? length l)%nat then prune_excess rest else l
  end.

Definition tick (now : instant) (up_total down_total : Z) (t : RateTracker) : RateTracker :=
  let span := sat_since now (last_tick t) in
  let up := sat_sub up_total (last_up t) in
  let down := sat_sub down_total (last_down t) in
  let start := last_tick t in
  let with_entries l :=
    {| entries := l; last_up := up_total; last_down := down_total; last_tick := now;
       started := started t |} in
  if span =? 0 then with_entries (entries t)
  else
    let pushed :=
      if (0 <? up) || (0 <? down) || (length (entries t) =? 0)%nat
      then entries t ++ [{| start := start; span := span; up := up; down := down |}]
      else entries t in
    with_entries (prune_excess (prune_old now pushed)).

(** [as_secs_f64]. *)
Definition as_secs_f64 (d : duration) : f64 :=
  fadd (f64_of_Z (d / NANOS)) (fdiv (f64_of_Z (d mod NANOS)) (f64_of_Z NANOS)).

(** What one entry contributes to the window [[win_start, now)]. *)
Definition contribution (win_start now : instant) (acc : Z * Z) (e : Entry) : Z * Z :=
  let lo := if win_start <? start e then start e else win_start in
  let hi := if entry_end e <? now then entry_end e else now in
  if lo <? hi then
    let frac := fdiv (as_secs_f64 (sat_since hi lo))
                     (fmax (as_secs_f64 (span e)) (f64_lit 1 1000000000)) in
    (sat_add64 acc.1 (f64_to_u64 (fmul (f64_of_Z (up e)) (fmin frac fone))),
     sat_add64 acc.2 (f64_to_u64 (fmul (f64_of_Z (down e)) (fmin frac fone))))
  else acc.

Definition rate (now : instant) (window : duration) (t : RateTracker) : f64 * f64 :=
  let effective := Z.min window (sat_since now (started t)) in
  if effective =? 0 then (fzero, fzero)
  else
    let win_start := now - effective in
    let '(up, down) := foldl (contribution win_start now) (0, 0) (entries t) in
    let secs := as_secs_f64 effective in
    (fdiv (f64_of_Z up) secs, fdiv (f64_of_Z down) secs).

Definition rate_up (now : instant) (window : duration) (t : RateTracker) : f64 :=
  (rate now window t).1.
Definition rate_down (now : instant) (window : duration) (t : RateTracker) : f64 :=
  (rate now window t).2.

(** ** The log under ticks *)

(** Spans are disjoint and in order, within the session and never in the
    future; the log is bounded. *)
Record log_wf (t : RateTracker) : Prop := {
  log_order : StronglySorted (fun a b => entry_end a <= start b) (entries t);
  log_span : Forall (fun e => 0 < span e /\ started t <= start e /\ entry_end e <= last_tick t /\
                              0 <= up e /\ 0 <= down e) (entries t);
  log_len : (length (entries t) <= MAX_ENTRIES)%nat;
  log_started : started t <= last_tick t;
}.

Lemma prune_old_suffix now l : exists old, l = old ++ prune_old now l.
Proof.
  induction l as [|e l [old IH]]; [by exists []|]. simpl.
  destruct (DAY <? _); [exists (e :: old); simpl; by f_equal|by exists []].
Qed.

Lemma prune_excess_suffix l : exists old, l = old ++ prune_excess l.
Proof.
  induction l as [|e l [old IH]]; [by exists []|]. cbn [prune_excess].
  destruct (MAX_ENTRIES <? _)%nat; [exists (e :: old); simpl; by f_equal|by exists []].
Qed.

Lemma prune_excess_length l : (length (prune_excess l) <= MAX_ENTRIES)%nat.
Proof.
  induction l as [|e l IH]; [unfold MAX_ENTRIES; simpl; lia|]. cbn [prune_excess].
  destruct (Nat.ltb_spec MAX_ENTRIES (length (e :: l))); [exact IH|done].
Qed.

Lemma prune_excess_short l : (length l <= MAX_ENTRIES)%nat -> prune_excess l = l.
Proof.
  destruct l as [|e l]; [done|]. intros Hl. cbn [prune_excess].
  by rewrite (proj2 (Nat.ltb_ge _ _) Hl).
Qed.

(** After pruning an ordered log every entry is within the day. *)
Lemma prune_old_recent now l :
  StronglySorted (fun a b => entry_end a <= start b) l -> Forall (fun e => 0 < span e) l ->
  Forall (fun e => now - entry_end e <= DAY) (prune_old now l).
Proof.
  induction l as [|e l IH]; intros Hs Hp; [constructor|]. simpl.
  apply StronglySorted_inv in Hs as [Hs He]. rewrite Forall_cons in Hp. destruct Hp as [Hpe Hp].
  destruct (Z.ltb_spec DAY (sat_since now (entry_end e))) as [Hold|Hnew]; [by apply IH|].
  unfold sat_since in Hnew. constructor; [lia|].
  apply Forall_forall. intros x Hx. rewrite Forall_forall in He, Hp.
  specialize (He x Hx). specialize (Hp x Hx). unfold entry_end in *. lia.
Qed.

Lemma suffix_wf (l old l' : list Entry) (R : relation Entry) (P : Entry -> Prop) :
  l = old ++ l' -> StronglySorted R l -> Forall P l -> StronglySorted R l' /\ Forall P l'.
Proof.
  intros -> Hs Hp. apply Forall_app in Hp as [_ Hp].
  apply StronglySorted_app in Hs as (_ & _ & Hs). done.
Qed.

(** Pruning by age keeps a log of the past day. *)
Lemma prune_old_keeps now l :
  Forall (fun e => now - entry_end e <= DAY) l -> prune_old now l = l.
Proof.
  destruct l as [|x l]; [done|]. rewrite Forall_cons. intros [Hx _]. cbn [prune_old].
  destruct (Z.ltb_spec DAY (sat_since now (entry_end x))) as [Hold|]; [|done].
  unfold sat_since in Hold. unfold DAY, secs, NANOS in *. lia.
Qed.

(** An entry of a session: after its start, and over by [now]. *)
Definition entry_within (started now : Z) (e : Entry) : Prop :=
  0 < span e /\ started <= start e /\ entry_end e <= now /\ 0 <= up e /\ 0 <= down e.

(** A tick's entry goes at the end of a well-formed log. *)
Lemma pushed_wf now t e (b : bool) :
  log_wf t -> last_tick t < now -> start e = last_tick t -> span e = now - last_tick t ->
  0 <= up e -> 0 <= down e ->
  let pushed := if b then entries t ++ [e] else entries t in
  StronglySorted (fun a b => entry_end a <= start b) pushed /\
  Forall (entry_within (started t) now) pushed.
Proof.
  intros [Ho Hs Hl Hst] Hnow He Hspan Hup Hdown. cbv zeta.
  assert (Forall (entry_within (started t) now) (entries t)) as Hs'.
  { eapply Forall_impl; [exact Hs|]. unfold entry_within. lia. }
  destruct b; [|done]. split.
  - apply StronglySorted_app. split; [|split; [done|repeat constructor]].
    intros a a0 Ha ->%list_elem_of_singleton. rewrite Forall_forall in Hs.
    destruct (Hs a Ha). lia.
  - apply Forall_app. split; [done|]. rewrite Forall_singleton.
    unfold entry_within, entry_end. lia.
Qed.

(** The bytes a log accounts for. *)
Definition logged_up (t : RateTracker) : Z := sumZ up (entries t).

(** Under any sequence of ticks with a monotonic clock the log stays ordered,
    disjoint, bounded by [MAX_ENTRIES] and within the session; a tick of
    positive length leaves only entries of the past day, and it accounts for
    exactly the bytes since the previous tick when nothing is pruned. *)
Theorem tick_wf now up_total down_total t :
  log_wf t -> last_tick t <= now ->
  let t' := tick now up_total down_total t in
  log_wf t' /\ last_tick t' = now /\
  (last_tick t < now -> Forall (fun e => now - entry_end e <= DAY) (entries t')) /\
  (Forall (fun e => now - entry_end e <= DAY) (entries t) ->
   (length (entries t) < MAX_ENTRIES)%nat -> last_tick t < now ->
   logged_up t' = logged_up t + sat_sub up_total (last_up t)).
Proof.
  intros Hwf Hnow. pose proof Hwf as [Ho Hs Hl Hst]. cbv zeta. unfold tick, sat_since.
  replace (Z.max (now - last_tick t) 0) with (now - last_tick t) by lia.
  destruct (Z.eqb_spec (now - last_tick t) 0) as [Hz|Hz].
  { split; [|split; [done|split; [lia|lia]]]. split; simpl; [done| |done|lia].
    eapply Forall_impl; [exact Hs|]. simpl. lia. }
  set (du := sat_sub up_total (last_up t)). set (dd := sat_sub down_total (last_down t)).
  assert (0 <= du /\ 0 <= dd) as [Hup Hdown] by (split; apply sat_sub_nonneg).
  set (e := {| start := last_tick t; span := now - last_tick t; up := du; down := dd |}).
  set (b := (0 <? du) || (0 <? dd) || _).
  set (pushed := if b then entries t ++ [e] else entries t).
  assert (StronglySorted (fun a b => entry_end a <= start b) pushed /\
          Forall (entry_within (started t) now) pushed) as [Hop Hsp].
  { apply (pushed_wf now t e b Hwf); simpl; lia. }
  destruct (prune_old_suffix now pushed) as [old Hold].
  destruct (suffix_wf _ _ _ _ _ Hold Hop Hsp) as [Ho1 Hs1].
  destruct (prune_excess_suffix (prune_old now pushed)) as [old' Hold'].
  destruct (suffix_wf _ _ _ _ _ Hold' Ho1 Hs1) as [Ho2 Hs2].
  split; [|split; [done|split]].
  - split; simpl; [done|done|apply prune_excess_length|lia].
  - intros _. simpl.
    assert (Forall (fun e => now - entry_end e <= DAY) (prune_old now pushed)) as Hr.
    { apply prune_old_recent; [done|]. by eapply Forall_impl; [exact Hsp|intros x []]. }
    rewrite Hold' in Hr. by apply Forall_app in Hr as [_ ?].
  - intros Hrecent Hlen _.
    assert (prune_old now pushed = pushed) as Hkeep.
    { apply prune_old_keeps. unfold pushed. destruct b; [|done]. apply Forall_app. split; [done|].
      rewrite Forall_singleton. unfold entry_end, DAY, secs, NANOS. simpl. lia. }
    unfold logged_up. simpl. rewrite Hkeep, prune_excess_short.
    + unfold pushed. destruct b eqn:Eb; [rewrite sumZ_app; simpl; lia|].
      unfold b in Eb. simpl_bool. lia.
    + unfold pushed. destruct b; [rewrite length_app; simpl; lia|lia].
Qed.

Lemma new_wf s u d : log_wf (new s u d).
Proof. split; simpl; [constructor|constructor|unfold MAX_ENTRIES; lia|lia]. Qed.

Lemma tick_wf_witness :
  let t := tick (secs 60) 500 20 (new 0 100 20) in
  let t' := tick (secs 120) 900 20 t in
  log_wf t' /\ last_tick t' = secs 120 /\
  (last_tick t < secs 120 -> Forall (fun e => secs 120 - entry_end e <= DAY) (entries t')) /\
  (Forall (fun e => secs 120 - entry_end e <= DAY) (entries t) ->
   (length (entries t) < MAX_ENTRIES)%nat -> last_tick t < secs 120 ->
   logged_up t' = logged_up t + sat_sub 900 (last_up t)).
Proof.
  apply (tick_wf (secs 120) 900 20 (tick (secs 60) 500 20 (new 0 100 20))).
  - split.
    + vm_compute. repeat constructor.
    + repeat constructor; vm_compute; congruence.
    + apply Nat.leb_le. vm_compute. reflexivity.
    + vm_compute. congruence.
  - vm_compute. congruence.
Defined.
