(* ===== verification/Catalog.v ===== *)
(** The tracker operator's catalog, [atcatalog.rs]: what is kept of
    database.xml, and the cached fetch.  The XML decoder is an argument. *)

From S2P Require Import Prelude Text Humanize Fs Persist Net Time.

Record Item := {
  item_title : string;
  item_category : string;
  item_info_hash : string;
  item_guid : string;
  item_link : string;
  item_description : string;
  item_size_bytes : Z;
}.

Record Catalog := {
  items : list Item;
  fetched_at : instant;
}.

Record RssItem := {
  rss_title : string;
  rss_category : string;
  rss_infohash : string;
  rss_guid : string;
  rss_link : string;
  rss_description : string;
  rss_size : Z;
}.

Section Catalog.
Context `{HexCrate}.
Variable from_reader : bytes -> option (list RssItem).

Definition info_hash_hex (i : Item) : string := hex_encode (item_info_hash i).

(** One entry; [None] for a malformed hash. *)
Definition parse_item (raw : RssItem) : option Item :=
  match hex_decode (trim (rss_infohash raw)) with
  | Some b =>
      if (String.length b =? 20)%nat then
        Some {| item_title := sanitize_title (rss_title raw);
                item_category := rss_category raw;
                item_info_hash := b;
                item_guid := rss_guid raw;
                item_link := rss_link raw;
                item_description := rss_description raw;
                item_size_bytes := rss_size raw |}
      else None
  | None => None
  end.

Definition parse (now : instant) (data : bytes) : result error Catalog :=
  match from_reader data with
  | Some raws => Ok {| items := omap parse_item raws; fetched_at := now |}
  | None => Err "decoding database.xml"
  end.

Definition fetch_raw {N} `{Http N} (url : string) : M N (result error bytes) :=
  let? resp := with_cause ("fetching " +:+ url) (http_get url) in
  ret (reply_bytes ("fetching " +:+ url) "reading database.xml" resp).

(** The catalog in the cache file, when it reads and parses. *)
Definition read_cache (now : instant) (cache_path : path) : M Fs (option Catalog) :=
  let* r := fs_read cache_path in
  ret match r with
      | Ok data => result_ok (parse now data)
      | Err _ => None
      end.

(** The [match fetch_raw(..)] of [Fetcher::load]. *)
Definition refetch {N} `{Http N} (now : instant) (cache_path : path) (url : string)
    : M (N * Fs) (result error (Catalog * bool)) :=
  let* fetched := on_fst (fetch_raw url) in
  match fetched with
  | Ok data =>
      let? cat := ret (parse now data) in
      let* _ := on_snd (atomic_write cache_path data) in
      ret (Ok (cat, true))
  | Err e =>
      let* old := on_snd (read_cache now cache_path) in
      match old with
      | Some cat => ret (Ok (cat, false))
      | None => ret (Err e)
      end
  end.

(** A cache without a readable age is stale. *)
Definition is_stale (cache_age : option duration) (max_age : duration) : bool :=
  match cache_age with Some a => max_age <? a | None => true end.

(** [Fetcher::load]; [cache_age] is the age of the cache file, when it has one. *)
Definition load {N} `{Http N} (now : instant) (cache_path : path) (url : string)
    (cache_age : option duration) (max_age : duration)
    : M (N * Fs) (result error (Catalog * bool)) :=
  let* cached := if is_stale cache_age max_age then ret None else on_snd (read_cache now cache_path) in
  match cached with
  | Some cat => ret (Ok (cat, false))
  | None => refetch now cache_path url
  end.

(** Every item of a catalog has a 20-byte hash and a clean title. *)
Lemma parse_items now data cat i :
  parse now data = Ok cat -> i ∈ items cat ->
  String.length (item_info_hash i) = 20%nat /\
  exists raw, item_title i = sanitize_title (rss_title raw).
Proof.
  unfold parse. destruct (from_reader data) as [raws|]; [|done]. intros [= <-]. simpl.
  intros (raw & _ & Hp)%list_elem_of_omap. unfold parse_item in Hp.
  destruct (hex_decode _) as [b|]; [|done].
  destruct (Nat.eqb_spec (String.length b) 20); [|done]. injection Hp as <-. simpl. eauto.
Qed.

(** The catalog load touches the network exactly when the cache is stale,
    missing or unusable; a failed fetch falls back to a cache that parses,
    whatever its age, and reports the fetch error only without one; a fetched
    document replaces the cache only after it parsed. *)
Theorem load_spec {N} `{Http N} now cache_path url cache_age max_age n fs :
  faults fs = [] ->
  let cached := content (disk fs) cache_path ≫= fun b => result_ok (parse now b) in
  let '(r, (n', fs')) := load now cache_path url cache_age max_age (n, fs) in
  match is_stale cache_age max_age, cached with
  | false, Some cat => r = Ok (cat, false) /\ n' = n /\ disk fs' = disk fs
  | _, _ =>
      n' = (fetch_raw url n).2 /\
      match (fetch_raw url n).1 with
      | Ok data =>
          match parse now data with
          | Ok cat => r = Ok (cat, true)
          | Err e => r = Err e /\ disk fs' = disk fs
          end
      | Err e => disk fs' = disk fs /\
          r = match cached with Some cat => Ok (cat, false) | None => Err e end
      end
  end.
Proof.
  intros Hf.
  assert (forall fs, faults fs = [] ->
    exists fs', read_cache now cache_path fs =
      (content (disk fs) cache_path ≫= fun b => result_ok (parse now b), fs') /\
      disk fs' = disk fs /\ faults fs' = []) as Hread.
  { clear fs Hf. intros fs Hf. unfold read_cache, fs_read, io, bind, next_fault. rewrite Hf. simpl.
    exists {| disk := disk fs; faults := []; umask_mode := umask_mode fs; trace := trace fs |}.
    split; [|done]. by destruct (content (disk fs) cache_path). }
  unfold load. cbv zeta.
  destruct (Hread fs Hf) as (fs1 & Hr1 & Hd1 & Hf1).
  set (cached := content (disk fs) cache_path ≫= _) in *.
  assert (forall fs0, disk fs0 = disk fs -> faults fs0 = [] ->
    let '(r, (n', fs')) := refetch now cache_path url (n, fs0) in
    n' = (fetch_raw url n).2 /\
    match (fetch_raw url n).1 with
    | Ok data =>
        match parse now data with
        | Ok cat => r = Ok (cat, true)
        | Err e => r = Err e /\ disk fs' = disk fs
        end
    | Err e => disk fs' = disk fs /\
        r = match cached with Some cat => Ok (cat, false) | None => Err e end
    end) as Hfetch.
  { intros fs0 Hd0 Hf0. unfold refetch, bind at 1, on_fst. destruct (fetch_raw url n) as [[data|e] n1].
    - unfold bindR, bind, ret. simpl. destruct (parse now data) as [cat|e]; [|by rewrite Hd0].
      unfold on_snd. by destruct (atomic_write cache_path data fs0).
    - unfold bind, on_snd. destruct (Hread fs0 Hf0) as (fs2 & -> & Hd2 & _).
      rewrite Hd0. fold cached. rewrite Hd0 in Hd2. by destruct cached. }
  clearbody cached. destruct (is_stale cache_age max_age).
  - specialize (Hfetch fs eq_refl Hf). unfold bind, ret.
    destruct (refetch now cache_path url (n, fs)) as [r [n' fs']]. by destruct cached.
  - unfold bind, on_snd. rewrite Hr1. destruct cached as [cat|]; [done|].
    specialize (Hfetch fs1 Hd1 Hf1).
    by destruct (refetch now cache_path url (n, fs1)) as [r [n' fs']].
Qed.
End Catalog.

Definition witness_document : bytes := "<rss>".
Definition witness_reader (b : bytes) : option (list RssItem) :=
  if String.eqb b witness_document then Some [] else None.

Lemma load_spec_witness :
  let fs := fresh_fs [("/d/database.xml", witness_document)] [] in
  let n := [Err "down"] in
  let cached := content (disk fs) "/d/database.xml" ≫= fun b =>
    result_ok (@parse witness_hex witness_reader 0 b) in
  let '(r, (n', fs')) :=
    @load witness_hex witness_reader _ witness_http 0 "/d/database.xml" "u" (Some 20) 10 (n, fs) in
  match is_stale (Some 20) 10, cached with
  | false, Some cat => r = Ok (cat, false) /\ n' = n /\ disk fs' = disk fs
  | _, _ =>
      n' = (@fetch_raw _ witness_http "u" n).2 /\
      match (@fetch_raw _ witness_http "u" n).1 with
      | Ok data =>
          match @parse witness_hex witness_reader 0 data with
          | Ok cat => r = Ok (cat, true)
          | Err e => r = Err e /\ disk fs' = disk fs
          end
      | Err e => disk fs' = disk fs /\
          r = match cached with Some cat => Ok (cat, false) | None => Err e end
      end
  end.
Proof.
  apply (@load_spec witness_hex witness_reader _ witness_http 0 "/d/database.xml" "u" (Some 20) 10
           [Err "down"] (fresh_fs [("/d/database.xml", witness_document)] [])).
  reflexivity.
Defined.
