(* ===== verification/Updater.v ===== *)
(** Self-update, [updater.rs]: the release channels, the choice of a release and
    the guard against downgrades.  The JSON decoder of the release list is an
    argument; the command that installs a release is in [SelfUpdate]. *)

From S2P Require Import Prelude Text Net.

Record Asset := {
  asset_name_of : string;
  browser_download_url : string;
}.

Record Release := {
  tag_name : string;
  draft : bool;
  assets : list Asset;
}.

Inductive Channel := Stable | Beta.

#[export] Instance channel_eq_dec : EqDecision Channel.
Proof. solve_decision. Defined.

(** [trim_start_matches('v')]. *)
Fixpoint trim_v (s : string) : string :=
  match s with
  | String a s' => if Ascii.eqb a "v" then trim_v s' else s
  | EmptyString => EmptyString
  end.

(** [split_once('-')]. *)
Fixpoint split_once_dash (s : string) : option (string * string) :=
  match s with
  | EmptyString => None
  | String a s' =>
      if Ascii.eqb a "-" then Some (EmptyString, s')
      else match split_once_dash s' with
           | Some (c, r) => Some (String a c, r)
           | None => None
           end
  end.

Definition channel_of (tag : string) : option Channel :=
  let t := trim_v tag in
  match split_once_dash t with
  | Some (_, s) =>
      let s := ascii_lower s in
      if starts_with "beta" s || starts_with "rc" s || starts_with "alpha" s
      then Some Beta else None
  | None => if (length (split_on "." t) =? 2)%nat then Some Stable else None
  end.

(** The release [fetch_latest] picks from the list. *)
Definition pick_release (want : Channel) (releases : list Release) : option Release :=
  List.find (fun r => bool_decide (channel_of (tag_name r) = Some want))
    (filter (fun r => draft r = false) releases).

Definition fetch_latest {N} `{Http N} (parse_releases : string -> option (list Release))
    (url : string) (include_beta : bool) : M N (result error Release) :=
  let want := if include_beta then Beta else Stable in
  let? resp := with_cause "fetching releases" (http_get url) in
  let? b := ret (reply_bytes "fetching releases" "parsing release metadata" resp) in
  ret match parse_releases b with
      | None => Err "parsing release metadata"
      | Some releases =>
          match pick_release want releases with
          | Some r => Ok r
          | None => Err ("no " +:+ (if include_beta then "beta" else "stable") +:+ " releases found")
          end
      end.

Inductive UpdateDecision := AlreadyCurrent | NotNewer | Upgrade.

(** The leading digits of a version segment. *)
Fixpoint leading_digits (s : string) : string :=
  match s with
  | String a s => if is_digit a then String a (leading_digits s) else EmptyString
  | EmptyString => EmptyString
  end.

(** [parts]: the numbers of a dotted version; what does not parse is 0. *)
Definition parts (v : string) : list Z :=
  map (fun p => default 0 (parse_unsigned U64_MAX (leading_digits p))) (split_on "." (trim_v v)).

(** The comparison loop over the longer of the two, missing segments being 0. *)
Fixpoint compare_parts (n : nat) (pa pb : list Z) : bool :=
  match n with
  | O => true
  | S n =>
      let x := default 0 (head pa) in
      let y := default 0 (head pb) in
      if negb (x =? y) then x <? y else compare_parts n (tail pa) (tail pb)
  end.

Definition version_older_or_equal (a b : string) : bool :=
  let pa := parts a in
  let pb := parts b in
  compare_parts (Nat.max (length pa) (length pb)) pa pb.

Definition decide_update (latest current : string) : UpdateDecision :=
  if String.eqb (trim_v latest) (trim_v current) || String.eqb latest current then AlreadyCurrent
  else if version_older_or_equal latest current then NotNewer
  else Upgrade.

(** ** The order of versions *)

(** Comparing further than both lists changes nothing. *)
Lemma compare_parts_ext n m pa pb :
  (length pa <= n)%nat -> (length pb <= n)%nat -> (n <= m)%nat ->
  compare_parts n pa pb = compare_parts m pa pb.
Proof.
  revert m pa pb. induction n as [|n IH]; intros m pa pb Ha Hb Hm.
  - destruct pa, pb; simpl in *; try lia. clear. induction m as [|m IHm]; [done|]. exact IHm.
  - destruct m as [|m]; [lia|]. simpl. destruct (negb _); [done|].
    apply IH; [destruct pa|destruct pb|]; simpl in *; lia.
Qed.

Lemma compare_parts_refl n pa : compare_parts n pa pa = true.
Proof. revert pa. induction n as [|n IH]; intros pa; simpl; [done|]. rewrite Z.eqb_refl. apply IH. Qed.

Lemma compare_parts_total n pa pb :
  compare_parts n pa pb = true \/ compare_parts n pb pa = true.
Proof.
  revert pa pb. induction n as [|n IH]; intros pa pb; simpl; [by left|].
  set (x := default 0 (head pa)). set (y := default 0 (head pb)).
  destruct (Z.eqb_spec x y), (Z.eqb_spec y x); simpl; try lia; try apply IH;
    destruct (Z.ltb_spec x y), (Z.ltb_spec y x); auto; lia.
Qed.

Lemma compare_parts_trans n pa pb pc :
  compare_parts n pa pb = true -> compare_parts n pb pc = true -> compare_parts n pa pc = true.
Proof.
  revert pa pb pc. induction n as [|n IH]; intros pa pb pc; simpl; [done|].
  set (x := default 0 (head pa)). set (y := default 0 (head pb)). set (z := default 0 (head pc)).
  destruct (Z.eqb_spec x y), (Z.eqb_spec y z), (Z.eqb_spec x z); simpl;
    rewrite ?Z.ltb_lt; try lia; apply IH.
Qed.

Lemma version_common n a b :
  (length (parts a) <= n)%nat -> (length (parts b) <= n)%nat ->
  version_older_or_equal a b = compare_parts n (parts a) (parts b).
Proof. intros Ha Hb. apply compare_parts_ext; lia. Qed.

(** The comparison is a total preorder. *)
Lemma version_refl a : version_older_or_equal a a = true.
Proof. apply compare_parts_refl. Qed.

Lemma version_total a b : version_older_or_equal a b = true \/ version_older_or_equal b a = true.
Proof.
  set (n := Nat.max (length (parts a)) (length (parts b))).
  rewrite (version_common n a b), (version_common n b a) by lia. apply compare_parts_total.
Qed.

Lemma version_trans a b c :
  version_older_or_equal a b = true -> version_older_or_equal b c = true ->
  version_older_or_equal a c = true.
Proof.
  set (n := Nat.max (length (parts a)) (Nat.max (length (parts b)) (length (parts c)))).
  rewrite (version_common n a b), (version_common n b c), (version_common n a c) by lia.
  apply compare_parts_trans.
Qed.

(** Self-update never goes sideways or back: it upgrades only to a strictly
    newer version, so no chain of upgrades returns to a version it left, and a
    strictly newer version is never withheld. *)
Theorem decide_update_strict latest current :
  (decide_update latest current = Upgrade <->
     version_older_or_equal latest current = false /\
     trim_v latest <> trim_v current) /\
  (decide_update latest current = Upgrade ->
     version_older_or_equal current latest = true /\
     forall next, decide_update next latest = Upgrade -> decide_update current next <> Upgrade).
Proof.
  assert (forall l c, decide_update l c = Upgrade <->
    version_older_or_equal l c = false /\ trim_v l <> trim_v c) as Hd.
  { intros l c. unfold decide_update.
    destruct (String.eqb_spec (trim_v l) (trim_v c)); simpl; [naive_solver|].
    destruct (String.eqb_spec l c) as [->|]; [naive_solver|].
    destruct (version_older_or_equal l c); naive_solver. }
  split; [apply Hd|]. intros Hup. apply Hd in Hup as [Hup _].
  destruct (version_total latest current) as [?|Hle]; [congruence|]. split; [done|].
  intros next [Hn _]%Hd [Hb _]%Hd.
  destruct (version_total next latest) as [?|Hln]; [congruence|].
  pose proof (version_trans _ _ _ Hle Hln). congruence.
Qed.

(** The release that is installed is published (no draft) and its tag's shape
    is the requested channel's; the shapes are disjoint, so a mis-flagged or
    mis-shaped release cannot cross channels. *)
Theorem fetch_latest_channel {N} `{Http N} parse_releases url include_beta n r :
  (fetch_latest parse_releases url include_beta n).1 = Ok r ->
  draft r = false /\
  channel_of (tag_name r) = Some (if include_beta then Beta else Stable) /\
  (include_beta = false -> split_once_dash (trim_v (tag_name r)) = None /\
     length (split_on "." (trim_v (tag_name r))) = 2%nat).
Proof.
  unfold fetch_latest, bindR, with_cause, bind.
  destruct (http_get url n) as [[resp|e] n']; simpl; [|done].
  destruct (reply_bytes _ _ resp) as [b|e]; simpl; [|done].
  destruct (parse_releases b) as [releases|]; [|done].
  destruct (pick_release _ releases) as [r'|] eqn:E; [|done]. intros [= ->].
  unfold pick_release in E. apply List.find_some in E as [Hin Hc].
  apply bool_decide_eq_true in Hc. apply list_elem_of_In, list_elem_of_filter in Hin as [Hd _].
  split; [done|]. split; [done|]. intros ->. unfold channel_of in Hc.
  destruct (split_once_dash _) as [[c s]|]; [by destruct (_ || _)|].
  split; [done|]. by destruct (Nat.eqb_spec (length (split_on "." (trim_v (tag_name r)))) 2).
Qed.

Example channels :
  map channel_of ["v0.9"; "v0.9.1-beta"; "v0.8-beta"; "v0.9.1"; "v1"; "v0.9-hotfix"] =
  [Some Stable; Some Beta; Some Beta; None; None; None].
Proof. vm_compute. reflexivity. Qed.

Lemma decide_update_strict_witness :
  (decide_update "v0.9.1-beta" "0.9" = Upgrade <->
     version_older_or_equal "v0.9.1-beta" "0.9" = false /\
     trim_v "v0.9.1-beta" <> trim_v "0.9") /\
  (decide_update "v0.9.1-beta" "0.9" = Upgrade ->
     version_older_or_equal "0.9" "v0.9.1-beta" = true /\
     forall next, decide_update next "v0.9.1-beta" = Upgrade ->
       decide_update "0.9" next <> Upgrade).
Proof. apply (decide_update_strict "v0.9.1-beta" "0.9"). Defined.

Lemma fetch_latest_channel_witness :
  exists r,
  draft r = false /\ channel_of (tag_name r) = Some Stable /\
  (false = false -> split_once_dash (trim_v (tag_name r)) = None /\
     length (split_on "." (trim_v (tag_name r))) = 2%nat).
Proof.
  eexists.
  apply (@fetch_latest_channel _ witness_http
    (fun _ => Some [{| tag_name := "v0.9.1-beta"; draft := false; assets := [] |};
                    {| tag_name := "v0.9"; draft := false; assets := [] |}])
    "u" false [Ok {| status := "200 OK"; is_success := true; body := Ok "" |}]).
  vm_compute. reflexivity.
Defined.
