(* ===== verification/History.v ===== *)
(** The ledger of what the daemon did to its holdings, [history.rs]: the event
    types, the rotating writer, the in-place cap of the log file and the
    tolerant reader.  [serde_json] on events is the class [EventCodec]. *)

From S2P Require Import Prelude Text Float64 Fs.

Definition MAX_HISTORY_BYTES : Z := 5 * 1024 * 1024.
Definition MAX_LOG_BYTES : Z := 10 * 1024 * 1024.

Definition history_path (data_dir : path) : path := path_join data_dir "history.jsonl".

Inductive Cause := Fill | Swap | Stalled | DeletedFromCatalog | Quarantined.

Definition label (c : Cause) : string :=
  match c with
  | Fill => "fill"
  | Swap => "swap"
  | Stalled => "stalled"
  | DeletedFromCatalog => "deleted-from-catalog"
  | Quarantined => "quarantined"
  end.

Record Displaced := {
  disp_hash : string;
  disp_title : string;
  disp_seeders : Z;
  disp_size_bytes : Z;
}.

Inductive Event :=
  | Add (ts hash title : string) (size_bytes seeders : Z) (location : path) (cause : Cause)
        (chance roll : f64) (seeder_floor : Z) (reason : string) (displaced : list Displaced)
  | Remove (ts hash title : string) (size_bytes seeders : Z) (location : path) (cause : Cause)
           (reason : string).

(** [now_ts] is the argument [ts]. *)
Definition add_event (ts hash title : string) (size_bytes seeders : Z) (location : path)
    (cause : Cause) (chance roll : f64) (seeder_floor : Z) (reason : string)
    (displaced : list Displaced) : Event :=
  Add ts hash title size_bytes seeders location cause chance roll seeder_floor reason displaced.

Definition remove_event (ts hash title : string) (size_bytes seeders : Z) (location : path)
    (cause : Cause) (reason : string) : Event :=
  Remove ts hash title size_bytes seeders location cause reason.

(** JSON has no infinities and no NaN. *)
Definition event_finite (e : Event) : Prop :=
  match e with
  | Add _ _ _ _ _ _ _ chance roll _ _ _ => is_finite chance = true /\ is_finite roll = true
  | Remove _ _ _ _ _ _ _ _ => True
  end.

(** Equal up to the two numbers that are not integers, which serde_json, as it is
    built here, does not promise to read back to the last bit. *)
Definition sans_numbers (e : Event) : Event :=
  match e with
  | Add ts hash title size seeders location cause _ _ floor reason displaced =>
      Add ts hash title size seeders location cause fzero fzero floor reason displaced
  | Remove _ _ _ _ _ _ _ _ => e
  end.

Definition same_event (e e' : Event) : Prop := sans_numbers e = sans_numbers e'.

Definition newline : ascii := "010".

(** No newline in a byte string. *)
Definition one_line (s : string) : bool := string_forall (fun a => negb (Ascii.eqb a newline)) s.

(** [serde_json]: a line is never empty, holds no newline (they are escaped),
    and parses back, its fractions aside, when its numbers are finite. *)
Class EventCodec := {
  event_to_string : Event -> option string;
  event_from_slice : string -> option Event;
  event_line e l : event_to_string e = Some l -> one_line l = true /\ l <> "";
  event_from_to e l : event_finite e -> event_to_string e = Some l ->
    exists e', event_from_slice l = Some e' /\ same_event e e';
}.

(** [Writer]: the open append handle, when there is one. *)
Record Writer := {
  w_path : path;
  w_cap : Z;
  w_file : option nat;
}.

Definition old_path (p : path) : path := p +:+ ".1".

Section History.
Context `{EventCodec}.

Definition set_file (f : option nat) (w : Writer) : Writer :=
  {| w_path := w_path w; w_cap := w_cap w; w_file := f |}.

(** [open_append(..).ok()]. *)
Definition open_append (p : path) : M Fs (option nat) :=
  let* r := fs_open_append p in ret (result_ok r).

Definition with_cap (p : path) (cap : Z) : M Fs Writer :=
  let* f := open_append p in ret {| w_path := p; w_cap := cap; w_file := f |}.

Definition new_writer (p : path) : M Fs Writer := with_cap p MAX_HISTORY_BYTES.

(** The two attempts of [write_line]. *)
Fixpoint write_attempts (n : nat) (line : string) (w : Writer) : M Fs Writer :=
  match n with
  | O => ret w
  | S n =>
      let* f := match w_file w with
                | Some i => ret (Some i)
                | None => open_append (w_path w)
                end in
      match f with
      | None => ret (set_file None w)
      | Some i =>
          let* r := fs_write_handle i line in
          match r with
          | Ok _ => ret (set_file (Some i) w)
          | Err _ => write_attempts n line (set_file None w)
          end
      end
  end.

Definition write_line (line : string) (w : Writer) : M Fs Writer := write_attempts 2 line w.

Definition rotate (w : Writer) : M Fs Writer :=
  let* _ := fs_rename (w_path w) (old_path (w_path w)) in
  let* f := open_append (w_path w) in
  ret (set_file f w).

Definition record (ev : Event) (w : Writer) : M Fs Writer :=
  match event_to_string ev with
  | None => ret w
  | Some l =>
      let line := l +:+ String newline EmptyString in
      let* md := fs_len (w_path w) in
      let* w := match md with
                | Ok len =>
                    if w_cap w <? sat_add64 len (Z.of_nat (String.length line))
                    then rotate w else ret w
                | Err _ => ret w
                end in
      write_line line w
  end.

(** ** The cap of a text file *)

(** The first newline. *)
Fixpoint find_newline (s : bytes) : option nat :=
  match s with
  | EmptyString => None
  | String a s => if Ascii.eqb a newline then Some 0%nat else S <$> find_newline s
  end.

(** What is kept of a file: its last [keep] bytes, from the next line on. *)
Definition kept_tail (keep : Z) (data : bytes) : bytes :=
  let buf := drop_bytes (Z.to_nat (sat_sub (Z.of_nat (String.length data)) keep)) data in
  match find_newline buf with
  | Some i => drop_bytes (S i) buf
  | None => buf
  end.

Definition cap_text_file (p : path) (max_bytes : Z) : M Fs (result io_error bool) :=
  let? len := fs_len p in
  if len <=? max_bytes then ret (Ok false)
  else
    let keep := Z.max (max_bytes / 2) 1 in
    let? data := fs_read p in
    let tail := kept_tail keep data in
    let? _ := fs_write_front p tail in
    let? _ := fs_truncate p (String.length tail) in
    let* _ := fs_sync p in
    ret (Ok true).

(** ** The reader *)

Definition parse_line (acc : list Event * nat) (line : string) : list Event * nat :=
  if String.eqb line "" then acc
  else match event_from_slice line with
       | Some ev => (acc.1 ++ [ev], acc.2)
       | None => (acc.1, S acc.2)
       end.

Definition parse_lines (data : bytes) : list Event * nat :=
  foldl parse_line ([], 0%nat) (split_on newline data).

(** The previous generation, then the live file. *)
Definition read_events (p : path) : M Fs (list Event * nat) :=
  let* prev := fs_read (old_path p) in
  let* live := fs_read p in
  let parsed r := match r with Ok data => parse_lines data | Err _ => ([], 0%nat) end in
  ret ((parsed prev).1 ++ (parsed live).1, ((parsed prev).2 + (parsed live).2)%nat).
End History.

(** ** The writer *)

Lemma old_path_ne p : old_path p <> p.
Proof. unfold old_path. induction p as [|c p IH]; [done|]. rewrite string_app_cons. by intros [= Hp]. Qed.

(** The open handle is the live file's. *)
Definition writer_wf (w : Writer) (fs : Fs) : Prop :=
  match w_file w with Some i => dir (disk fs) !! w_path w = Some i | None => True end.

(** What a file holds, an absent one holding nothing. *)
Definition held_in (fs : Fs) (p : path) : bytes := default "" (content (disk fs) p).

Section Writing.
Context `{EventCodec}.

Lemma open_append_spec p fs :
  quiet fs ->
  exists i fs', open_append p fs = (Some i, fs') /\ quiet fs' /\ dir (disk fs') !! p = Some i /\
    (forall q, q <> p -> content (disk fs') q = content (disk fs) q) /\
    content (disk fs') p = Some (held_in fs p).
Proof.
  intros Hq. unfold open_append, bind, fs_open_append. rewrite io_nofault by apply Hq.
  unfold held_in. destruct (dir (disk fs) !! p) as [i|] eqn:Ep.
  - exists i, fs. split; [done|]. split; [done|]. split; [done|]. split; [done|].
    destruct (quiet_entry fs p i Hq Ep) as [ino Hino].
    unfold content, inode_at. by rewrite Ep, Hino.
  - destruct (create_spec fs p "" Hq Ep) as (Hq' & Hd & _ & Hc).
    eexists _, _. split; [reflexivity|]. split; [done|]. split; [done|]. split.
    + intros q Hqp. rewrite Hc. by rewrite decide_False.
    + rewrite Hc, decide_True by done. unfold content, inode_at. by rewrite Ep.
Qed.

Lemma append_spec i p b fs :
  quiet fs -> dir (disk fs) !! p = Some i ->
  exists fs', fs_write_handle i b fs = (Ok tt, fs') /\ quiet fs' /\ dir (disk fs') !! p = Some i /\
    (forall q, q <> p -> content (disk fs') q = content (disk fs) q) /\
    content (disk fs') p = Some (held_in fs p +:+ b).
Proof.
  intros Hq Hp. unfold fs_write_handle. rewrite io_nofault by apply Hq.
  destruct (quiet_entry fs p i Hq Hp) as [ino Hino].
  unfold bind, modify, append_inode. rewrite Hino. eexists. split; [reflexivity|].
  split; [by apply quiet_put_inode; [|eauto]|]. split; [done|].
  assert (Hu : unlinked_names (disk fs)) by apply Hq. split.
  - intros q Hqp. simpl. rewrite (content_put_inode _ i _ p) by done. by rewrite decide_False.
  - simpl. rewrite (content_put_inode _ i _ p), decide_True by done. simpl.
    unfold held_in, content, inode_at. by rewrite Hp, Hino.
Qed.

Lemma write_line_spec line w fs :
  quiet fs -> writer_wf w fs ->
  let '(w', fs') := write_line line w fs in
  quiet fs' /\ writer_wf w' fs' /\ w_path w' = w_path w /\ w_cap w' = w_cap w /\
  (forall q, q <> w_path w -> content (disk fs') q = content (disk fs) q) /\
  content (disk fs') (w_path w) = Some (held_in fs (w_path w) +:+ line).
Proof.
  intros Hq Hw. unfold write_line. cbn [write_attempts].
  assert (exists i fs1, (match w_file w with Some i => ret (Some i) | None => open_append (w_path w) end) fs
            = (Some i, fs1) /\ quiet fs1 /\ dir (disk fs1) !! w_path w = Some i /\
            (forall q, q <> w_path w -> content (disk fs1) q = content (disk fs) q) /\
            held_in fs1 (w_path w) = held_in fs (w_path w)) as (i & fs1 & Ho & Hq1 & Hd1 & Hc1 & Hh1).
  { unfold writer_wf in Hw. destruct (w_file w) as [i|].
    - exists i, fs. done.
    - destruct (open_append_spec (w_path w) fs Hq) as (i & fs1 & ? & ? & ? & ? & Hc).
      exists i, fs1. repeat (split; [done|]). unfold held_in at 1. by rewrite Hc. }
  unfold bind at 1. rewrite Ho. unfold bind at 1.
  destruct (append_spec i (w_path w) line fs1 Hq1 Hd1) as (fs2 & -> & Hq2 & Hd2 & Hc2 & Hh2).
  simpl. split; [done|]. split; [done|]. split; [done|]. split; [done|]. split.
  - intros q Hne. by rewrite Hc2, Hc1.
  - by rewrite Hh2, Hh1.
Qed.

Lemma rotate_spec w fs :
  quiet fs -> is_Some (content (disk fs) (w_path w)) ->
  let '(w', fs') := rotate w fs in
  quiet fs' /\ writer_wf w' fs' /\ w_path w' = w_path w /\ w_cap w' = w_cap w /\
  held_in fs' (w_path w) = "" /\
  content (disk fs') (old_path (w_path w)) = content (disk fs) (w_path w).
Proof.
  intros Hq [b Hb]. pose proof (old_path_ne (w_path w)) as Hne.
  apply content_Some in Hb as (i & ino & Hi & Hino & _).
  unfold rotate, bind, fs_rename. rewrite io_nofault by apply Hq. rewrite Hi.
  set (dm := <[old_path (w_path w) := i]> (delete (w_path w) (dir (disk fs)))).
  set (fs1 := set_disk (change_dir dm (disk fs)) fs).
  destruct Hq as (Hf & [Hw1 Hw2] & Hu).
  assert (quiet fs1) as Hq1.
  { split; [done|]. split; [split; [exact Hw1|]|].
    - intros dm' q j [->|Hin]%elem_of_cons; [|by eapply Hw2]. simpl. unfold dm.
      intros [[<- <-]|[_ [_ Hj]%lookup_delete_Some]]%lookup_insert_Some; [eauto|].
      eapply Hw2; [left|exact Hj].
    - intros q1 q2 j. simpl. unfold dm.
      intros [[<- <-]|[Hn1 [Hm1 E1]%lookup_delete_Some]]%lookup_insert_Some
             [[<- Hx]|[Hn2 [Hm2 E2]%lookup_delete_Some]]%lookup_insert_Some; try done.
      + exfalso. by apply Hm2, (Hu (w_path w) q2 i).
      + subst. exfalso. by apply Hm1, (Hu (w_path w) q1 j).
      + by apply (Hu q1 q2 j). }
  assert (content (disk fs1) (w_path w) = None) as Hnone.
  { unfold content, inode_at. simpl. unfold dm.
    by rewrite lookup_insert_ne, lookup_delete_eq by done. }
  destruct (open_append_spec (w_path w) fs1 Hq1) as (j & fs2 & -> & Hq2 & Hd2 & Hc2 & Hh2).
  simpl. split; [done|]. split; [done|]. split; [done|]. split; [done|]. split.
  - unfold held_in. rewrite Hh2. unfold held_in. by rewrite Hnone.
  - rewrite Hc2 by done. unfold content, inode_at. simpl. unfold dm.
    by rewrite lookup_insert_eq, Hi.
Qed.

(** The encoded line of an event. *)
Definition line_of (ev : Event) : option string :=
  (fun l => l +:+ String newline "") <$> event_to_string ev.

(** When the file system works, recording an event appends its line to the
    live file; if that would push the file past the cap, the live file becomes
    the previous generation, whole, and the line starts a new one.  So the live
    file never exceeds the cap, a single oversized line apart, and the writer
    keeps writing to the live file. *)
Theorem record_rotates ev line w fs :
  quiet fs -> writer_wf w fs -> line_of ev = Some line -> 0 <= w_cap w < U64_MAX ->
  let live := held_in fs (w_path w) in
  let fits := Z.of_nat (String.length live) + Z.of_nat (String.length line) <= w_cap w in
  let '(w', fs') := record ev w fs in
  quiet fs' /\ writer_wf w' fs' /\ w_path w' = w_path w /\ w_cap w' = w_cap w /\
  (fits -> held_in fs' (w_path w) = live +:+ line /\
     content (disk fs') (old_path (w_path w)) = content (disk fs) (old_path (w_path w))) /\
  (~ fits -> held_in fs' (w_path w) = line /\
     (content (disk fs) (w_path w) <> None ->
      content (disk fs') (old_path (w_path w)) = Some live)) /\
  Z.of_nat (String.length (held_in fs' (w_path w))) <=
    Z.max (w_cap w) (Z.of_nat (String.length line)).
Proof.
  intros Hq Hw Hl Hcap. cbv zeta. unfold record, line_of in *.
  destruct (event_to_string ev) as [l|]; [|done]. simpl in Hl. injection Hl as Hl. rewrite Hl.
  pose proof (old_path_ne (w_path w)) as Hne.
  set (live := held_in fs (w_path w)).
  unfold bind at 1, fs_len. rewrite io_nofault by apply Hq. unfold gets.
  destruct (content (disk fs) (w_path w)) as [b|] eqn:Eb.
  - assert (live = b) as Hlive by (unfold live, held_in; by rewrite Eb).
    unfold bind at 1. rewrite <- Hlive.
    destruct (Z.ltb_spec (w_cap w)
      (sat_add64 (Z.of_nat (String.length live)) (Z.of_nat (String.length line)))) as [Hx|Hx].
    + pose proof (rotate_spec w fs Hq (ex_intro _ b Eb)) as Hr.
      destruct (rotate w fs) as [w1 fs1]. destruct Hr as (Hq1 & Hw1 & Hp1 & Hc1 & Hh1 & Ho1).
      pose proof (write_line_spec line w1 fs1 Hq1 Hw1) as Hwl.
      destruct (write_line line w1 fs1) as [w2 fs2].
      destruct Hwl as (Hq2 & Hw2 & Hp2 & Hc2 & Hoth & Hlive2).
      rewrite Hp1, Hh1 in Hlive2. change ("" +:+ line) with line in Hlive2.
      assert (held_in fs2 (w_path w) = line) as Hfin by (unfold held_in; by rewrite Hlive2).
      split; [done|]. split; [done|]. split; [congruence|]. split; [congruence|].
      rewrite Hfin. unfold sat_add64 in Hx. split; [intros ?; exfalso; lia|]. split; [|lia].
      intros _. split; [done|]. intros _. rewrite Hoth by (by rewrite Hp1).
      by rewrite Ho1, Eb, Hlive.
    + pose proof (write_line_spec line w fs Hq Hw) as Hwl. unfold ret.
      destruct (write_line line w fs) as [w2 fs2].
      destruct Hwl as (Hq2 & Hw2 & Hp2 & Hc2 & Hoth & Hlive2). fold live in Hlive2.
      assert (held_in fs2 (w_path w) = live +:+ line) as Hfin by (unfold held_in; by rewrite Hlive2).
      split; [done|]. split; [done|]. split; [congruence|]. split; [congruence|].
      rewrite Hfin, string_length_app. split; [split; [done|by apply Hoth]|].
      unfold sat_add64 in Hx. split; [intros ?; exfalso; lia|lia].
  - assert (live = "") as Hlive by (unfold live, held_in; by rewrite Eb).
    unfold bind at 1, ret. pose proof (write_line_spec line w fs Hq Hw) as Hwl.
    destruct (write_line line w fs) as [w2 fs2].
    destruct Hwl as (Hq2 & Hw2 & Hp2 & Hc2 & Hoth & Hlive2). fold live in Hlive2.
    assert (held_in fs2 (w_path w) = live +:+ line) as Hfin by (unfold held_in; by rewrite Hlive2).
    split; [done|]. split; [done|]. split; [congruence|]. split; [congruence|].
    rewrite Hfin, Hlive. change ("" +:+ line) with line.
    split; [split; [done|by apply Hoth]|]. split; [by split|lia].
Qed.
End Writing.

(** ** The reader *)

Lemma split_on_line l rest :
  one_line l = true -> split_on newline (l +:+ String newline rest) = l :: split_on newline rest.
Proof. apply split_on_cons. Qed.

Lemma split_on_single l : one_line l = true -> split_on newline l = [l].
Proof. apply split_on_whole. Qed.

Section Reading.
Context `{EventCodec}.

(** The lines of a ledger. *)
Fixpoint ledger (evs : list Event) : option bytes :=
  match evs with
  | [] => Some ""
  | ev :: rest =>
      match line_of ev, ledger rest with
      | Some l, Some ls => Some (l +:+ ls)
      | _, _ => None
      end
  end.

Lemma parse_ledger evs : forall data,
  Forall event_finite evs -> ledger evs = Some data ->
  exists evs', Forall2 same_event evs evs' /\ forall torn acc,
    foldl parse_line acc (split_on newline (data +:+ torn)) =
    foldl parse_line (acc.1 ++ evs', acc.2) (split_on newline torn).
Proof.
  induction evs as [|ev evs IH]; intros data Hf Hl; simpl in Hl.
  - injection Hl as <-. exists []. split; [constructor|]. intros torn acc.
    change ("" +:+ torn) with torn. rewrite app_nil_r. by destruct acc.
  - rewrite Forall_cons in Hf. destruct Hf as [Hev Hf]. unfold line_of in Hl.
    destruct (event_to_string ev) as [l|] eqn:E; [|done]. simpl in Hl.
    destruct (ledger evs) as [ls|]; [|done]. injection Hl as <-.
    destruct (event_line ev l E) as [Hone Hne]. destruct (IH ls Hf eq_refl) as (evs' & Hsame & Hparse).
    destruct (event_from_to ev l Hev E) as (ev' & Hfrom & Hs).
    exists (ev' :: evs'). split; [by constructor|]. intros torn acc.
    rewrite !string_app_assoc. change (String newline "" +:+ (ls +:+ torn)) with
      (String newline (ls +:+ torn)).
    rewrite split_on_line by done. cbn [foldl]. rewrite Hparse. f_equal. unfold parse_line.
    rewrite (proj2 (String.eqb_neq l "") Hne), Hfrom. simpl. by rewrite <- app_assoc.
Qed.

(** What the writer wrote the reader reads: the events of a ledger, with
    finite numbers, parse back in order, up to the last bits of their fractions,
    and nothing is skipped; and a torn or foreign last line costs at most
    itself. *)
Theorem parse_lines_roundtrip evs data torn :
  Forall event_finite evs -> ledger evs = Some data -> one_line torn = true ->
  exists evs', Forall2 same_event evs evs' /\ parse_lines data = (evs', 0%nat) /\
  exists extra skipped, parse_lines (data +:+ torn) = (evs' ++ extra, skipped) /\
    (length extra + skipped <= 1)%nat.
Proof.
  intros Hf Hl Ht. destruct (parse_ledger evs data Hf Hl) as (evs' & Hsame & Hparse).
  exists evs'. split; [done|]. split.
  - unfold parse_lines. rewrite <- (string_app_nil_r data). by rewrite Hparse.
  - unfold parse_lines. rewrite Hparse, (split_on_single torn Ht).
    cbn [foldl fst snd]. unfold parse_line. destruct (String.eqb torn "").
    + exists [], 0%nat. rewrite app_nil_r. split; [done|simpl; lia].
    + destruct (event_from_slice torn) as [ev|].
      * exists [ev], 0%nat. split; [done|simpl; lia].
      * exists [], 1%nat. rewrite app_nil_r. split; [done|simpl; lia].
Qed.
End Reading.

(** ** The cap of the log *)

Lemma substring_all n s : (String.length s <= n)%nat -> String.substring 0 n s = s.
Proof.
  revert n. induction s as [|a s IH]; intros n Hn; [by destruct n|].
  destruct n as [|n]; simpl in *; [lia|]. f_equal. apply IH. lia.
Qed.

Lemma drop_bytes_0 s : drop_bytes 0 s = s.
Proof. unfold drop_bytes. by apply substring_all. Qed.

Lemma drop_bytes_cons n a s : drop_bytes (S n) (String a s) = drop_bytes n s.
Proof.
  unfold drop_bytes. simpl String.length.
  assert (forall m k s, (String.length s <= k)%nat -> String.substring m (S k) s = String.substring m k s) as Hk.
  { clear. intros m. induction m as [|m IH]; intros k s Hs.
    - rewrite !substring_all by lia. done.
    - destruct s as [|b s]; [done|]. simpl in *. apply IH. lia. }
  simpl. by apply Hk.
Qed.

Lemma drop_bytes_split n s :
  (n <= String.length s)%nat -> exists pre, s = pre +:+ drop_bytes n s /\ String.length pre = n.
Proof.
  revert s. induction n as [|n IH]; intros s Hn.
  - exists "". by rewrite drop_bytes_0.
  - destruct s as [|a s]; simpl in Hn; [lia|]. destruct (IH s ltac:(lia)) as (pre & Hs & Hl).
    exists (String a pre). rewrite drop_bytes_cons, string_app_cons, <- Hs. simpl. by rewrite Hl.
Qed.

Lemma find_newline_lt s i : find_newline s = Some i -> (i < String.length s)%nat.
Proof.
  revert i. induction s as [|a s IH]; intros i; simpl; [done|].
  destruct (Ascii.eqb a newline); [intros [= <-]; lia|].
  destruct (find_newline s) as [j|]; [|done]. simpl. intros [= <-]. specialize (IH j eq_refl). lia.
Qed.

(** What is kept is a suffix of the file within the bound. *)
Lemma kept_tail_spec keep data :
  0 <= keep -> keep <= Z.of_nat (String.length data) ->
  (exists pre, data = pre +:+ kept_tail keep data) /\
  Z.of_nat (String.length (kept_tail keep data)) <= keep.
Proof.
  intros Hk Hl. unfold kept_tail.
  set (n := Z.to_nat (sat_sub (Z.of_nat (String.length data)) keep)).
  assert (Z.of_nat n = Z.of_nat (String.length data) - keep) as Hn by (unfold n; ulia).
  destruct (drop_bytes_split n data) as (pre & Hd & Hp); [lia|].
  set (buf := drop_bytes n data) in *.
  assert (Z.of_nat (String.length buf) = keep) as Hb.
  { rewrite Hd, string_length_app in Hn. lia. }
  destruct (find_newline buf) as [i|] eqn:E; [|split; [by exists pre|lia]].
  apply find_newline_lt in E. destruct (drop_bytes_split (S i) buf) as (pre' & Hb' & Hp'); [lia|].
  split.
  - exists (pre +:+ pre'). by rewrite string_app_assoc, <- Hb'.
  - rewrite Hb', string_length_app in Hb. lia.
Qed.

Lemma on_inode_spec p f fs ino :
  quiet fs -> inode_at (disk fs) p = Some ino ->
  exists fs', on_inode p f fs = (Ok tt, fs') /\ quiet fs' /\
    inode_at (disk fs') p = Some (f ino) /\ trace fs' = disk fs' :: trace fs.
Proof.
  intros Hq Hi. unfold on_inode. rewrite io_nofault by apply Hq.
  unfold inode_at in *. destruct (dir (disk fs) !! p) as [i|] eqn:Ep; [|done]. rewrite Hi.
  eexists. split; [reflexivity|]. split; [by apply quiet_put_inode|]. split; [|done].
  simpl. by rewrite Ep, lookup_insert_eq.
Qed.

(** Capping a log keeps its newest lines: the file ends as a suffix of what
    it was, of at most half the bound, starting after a line break unless none
    was left; and at every moment on the way the file begins with that suffix or
    is still whole, so a kill loses nothing that was to be kept. *)
Theorem cap_text_file_keeps_tail p max_bytes data fs :
  quiet fs -> content (disk fs) p = Some data -> 0 <= max_bytes ->
  let keep := Z.max (max_bytes / 2) 1 in
  let tail := kept_tail keep data in
  let '(r, fs') := cap_text_file p max_bytes fs in
  if Z.of_nat (String.length data) <=? max_bytes then r = Ok false /\ fs' = fs
  else
    r = Ok true /\ content (disk fs') p = Some tail /\
    (exists pre, data = pre +:+ tail) /\ Z.of_nat (String.length tail) <= keep /\
    exists new, trace fs' = new ++ trace fs /\
      forall d, d ∈ new -> exists rest, content d p = Some (tail +:+ rest).
Proof.
  intros Hq Hc Hmax. cbv zeta. unfold cap_text_file, bindR, bind at 1, fs_len.
  rewrite io_nofault by apply Hq. unfold gets. rewrite Hc.
  destruct (Z.leb_spec (Z.of_nat (String.length data)) max_bytes) as [Hle|Hgt]; [done|].
  set (keep := Z.max (max_bytes / 2) 1). set (tail := kept_tail keep data).
  assert (keep <= Z.of_nat (String.length data)) as Hkl.
  { unfold keep. pose proof (Z.div_le_upper_bound max_bytes 2 max_bytes ltac:(lia) ltac:(lia)). lia. }
  destruct (kept_tail_spec keep data ltac:(lia) Hkl) as [Hpre Htl]. fold tail in Hpre, Htl.
  unfold bind at 1, fs_read. rewrite io_nofault by apply Hq. unfold gets. rewrite Hc.
  fold tail.
  pose proof Hc as Hc'. unfold content in Hc'. destruct (inode_at (disk fs) p) as [ino|] eqn:Ei; [|done].
  simpl in Hc'. injection Hc' as Hdata.
  unfold bind at 1, fs_write_front.
  match goal with |- context [on_inode p ?f fs] =>
    destruct (on_inode_spec p f fs ino Hq Ei) as (fs1 & -> & Hq1 & Hi1 & Ht1) end.
  unfold bind at 1, fs_truncate.
  match goal with |- context [on_inode p ?f fs1] =>
    destruct (on_inode_spec p f fs1 _ Hq1 Hi1) as (fs2 & -> & Hq2 & Hi2 & Ht2) end.
  unfold bind at 1, fs_sync.
  match goal with |- context [on_inode p ?f fs2] =>
    destruct (on_inode_spec p f fs2 _ Hq2 Hi2) as (fs3 & -> & Hq3 & Hi3 & Ht3) end.
  simpl. simpl in Hi1, Hi2, Hi3.
  assert (String.substring 0 (String.length tail)
            (tail +:+ drop_bytes (String.length tail) (ino_data ino)) = tail) as Hcut.
  { clear. generalize (drop_bytes (String.length tail) (ino_data ino)) as r. intros r.
    induction tail as [|a t IH].
    - change ("" +:+ r) with r. by destruct r.
    - rewrite string_app_cons. simpl. by f_equal. }
  rewrite Hcut in Hi2, Hi3.
  split; [done|]. split; [unfold content; by rewrite Hi3|]. split; [done|]. split; [done|].
  exists [disk fs3; disk fs2; disk fs1]. split; [rewrite Ht3, Ht2, Ht1; done|].
  intros d. rewrite !elem_of_cons. intros [->|[->|[->|[]%elem_of_nil]]].
  - exists "". unfold content. rewrite Hi3. simpl. by rewrite string_app_nil_r.
  - exists "". unfold content. rewrite Hi2. simpl. by rewrite string_app_nil_r.
  - eexists. unfold content. rewrite Hi1. reflexivity.
Qed.

(** ** Witnesses *)

Section WitnessEvents.
#[local] Instance cause_eq_dec : EqDecision Cause.
Proof. solve_decision. Defined.

Definition cause_code (c : Cause) : nat :=
  match c with Fill => 0 | Swap => 1 | Stalled => 2 | DeletedFromCatalog => 3 | Quarantined => 4 end.
Definition cause_of_code (n : nat) : Cause :=
  match n with 0 => Fill | 1 => Swap | 2 => Stalled | 3 => DeletedFromCatalog | _ => Quarantined end%nat.

Lemma cause_of_cause_code c : cause_of_code (cause_code c) = c.
Proof. by destruct c. Qed.

#[local] Instance cause_countable : Countable Cause :=
  inj_countable' cause_code cause_of_code cause_of_cause_code.

(** A codec of removals. *)
Definition witness_event_to (e : Event) : option string :=
  match e with
  | Remove ts h t z s l c r => Some (String "r" (digits (encode (ts, h, t, z, s, l, c, r))))
  | Add _ _ _ _ _ _ _ _ _ _ _ _ => None
  end.

Definition witness_event_of (s : string) : option Event :=
  match s with
  | String _ s =>
      (fun '(ts, h, t, z, s, l, c, r) => Remove ts h t z s l c r) <$>
        (decode (of_digits s) : option (string * string * string * Z * Z * path * Cause * string))
  | EmptyString => None
  end.

Lemma witness_event_line e l : witness_event_to e = Some l -> one_line l = true /\ l <> "".
Proof.
  destruct e; [done|]. intros [= <-]. split; [|done]. unfold one_line. cbn [string_forall].
  rewrite digits_forall by reflexivity. reflexivity.
Qed.

Lemma witness_event_from_to e l :
  event_finite e -> witness_event_to e = Some l ->
  exists e', witness_event_of l = Some e' /\ same_event e e'.
Proof.
  intros _ He. exists e. split; [|done]. destruct e; [done|]. injection He as <-. unfold witness_event_of.
  by rewrite of_digits_digits, decode_encode.
Qed.

Definition witness_events : EventCodec :=
  {| event_to_string := witness_event_to; event_from_slice := witness_event_of;
     event_line := witness_event_line; event_from_to := witness_event_from_to |}.
End WitnessEvents.

Definition witness_removal : Event := Remove "t" "aa" "x" 10 0 "/s" Stalled "no seeders".

Definition witness_ledger_fs : Fs := fresh_fs [("/d/history.jsonl", "rold
")] [].

Definition witness_writer : Writer :=
  {| w_path := "/d/history.jsonl"; w_cap := 20; w_file := None |}.

Definition witness_line : string := default "" (@line_of witness_events witness_removal).

Lemma record_rotates_witness :
  let live := held_in witness_ledger_fs (w_path witness_writer) in
  let fits := Z.of_nat (String.length live) + Z.of_nat (String.length witness_line)
                <= w_cap witness_writer in
  let '(w', fs') := @record witness_events witness_removal witness_writer witness_ledger_fs in
  quiet fs' /\ writer_wf w' fs' /\ w_path w' = w_path witness_writer /\
  w_cap w' = w_cap witness_writer /\
  (fits -> held_in fs' (w_path witness_writer) = live +:+ witness_line /\
     content (disk fs') (old_path (w_path witness_writer)) =
       content (disk witness_ledger_fs) (old_path (w_path witness_writer))) /\
  (~ fits -> held_in fs' (w_path witness_writer) = witness_line /\
     (content (disk witness_ledger_fs) (w_path witness_writer) <> None ->
      content (disk fs') (old_path (w_path witness_writer)) = Some live)) /\
  Z.of_nat (String.length (held_in fs' (w_path witness_writer))) <=
    Z.max (w_cap witness_writer) (Z.of_nat (String.length witness_line)).
Proof.
  apply (@record_rotates witness_events witness_removal witness_line witness_writer witness_ledger_fs).
  - apply fresh_quiet.
  - exact I.
  - reflexivity.
  - simpl. ulia.
Defined.

Lemma parse_lines_roundtrip_witness :
  exists evs', Forall2 same_event [witness_removal] evs' /\
  @parse_lines witness_events witness_line = (evs', 0%nat) /\
  exists extra skipped,
    @parse_lines witness_events (witness_line +:+ "torn") = (evs' ++ extra, skipped) /\
    (length extra + skipped <= 1)%nat.
Proof.
  apply (@parse_lines_roundtrip witness_events [witness_removal] witness_line "torn").
  - repeat constructor.
  - reflexivity.
  - reflexivity.
Defined.

Lemma cap_text_file_keeps_tail_witness :
  let data := "one
two
three
" in
  let keep := Z.max (10 / 2) 1 in
  let tail := kept_tail keep data in
  let '(r, fs') := cap_text_file "/d/log" 10 (fresh_fs [("/d/log", data)] []) in
  if Z.of_nat (String.length data) <=? 10 then r = Ok false /\ fs' = fresh_fs [("/d/log", data)] []
  else
    r = Ok true /\ content (disk fs') "/d/log" = Some tail /\
    (exists pre, data = pre +:+ tail) /\ Z.of_nat (String.length tail) <= keep /\
    exists new, trace fs' = new ++ trace (fresh_fs [("/d/log", data)] []) /\
      forall d, d ∈ new -> exists rest, content d "/d/log" = Some (tail +:+ rest).
Proof.
  apply (cap_text_file_keeps_tail "/d/log" 10 "one
two
three
" (fresh_fs [("/d/log", "one
two
three
")] [])).
  - apply fresh_quiet.
  - reflexivity.
  - lia.
Defined.
