(* ===== verification/World.v ===== *)
(** Everything the engine reaches outside its own value: the file system it
    keeps its files on ([Fs]), the storage registry of the process ([Pool]) and
    the rest of the world, a state [W] behind the class [World]: the clocks, the
    random generator, the network, the devices that hold downloaded data and
    the BitTorrent session (librqbit).

    The engine's theorems hold for every [World]: nothing is assumed of what
    these calls answer, beyond the hypotheses a theorem names. *)

From S2P Require Import Prelude Float64 Fs Time Net Pool AtTorrent Catalog.

(** What [statvfs] reports, as far as the program reads it. *)
Record StatVfs := {
  f_bavail : Z;
  f_frsize : Z;
  f_blocks : Z;
}.

(** A directory entry: a subdirectory with its entries ([None]: unreadable), a
    file with its allocated blocks ([None]: no metadata), or anything else. *)
Inductive Entry :=
  | SubDir (entries : option (list Entry))
  | RegularFile (blocks : option Z)
  | OtherEntry.

(** A managed torrent of the session, as [with_torrents] shows it.  [mt_live]
    holds the received bytes when the torrent has live counters. *)
Record Managed := {
  mt_info_hash : string;
  mt_finished : bool;
  mt_progress_bytes : Z;
  mt_live : option Z;
  mt_initializing : bool;
}.

(** [AddTorrentOptions], as the program sets them. *)
Record AddTorrentOptions := {
  opt_output_folder : path;
  opt_overwrite : bool;
  opt_trackers : list string;
  opt_force_tracker_interval : duration;
}.

(** [ListenerOptions]: the port on every address. *)
Record ListenerOptions := {
  lo_port : Z;
  lo_ipv4_only : bool;
  lo_max_pending_handshakes : Z;
}.

(** [SessionOptions], as the program sets them, with the directory the session is
    opened in; the client's name and the random peer id are left out. *)
Record SessionOptions := {
  so_data_dir : path;
  so_listen : ListenerOptions;
  so_ipv4_only : bool;
  so_upload_bps : option Z;
  so_download_bps : option Z;
  so_peer_limit : Z;
  (** outgoing connections, when they are configured *)
  so_enable_tcp : option bool;
  so_dht : bool;
  so_disable_local_discovery : bool;
  (** the handle pool of [Pool] in place of the session's own storage *)
  so_pooled_storage : bool;
}.

(** What [api_session_stats] shows, as far as the program reads it. *)
Record SessionCounters := {
  sc_uploaded_bytes : Z;
  sc_fetched_bytes : Z;
  sc_live_peers : Z;
}.

(** [live::StateEntry]. *)
Record StateEntry := {
  se_title : string;
  se_info_hash : string;
  se_size_bytes : Z;
  se_last_known_seeders : Z;
}.

Inductive Activity := Booting | Scanning | Seeding.

(** tokio's interval: what its next tick is after a late one. *)
Inductive MissedTickBehavior := Burst | Delay | Skip.

(** A tick counts as missed when it is later than this. *)
Definition TICK_SLACK : duration := 5000000.

Class World (W : Type) := {
  world_http :: Http W;
  (** [Utc::now], and the monotonic clock of the runtime *)
  utc_now : M W instant;
  mono_now : M W instant;
  sleep : duration -> M W unit;
  (** when an interval with a period ticks next, from when it was to tick and
      when it did: a burst makes up for missed ticks, a delay counts from the
      late one *)
  next_tick : MissedTickBehavior -> instant -> instant -> duration -> instant;
  next_tick_burst due now_ period : next_tick Burst due now_ period = due + period;
  next_tick_delay due now_ period :
    due <= now_ -> now_ + period - TICK_SLACK <= next_tick Delay due now_ period;
  (** sleep, or return [true] as soon as shutdown is signalled *)
  sleep_or_shutdown : duration -> M W bool;
  shutdown_signalled : M W bool;
  (** [rng.gen_range(0.0..1.0)] *)
  gen_range_01 : M W f64;
  (** whether a request exceeds its timeout *)
  request_times_out : duration -> M W bool;
  statvfs : path -> M W (option StatVfs);
  read_dir_tree : path -> M W (option (list Entry));
  path_exists : path -> M W bool;
  create_data_dir : path -> M W (result io_error unit);
  remove_dir_all : path -> M W (result io_error unit);
  remove_dir : path -> M W (result io_error unit);
  (** [getrlimit] and the entries of [/proc/self/fd] *)
  fd_limits : M W (option (Z * Z) * option Z);
  (** the session: opening it, and stopping it within a time *)
  session_open : SessionOptions -> M W (result error unit);
  session_stop : duration -> M W unit;
  (** [None] when an add is list-only *)
  session_add : bytes -> AddTorrentOptions -> M W (result error (option string));
  session_wait_initialized : string -> M W unit;
  session_delete : string -> bool -> M W (result error unit);
  session_torrents : M W (list Managed);
  session_hashes w : Forall (fun t => String.length (mt_info_hash t) = 20%nat) (session_torrents w).1;
  session_distinct w : NoDup (mt_info_hash <$> (session_torrents w).1);
  session_counters : M W SessionCounters;
  (** the age of a file, when it has one that can be told *)
  file_age : path -> M W (option duration);
  (** [slice::shuffle] *)
  shuffle_items : list Item -> M W (list Item);
  (** the live query handle *)
  live_refresh : nat -> list StateEntry -> M W unit;
  live_set_activity : Activity -> M W unit;
  live_tick_tracker : M W unit;
  (** building the HTTP client; a request with a cookie: whether the status is a success, and the body *)
  http_client : M W (result error unit);
  http_get_cookie : string -> string -> M W (result error (bool * result error string));
  (** the permission bits of a directory, and setting them *)
  dir_mode : path -> M W (option Z);
  set_dir_mode : path -> Z -> M W unit;
  (** the memory of the host, zero when it cannot be told, and the contents of
      [/proc/self/statm] *)
  system_total_ram : M W Z;
  read_statm : M W (option string);
}.

(** The third-party decoders, with the widths of the integers they return. *)
Class Decoders := {
  torrent_from_bytes : bytes -> option RawMeta;
  bencode_from_bytes : bytes -> option Bencode;
  rss_from_reader : bytes -> option (list RssItem);
  torrent_sizes b m v :
    torrent_from_bytes b = Some m -> rm_validated m = Some v ->
    in_u64 (ri_total_length v) /\ in_u32 (ri_total_pieces v);
}.

Record Node (W : Type) := {
  node_fs : Fs;
  registry : Registry;
  world : W;
}.
Arguments node_fs {W}.
Arguments registry {W}.
Arguments world {W}.

Section Lifts.
Context {W : Type}.

Definition on_fs {A} (m : M Fs A) : M (Node W) A := fun n =>
  let '(a, fs) := m (node_fs n) in
  (a, {| node_fs := fs; registry := registry n; world := world n |}).

Definition on_registry {A} (m : M Registry A) : M (Node W) A := fun n =>
  let '(a, r) := m (registry n) in
  (a, {| node_fs := node_fs n; registry := r; world := world n |}).

Definition on_world {A} (m : M W A) : M (Node W) A := fun n =>
  let '(a, w) := m (world n) in
  (a, {| node_fs := node_fs n; registry := registry n; world := w |}).

(** A call on the network and the file system. *)
Definition on_net {A} (m : M (W * Fs) A) : M (Node W) A := fun n =>
  let '(a, (w, fs)) := m (world n, node_fs n) in
  (a, {| node_fs := fs; registry := registry n; world := w |}).
End Lifts.

(** ** A small world for the witnesses

    A clock that ticks a second per reading and jumps over sleeps, replies and
    rolls handed out in order, and a session that accepts every torrent. *)
Record Toy := {
  toy_clock : instant;
  toy_replies : list (result error HttpReply);
  toy_rolls : list f64;
  toy_torrents : list Managed;
  toy_free : Z;
}.

Definition toy_tick (d : duration) (w : Toy) : Toy :=
  {| toy_clock := toy_clock w + d; toy_replies := toy_replies w; toy_rolls := toy_rolls w;
     toy_torrents := toy_torrents w; toy_free := toy_free w |}.

Definition toy_now : M Toy instant := fun w => (toy_clock w, toy_tick (secs 1) w).

Definition toy_reply : M Toy (result error HttpReply) := fun w =>
  match toy_replies w with
  | r :: rs => (r, {| toy_clock := toy_clock w; toy_replies := rs; toy_rolls := toy_rolls w;
                      toy_torrents := toy_torrents w; toy_free := toy_free w |})
  | [] => (Err "no route", w)
  end.

Definition toy_roll : M Toy f64 := fun w =>
  match toy_rolls w with
  | r :: rs => (r, {| toy_clock := toy_clock w; toy_replies := toy_replies w; toy_rolls := rs;
                      toy_torrents := toy_torrents w; toy_free := toy_free w |})
  | [] => (fzero, w)
  end.

Definition toy_delete (hash : string) : M Toy (result error unit) := fun w =>
  (Ok tt, {| toy_clock := toy_clock w; toy_replies := toy_replies w; toy_rolls := toy_rolls w;
             toy_torrents := filter (fun t => mt_info_hash t <> hash) (toy_torrents w);
             toy_free := toy_free w |}).

(** Torrents of the session, one per hash of twenty bytes. *)
Definition toy_managed (w : Toy) : list Managed :=
  foldr (fun t ts =>
    if decide (String.length (mt_info_hash t) = 20%nat /\ mt_info_hash t ∉ mt_info_hash <$> ts)
    then t :: ts else ts) [] (toy_torrents w).

Lemma toy_hashes w : Forall (fun t => String.length (mt_info_hash t) = 20%nat) (toy_managed w).
Proof.
  unfold toy_managed. induction (toy_torrents w) as [|t ts IH]; simpl; [constructor|].
  case_decide as Ht; [|done]. constructor; [apply Ht|done].
Qed.

Lemma toy_distinct w : NoDup (mt_info_hash <$> toy_managed w).
Proof.
  unfold toy_managed. induction (toy_torrents w) as [|t ts IH]; simpl; [constructor|].
  case_decide as Ht; [|done]. cbn [fmap list_fmap]. constructor; [apply Ht|done].
Qed.

Definition toy_next_tick (b : MissedTickBehavior) (due now_ : instant) (period : duration) : instant :=
  match b with
  | Burst => due + period
  | Delay => if due + TICK_SLACK <? now_ then now_ + period else due + period
  | Skip => if due + TICK_SLACK <? now_ then now_ + period - (now_ - due) mod period else due + period
  end.

Lemma toy_next_tick_delay due now_ period :
  due <= now_ -> now_ + period - TICK_SLACK <= toy_next_tick Delay due now_ period.
Proof. unfold toy_next_tick, TICK_SLACK. intros Hd. destruct (Z.ltb_spec (due + 5000000) now_); lia. Qed.

Definition witness_world : World Toy :=
  {| world_http := {| http_get := fun _ => toy_reply |};
     utc_now := toy_now; mono_now := toy_now;
     sleep := fun d => modify (toy_tick (Z.max d 0));
     next_tick := toy_next_tick; next_tick_burst _ _ _ := eq_refl; next_tick_delay := toy_next_tick_delay;
     sleep_or_shutdown := fun d => modify (toy_tick (Z.max d 0)) ;;; ret false;
     shutdown_signalled := ret false;
     gen_range_01 := toy_roll;
     request_times_out := fun _ => ret false;
     statvfs := fun _ => gets (fun w => Some {| f_bavail := toy_free w; f_frsize := 1;
                                               f_blocks := toy_free w |});
     read_dir_tree := fun _ => ret None;
     path_exists := fun _ => ret false;
     create_data_dir := fun _ => ret (Ok tt);
     remove_dir_all := fun _ => ret (Ok tt);
     remove_dir := fun _ => ret (Ok tt);
     fd_limits := ret (None, None);
     session_add := fun b _ => ret (Ok (Some b));
     session_wait_initialized := fun _ => ret tt;
     session_delete := fun h _ => toy_delete h;
     session_torrents := gets toy_managed; session_hashes := toy_hashes;
     session_distinct := toy_distinct;
     session_open := fun _ => ret (Ok tt); session_stop := fun _ => ret tt;
     session_counters := ret {| sc_uploaded_bytes := 7; sc_fetched_bytes := 5; sc_live_peers := 1 |};
     file_age := fun _ => ret None;
     shuffle_items := ret;
     live_refresh := fun _ _ => ret tt;
     live_set_activity := fun _ => ret tt;
     live_tick_tracker := ret tt;
     http_client := ret (Ok tt);
     http_get_cookie := fun _ _ => ret (Err "no route");
     dir_mode := fun _ => ret (Some 448); set_dir_mode := fun _ _ => ret tt;
     system_total_ram := ret (2 ^ 33);
     read_statm := ret (Some "100 50 3") |}.

(** Metadata of a million bytes in ten pieces, its hash the file's contents. *)
Definition toy_meta (b : bytes) : RawMeta :=
  {| rm_info_hash := b; rm_announce := ["https://academictorrents.com/announce.php"];
     rm_creation_date := Some 5;
     rm_validated := Some {| ri_total_length := 1000000; ri_total_pieces := 10;
                             ri_files_padding := [false]; ri_name := None |} |}.

Lemma toy_sizes b m v :
  Some (toy_meta b) = Some m -> rm_validated m = Some v ->
  in_u64 (ri_total_length v) /\ in_u32 (ri_total_pieces v).
Proof. intros [= <-] [= <-]. simpl. ulia. Qed.

(** A scrape answers one seeder for the hash in the body. *)
Definition witness_decoders : Decoders :=
  {| torrent_from_bytes := fun b => Some (toy_meta b);
     bencode_from_bytes := fun b =>
       Some (BDict [("files", BDict [(b, BDict [("complete", BInteger 1)])])]);
     rss_from_reader := fun _ => Some [];
     torrent_sizes := toy_sizes |}.
