(* ===== verification/Storage.v ===== *)
(** Device and directory sizes, [engine/storage.rs]: allocated bytes of a
    directory tree, free and total bytes of a device, and the resolution of
    [limit: max]. *)

From S2P Require Import Prelude Float64 Fs World Config.

(** ** Directory sizes *)

Definition file_bytes (blocks : option Z) : Z :=
  match blocks with Some b => sat_mul64 b 512 | None => 0 end.

(** One directory: its files are counted, its subdirectories go on the stack. *)
Fixpoint visit (entries : list Entry) (stack : list (option (list Entry))) (total : Z)
    : list (option (list Entry)) * Z :=
  match entries with
  | [] => (stack, total)
  | SubDir d :: es => visit es (d :: stack) total
  | RegularFile blocks :: es => visit es stack (sat_add64 total (file_bytes blocks))
  | OtherEntry :: es => visit es stack total
  end.

(** The stack loop; every directory is popped once. *)
Fixpoint walk (fuel : nat) (stack : list (option (list Entry))) (total : Z) : Z :=
  match fuel with
  | O => total
  | S fuel =>
      match stack with
      | [] => total
      | None :: stack => walk fuel stack total
      | Some entries :: stack =>
          let '(stack, total) := visit entries stack total in walk fuel stack total
      end
  end.

(** The directories of a tree. *)
Fixpoint dirs_of (e : Entry) : nat :=
  match e with
  | SubDir None => 1
  | SubDir (Some es) => S (foldr (fun e n => dirs_of e + n)%nat 0%nat es)
  | _ => 0
  end.

Definition tree_size (d : option (list Entry)) : Z := walk (S (dirs_of (SubDir d))) [d] 0.

Definition dir_size_bytes {W} `{World W} (dir : path) : M W Z :=
  let* d := read_dir_tree dir in ret (tree_size d).

(** The same sum, by recursion on the tree and without saturation. *)
Fixpoint allocated (e : Entry) : Z :=
  match e with
  | SubDir None => 0
  | SubDir (Some es) => foldr (fun e n => allocated e + n) 0 es
  | RegularFile blocks => file_bytes blocks
  | OtherEntry => 0
  end.

(** Block counts are unsigned. *)
Fixpoint blocks_ok (e : Entry) : bool :=
  match e with
  | SubDir None => true
  | SubDir (Some es) => forallb blocks_ok es
  | RegularFile (Some b) => 0 <=? b
  | _ => true
  end.

(** ** Devices *)

Section Devices.
Context {W : Type} `{World W}.

Definition statvfs_of (p : path) : M (Node W) (result error StatVfs) :=
  let? _ := with_context ("creating " +:+ p) (on_world (create_data_dir p)) in
  let* st := on_world (statvfs p) in
  ret match st with Some st => Ok st | None => Err ("statvfs(" +:+ p +:+ ") failed") end.

Definition device_free_bytes (p : path) : M (Node W) (result error Z) :=
  let? st := statvfs_of p in ret (Ok (sat_mul64 (f_bavail st) (f_frsize st))).

Definition device_total_bytes (p : path) : M (Node W) (result error Z) :=
  let? st := statvfs_of p in ret (Ok (sat_mul64 (f_blocks st) (f_frsize st))).

(** [StorageLocation::limit_bytes]. *)
Definition limit_bytes (l : StorageLocation) : Z :=
  match limit l with Bytes b => b | _ => 0 end.

(** [disk_limit_total], a sum of [u64] that wraps in a release build. *)
Definition disk_limit_total (c : Config) : Z :=
  foldl (fun acc l => wrap64 (acc + limit_bytes l)) 0 (storage c).

Context (canonicalize : path -> option path).

(** One location: its canonical spelling, and [limit: max] made concrete. *)
Definition resolve_location (l : StorageLocation) : M (Node W) (result error StorageLocation) :=
  let p := default (location_path l) (canonicalize (location_path l)) in
  match limit l with
  | All =>
      let? total := with_context ("resolving `limit: max` for " +:+ p +:+ ": cannot stat device")
                      (device_total_bytes p) in
      ret (Ok {| location_path := p;
                 limit := Bytes (f64_to_u64 (fmul (f64_of_Z total) ALL_LIMIT_FRACTION)) |})
  | lim => ret (Ok {| location_path := p; limit := lim |})
  end.

Fixpoint resolve_locations (ls : list StorageLocation)
    : M (Node W) (result error (list StorageLocation)) :=
  match ls with
  | [] => ret (Ok [])
  | l :: ls =>
      let? l' := resolve_location l in
      let? ls' := resolve_locations ls in
      ret (Ok (l' :: ls'))
  end.

Fixpoint distinct_paths (seen : gset path) (ls : list StorageLocation) : result error unit :=
  match ls with
  | [] => Ok tt
  | l :: ls =>
      if decide (location_path l ∈ seen)
      then Err ("storage location " +:+ location_path l +:+ " is listed more than once")
      else distinct_paths ({[location_path l]} ∪ seen) ls
  end.

Definition set_storage (ls : list StorageLocation) (c : Config) : Config :=
  {| port := port c; data_dir := data_dir c; storage := ls; scan := scan c;
     aggressiveness := aggressiveness c; keyword_blocklist := keyword_blocklist c;
     preserve_deleted_torrents := preserve_deleted_torrents c;
     catalog_collapse_percent := catalog_collapse_percent c; max_ram := max_ram c;
     api_key := api_key c; upload_rate_limit := upload_rate_limit c;
     download_rate_limit := download_rate_limit c; stats_interval := stats_interval c;
     debug := debug c; log_file := log_file c |}.

Definition resolve_all_limits (c : Config) : M (Node W) (result error Config) :=
  let? ls := resolve_locations (storage c) in
  ret (try? _ := distinct_paths ∅ ls in Ok (set_storage ls c)).

(** [stats::disk_usage]. *)
Definition disk_usage (locations : list (path * Z)) : M W (Z * Z) :=
  foldM (fun acc l =>
    let* n := dir_size_bytes l.1 in
    ret (sat_add64 acc.1 n, sat_add64 acc.2 l.2)) (0, 0) locations.
End Devices.

(** ** The size of a tree *)

Fixpoint entry_ind' (P : Entry -> Prop)
    (Hdir : forall es, Forall P es -> P (SubDir (Some es))) (Hnone : P (SubDir None))
    (Hfile : forall b, P (RegularFile b)) (Hother : P OtherEntry) (e : Entry) : P e :=
  match e with
  | SubDir (Some es) =>
      Hdir es ((fix go es : Forall P es :=
        match es with
        | [] => Forall_nil_2 P
        | e :: es => Forall_cons_2 P e es (entry_ind' P Hdir Hnone Hfile Hother e) (go es)
        end) es)
  | SubDir None => Hnone
  | RegularFile b => Hfile b
  | OtherEntry => Hother
  end.

Lemma file_bytes_nonneg b : match b with Some b => 0 <= b | None => True end -> 0 <= file_bytes b.
Proof. destruct b; simpl; ulia. Qed.

Lemma allocated_nonneg e : blocks_ok e = true -> 0 <= allocated e.
Proof.
  induction e as [es IH| |[b|]|] using entry_ind'; simpl; try lia.
  - induction IH as [|e es He IH IHes]; simpl; [lia|]. intros [H1 H2]%andb_true_iff.
    specialize (He H1). specialize (IHes H2). lia.
  - intros Hb. simpl_bool. ulia.
Qed.

(** The directories and the bytes waiting on a stack. *)
Definition stack_dirs (stack : list (option (list Entry))) : nat :=
  foldr (fun d n => dirs_of (SubDir d) + n)%nat 0%nat stack.
Definition stack_bytes (stack : list (option (list Entry))) : Z :=
  foldr (fun d n => allocated (SubDir d) + n) 0 stack.
Definition stack_ok (stack : list (option (list Entry))) : bool :=
  forallb (fun d => blocks_ok (SubDir d)) stack.

Lemma visit_spec es : forall stack total t,
  forallb blocks_ok es = true -> stack_ok stack = true ->
  0 <= t -> total = Z.min t U64_MAX ->
  let '(stack', total') := visit es stack total in
  stack_ok stack' = true /\
  stack_dirs stack' = (foldr (fun e n => dirs_of e + n) 0 es + stack_dirs stack)%nat /\
  exists t', 0 <= t' /\ total' = Z.min t' U64_MAX /\
    t' + stack_bytes stack' = t + foldr (fun e n => allocated e + n) 0 es + stack_bytes stack.
Proof.
  induction es as [|e es IH]; intros stack total t; cbn [visit foldr forallb].
  - intros _ Hs Ht ->. split; [done|]. split; [done|]. exists t. repeat split; lia.
  - intros [He Hes]%andb_true_iff Hs Ht ->. destruct e as [d|b|].
    + specialize (IH (d :: stack) (Z.min t U64_MAX) t Hes).
      destruct (visit es _ _) as [stack' total'].
      destruct IH as (H1 & H2 & t' & H3 & H4 & H5);
        [cbn [stack_ok forallb]; by rewrite He|done|done|].
      split; [done|]. split; [rewrite H2; unfold stack_dirs; cbn [foldr]; lia|].
      exists t'. split; [done|]. split; [done|]. rewrite H5. unfold stack_bytes. cbn [foldr]. lia.
    + assert (0 <= file_bytes b) by (apply file_bytes_nonneg; destruct b; [simpl in He; by simpl_bool|done]).
      specialize (IH stack (sat_add64 (Z.min t U64_MAX) (file_bytes b)) (t + file_bytes b) Hes Hs).
      destruct (visit es _ _) as [stack' total'].
      destruct IH as (H1 & H2 & t' & H3 & H4 & H5); [lia|ulia|].
      split; [done|]. split; [done|]. exists t'. split; [done|]. split; [done|].
      simpl allocated. lia.
    + specialize (IH stack (Z.min t U64_MAX) t Hes Hs Ht eq_refl).
      destruct (visit es _ _) as [stack' total']. exact IH.
Qed.

Lemma subdir_dirs es : dirs_of (SubDir (Some es)) = S (foldr (fun e n => dirs_of e + n)%nat 0%nat es).
Proof. done. Qed.

Lemma subdir_bytes es : allocated (SubDir (Some es)) = foldr (fun e n => allocated e + n) 0 es.
Proof. done. Qed.

Lemma walk_spec fuel : forall stack total t,
  (stack_dirs stack < fuel)%nat -> stack_ok stack = true -> 0 <= t -> total = Z.min t U64_MAX ->
  walk fuel stack total = Z.min (t + stack_bytes stack) U64_MAX.
Proof.
  induction fuel as [|fuel IH]; intros stack total t Hf Hok Ht ->; [lia|]. cbn [walk].
  destruct stack as [|[es|] stack].
  - unfold stack_bytes. simpl. f_equal. lia.
  - cbn [stack_ok forallb] in Hok. apply andb_true_iff in Hok as [Hes Hok].
    pose proof (visit_spec es stack (Z.min t U64_MAX) t Hes Hok Ht eq_refl) as Hv.
    destruct (visit es stack _) as [stack' total']. destruct Hv as (H1 & H2 & t' & H3 & H4 & H5).
    change (dirs_of (SubDir (Some es)) + stack_dirs stack < S fuel)%nat in Hf.
    change (stack_bytes (Some es :: stack)) with (allocated (SubDir (Some es)) + stack_bytes stack).
    rewrite subdir_dirs in Hf. rewrite (IH stack' total' t'), subdir_bytes by (done || lia).
    f_equal. lia.
  - change (1 + stack_dirs stack < S fuel)%nat in Hf.
    change (stack_bytes (None :: stack)) with (0 + stack_bytes stack).
    rewrite (IH stack _ t) by (done || lia). f_equal.
Qed.

(** The directory walk terminates with every allocated block of the tree
    counted once: whatever the shape of the tree, the stack loop's total is the
    sum over all its files, capped at the largest [u64]. *)
Theorem tree_size_spec d :
  blocks_ok (SubDir d) = true ->
  tree_size d = Z.min (allocated (SubDir d)) U64_MAX /\ 0 <= allocated (SubDir d).
Proof.
  intros Hok. split; [|by apply allocated_nonneg]. unfold tree_size.
  assert (stack_dirs [d] = dirs_of (SubDir d)) as Hd by apply Nat.add_0_r.
  assert (stack_bytes [d] = allocated (SubDir d)) as Hb by apply Z.add_0_r.
  rewrite (walk_spec _ [d] 0 0), Hb; [f_equal; lia|lia| |lia|done].
  unfold stack_ok, forallb. by rewrite Hok.
Qed.

Definition witness_tree : option (list Entry) :=
  Some [RegularFile (Some 8); SubDir (Some [RegularFile (Some 2); RegularFile None; SubDir None]);
        OtherEntry; SubDir (Some [SubDir (Some [RegularFile (Some 1)])])].

Lemma tree_size_spec_witness :
  tree_size witness_tree = Z.min (allocated (SubDir witness_tree)) U64_MAX /\
  0 <= allocated (SubDir witness_tree).
Proof. apply (tree_size_spec witness_tree). vm_compute. reflexivity. Defined.

(** ** Resolved limits *)

Section Resolved.
Context {W : Type} `{World W} (canonicalize : path -> option path).

(** What resolution makes of a location. *)
Definition resolved (l l' : StorageLocation) : Prop :=
  location_path l' = default (location_path l) (canonicalize (location_path l)) /\
  match limit l with
  | All => exists total, limit l' = Bytes (f64_to_u64 (fmul (f64_of_Z total) ALL_LIMIT_FRACTION))
  | lim => limit l' = lim
  end.

Lemma resolve_location_spec l n l' :
  (resolve_location canonicalize l n).1 = Ok l' -> resolved l l'.
Proof.
  unfold resolve_location, bindR, bind, with_context, resolved, ret, bind.
  destruct (limit l); [by intros [= <-]|by intros [= <-]|].
  destruct (device_total_bytes _ n) as [[total|e] n']; [|done]. simpl. intros [= <-]. eauto.
Qed.

Lemma resolve_locations_spec ls n ls' :
  (resolve_locations canonicalize ls n).1 = Ok ls' -> Forall2 resolved ls ls'.
Proof.
  revert n ls'. induction ls as [|l ls IH]; intros n ls'; simpl; [intros [= <-]; constructor|].
  unfold bindR, bind. pose proof (resolve_location_spec l n) as Hl.
  destruct (resolve_location canonicalize l n) as [[l1|e] n1]; [|done].
  specialize (IH n1). destruct (resolve_locations canonicalize ls n1) as [[ls1|e] n2]; [|done].
  simpl in *. intros [= <-]. constructor; [by apply Hl|by apply IH].
Qed.

Lemma distinct_paths_spec seen ls u :
  distinct_paths seen ls = Ok u ->
  NoDup (location_path <$> ls) /\ Forall (fun l => location_path l ∉ seen) ls.
Proof.
  revert seen. induction ls as [|l ls IH]; intros seen; simpl.
  - intros _. split; [constructor|done].
  - destruct (decide _) as [|Hn]; [done|]. intros [H1 H2]%IH. split.
    + constructor; [|done]. intros (l2 & Heq & Hin)%list_elem_of_fmap.
      rewrite Forall_forall in H2. apply (H2 l2 Hin). rewrite <- Heq. set_solver.
    + constructor; [done|]. eapply Forall_impl; [exact H2|]. simpl. set_solver.
Qed.

Lemma resolve_all_limits_ok c n c' :
  (resolve_all_limits canonicalize c n).1 = Ok c' ->
  c' = set_storage (storage c') c /\ Forall2 resolved (storage c) (storage c') /\
  NoDup (location_path <$> storage c').
Proof.
  unfold resolve_all_limits, bindR, bind. pose proof (resolve_locations_spec (storage c) n) as Hl.
  destruct (resolve_locations canonicalize (storage c) n) as [[ls|e] n']; [|done]. simpl in *.
  destruct (distinct_paths ∅ ls) as [u|e] eqn:E; [|done]. intros [= <-].
  apply distinct_paths_spec in E as [Hd _]. split; [done|]. split; [by apply Hl|done].
Qed.
End Resolved.
