(* ===== verification/Cli.v ===== *)
(** Resolution of a configuration from flags and files, [cli.rs]: which file is
    read, how flags override it, how storage flags pair up, and which data
    directory the read-only commands look at.  Parsing the command line itself
    is clap's; [ConfigArgs] is what it hands over, numbers and durations parsed. *)

From S2P Require Import Prelude Text Float64 Fs Persist Time Config World Storage Service.

Record CommonArgs := {
  arg_config : option path;
  arg_data_dir : option path;
}.

Record ConfigArgs := {
  a_storage_location : list path;
  a_storage_limit : list string;
  a_storage : option path;
  a_port : option Z;
  a_rate_limit : option f64;
  a_api_key : option string;
  a_aggressiveness : option f64;
  a_min_seed_margin : option Z;
  a_scan_interval : option duration;
  a_moderation_delay : option duration;
  a_stall_eviction_timeout : option duration;
  a_vanished_eviction_timeout : option duration;
  a_quarantine_check_interval : option duration;
  a_broken_piece_discard_bytes : option string;
  a_broken_piece_min_windows : option Z;
  a_quarantine_cooldown : option duration;
  a_quarantine_max_retries : option Z;
  a_keyword_blocklist : option string;
  a_preserve_deleted_torrents : option bool;
  a_catalog_collapse_percent : option Z;
  a_max_ram : option string;
  a_upload_rate_limit : option string;
  a_download_rate_limit : option string;
  a_cfg_data_dir : option path;
  a_stats_interval : option duration;
  a_debug : option bool;
  a_log_file : option path;
}.

Record NetworkStatusArgs := {
  ns_common : CommonArgs;
  ns_probe_timeout : option duration;
  ns_api_key : option string;
  ns_rate_limit : option f64;
}.

Record LogsArgs := { la_common : CommonArgs; la_all : bool; la_lines : nat }.

Record HistoryArgs := { ha_common : CommonArgs; ha_all : bool; ha_no_follow : bool; ha_lines : nat }.

Record RunArgs := { ra_common : CommonArgs; ra_cfg : ConfigArgs; ra_foreground : bool }.

Record ServiceInstallArgs := { si_user : string; si_common : CommonArgs; si_cfg : ConfigArgs }.

Inductive ServiceOp := Install (a : ServiceInstallArgs) | Uninstall.

Record SelfUpdateArgs := { su_beta : bool; su_common : CommonArgs }.

Inductive Command :=
  | RunCmd (a : RunArgs)
  | StartCmd (a : RunArgs)
  | StopCmd (a : CommonArgs)
  | StatusCmd (a : CommonArgs)
  | LogsCmd (a : LogsArgs)
  | HistoryCmd (a : HistoryArgs)
  | ServiceCmd (op : ServiceOp)
  | NetworkStatusCmd (a : NetworkStatusArgs)
  | HostedTorrentsCmd (a : CommonArgs)
  | SelfUpdateCmd (a : SelfUpdateArgs)
  | TriageLastExitCmd (a : CommonArgs)
  | VersionCmd.

(** Which commands die quietly of a closed pipe; never one that becomes the daemon. *)
Definition restores_sigpipe_default (cmd : Command) : bool :=
  match cmd with
  | StatusCmd _ | LogsCmd _ | HostedTorrentsCmd _ | NetworkStatusCmd _ | VersionCmd | TriageLastExitCmd _ | StopCmd _ => true
  | RunCmd _ | StartCmd _ | HistoryCmd _ | ServiceCmd _ | SelfUpdateCmd _ => false
  end.

Definition given {A} (o : option A) : bool := match o with Some _ => true | None => false end.

Definition storage_flags_set (a : ConfigArgs) : bool :=
  negb (bool_decide (a_storage_location a = [])) || negb (bool_decide (a_storage_limit a = [])) ||
  given (a_storage a).

Definition any_set (a : ConfigArgs) : bool :=
  given (a_port a) || given (a_cfg_data_dir a) || given (a_aggressiveness a) ||
  given (a_min_seed_margin a) || given (a_scan_interval a) || given (a_moderation_delay a) ||
  given (a_rate_limit a) || given (a_stall_eviction_timeout a) ||
  given (a_vanished_eviction_timeout a) || given (a_quarantine_check_interval a) ||
  given (a_broken_piece_discard_bytes a) || given (a_broken_piece_min_windows a) ||
  given (a_quarantine_cooldown a) || given (a_quarantine_max_retries a) ||
  given (a_keyword_blocklist a) || given (a_preserve_deleted_torrents a) ||
  given (a_catalog_collapse_percent a) || given (a_max_ram a) || given (a_api_key a) ||
  given (a_upload_rate_limit a) || given (a_download_rate_limit a) ||
  given (a_stats_interval a) || given (a_debug a) || given (a_log_file a).

Definition split_keywords (raw : string) : list string :=
  filter (fun p => p <> "") (trim <$> split_on "," raw).

(** A size flag: parsed, and checked where it is a limit of a rate. *)
Definition context {A} (msg : error) (r : result error A) : result error A :=
  match r with Ok a => Ok a | Err e => Err (msg +:+ ": " +:+ e) end.

Definition size_flag (flag : string) (checked : bool) (v : option string) (old : Z)
    : result error Z :=
  match v with
  | None => Ok old
  | Some s =>
      try? b := context flag (parse_byte_size s) in
      try? _ := (if checked then context flag (check_bandwidth_limit flag b) else Ok tt) in
      Ok b
  end.

Definition apply_scan (a : ConfigArgs) (discard : Z) (s : ScanConfig) : ScanConfig :=
  {| interval := default (interval s) (a_scan_interval a);
     rate_limit_per_second := default (rate_limit_per_second s) (a_rate_limit a);
     min_seed_margin := default (min_seed_margin s) (a_min_seed_margin a);
     moderation_delay := default (moderation_delay s) (a_moderation_delay a);
     stall_eviction_timeout := default (stall_eviction_timeout s) (a_stall_eviction_timeout a);
     vanished_eviction_timeout :=
       default (vanished_eviction_timeout s) (a_vanished_eviction_timeout a);
     quarantine_check_interval :=
       default (quarantine_check_interval s) (a_quarantine_check_interval a);
     broken_piece_discard_bytes := discard;
     broken_piece_min_windows :=
       default (broken_piece_min_windows s) (a_broken_piece_min_windows a);
     quarantine_cooldown := default (quarantine_cooldown s) (a_quarantine_cooldown a);
     quarantine_max_retries := default (quarantine_max_retries s) (a_quarantine_max_retries a) |}.

(** [ConfigArgs::apply_to]; the configuration of a failed call is dropped. *)
Definition apply_to (a : ConfigArgs) (c : Config) : result error Config :=
  try? discard := size_flag "--broken-piece-discard-bytes" false (a_broken_piece_discard_bytes a)
                    (broken_piece_discard_bytes (scan c)) in
  try? ram := size_flag "--max-ram" true (a_max_ram a) (max_ram c) in
  try? up := size_flag "--upload-rate-limit" true (a_upload_rate_limit a) (upload_rate_limit c) in
  try? down := size_flag "--download-rate-limit" true (a_download_rate_limit a)
                 (download_rate_limit c) in
  Ok {| port := default (port c) (a_port a);
        data_dir := default (data_dir c) (a_cfg_data_dir a);
        storage := storage c;
        scan := apply_scan a discard (scan c);
        aggressiveness := default (aggressiveness c) (a_aggressiveness a);
        keyword_blocklist := default (keyword_blocklist c) (split_keywords <$> a_keyword_blocklist a);
        preserve_deleted_torrents :=
          default (preserve_deleted_torrents c) (a_preserve_deleted_torrents a);
        catalog_collapse_percent :=
          default (catalog_collapse_percent c) (a_catalog_collapse_percent a);
        max_ram := ram;
        api_key := default (api_key c) (a_api_key a);
        upload_rate_limit := up;
        download_rate_limit := down;
        stats_interval := default (stats_interval c) (a_stats_interval a);
        debug := default (debug c) (a_debug a);
        log_file := match a_log_file a with Some p => Some p | None => log_file c end |}.

(** [ConfigArgs::storage_from_flags]: each location with the next limit; what is
    left over goes to [--storage], or to the default location. *)
Fixpoint pair_locations (locs : list path) (limits : list string)
    : result error (list StorageLocation * list string) :=
  match locs with
  | [] => Ok ([], limits)
  | p :: locs =>
      match limits with
      | [] => Err ("--storage-location " +:+ p +:+ " has no matching --storage-limit")
      | raw :: limits =>
          try? l := parse_limit raw in
          try? rest := pair_locations locs limits in
          Ok ({| location_path := p; limit := l |} :: rest.1, rest.2)
      end
  end.

Definition storage_from_flags (home : option string) (a : ConfigArgs)
    : result error (list StorageLocation) :=
  try? paired := pair_locations (a_storage_location a) (a_storage_limit a) in
  let '(locs, leftover) := paired in
  match a_storage a, leftover with
  | Some p, [raw] =>
      try? l := parse_limit raw in Ok (locs ++ [{| location_path := p; limit := l |}])
  | Some _, [] => Err "--storage-limit is required"
  | Some _, _ => Err "--storage can't be combined with multiple --storage-location/--storage-limit pairs"
  | None, [raw] =>
      try? l := parse_limit raw in
      Ok (locs ++ [{| location_path := default_storage_location home; limit := l |}])
  | None, [] => Ok locs
  | None, _ => Err "--storage-limit given without a matching --storage-location"
  end.

Definition set_data_dir (d : path) (c : Config) : Config :=
  {| port := port c; data_dir := d; storage := storage c; scan := scan c;
     aggressiveness := aggressiveness c; keyword_blocklist := keyword_blocklist c;
     preserve_deleted_torrents := preserve_deleted_torrents c;
     catalog_collapse_percent := catalog_collapse_percent c; max_ram := max_ram c;
     api_key := api_key c; upload_rate_limit := upload_rate_limit c;
     download_rate_limit := download_rate_limit c; stats_interval := stats_interval c;
     debug := debug c; log_file := log_file c |}.

Definition set_rate_limit (r : f64) (c : Config) : Config :=
  let s := scan c in
  {| port := port c; data_dir := data_dir c; storage := storage c;
     scan := {| interval := interval s; rate_limit_per_second := r;
                min_seed_margin := min_seed_margin s; moderation_delay := moderation_delay s;
                stall_eviction_timeout := stall_eviction_timeout s;
                vanished_eviction_timeout := vanished_eviction_timeout s;
                quarantine_check_interval := quarantine_check_interval s;
                broken_piece_discard_bytes := broken_piece_discard_bytes s;
                broken_piece_min_windows := broken_piece_min_windows s;
                quarantine_cooldown := quarantine_cooldown s;
                quarantine_max_retries := quarantine_max_retries s |};
     aggressiveness := aggressiveness c; keyword_blocklist := keyword_blocklist c;
     preserve_deleted_torrents := preserve_deleted_torrents c;
     catalog_collapse_percent := catalog_collapse_percent c; max_ram := max_ram c;
     api_key := api_key c; upload_rate_limit := upload_rate_limit c;
     download_rate_limit := download_rate_limit c; stats_interval := stats_interval c;
     debug := debug c; log_file := log_file c |}.

Section Resolve.
Context `{Yaml}.
Context (canonicalize : path -> option path) (home : option string).

(** [service_config_if_present]. *)
Definition service_config_if_present : M Fs (option path) :=
  let* r := fs_mode CONFIG_PATH in
  ret (if is_ok r then Some CONFIG_PATH else None).

(** The file that is read: the one named, or the service's when nothing at all
    is given. *)
Definition config_source (common : CommonArgs) (a : ConfigArgs) : M Fs (option path * bool) :=
  match arg_config common with
  | Some p => ret (Some p, false)
  | None =>
      if negb (storage_flags_set a) && negb (any_set a) then
        let* p := service_config_if_present in ret (p, given p)
      else ret (None, false)
  end.

Definition resolve_storage (common : CommonArgs) (a : ConfigArgs) (file : option path) (c : Config)
    : result error Config :=
  if storage_flags_set a then
    match file with
    | Some p => Err ("--storage-location/--storage-limit/--storage can't be combined with --config; edit " +:+
                     p +:+ " instead")
    | None =>
        try? locs := storage_from_flags home a in
        if bool_decide (locs = []) then Err "--storage-limit is required"
        else Ok (set_storage locs c)
    end
  else if negb (given file) && bool_decide (storage c = []) then Err "no storage configured"
  else Ok c.

Definition resolve (common : CommonArgs) (a : ConfigArgs) : M Fs (result error Config) :=
  let* source := config_source common a in
  let '(file, from_service) := source in
  let? c :=
    match file with
    | None => ret (Ok (config_default home))
    | Some p =>
        let* r := load canonicalize home p in
        ret match r with
            | Ok c => Ok c
            | Err e =>
                Err (if (from_service : bool)
                     then "found an installed service config at " +:+ p +:+ " but couldn't load it: " +:+ e
                     else e)
            end
    end in
  let? c := ret (apply_to a c) in
  let c := match arg_data_dir common with Some d => set_data_dir d c | None => c end in
  let* c := merge_key_file c in
  ret (try? c := resolve_storage common a file c in
       try? _ := validate canonicalize c in
       Ok c).

Definition resolve_data_dir (args : CommonArgs) : M Fs (result error path) :=
  match arg_data_dir args, arg_config args with
  | Some d, _ => ret (Ok d)
  | None, Some p => let? c := load_readonly canonicalize home p in ret (Ok (data_dir c))
  | None, None =>
      let* pointer := read_data_dir_pointer in
      match pointer with
      | Some d => ret (Ok d)
      | None =>
          let* service := service_config_if_present in
          match service with
          | Some p =>
              let* r := load_readonly canonicalize home p in
              ret match r with
                  | Ok c => Ok (data_dir c)
                  | Err e =>
                      Err (e +:+ newline +:+ "hint: this is an older install; run `sudo keep-at " +:+
                           "service install` once (or restart the daemon) to write " +:+
                           DATA_DIR_POINTER +:+ " and open the config up")
                  end
          | None => ret (Ok (data_dir (config_default home)))
          end
      end
  end.

Definition resolve_census (args : NetworkStatusArgs) : M Fs (result error Config) :=
  let* file := match arg_config (ns_common args) with
               | Some p => ret (Some p)
               | None => service_config_if_present
               end in
  let? c := match file with
            | Some p => load_readonly canonicalize home p
            | None => ret (Ok (config_default home))
            end in
  let c := match arg_data_dir (ns_common args) with Some d => set_data_dir d c | None => c end in
  let c := match ns_api_key args with Some k => set_api_key k c | None => c end in
  ret match ns_rate_limit args with
      | Some r => try? _ := check_rate_limit r in Ok (set_rate_limit r c)
      | None => Ok c
      end.
End Resolve.

(** [history] prints and is piped like its siblings, yet keeps writing into a
    closed pipe. *)
Example history_keeps_sigpipe_ignored l h :
  restores_sigpipe_default (LogsCmd l) = true /\ restores_sigpipe_default (HistoryCmd h) = false.
Proof. split; reflexivity. Qed.

(** ** Storage flags *)

(** Where the storage is to be: the named locations, and what a last limit
    without a location of its own is for. *)
Definition wanted_paths (home : option string) (a : ConfigArgs) : list path :=
  a_storage_location a ++
  match a_storage a with
  | Some p => [p]
  | None => if (length (a_storage_location a) <? length (a_storage_limit a))%nat
            then [default_storage_location home] else []
  end.

Definition limit_of (raw : string) (l : StorageLocation) : Prop := parse_limit raw = Ok (limit l).

Lemma pair_locations_spec paths : forall limits locs left,
  pair_locations paths limits = Ok (locs, left) <->
  exists used, limits = used ++ left /\ location_path <$> locs = paths /\ Forall2 limit_of used locs.
Proof.
  induction paths as [|p paths IH]; intros limits locs left; cbn [pair_locations].
  - split.
    + intros [= <- <-]. exists []. by repeat constructor.
    + intros (used & -> & Hp & Hu). apply fmap_nil_inv in Hp as ->. by apply Forall2_nil_inv_r in Hu as ->.
  - destruct limits as [|raw limits].
    + split; [done|]. intros (used & Hl & Hp & Hu). symmetry in Hl.
      apply app_eq_nil in Hl as [-> ->]. apply Forall2_nil_inv_l in Hu as ->. done.
    + split.
      * intros (l & Hl & ([locs' left'] & Hrest & [= <- <-])%rbind_ok)%rbind_ok.
        apply IH in Hrest as (used & -> & <- & Hu).
        exists (raw :: used). split; [done|]. split; [done|]. by constructor.
      * intros ([|raw' used] & Hl & Hp & Hu).
        { apply Forall2_nil_inv_l in Hu as ->. done. }
        injection Hl as <- ->. apply Forall2_cons_inv_l in Hu as (l & locs' & Hl & Hu & ->).
        injection Hp as <- Hp. unfold limit_of in Hl. rewrite Hl. cbn [rbind].
        rewrite (proj2 (IH (used ++ left) locs' left)) by by exists used. cbn. by destruct l.
Qed.

(** A limit left over goes to the last location of its own. *)
Lemma last_limit_pairs home a used p raw ls l :
  wanted_paths home a = a_storage_location a ++ [p] -> a_storage_limit a = used ++ [raw] ->
  location_path <$> ls = a_storage_location a -> Forall2 limit_of used ls -> parse_limit raw = Ok l ->
  location_path <$> ls ++ [{| location_path := p; limit := l |}] = wanted_paths home a /\
  Forall2 limit_of (a_storage_limit a) (ls ++ [{| location_path := p; limit := l |}]).
Proof.
  intros -> -> Hp Hu Hl. split; [by rewrite fmap_app, Hp|].
  apply Forall2_app; [done|]. by repeat constructor.
Qed.

(** Locations that end in one of their own pair all but the last limit, and
    the last limit reads. *)
Lemma last_limit_splits home a p locs :
  wanted_paths home a = a_storage_location a ++ [p] ->
  location_path <$> locs = wanted_paths home a -> Forall2 limit_of (a_storage_limit a) locs ->
  exists raw ls, pair_locations (a_storage_location a) (a_storage_limit a) = Ok (ls, [raw]) /\
    (try? l := parse_limit raw in Ok (ls ++ [{| location_path := p; limit := l |}])) = Ok locs.
Proof.
  intros -> Hp Hu. apply fmap_app_inv in Hp as (ls & l1 & Hls & Hl1 & ->).
  destruct l1 as [|l [|]]; try done. injection Hl1 as Hl.
  apply Forall2_app_inv_r in Hu as (used & lastl & Hused & Hlast & Hlim).
  apply Forall2_cons_inv_r in Hlast as (raw & rest & Hraw & Hrest & ->).
  apply Forall2_nil_inv_r in Hrest as ->. exists raw, ls. split.
  - apply pair_locations_spec. by exists used.
  - unfold limit_of in Hraw. rewrite Hraw, Hl. cbn. by destruct l.
Qed.

(** Storage flags pair up exactly: resolution succeeds just when every
    [--storage-limit] is used once, in order, each for the location it stands
    by, every [--storage-location] has one, and a single limit left over goes to
    [--storage] or, without it, to the default location; every limit is read as
    given, and none is made up. *)
Theorem storage_flags_paired home a locs :
  storage_from_flags home a = Ok locs <->
  location_path <$> locs = wanted_paths home a /\ Forall2 limit_of (a_storage_limit a) locs.
Proof.
  pose proof (last_limit_pairs home a) as Hlast. pose proof (last_limit_splits home a) as Hsplit.
  unfold storage_from_flags. unfold wanted_paths in *. split.
  - intros ([ls left] & (used & Hlim & Hp & Hu)%pair_locations_spec & Hk)%rbind_ok.
    pose proof (Forall2_length _ _ _ Hu) as Hlen. pose proof (f_equal length Hp) as Hlen'.
    rewrite length_fmap in Hlen'.
    destruct (a_storage a) as [p|]; destruct left as [|raw [|? ?]]; try done.
    + apply rbind_ok in Hk as (l & Hl & [= <-]). by eapply Hlast.
    + injection Hk as <-. rewrite app_nil_r in Hlim. rewrite Hlim, <- Hp.
      rewrite (proj2 (Nat.ltb_ge _ _)) by (rewrite length_fmap; lia).
      by rewrite app_nil_r.
    + apply rbind_ok in Hk as (l & Hl & [= <-]). eapply Hlast; try done.
      rewrite Hlim, length_app. simpl. by rewrite (proj2 (Nat.ltb_lt _ _)) by lia.
  - intros [Hp Hu]. destruct (a_storage a) as [p|].
    + by destruct (Hsplit p locs eq_refl Hp Hu) as (raw & ls & -> & Hok).
    + destruct (Nat.ltb_spec (length (a_storage_location a)) (length (a_storage_limit a))).
      * by destruct (Hsplit (default_storage_location home) locs eq_refl Hp Hu) as (raw & ls & -> & Hok).
      * rewrite app_nil_r in Hp.
        assert (pair_locations (a_storage_location a) (a_storage_limit a) = Ok (locs, [])) as ->; [|done].
        apply pair_locations_spec. exists (a_storage_limit a). by rewrite app_nil_r.
Qed.

(** ** Flags and files *)

Definition no_flags : ConfigArgs :=
  {| a_storage_location := []; a_storage_limit := []; a_storage := None; a_port := None;
     a_rate_limit := None; a_api_key := None; a_aggressiveness := None; a_min_seed_margin := None;
     a_scan_interval := None; a_moderation_delay := None; a_stall_eviction_timeout := None;
     a_vanished_eviction_timeout := None; a_quarantine_check_interval := None;
     a_broken_piece_discard_bytes := None; a_broken_piece_min_windows := None;
     a_quarantine_cooldown := None; a_quarantine_max_retries := None; a_keyword_blocklist := None;
     a_preserve_deleted_torrents := None; a_catalog_collapse_percent := None; a_max_ram := None;
     a_upload_rate_limit := None; a_download_rate_limit := None; a_cfg_data_dir := None;
     a_stats_interval := None; a_debug := None; a_log_file := None |}.

Lemma given_false {A} (o : option A) : given o = false -> o = None.
Proof. by destruct o. Qed.

(** [any_set] forgets no flag: an invocation that sets nothing is the empty one. *)
Lemma any_set_complete a : any_set a = false -> storage_flags_set a = false -> a = no_flags.
Proof.
  unfold any_set, storage_flags_set. rewrite !orb_false_iff, !negb_false_iff, !bool_decide_eq_true.
  intros Hany Hst. destruct a; cbn in *. unfold no_flags.
  repeat match goal with
         | H : _ /\ _ |- _ => destruct H
         | H : given _ = false |- _ => apply given_false in H
         end. by subst.
Qed.

(** A flag that was given is what the configuration says. *)
Definition wins {A} (flag : option A) (v : A) : Prop := match flag with Some x => v = x | None => True end.

Definition size_wins (flag : option string) (v : Z) : Prop :=
  match flag with Some s => parse_byte_size s = Ok v | None => True end.

Record honours (a : ConfigArgs) (c : Config) : Prop := {
  honours_network : wins (a_port a) (port c) /\
    wins (a_rate_limit a) (rate_limit_per_second (scan c)) /\
    (forall k, a_api_key a = Some k -> k <> "" -> api_key c = k);
  honours_selection : wins (a_aggressiveness a) (aggressiveness c) /\
    wins (a_min_seed_margin a) (min_seed_margin (scan c)) /\
    wins (a_scan_interval a) (interval (scan c)) /\
    wins (a_moderation_delay a) (moderation_delay (scan c)) /\
    wins (a_stall_eviction_timeout a) (stall_eviction_timeout (scan c)) /\
    wins (a_vanished_eviction_timeout a) (vanished_eviction_timeout (scan c)) /\
    wins (split_keywords <$> a_keyword_blocklist a) (keyword_blocklist c) /\
    wins (a_preserve_deleted_torrents a) (preserve_deleted_torrents c) /\
    wins (a_catalog_collapse_percent a) (catalog_collapse_percent c);
  honours_quarantine : wins (a_quarantine_check_interval a) (quarantine_check_interval (scan c)) /\
    size_wins (a_broken_piece_discard_bytes a) (broken_piece_discard_bytes (scan c)) /\
    wins (a_broken_piece_min_windows a) (broken_piece_min_windows (scan c)) /\
    wins (a_quarantine_cooldown a) (quarantine_cooldown (scan c)) /\
    wins (a_quarantine_max_retries a) (quarantine_max_retries (scan c));
  honours_limits : size_wins (a_max_ram a) (max_ram c) /\
    size_wins (a_upload_rate_limit a) (upload_rate_limit c) /\
    size_wins (a_download_rate_limit a) (download_rate_limit c);
  honours_logging : wins (a_stats_interval a) (stats_interval c) /\ wins (a_debug a) (debug c) /\
    wins (Some <$> a_log_file a) (log_file c);
}.

Lemma wins_default {A} (flag : option A) old : wins flag (default old flag).
Proof. by destruct flag. Qed.

Lemma size_flag_wins flag checked v old b : size_flag flag checked v old = Ok b -> size_wins v b.
Proof.
  destruct v as [s|]; [|done]. simpl. intros (b' & Hp & Hk)%rbind_ok.
  apply rbind_ok in Hk as (? & _ & [= <-]). destruct (parse_byte_size s); [|done]. by injection Hp as <-.
Qed.

(** A setting whose flag was not given is the one of the configuration below. *)
Definition kept_below {A B} (flag : option A) (v v0 : B) : Prop := flag = None -> v = v0.

Record inherits (a : ConfigArgs) (base c : Config) : Prop := {
  inherits_network : kept_below (a_port a) (port c) (port base) /\
    kept_below (a_rate_limit a) (rate_limit_per_second (scan c)) (rate_limit_per_second (scan base)) /\
    (a_api_key a = None -> api_key base <> "" -> api_key c = api_key base);
  inherits_selection : kept_below (a_aggressiveness a) (aggressiveness c) (aggressiveness base) /\
    kept_below (a_min_seed_margin a) (min_seed_margin (scan c)) (min_seed_margin (scan base)) /\
    kept_below (a_scan_interval a) (interval (scan c)) (interval (scan base)) /\
    kept_below (a_moderation_delay a) (moderation_delay (scan c)) (moderation_delay (scan base)) /\
    kept_below (a_stall_eviction_timeout a) (stall_eviction_timeout (scan c))
      (stall_eviction_timeout (scan base)) /\
    kept_below (a_vanished_eviction_timeout a) (vanished_eviction_timeout (scan c))
      (vanished_eviction_timeout (scan base)) /\
    kept_below (a_keyword_blocklist a) (keyword_blocklist c) (keyword_blocklist base) /\
    kept_below (a_preserve_deleted_torrents a) (preserve_deleted_torrents c)
      (preserve_deleted_torrents base) /\
    kept_below (a_catalog_collapse_percent a) (catalog_collapse_percent c)
      (catalog_collapse_percent base);
  inherits_quarantine :
    kept_below (a_quarantine_check_interval a) (quarantine_check_interval (scan c))
      (quarantine_check_interval (scan base)) /\
    kept_below (a_broken_piece_discard_bytes a) (broken_piece_discard_bytes (scan c))
      (broken_piece_discard_bytes (scan base)) /\
    kept_below (a_broken_piece_min_windows a) (broken_piece_min_windows (scan c))
      (broken_piece_min_windows (scan base)) /\
    kept_below (a_quarantine_cooldown a) (quarantine_cooldown (scan c)) (quarantine_cooldown (scan base)) /\
    kept_below (a_quarantine_max_retries a) (quarantine_max_retries (scan c))
      (quarantine_max_retries (scan base));
  inherits_limits : kept_below (a_max_ram a) (max_ram c) (max_ram base) /\
    kept_below (a_upload_rate_limit a) (upload_rate_limit c) (upload_rate_limit base) /\
    kept_below (a_download_rate_limit a) (download_rate_limit c) (download_rate_limit base);
  inherits_logging : kept_below (a_stats_interval a) (stats_interval c) (stats_interval base) /\
    kept_below (a_debug a) (debug c) (debug base) /\ kept_below (a_log_file a) (log_file c) (log_file base);
}.

Lemma kept_default {A} (flag : option A) (v0 : A) : kept_below flag (default v0 flag) v0.
Proof. by intros ->. Qed.

Lemma size_flag_kept flag checked v old b : size_flag flag checked v old = Ok b -> kept_below v b old.
Proof. intros Hb ->. by injection Hb. Qed.

Lemma apply_to_inherits a c c' : apply_to a c = Ok c' -> inherits a c c'.
Proof.
  unfold apply_to. intros (discard & Hd & (ram & Hr & (up & Hu & (down & Hdn & [= <-])%rbind_ok)%rbind_ok)%rbind_ok)%rbind_ok.
  apply size_flag_kept in Hd, Hr, Hu, Hdn.
  split; cbn; repeat split; try apply kept_default; try done.
  - by intros ->.
  - by intros ->.
  - by intros ->.
Qed.

Lemma apply_to_spec a c c' :
  apply_to a c = Ok c' ->
  honours a c' /\ storage c' = storage c /\ data_dir c' = default (data_dir c) (a_cfg_data_dir a) /\
  api_key c' = default (api_key c) (a_api_key a).
Proof.
  unfold apply_to. intros (discard & Hd & (ram & Hr & (up & Hu & (down & Hdn & [= <-])%rbind_ok)%rbind_ok)%rbind_ok)%rbind_ok.
  apply size_flag_wins in Hd, Hr, Hu, Hdn. split; [|done].
  split; cbn; repeat split; try apply wins_default; try done.
  - by intros k ->.
  - by destruct (a_log_file a).
Qed.

(** The merge only fills in a key that is not there. *)
Lemma merge_key_spec `{Yaml} c fs :
  let c' := (merge_key_file c fs).1 in
  c' = set_api_key (api_key c') c /\ (api_key c <> "" -> api_key c' = api_key c).
Proof.
  assert (c = set_api_key (api_key c) c) as Heta by (by destruct c).
  unfold merge_key_file. destruct (String.eqb_spec (api_key c) "") as [He|He]; [|done]. cbn [negb].
  unfold bind, ret. destruct (fs_read (key_path c) fs) as [[b|er] fs']; [|done]. cbn [fst].
  destruct (utf8_valid b); [|done]. by destruct (String.eqb (trim b) "").
Qed.

(** Settings that agree apart from storage and directory honour the same flags. *)
Lemma honours_same a c c' :
  honours a c -> scan c' = scan c -> port c' = port c -> aggressiveness c' = aggressiveness c ->
  keyword_blocklist c' = keyword_blocklist c ->
  preserve_deleted_torrents c' = preserve_deleted_torrents c ->
  catalog_collapse_percent c' = catalog_collapse_percent c -> max_ram c' = max_ram c ->
  upload_rate_limit c' = upload_rate_limit c -> download_rate_limit c' = download_rate_limit c ->
  stats_interval c' = stats_interval c -> debug c' = debug c -> log_file c' = log_file c ->
  (api_key c <> "" -> api_key c' = api_key c) -> honours a c'.
Proof.
  intros [(Hp & Hr & Hk) Hs Hq Hl Hg] Es Ep Ea Eb Ed Ec Em Eu Edn Est Edb Elf Ekey.
  split; rewrite ?Es, ?Ep, ?Ea, ?Eb, ?Ed, ?Ec, ?Em, ?Eu, ?Edn, ?Est, ?Edb, ?Elf; try done.
  split; [done|]. split; [done|]. intros k Ha Hne. pose proof (Hk k Ha Hne) as Hc.
  rewrite <- Hc. apply Ekey. by rewrite Hc.
Qed.

Lemma inherits_same a base c c' :
  inherits a base c -> scan c' = scan c -> port c' = port c -> aggressiveness c' = aggressiveness c ->
  keyword_blocklist c' = keyword_blocklist c ->
  preserve_deleted_torrents c' = preserve_deleted_torrents c ->
  catalog_collapse_percent c' = catalog_collapse_percent c -> max_ram c' = max_ram c ->
  upload_rate_limit c' = upload_rate_limit c -> download_rate_limit c' = download_rate_limit c ->
  stats_interval c' = stats_interval c -> debug c' = debug c -> log_file c' = log_file c ->
  (api_key c <> "" -> api_key c' = api_key c) -> inherits a base c'.
Proof.
  intros [(Hp & Hr & Hk) Hs Hq Hl Hg] Es Ep Ea Eb Ed Ec Em Eu Edn Est Edb Elf Ekey.
  split; rewrite ?Es, ?Ep, ?Ea, ?Eb, ?Ed, ?Ec, ?Em, ?Eu, ?Edn, ?Est, ?Edb, ?Elf; try done.
  split; [done|]. split; [done|]. intros Ha Hne. pose proof (Hk Ha Hne) as Hc.
  rewrite <- Hc. apply Ekey. by rewrite Hc.
Qed.

Section Resolved.
Context `{Yaml} (canonicalize : path -> option path) (home : option string).

(** The configuration below the flags: the file named, read as it is; without
    one, when not a single flag is given either, the service's, if it is there;
    the defaults otherwise. *)
Definition below_flags (common : CommonArgs) (a : ConfigArgs) (fs : Fs) (base : Config) : Prop :=
  match arg_config common with
  | Some p => (load canonicalize home p fs).1 = Ok base
  | None =>
      let '(there, fs1) := fs_mode CONFIG_PATH fs in
      (a = no_flags /\ is_ok there = true ->
         (load canonicalize home CONFIG_PATH fs1).1 = Ok base) /\
      (a <> no_flags \/ is_ok there = false -> base = config_default home)
  end.

(** What is read below the flags, and which file it is. *)
Lemma config_source_spec common a fs base :
  let '((file, service), fs1) := config_source common a fs in
  (match file with None => ret (Ok (config_default home)) | Some p => load canonicalize home p end fs1).1 = Ok base ->
  below_flags common a fs base /\ (file = None -> arg_config common = None) /\
  (file = None -> base = config_default home).
Proof.
  unfold config_source, below_flags. destruct (arg_config common) as [p|]; [done|].
  assert (a = no_flags <-> storage_flags_set a = false /\ any_set a = false) as Hno.
  { split; [by intros ->|]. intros [Hs Ha]. by apply any_set_complete. }
  destruct (negb (storage_flags_set a) && negb (any_set a)) eqn:E.
  - apply andb_true_iff in E as [Es Ea]. apply negb_true_iff in Es, Ea.
    assert (a = no_flags) as Ha by (by apply Hno). unfold service_config_if_present, bind, ret.
    destruct (fs_mode CONFIG_PATH fs) as [[m|er] fs1]; cbn [is_ok given fst].
    + intros Hl. split; [|done]. split; [done|]. by intros [?|?].
    + intros [= <-]. split; [|done]. split; [by intros [_ ?]|done].
  - assert (a <> no_flags) as Ha.
    { intros [Hs Hs2]%Hno. by rewrite Hs, Hs2 in E. }
    cbn [ret fst]. destruct (fs_mode CONFIG_PATH fs) as [there fs1]. intros [= <-].
    split; [|done]. split; [by intros [? _]|done].
Qed.

Lemma resolve_storage_spec common a file c c' :
  resolve_storage home common a file c = Ok c' ->
  c' = set_storage (storage c') c /\
  if storage_flags_set a then
    file = None /\ storage_from_flags home a = Ok (storage c') /\ storage c' <> []
  else storage c' = storage c /\ (file = None -> storage c <> []).
Proof.
  unfold resolve_storage. destruct (storage_flags_set a).
  - destruct file; [done|]. intros (locs & Hl & Hk)%rbind_ok. case_bool_decide; [done|].
    by injection Hk as <-.
  - destruct file; cbn [given negb andb]; [intros [= <-]; by destruct c|].
    case_bool_decide; [done|]. intros [= <-]. by destruct c.
Qed.
End Resolved.

(** C29: the resolved configuration is the one that was asked for: it is valid;
    every flag that was given wins; every other setting is that of the
    configuration below the flags ([below_flags]), which is the file named with
    [--config], as it is on the disk, or, when nothing at all is given, the
    service's, or else the defaults; and the storage comes whole from the flags,
    when no file is named, or whole from that configuration. *)
Theorem resolve_sound `{Yaml} canonicalize home common a fs c :
  (resolve canonicalize home common a fs).1 = Ok c ->
  validate canonicalize c = Ok tt /\ honours a c /\
  wins (arg_data_dir common) (data_dir c) /\
  (arg_data_dir common = None -> wins (a_cfg_data_dir a) (data_dir c)) /\
  exists base, below_flags canonicalize home common a fs base /\ inherits a base c /\
    (arg_data_dir common = None -> a_cfg_data_dir a = None -> data_dir c = data_dir base) /\
    if storage_flags_set a then
      arg_config common = None /\ storage_from_flags home a = Ok (storage c) /\ storage c <> []
    else storage c = storage base.
Proof.
  unfold resolve, bind at 1. intros Hr. pose proof (config_source_spec canonicalize home common a fs) as Hsrc.
  destruct (config_source common a fs) as [[file service] fs1].
  apply bindR_ok in Hr as (base & Hbase & Hr). specialize (Hsrc base).
  destruct Hsrc as (Hbelow & Hnone & _).
  { destruct file as [p|]; [|exact Hbase]. unfold bind, ret in Hbase.
    destruct (load canonicalize home p fs1) as [[c0|er] fs5]; [|done]. cbn in Hbase |- *. congruence. }
  apply bindR_ok in Hr as (c1 & Happly & Hr). cbn [ret fst] in Happly.
  pose proof (apply_to_inherits _ _ _ Happly) as Hi.
  apply apply_to_spec in Happly as (Hh & Hst & Hdir & Hkey).
  set (c2 := match arg_data_dir common with Some d => set_data_dir d c1 | None => c1 end) in Hr.
  assert (storage c2 = storage c1 /\ data_dir c2 = default (data_dir c1) (arg_data_dir common) /\
          honours a c2 /\ inherits a base c2) as (Hst2 & Hdir2 & Hh2 & Hi2).
  { unfold c2. destruct (arg_data_dir common); [|done].
    split_and!; try done; [by eapply honours_same|by eapply inherits_same]. }
  unfold bind at 1 in Hr. match type of Hr with context [merge_key_file c2 ?x] =>
    pose proof (merge_key_spec c2 x) as [Hm Hmk]; destruct (merge_key_file c2 x) as [c3 fs4] end.
  cbn [fst ret] in Hr, Hm, Hmk.
  assert (honours a c3) as Hh3 by (rewrite Hm; by eapply honours_same).
  assert (inherits a base c3) as Hi3 by (rewrite Hm; by eapply inherits_same).
  apply rbind_ok in Hr as (c4 & Hstor & (u & Hval & [= <-])%rbind_ok). destruct u.
  assert (storage c3 = storage c2 /\ data_dir c3 = data_dir c2) as [Hst3 Hdir3] by (by rewrite Hm).
  apply resolve_storage_spec in Hstor as [H4 Hstor].
  assert (honours a c4 /\ inherits a base c4 /\ data_dir c4 = data_dir c3) as (Hh4 & Hi4 & Hdir4)
    by (rewrite H4; split_and!; [by eapply honours_same|by eapply inherits_same|done]).
  split; [done|]. split; [done|]. rewrite Hdir4, Hdir3, Hdir2.
  split; [apply wins_default|]. split.
  { intros Hno. rewrite Hno. change (wins (a_cfg_data_dir a) (data_dir c1)). rewrite Hdir.
    apply wins_default. }
  exists base. split; [done|]. split; [done|]. split.
  { intros -> Hn. cbn. by rewrite Hdir, Hn. }
  destruct (storage_flags_set a).
  - destruct Hstor as (Hf & Hl & Hne). split; [by apply Hnone|done].
  - destruct Hstor as [Hs Hne]. by rewrite Hs, Hst3, Hst2, Hst.
Qed.

(** ** Witnesses *)

Definition witness_args : ConfigArgs :=
  {| a_storage_location := ["/s"]; a_storage_limit := ["500G"]; a_storage := None;
     a_port := Some 4000; a_rate_limit := None; a_api_key := None; a_aggressiveness := None;
     a_min_seed_margin := Some 7; a_scan_interval := None; a_moderation_delay := None;
     a_stall_eviction_timeout := None; a_vanished_eviction_timeout := None;
     a_quarantine_check_interval := None; a_broken_piece_discard_bytes := Some "1M";
     a_broken_piece_min_windows := None; a_quarantine_cooldown := None;
     a_quarantine_max_retries := None; a_keyword_blocklist := Some "a, b";
     a_preserve_deleted_torrents := None; a_catalog_collapse_percent := None; a_max_ram := None;
     a_upload_rate_limit := None; a_download_rate_limit := None; a_cfg_data_dir := Some "/e";
     a_stats_interval := None; a_debug := None; a_log_file := None |}.

Definition witness_common : CommonArgs := {| arg_config := None; arg_data_dir := None |}.

Abbreviation resolve_there :=
  (@resolve witness_yaml (fun _ => None) None witness_common witness_args (fresh_fs [] [])).

(** Flags alone, without a file: the storage is theirs, and so is the directory. *)
Example resolve_flags :
  (fun c => (port c, data_dir c, location_path <$> storage c)) <$> result_ok resolve_there.1 =
  Some (4000, "/e", ["/s"]).
Proof. vm_compute. reflexivity. Qed.

(** A file named with [--config], saved before, and a port given as a flag. *)
Definition file_common : CommonArgs := {| arg_config := Some "/d/config.yaml"; arg_data_dir := None |}.

Definition file_args : ConfigArgs :=
  {| a_storage_location := []; a_storage_limit := []; a_storage := None;
     a_port := Some 4000; a_rate_limit := None; a_api_key := None; a_aggressiveness := None;
     a_min_seed_margin := None; a_scan_interval := None; a_moderation_delay := None;
     a_stall_eviction_timeout := None; a_vanished_eviction_timeout := None;
     a_quarantine_check_interval := None; a_broken_piece_discard_bytes := None;
     a_broken_piece_min_windows := None; a_quarantine_cooldown := None;
     a_quarantine_max_retries := None; a_keyword_blocklist := None;
     a_preserve_deleted_torrents := None; a_catalog_collapse_percent := None; a_max_ram := None;
     a_upload_rate_limit := None; a_download_rate_limit := None; a_cfg_data_dir := None;
     a_stats_interval := None; a_debug := None; a_log_file := None |}.

Definition file_fs : Fs := (@save witness_yaml witness_config "/d/config.yaml" witness_config_fs).2.

Abbreviation resolve_file_there :=
  (@resolve witness_yaml (fun _ => None) None file_common file_args file_fs).

Lemma resolve_sound_witness :
  exists c, resolve_file_there.1 = Ok c /\ port c = 4000 /\ max_ram c = 4 * 1024 ^ 3 /\
    validate (fun _ => None) c = Ok tt /\ honours file_args c /\
    exists base, (@load witness_yaml (fun _ => None) None "/d/config.yaml" file_fs).1 = Ok base /\
      inherits file_args base c /\ data_dir c = data_dir base /\ storage c = storage base.
Proof.
  assert (match resolve_file_there.1 with Ok c => (port c =? 4000) && (max_ram c =? 4 * 1024 ^ 3) | Err _ => false end
          = true) as Hok by (vm_compute; reflexivity).
  destruct resolve_file_there.1 as [c|er] eqn:Er in Hok |- *; [|discriminate]. exists c.
  apply andb_true_iff in Hok as [Hp%Z.eqb_eq Hm%Z.eqb_eq].
  destruct (@resolve_sound witness_yaml (fun _ => None) None file_common file_args file_fs c Er)
    as (Hv & Hh & _ & _ & base & Hb & Hi & Hd & Hs).
  split; [done|]. split; [exact Hp|]. split; [exact Hm|]. split; [exact Hv|]. split; [exact Hh|].
  exists base. split; [exact Hb|]. split; [exact Hi|]. split; [by apply Hd|exact Hs].
Defined.
