(* ===== verification/Process.v ===== *)
(** Finding and stopping the daemon, [daemonctl.rs] and [cmd_stop] of
    [bin/keep-at.rs]: the pid file, which processes of [/proc] are daemons of
    ours, whose data directory they use, and the wait for one to end.  The
    process table and signals are the class [Processes]. *)

From S2P Require Import Prelude Text Float64 Fs Persist Time Config World Storage Service Cli.

(** The entries of [/proc] with their command lines, as one reading shows them. *)
Definition ProcTable : Type := list (string * option bytes).

Definition NUL : ascii := "000".

(** ** Which processes are ours *)

(** [rsplit('/').next()]. *)
Definition basename (s : string) : string := default "" (last (split_on "/" s)).

Definition is_keep_at_argv0 (argv0 : bytes) : bool := ends_with (lossy (basename argv0)) "keep-at".

Definition cmdline_of (procs : ProcTable) (pid : Z) : bytes :=
  match list_find (fun e => e.1 = pretty pid) procs with Some (_, (_, Some b)) => b | _ => "" end.

Definition pid_alive (procs : ProcTable) (pid : Z) : bool :=
  let cmdline := cmdline_of procs pid in
  if String.eqb cmdline "" then false
  else is_keep_at_argv0 (default "" (head (split_on NUL cmdline))).

(** One entry of [keep_at_daemon_procs]. *)
Definition daemon_proc (own_pid : Z) (e : string * option bytes) : option (Z * list string) :=
  match parse_unsigned U32_MAX (lossy e.1) with
  | None => None
  | Some pid =>
      let cmdline := default "" e.2 in
      let parts := lossy <$> split_on NUL cmdline in
      if (pid =? own_pid) || String.eqb cmdline "" then None
      else
        match parts with
        | argv0 :: verb :: _ =>
            if negb (is_keep_at_argv0 argv0) then None
            else if String.eqb verb "run" || String.eqb verb "start" then Some (pid, parts)
            else None
        | _ => None
        end
  end.

Definition keep_at_daemon_procs (own_pid : Z) (procs : ProcTable) : list (Z * list string) :=
  omap (daemon_proc own_pid) procs.

(** [data_dir_and_config_from_argv], after the program and the verb; a later
    flag replaces an earlier one. *)
Fixpoint argv_loop (args : list string) (found : option string * option string)
    : option string * option string :=
  match args with
  | [] => found
  | a :: rest =>
      if String.eqb a "--data-dir" then
        match rest with
        | v :: rest => argv_loop rest (Some v, found.2)
        | [] => (None, found.2)
        end
      else
        match strip_prefix "--data-dir=" a with
        | Some v => argv_loop rest (Some v, found.2)
        | None =>
            if String.eqb a "--config" then
              match rest with
              | v :: rest => argv_loop rest (found.1, Some v)
              | [] => (found.1, None)
              end
            else
              match strip_prefix "--config=" a with
              | Some v => argv_loop rest (found.1, Some v)
              | None => argv_loop rest found
              end
        end
  end.

Definition data_dir_and_config_from_argv (parts : list string) : option string * option string :=
  argv_loop (drop 2 parts) (None, None).

Record Status := {
  st_running : bool;
  st_pid : option Z;
}.

(** What [kill] fails with, and [ENOENT], the one error that the standard library
    calls [NotFound]. *)
Inductive Errno := ENOENT | ESRCH | EPERM | EINVAL.

Definition is_not_found (e : Errno) : bool := match e with ENOENT => true | _ => false end.

Class Processes (W : Type) := {
  own_pid : Z;
  proc_entries : M W ProcTable;
  (** [kill(2)]: why it failed *)
  kill : Z -> Z -> M W (option Errno);
  pause : duration -> M W unit;
}.

(** ** The pid file *)

Definition pid_path (data_dir : path) : path := path_join data_dir "keep-at.pid".

Definition write_pid (pid : Z) (data_dir : path) : M Fs (result error unit) :=
  with_context ("writing " +:+ pid_path data_dir) (atomic_write (pid_path data_dir) (pretty pid)).

Definition remove_pid (data_dir : path) : M Fs unit :=
  let* _ := fs_remove (pid_path data_dir) in ret tt.

Definition read_pid (data_dir : path) : M Fs (option Z) :=
  let* r := fs_read (pid_path data_dir) in
  ret match r with
      | Ok b => if utf8_valid b then parse_unsigned U32_MAX (trim b) else None
      | Err _ => None
      end.

Section Finding.
Context `{Yaml}.
Context (canonicalize : path -> option path) (home : option string).

(** The first process that serves the wanted directory: by its flag, by its
    configuration, or by default. *)
Fixpoint find_foreground_in (procs : list (Z * list string)) (want : string) : M Fs (option Z) :=
  match procs with
  | [] => ret None
  | (pid, parts) :: procs =>
      match data_dir_and_config_from_argv parts with
      | (Some d, _) =>
          if String.eqb d want then ret (Some pid) else find_foreground_in procs want
      | (None, Some c) =>
          let* r := load_readonly canonicalize home c in
          match r with
          | Ok cfg =>
              if String.eqb (lossy (data_dir cfg)) want then ret (Some pid)
              else find_foreground_in procs want
          | Err _ => find_foreground_in procs want
          end
      | (None, None) =>
          if String.eqb want (lossy (default_data_dir home)) then ret (Some pid)
          else find_foreground_in procs want
      end
  end.

Fixpoint find_any_daemon_in (procs : list (Z * list string)) : M Fs (option (Z * path)) :=
  match procs with
  | [] => ret None
  | (pid, parts) :: procs =>
      match data_dir_and_config_from_argv parts with
      | (Some d, _) => ret (Some (pid, d))
      | (None, Some c) =>
          let* r := load_readonly canonicalize home c in
          match r with
          | Ok cfg => ret (Some (pid, data_dir cfg))
          | Err _ => find_any_daemon_in procs
          end
      | (None, None) => ret (Some (pid, default_data_dir home))
      end
  end.

Context {W : Type} `{Processes W}.

Abbreviation Host := (W * Fs)%type.

Definition find_foreground (data_dir : path) : M Host (option Z) :=
  let* procs := on_fst proc_entries in
  on_snd (find_foreground_in (keep_at_daemon_procs own_pid procs) (lossy data_dir)).

Definition find_any_daemon : M Host (option (Z * path)) :=
  let* procs := on_fst proc_entries in
  on_snd (find_any_daemon_in (keep_at_daemon_procs own_pid procs)).

Definition alive (pid : Z) : M Host bool :=
  let* procs := on_fst proc_entries in ret (pid_alive procs pid).

Definition status (data_dir : path) : M Host Status :=
  let* pid := on_snd (read_pid data_dir) in
  let* recorded := match pid with Some pid => alive pid | None => ret false end in
  if (recorded : bool) then ret {| st_running := true; st_pid := pid |}
  else
    let* found := find_foreground data_dir in
    ret match found with
        | Some pid => {| st_running := true; st_pid := Some pid |}
        | None => {| st_running := false; st_pid := None |}
        end.

(** ** Stopping *)

Definition send_sigterm (pid : Z) : M W (result error unit) :=
  let* failed := kill pid 15 in
  ret match failed with
      | None => Ok tt
      | Some e => if is_not_found e then Ok tt else Err ("signalling pid " +:+ pretty pid)
      end.

(** A poll every half second, as often as the fuel says. *)
Fixpoint wait_exit (polls : nat) (pid : Z) : M Host unit :=
  match polls with
  | O => ret tt
  | S polls =>
      let* up := alive pid in
      if (up : bool) then on_fst (pause 500000000) ;;; wait_exit polls pid else ret tt
  end.

Inductive StopOutcome := Stopped (pid : Z) | NotRunning.

(** The daemon that is to stop: only a bare [stop] looks beyond its directory. *)
Definition stop_target (args : CommonArgs) (dir : path) : M Host Status :=
  let* st := status dir in
  if negb (st_running st) && negb (given (arg_data_dir args) || given (arg_config args)) then
    let* found := find_any_daemon in
    match found with
    | Some (pid, _) =>
        let* up := alive pid in
        ret (if (up : bool) then {| st_running := true; st_pid := Some pid |} else st)
    | None => ret st
    end
  else ret st.

Definition cmd_stop (args : CommonArgs) : M Host (result error StopOutcome) :=
  let? dir := on_snd (resolve_data_dir canonicalize home args) in
  let* st := stop_target args dir in
  match st_running st, st_pid st with
  | true, Some pid =>
      let? _ := on_fst (send_sigterm pid) in
      wait_exit 60 pid ;;;
      let* up := alive pid in
      if (up : bool) then ret (Err ("keep-at (pid " +:+ pretty pid +:+ ") did not stop within 30s"))
      else on_snd (remove_pid dir) ;;; ret (Ok (Stopped pid))
  | true, None => ret (Err "keep-at is running in the foreground; stop it directly (Ctrl-C / kill)")
  | false, _ => ret (Ok NotRunning)
  end.
End Finding.

(** A process that ended before the signal makes [stop] fail: there is no such
    process ([ESRCH]), which is not the error that is let pass. *)
Lemma gone_process_fails {W : Type} `{Processes W} pid w w' :
  kill pid 15 w = (Some ESRCH, w') -> (send_sigterm pid w).1 = Err ("signalling pid " +:+ pretty pid).
Proof. intros Hk. unfold send_sigterm, bind. by rewrite Hk. Qed.

(** ** The identity predicate agrees across its callers *)

(** A text is a first piece without the separator, and the rest. *)
Lemma split_cases c s :
  string_forall (fun a => negb (Ascii.eqb a c)) s = true \/
  exists p t, string_forall (fun a => negb (Ascii.eqb a c)) p = true /\ s = p +:+ String c t.
Proof.
  induction s as [|a s IH]; [by left|]. destruct (Ascii.eqb_spec a c) as [->|Hne].
  - right. by exists "", s.
  - apply Ascii.eqb_neq in Hne. destruct IH as [H|(p & t & Hp & ->)].
    + left. cbn [string_forall]. by rewrite Hne.
    + right. exists (String a p), t. cbn [string_forall]. by rewrite Hne.
Qed.

Lemma lossy_split c s : byte c < 128 -> split_on c (lossy s) = lossy <$> split_on c s.
Proof.
  intros Hc. induction s as [s IH] using string_suffix_ind.
  destruct (split_cases c s) as [Hs|(p & t & Hp & ->)].
  - rewrite (split_on_whole c s Hs). apply split_on_whole. by apply lossy_no_new.
  - rewrite lossy_app_ascii, split_on_cons, split_on_cons by (done || by apply lossy_no_new).
    rewrite IH; [done|]. rewrite string_length_app. simpl. lia.
Qed.

Lemma default_fmap_lossy (o : option string) : default "" (lossy <$> o) = lossy (default "" o).
Proof. by destruct o. Qed.

(** The predicate does not depend on whether it is asked about the raw bytes or
    the converted text. *)
Lemma keep_at_lossy x : is_keep_at_argv0 (lossy x) = is_keep_at_argv0 x.
Proof.
  unfold is_keep_at_argv0, basename. rewrite lossy_split by (vm_compute; done).
  by rewrite fmap_last, default_fmap_lossy, lossy_idem.
Qed.

(** [/proc] names a process by its number, and every process once. *)
Record table_ok (procs : ProcTable) : Prop := {
  table_names : NoDup procs.*1;
  table_pids : Forall (fun e => forall pid, parse_unsigned U32_MAX (lossy e.1) = Some pid ->
                          e.1 = pretty pid) procs;
}.

Lemma cmdline_found (procs : ProcTable) (e : string * option bytes) pid :
  NoDup procs.*1 -> e ∈ procs -> e.1 = pretty pid -> cmdline_of procs pid = default "" e.2.
Proof.
  intros Hd He Hn. unfold cmdline_of.
  destruct (list_find _ procs) as [[i [n b]]|] eqn:Ef.
  - apply list_find_Some in Ef as (Hi & Hp & _). simpl in Hp. apply list_elem_of_lookup in He as [j Hj].
    assert (i = j) as ->.
    { apply (NoDup_lookup procs.*1 i j (pretty pid)); [done|rewrite list_lookup_fmap, Hi|
        rewrite list_lookup_fmap, Hj]; simpl; by rewrite ?Hp, ?Hn. }
    rewrite Hi in Hj. injection Hj as <-. by destruct b.
  - apply list_find_None in Ef. rewrite Forall_forall in Ef. by destruct (Ef e He).
Qed.

Lemma daemon_proc_alive own (procs : ProcTable) (e : string * option bytes) pid parts :
  table_ok procs -> e ∈ procs -> daemon_proc own e = Some (pid, parts) ->
  pid_alive procs pid = true /\ pid <> own.
Proof.
  intros [Hd Hp] He. unfold daemon_proc. rewrite Forall_forall in Hp. specialize (Hp e He).
  destruct (parse_unsigned _ _) as [q|]; [|done]. specialize (Hp q eq_refl).
  destruct (Z.eqb_spec q own); [done|]. cbn [orb].
  destruct (String.eqb _ "") eqn:Ec; [done|].
  destruct (split_on NUL (default "" e.2)) as [|argv0 rest] eqn:Es; [done|]. cbn [fmap list_fmap].
  destruct (lossy <$> rest) as [|verb ?]; [done|].
  destruct (is_keep_at_argv0 (lossy argv0)) eqn:Ek; [|done]. cbn [negb].
  destruct (_ || _); [|done]. intros [= <- _]. split; [|done].
  unfold pid_alive. rewrite (cmdline_found procs e q Hd He Hp), Ec, Es. cbn [head default].
  by rewrite <- keep_at_lossy.
Qed.

Section Lookup.
Context `{Yaml} (canonicalize : path -> option path) (home : option string).

Lemma foreground_elem procs want fs pid :
  (find_foreground_in canonicalize home procs want fs).1 = Some pid -> pid ∈ procs.*1.
Proof.
  revert fs. induction procs as [|[q parts] procs IH]; intros fs; [done|].
  cbn [find_foreground_in fmap list_fmap fst].
  assert (forall fs, (find_foreground_in canonicalize home procs want fs).1 = Some pid -> pid ∈ q :: procs.*1)
    as Hrest by (intros fs' Hf; right; by eapply IH).
  destruct (data_dir_and_config_from_argv parts) as [[d|] [c|]];
    try (destruct (String.eqb _ _); [intros [= <-]; by left|apply Hrest]).
  unfold bind. destruct (load_readonly _ _ _ fs) as [[cfg|er] fs1]; [|apply Hrest].
  destruct (String.eqb _ _); [intros [= <-]; by left|apply Hrest].
Qed.

Lemma any_elem procs fs pid d :
  (find_any_daemon_in canonicalize home procs fs).1 = Some (pid, d) -> pid ∈ procs.*1.
Proof.
  revert fs. induction procs as [|[q parts] procs IH]; intros fs; [done|].
  cbn [find_any_daemon_in fmap list_fmap fst].
  destruct (data_dir_and_config_from_argv parts) as [[d'|] [c|]]; try (intros [= <- _]; by left).
  unfold bind. destruct (load_readonly _ _ _ fs) as [[cfg|er] fs1]; [intros [= <- _]; by left|].
  intros Hf. right. by eapply IH.
Qed.

Lemma foreground_complete procs want fs pid parts :
  (pid, parts) ∈ procs -> (data_dir_and_config_from_argv parts).1 = Some want ->
  is_Some (find_foreground_in canonicalize home procs want fs).1.
Proof.
  intros Hin Hd. revert fs. induction procs as [|[q parts'] procs IH]; intros fs; [by apply elem_of_nil in Hin|].
  cbn [find_foreground_in]. apply elem_of_cons in Hin as [[= <- <-]|Hin].
  - destruct (data_dir_and_config_from_argv parts) as [[d|] c]; [|done]. injection Hd as ->.
    rewrite String.eqb_refl. by eexists.
  - destruct (data_dir_and_config_from_argv parts') as [[d|] [c|]];
      try (destruct (String.eqb _ _); [by eexists|by apply IH]).
    unfold bind. destruct (load_readonly _ _ _ fs) as [[cfg|er] fs1]; [|by apply IH].
    destruct (String.eqb _ _); [by eexists|by apply IH].
Qed.

(** A process the scan of the table accepts. *)
Lemma procs_alive own procs pid :
  table_ok procs -> pid ∈ (keep_at_daemon_procs own procs).*1 ->
  pid_alive procs pid = true /\ pid <> own.
Proof.
  intros Ht ([q parts] & -> & Hin)%list_elem_of_fmap.
  apply list_elem_of_omap in Hin as (e & He & Hp). by eapply daemon_proc_alive.
Qed.
End Lookup.

(** Whatever daemon the scans of [/proc] find, the liveness check that follows
    accepts as one of ours, and it is never the asking process itself; and no
    entry that is not a process, and no process of another program, keeps them
    from finding a daemon that runs with the wanted data directory. *)
Theorem daemon_lookup_agrees `{Yaml} canonicalize home own procs want fs :
  table_ok procs ->
  let daemons := keep_at_daemon_procs own procs in
  (forall pid, (find_foreground_in canonicalize home daemons want fs).1 = Some pid ->
     pid_alive procs pid = true /\ pid <> own) /\
  (forall pid d, (find_any_daemon_in canonicalize home daemons fs).1 = Some (pid, d) ->
     pid_alive procs pid = true /\ pid <> own) /\
  (forall e pid parts, e ∈ procs -> daemon_proc own e = Some (pid, parts) ->
     (data_dir_and_config_from_argv parts).1 = Some want ->
     is_Some (find_foreground_in canonicalize home daemons want fs).1).
Proof.
  intros Ht. split; [|split].
  - intros pid Hf%foreground_elem. by apply procs_alive.
  - intros pid d Hf%any_elem. by apply procs_alive.
  - intros e pid parts He Hp Hd. eapply foreground_complete; [|exact Hd].
    unfold keep_at_daemon_procs. apply list_elem_of_omap. by exists e.
Qed.

(** ** Witness *)

Definition nul : string := String NUL "".

Definition witness_table : ProcTable :=
  [("acpi", None); ("77", Some ("bash" +:+ nul));
   ("1234", Some ("/opt/my-keep-at" +:+ nul +:+ "run" +:+ nul +:+ "--data-dir" +:+ nul +:+ "/srv" +:+ nul));
   ("stat", None)].

Example witness_found :
  (@find_foreground_in witness_yaml (fun _ => None) None (keep_at_daemon_procs 9 witness_table) "/srv"
     (fresh_fs [] [])).1 = Some 1234.
Proof. vm_compute. reflexivity. Qed.

Lemma daemon_lookup_agrees_witness :
  let daemons := keep_at_daemon_procs 9 witness_table in
  (forall pid, (@find_foreground_in witness_yaml (fun _ => None) None daemons "/srv" (fresh_fs [] [])).1 = Some pid ->
     pid_alive witness_table pid = true /\ pid <> 9) /\
  (forall pid d, (@find_any_daemon_in witness_yaml (fun _ => None) None daemons (fresh_fs [] [])).1 = Some (pid, d) ->
     pid_alive witness_table pid = true /\ pid <> 9) /\
  (forall e pid parts, e ∈ witness_table -> daemon_proc 9 e = Some (pid, parts) ->
     (data_dir_and_config_from_argv parts).1 = Some "/srv" ->
     is_Some (@find_foreground_in witness_yaml (fun _ => None) None daemons "/srv" (fresh_fs [] [])).1).
Proof.
  apply (@daemon_lookup_agrees witness_yaml (fun _ => None) None 9 witness_table "/srv" (fresh_fs [] [])).
  split; [apply (bool_decide_eq_true_1 _); vm_compute; reflexivity|].
  repeat constructor; intros pid Hp; vm_compute in Hp; first [discriminate | by injection Hp as <-].
Defined.
