(* ===== verification/Signals.v ===== *)
(** How the daemon dies: the signal dispositions, the file descriptors and the
    panic hooks of the process, [forensics.rs] and [redirect_stdio_to],
    [libc_signal] and the opening of [main] and [cmd_run] in
    [bin/keep-at.rs].  What the kernel and the C library do at [signal],
    [raise], [write], [dup2] and [abort] is written out as POSIX has it. *)

From S2P Require Import Prelude Text Fs Persist Config World Cli.

(** ** The process *)

(** What a signal does.  [Caught] is [death_mark_handler], the only handler the
    program installs itself; [Forwarded] is tokio's, which wakes the task that
    waits for the signal. *)
Inductive Disposition := SIG_DFL | SIG_IGN | Caught | Forwarded.

(** What a descriptor leads to: a file opened for appending, or a pipe or
    socket, with or without somebody to read it. *)
Inductive Target := ToFile (i : nat) | ToPipe (read : bool).

#[export] Instance disposition_eq_dec : EqDecision Disposition.
Proof. solve_decision. Defined.
#[export] Instance target_eq_dec : EqDecision Target.
Proof. solve_decision. Defined.

Record Proc := {
  dispositions : gmap Z Disposition;
  descriptors : gmap Z Target;
  (** [DEATH_FD]; -1 when unset *)
  death_fd : Z;
  (** the logs the panic hooks write to, newest first; the standard hook is below *)
  panic_hooks : list path;
  (** the shutdown channel *)
  shutdown : bool;
}.

Definition set_disposition (sig : Z) (d : Disposition) (p : Proc) : Proc :=
  {| dispositions := <[sig := d]> (dispositions p); descriptors := descriptors p;
     death_fd := death_fd p; panic_hooks := panic_hooks p; shutdown := shutdown p |}.
Definition set_descriptors (fds : gmap Z Target) (p : Proc) : Proc :=
  {| dispositions := dispositions p; descriptors := fds; death_fd := death_fd p;
     panic_hooks := panic_hooks p; shutdown := shutdown p |}.
Definition set_death_fd (fd : Z) (p : Proc) : Proc :=
  {| dispositions := dispositions p; descriptors := descriptors p; death_fd := fd;
     panic_hooks := panic_hooks p; shutdown := shutdown p |}.
Definition add_panic_hook (log : path) (p : Proc) : Proc :=
  {| dispositions := dispositions p; descriptors := descriptors p; death_fd := death_fd p;
     panic_hooks := log :: panic_hooks p; shutdown := shutdown p |}.
Definition set_shutdown (p : Proc) : Proc :=
  {| dispositions := dispositions p; descriptors := descriptors p; death_fd := death_fd p;
     panic_hooks := panic_hooks p; shutdown := true |}.

Definition disposition_of (p : Proc) (sig : Z) : Disposition := default SIG_DFL (dispositions p !! sig).

(** The process with its files.  A call that the process does not survive
    returns the signal that ended it. *)
Abbreviation Machine := (Proc * Fs)%type.
Definition Fate (A : Type) : Type := result Z A.

(** ** What the kernel does *)

Definition SIGHUP : Z := 1.
Definition SIGINT : Z := 2.
Definition SIGABRT : Z := 6.
Definition SIGKILL : Z := 9.
Definition SIGPIPE : Z := 13.
Definition SIGTERM : Z := 15.
Definition SIGSTOP : Z := 19.

(** Everything but SIGCHLD, SIGCONT, the stops, SIGURG and SIGWINCH ends the
    process by default. *)
Definition default_ends (sig : Z) : bool := negb (bool_decide (sig ∈ [17; 18; 19; 20; 21; 22; 23; 28])).

Definition by_default (sig : Z) : Fate unit := if default_ends sig then Err sig else Ok tt.

(** [libc_signal]; SIGKILL and SIGSTOP keep their default. *)
Definition libc_signal (sig : Z) (d : Disposition) : M Proc unit :=
  if (sig =? SIGKILL) || (sig =? SIGSTOP) then ret tt else modify (set_disposition sig d).

Inductive Written := Wrote | Refused | EPIPE.

(** [write(2)], before the signal that a broken pipe sends. *)
Definition write_raw (fd : Z) (b : bytes) : M Machine Written :=
  let* t := gets (fun s => descriptors s.1 !! fd) in
  match t with
  | None => ret Refused
  | Some (ToPipe r) => ret (if r then Wrote else EPIPE)
  | Some (ToFile i) =>
      let* r := on_snd (fs_write_handle i b) in
      ret match r with Ok _ => Wrote | Err _ => Refused end
  end.

(** The least number not in use. *)
Fixpoint free_from (n : nat) (fd : Z) (fds : gmap Z Target) : Z :=
  match n with
  | O => fd
  | S n => match fds !! fd with None => fd | Some _ => free_from n (fd + 1) fds end
  end.

Definition lowest_free (fds : gmap Z Target) : Z := free_from (size fds) 0 fds.

(** An append-mode open that creates the file with the mode, less what the
    umask takes away. *)
Definition open_append_mode (p : path) (mode : Z) : M Fs (result io_error nat) :=
  io io_fails (fun fs =>
    match dir (disk fs) !! p with
    | Some i => (Ok i, fs)
    | None => (Ok (next_ino (disk fs)),
               set_disk (write_disk (Z.land mode (umask_mode fs)) p "" (disk fs)) fs)
    end).

(** The same, as a descriptor of the process. *)
Definition open_fd (p : path) : M Machine (option Z) :=
  let* r := on_snd (open_append_mode p 420) in
  match r with
  | Err _ => ret None
  | Ok i => on_fst (fun p =>
      let fd := lowest_free (descriptors p) in
      (Some fd, set_descriptors (<[fd := ToFile i]> (descriptors p)) p))
  end.

Definition dup2 (old new : Z) : M Proc unit :=
  modify (fun p => match descriptors p !! old with
                   | Some t => set_descriptors (<[new := t]> (descriptors p)) p
                   | None => p
                   end).

Definition close_fd (fd : Z) : M Proc unit :=
  modify (fun p => set_descriptors (delete fd (descriptors p)) p).

(** ** Death marks *)

Definition SIG_NAMES : list (Z * bytes) :=
  [(11, "death-mark: SIGSEGV (11) received" +:+ newline);
   (6, "death-mark: SIGABRT (6) received" +:+ newline);
   (7, "death-mark: SIGBUS (7) received" +:+ newline);
   (24, "death-mark: SIGXCPU (24) received - cpu limit hit" +:+ newline);
   (1, "death-mark: SIGHUP (1) received" +:+ newline);
   (3, "death-mark: SIGQUIT (3) received" +:+ newline)].

Definition mark_of (sig : Z) : option bytes := snd <$> find (fun e => e.1 =? sig) SIG_NAMES.

(** The handler; [write] is the call as the process makes it.  The signal it
    raises again at its end finds the default disposition. *)
Definition death_mark_handler (write : Z -> bytes -> M Machine (Fate Written)) (sig : Z)
    : M Machine (Fate unit) :=
  let* fd := gets (fun s => death_fd s.1) in
  let? _ := (if 0 <=? fd then
               match mark_of sig with
               | Some msg => let? _ := write fd msg in ret (Ok tt)
               | None => ret (Ok tt)
               end
             else ret (Ok tt)) in
  on_fst (libc_signal sig SIG_DFL) ;;;
  ret (by_default sig).

(** A signal arrives, with so many handlers still free to start: one that is
    raised while its own handler runs waits for the handler's end, and the
    default disposition that the handler leaves ends the process then.  Only a
    write can raise a signal inside the handler, so two are enough. *)
Fixpoint deliver (nesting : nat) (sig : Z) : M Machine (Fate unit) :=
  let* d := gets (fun s => disposition_of s.1 sig) in
  match d with
  | SIG_IGN => ret (Ok tt)
  | SIG_DFL => ret (by_default sig)
  | Forwarded => on_fst (modify set_shutdown) ;;; ret (Ok tt)
  | Caught =>
      match nesting with
      | O => ret (by_default sig)
      | S nesting =>
          death_mark_handler
            (fun fd b =>
               let* w := write_raw fd b in
               match w with
               | EPIPE => let? _ := deliver nesting SIGPIPE in ret (Ok EPIPE)
               | w => ret (Ok w)
               end) sig
      end
  end.

Definition raise : Z -> M Machine (Fate unit) := deliver 2.

Definition sys_write (fd : Z) (b : bytes) : M Machine (Fate Written) :=
  let* w := write_raw fd b in
  match w with
  | EPIPE => let? _ := raise SIGPIPE in ret (Ok EPIPE)
  | w => ret (Ok w)
  end.

(** [abort] does not return, whatever becomes of the signal. *)
Definition abort_process {A} : M Machine (Fate A) :=
  let* r := raise SIGABRT in
  ret (Err match r with Ok _ => SIGABRT | Err sig => sig end).

(** [install_signal_death_marks]; the file is never closed. *)
Definition install_signal_death_marks (log : path) : M Machine unit :=
  let* fd := open_fd log in
  match fd with
  | None => ret tt
  | Some fd =>
      on_fst (modify (set_death_fd fd)) ;;;
      forM SIG_NAMES (fun e => on_fst (libc_signal e.1 Caught))
  end.

(** ** Panics *)

Inductive Payload := PanicStr (s : string) | PanicString (s : string) | PanicOther.

Definition panic_message (p : Payload) : string :=
  match p with PanicStr s | PanicString s => s | PanicOther => "unknown panic payload" end.

Definition panic_line (loc : option (string * Z)) (p : Payload) : bytes :=
  "death-mark: PANIC at " +:+
  match loc with Some (file, line) => file +:+ ":" +:+ pretty line | None => "?" end +:+
  ": " +:+ panic_message p +:+ newline.

(** What the standard library's own hook writes on the error stream of a panic:
    the thread, the place with its column, the message and how to get a
    backtrace, which depend on the thread and on the environment. *)
Class StdPanic := { panic_report : option (string * Z) -> Payload -> bytes }.

(** The closure [install_panic_hook] sets: the mark, then the hook before. *)
Fixpoint run_hooks `{StdPanic} (hooks : list path) (loc : option (string * Z)) (p : Payload)
    : M Machine (Fate unit) :=
  match hooks with
  | [] => let? _ := sys_write 2 (panic_report loc p) in ret (Ok tt)
  | log :: hooks =>
      on_snd (let* f := fs_open_append log in
              match f with
              | Ok i => let* _ := fs_write_handle i (panic_line loc p) in ret tt
              | Err _ => ret tt
              end) ;;;
      run_hooks hooks loc p
  end.

Definition install_panic_hook (log : path) : M Proc unit := modify (add_panic_hook log).

(** A thread panics: the hooks run, and the process ends if the profile it was
    built with says [panic = "abort"] (as the release profile does). *)
Definition panics `{StdPanic} (aborts : bool) (loc : option (string * Z)) (p : Payload) : M Machine (Fate unit) :=
  let* hooks := gets (fun s => panic_hooks s.1) in
  let? _ := run_hooks hooks loc p in
  if aborts then abort_process else ret (Ok tt).

(** ** From the start of the process to the engine *)

(** The Rust runtime ignores SIGPIPE before [main]. *)
Definition runtime_start : M Proc unit := libc_signal SIGPIPE SIG_IGN.

(** The opening of [main]. *)
Definition main_signals (cmd : Command) : M Proc unit :=
  whenM (restores_sigpipe_default cmd) (libc_signal SIGPIPE SIG_DFL).

(** The two tasks that wait for SIGINT and SIGTERM, once they run; whether tokio
    could register for the signals is theirs to say.  A SIGINT that cannot be
    waited for counts as received. *)
Definition watch_shutdown (int_ok term_ok : bool) : M Proc unit :=
  (if int_ok then libc_signal SIGINT Forwarded else modify set_shutdown) ;;;
  whenM term_ok (libc_signal SIGTERM Forwarded).

Definition redirect_stdio_to (log : path) : M Machine unit :=
  let* fd := open_fd log in
  match fd with
  | None => ret tt
  | Some fd =>
      on_fst (dup2 fd 1 ;;; dup2 fd 2 ;;; whenM (2 <? fd) (close_fd fd))
  end.

(** What [cmd_run] does to its process before it builds the engine. *)
Definition become_daemon (int_ok term_ok : bool) (log : path) : M Machine unit :=
  on_fst (watch_shutdown int_ok term_ok) ;;;
  on_fst (libc_signal SIGPIPE SIG_IGN) ;;;
  redirect_stdio_to log ;;;
  install_signal_death_marks log ;;;
  on_fst (install_panic_hook log).

(** The process from its start to the engine. *)
Definition daemon_start (cmd : Command) (int_ok term_ok : bool) (log : path) : M Machine unit :=
  on_fst runtime_start ;;; on_fst (main_signals cmd) ;;; become_daemon int_ok term_ok log.

(** ** What happens to the process afterwards *)

Inductive Event :=
  | Writes (fd : Z) (b : bytes)
  (** the last reader of a pipe goes away *)
  | HangsUp (fd : Z)
  | Sent (sig : Z)
  | Panics (loc : option (string * Z)) (p : Payload).

Definition hang_up (fd : Z) (p : Proc) : Proc :=
  match descriptors p !! fd with
  | Some (ToPipe _) => set_descriptors (<[fd := ToPipe false]> (descriptors p)) p
  | _ => p
  end.

Definition happen `{StdPanic} (aborts : bool) (e : Event) : M Machine (Fate unit) :=
  match e with
  | Writes fd b => let? _ := sys_write fd b in ret (Ok tt)
  | HangsUp fd => on_fst (modify (hang_up fd)) ;;; ret (Ok tt)
  | Sent sig => raise sig
  | Panics loc p => panics aborts loc p
  end.

Fixpoint live_through `{StdPanic} (aborts : bool) (es : list Event) : M Machine (Fate unit) :=
  match es with
  | [] => ret (Ok tt)
  | e :: es => let? _ := happen aborts e in live_through aborts es
  end.

(** ** What the daemon survives *)

Lemma dispositions_set sig d p sig' :
  disposition_of (set_disposition sig d p) sig' = if decide (sig = sig') then d else disposition_of p sig'.
Proof. unfold disposition_of. simpl. rewrite lookup_insert. by case_decide. Qed.

Lemma libc_signal_spec sig d p sig' :
  disposition_of (libc_signal sig d p).2 sig' =
    if decide (sig = sig' /\ sig <> SIGKILL /\ sig <> SIGSTOP) then d else disposition_of p sig'.
Proof.
  unfold libc_signal. destruct (Z.eqb_spec sig SIGKILL), (Z.eqb_spec sig SIGSTOP); simpl.
  1-3: rewrite decide_False by tauto; done.
  rewrite dispositions_set. repeat case_decide; tauto.
Qed.

Section Surviving.
Context `{StdPanic} (int_ok term_ok : bool).

(** Broken pipes are ignored, and a signal to stop is passed on. *)
Record tamed (p : Proc) : Prop := {
  tm_pipe : disposition_of p SIGPIPE = SIG_IGN;
  tm_int : int_ok = true -> disposition_of p SIGINT = Forwarded;
  tm_term : term_ok = true -> disposition_of p SIGTERM = Forwarded;
}.

Lemma tamed_same p q :
  (forall sig, disposition_of p sig <> Caught -> disposition_of q sig = disposition_of p sig) ->
  tamed p -> tamed q.
Proof.
  intros Hs [Hp Hi Ht]. split; [|intros Ho..]; rewrite Hs; auto; rewrite ?Hp, ?(Hi Ho), ?(Ht Ho); done.
Qed.

Lemma write_raw_proc fd b s : (write_raw fd b s).2.1 = s.1.
Proof.
  destruct s as [p fs]. unfold write_raw, bind at 1, gets. cbn [fst].
  destruct (descriptors p !! fd) as [[i|r]|]; [|done..].
  unfold bind, on_snd. by destruct (fs_write_handle i b fs).
Qed.

Lemma deliver_ignored n sig s : disposition_of s.1 sig = SIG_IGN -> deliver n sig s = (Ok tt, s).
Proof. intros Hi. destruct n; cbn [deliver]; unfold bind, gets; by rewrite Hi. Qed.

(** With broken pipes ignored, a write returns, also within a handler. *)
Lemma write_returns n fd b s :
  disposition_of s.1 SIGPIPE = SIG_IGN ->
  (let* w := write_raw fd b in
   match w with
   | EPIPE => let? _ := deliver n SIGPIPE in ret (Ok EPIPE)
   | w => ret (Ok w)
   end) s = (Ok (write_raw fd b s).1, (write_raw fd b s).2).
Proof.
  intros Hp. pose proof (write_raw_proc fd b s) as Hw. unfold bind.
  destruct (write_raw fd b s) as [w s'] eqn:E. cbn [fst snd] in *. destruct w; [done..|].
  unfold bindR, bind. rewrite (deliver_ignored n) by by rewrite Hw. done.
Qed.

Lemma sys_write_returns fd b s :
  disposition_of s.1 SIGPIPE = SIG_IGN -> sys_write fd b s = (Ok (write_raw fd b s).1, (write_raw fd b s).2).
Proof. apply (write_returns 2). Qed.

(** The files once the mark, if there is one, has been tried. *)
Definition mark_tried (sig : Z) (s : Machine) : Machine :=
  if 0 <=? death_fd s.1 then
    match mark_of sig with Some msg => (write_raw (death_fd s.1) msg s).2 | None => s end
  else s.

Lemma handler_spec n sig s :
  disposition_of s.1 SIGPIPE = SIG_IGN -> disposition_of s.1 sig = Caught ->
  deliver (S n) sig s =
    (by_default sig, ((libc_signal sig SIG_DFL (mark_tried sig s).1).2, (mark_tried sig s).2)).
Proof.
  intros Hp Hc. cbn [deliver]. unfold bind at 1, gets at 1. rewrite Hc.
  unfold death_mark_handler, bind at 1, gets at 1, mark_tried.
  assert (forall s' : Machine, (on_fst (libc_signal sig SIG_DFL) ;;; ret (by_default sig)) s' =
            (by_default sig, ((libc_signal sig SIG_DFL s'.1).2, s'.2))) as Hend.
  { intros [p fs]. unfold bind, on_fst. cbn [fst snd]. by destruct (libc_signal sig SIG_DFL p). }
  destruct (0 <=? death_fd s.1); [|unfold bindR, bind at 1; apply Hend].
  destruct (mark_of sig) as [msg|]; [|unfold bindR, bind at 1; apply Hend].
  unfold bindR, bind at 1. unfold bind at 1.
  rewrite (write_returns n) by done. cbn [ret]. apply Hend.
Qed.

Lemma mark_tried_proc sig s : (mark_tried sig s).1 = s.1.
Proof.
  unfold mark_tried. destruct (0 <=? death_fd s.1); [|done].
  destruct (mark_of sig); [apply write_raw_proc|done].
Qed.

Lemma by_default_err sig x : by_default sig = Err x -> x = sig /\ default_ends sig = true.
Proof. unfold by_default. destruct (default_ends sig); [|done]. by intros [= ->]. Qed.

Ltac clash :=
  intros Hok ->; match goal with
  | Hd : ?b = true -> disposition_of _ _ = Forwarded, He : disposition_of _ _ = _ |- _ =>
      rewrite (Hd Hok) in He; discriminate
  end.

(** What sending a signal to a tamed process comes to. *)
Lemma raise_tamed sig s :
  tamed s.1 ->
  match raise sig s with
  | (Ok _, s') => tamed s'.1 /\ (shutdown s.1 = true -> shutdown s'.1 = true) /\
      (term_ok = true -> sig = SIGTERM -> shutdown s'.1 = true)
  | (Err x, _) => x = sig /\ default_ends sig = true /\ sig <> SIGPIPE /\
      (int_ok = true -> sig <> SIGINT) /\ (term_ok = true -> sig <> SIGTERM)
  end.
Proof.
  intros [Hp Hi Ht]. unfold raise.
  destruct (disposition_of s.1 sig) eqn:Ed.
  - cbn [deliver]. unfold bind, gets. rewrite Ed. unfold ret, by_default.
    destruct (default_ends sig) eqn:Ee.
    + split; [done|]. split; [done|]. split; [congruence|]. split; clash.
    + split; [done|]. split; [done|]. clash.
  - rewrite deliver_ignored by done. split; [done|]. split; [done|]. clash.
  - rewrite (handler_spec 1) by done. destruct (by_default sig) as [u|x] eqn:Eb.
    + cbn [fst]. rewrite mark_tried_proc. split; [|split].
      * apply (tamed_same s.1); [|done]. intros sig' Hn. rewrite libc_signal_spec.
        rewrite decide_False; [done|]. intros [-> _]. done.
      * unfold libc_signal. by destruct (_ || _).
      * clash.
    + apply by_default_err in Eb as [-> Ee]. split; [done|]. split; [done|].
      split; [congruence|]. split; clash.
  - cbn [deliver]. unfold bind, gets. rewrite Ed. destruct s as [p fs]. cbn.
    split; [|done]. by apply (tamed_same p).
Qed.

Lemma run_hooks_returns hooks loc pl s :
  disposition_of s.1 SIGPIPE = SIG_IGN ->
  exists fs, run_hooks hooks loc pl s = (Ok tt, (s.1, fs)).
Proof.
  intros Hp. revert s Hp. induction hooks as [|log hooks IH]; intros s Hp; cbn [run_hooks].
  - unfold bindR, bind. rewrite sys_write_returns by done. pose proof (write_raw_proc 2 (panic_report loc pl) s) as Hw.
    destruct (write_raw 2 _ s) as [w [p fs]]. exists fs. cbn in *. by subst p.
  - destruct s as [p fs]. unfold bind at 1, on_snd at 1.
    match goal with |- context [let '(_, _) := ?m fs in _] => destruct (m fs) as [u fs1] end.
    by apply (IH (p, fs1)).
Qed.

(** What can end the process, by which signal. *)
Definition fatal (aborts : bool) (x : Z) (e : Event) : Prop :=
  match e with
  | Sent sig => x = sig /\ default_ends sig = true /\ sig <> SIGPIPE /\
      (int_ok = true -> sig <> SIGINT) /\ (term_ok = true -> sig <> SIGTERM)
  | Panics _ _ => aborts = true /\ x = SIGABRT
  | Writes _ _ | HangsUp _ => False
  end.

Lemma happen_tamed aborts e s :
  tamed s.1 ->
  match happen aborts e s with
  | (Ok _, s') => tamed s'.1 /\ (shutdown s.1 = true -> shutdown s'.1 = true) /\
      (term_ok = true -> e = Sent SIGTERM -> shutdown s'.1 = true)
  | (Err x, _) => fatal aborts x e
  end.
Proof.
  intros Ht. pose proof (tm_pipe _ Ht) as Hp. destruct e as [fd b|fd|sig|loc pl]; cbn [happen].
  - unfold bindR, bind. rewrite sys_write_returns by done.
    pose proof (write_raw_proc fd b s) as Hw. destruct (write_raw fd b s) as [w s']. cbn in *. by rewrite Hw.
  - destruct s as [p fs]. cbn [fst] in *. unfold bind, on_fst, modify. cbn.
    split; [|by unfold hang_up; destruct (descriptors p !! fd) as [[]|]].
    apply (tamed_same p); [|done]. intros sig _. unfold hang_up. by destruct (descriptors p !! fd) as [[]|].
  - pose proof (raise_tamed sig s Ht) as Hr. destruct (raise sig s) as [[u|x] s'].
    + destruct Hr as (? & ? & Hs). split; [done|]. split; [done|]. intros ? [= ->]. by apply Hs.
    + by destruct Hr as (-> & ?).
  - unfold panics, bind at 1, gets. destruct (run_hooks_returns (panic_hooks s.1) loc pl s Hp) as [fs Hr].
    unfold bindR, bind. rewrite Hr. destruct aborts; [|done].
    unfold abort_process, bind. pose proof (raise_tamed SIGABRT (s.1, fs) Ht) as Ha.
    destruct (raise SIGABRT (s.1, fs)) as [[u|x] s']; [done|]. by destruct Ha as (-> & _).
Qed.

Lemma live_through_tamed aborts es s :
  tamed s.1 ->
  match live_through aborts es s with
  | (Ok _, s') => tamed s'.1 /\ (shutdown s.1 = true -> shutdown s'.1 = true) /\
      (term_ok = true -> Sent SIGTERM ∈ es -> shutdown s'.1 = true)
  | (Err x, s') => exists es1 e es2 s1, es = es1 ++ e :: es2 /\
      live_through aborts es1 s = (Ok tt, s1) /\ happen aborts e s1 = (Err x, s') /\ fatal aborts x e
  end.
Proof.
  revert s. induction es as [|e es IH]; intros s Ht; cbn [live_through].
  { split; [done|]. split; [done|]. by intros _ ?%elem_of_nil. }
  pose proof (happen_tamed aborts e s Ht) as He. unfold bindR, bind.
  destruct (happen aborts e s) as [[u|x] s1] eqn:E.
  - destruct He as (Ht1 & Hs1 & Hterm). specialize (IH s1 Ht1).
    destruct (live_through aborts es s1) as [[u'|x] s2].
    + destruct IH as (Ht2 & Hs2 & Hi). split; [done|]. split; [auto|].
      intros Hok [<-|Hin]%elem_of_cons; auto.
    + destruct IH as (es1 & e1 & es2 & sm & -> & Hl & Hh & Hf).
      exists (e :: es1), e1, es2, sm. split; [done|]. split; [|done].
      cbn [live_through]. unfold bindR, bind. by rewrite E.
  - exists [], e, es, s. done.
Qed.
End Surviving.

(** ** The start *)

(** The calls that only deal with descriptors. *)
Definition same_handling (p q : Proc) : Prop :=
  dispositions q = dispositions p /\ panic_hooks q = panic_hooks p /\ shutdown q = shutdown p.

Lemma dup2_handling a b p : same_handling p (dup2 a b p).2.
Proof. unfold dup2, modify. cbn. by destruct (descriptors p !! a). Qed.

Lemma open_fd_handling log s : same_handling s.1 (open_fd log s).2.1.
Proof.
  destruct s as [p fs]. unfold open_fd, bind, on_snd, on_fst.
  by destruct (open_append_mode log 420 fs) as [[i|er] fs'].
Qed.

Lemma redirect_handling log s : same_handling s.1 (redirect_stdio_to log s).2.1.
Proof.
  pose proof (open_fd_handling log s) as Ho. unfold redirect_stdio_to, bind at 1.
  destruct (open_fd log s) as [[fd|] [p fs]]; [|done]. cbn [fst snd] in Ho.
  unfold on_fst, bind. pose proof (dup2_handling fd 1 p) as H1. destruct (dup2 fd 1 p) as [u1 p1].
  pose proof (dup2_handling fd 2 p1) as H2. destruct (dup2 fd 2 p1) as [u2 p2].
  unfold same_handling in *. cbn in *. unfold whenM, close_fd, modify, ret.
  destruct (2 <? fd); cbn; naive_solver congruence.
Qed.

Lemma signals_installed l (s : Machine) sig :
  Forall (fun e => e.1 <> SIGKILL /\ e.1 <> SIGSTOP) l ->
  let s' := (forM l (fun e : Z * bytes => on_fst (libc_signal e.1 Caught)) s).2 in
  disposition_of s'.1 sig = (if decide (sig ∈ l.*1) then Caught else disposition_of s.1 sig) /\
  s' = ({| dispositions := dispositions s'.1; descriptors := descriptors s.1; death_fd := death_fd s.1;
           panic_hooks := panic_hooks s.1; shutdown := shutdown s.1 |}, s.2).
Proof.
  cbv zeta. intros Hl. revert s. induction l as [|e l IH]; intros [p fs]; cbn [forM].
  { split; [done|]. by destruct p. }
  apply Forall_cons in Hl as [[Hk Hs] Hl].
  assert ((on_fst (libc_signal e.1 Caught) ;;; forM l (fun e => on_fst (libc_signal e.1 Caught))) (p, fs) =
          forM l (fun e => on_fst (libc_signal e.1 Caught)) (set_disposition e.1 Caught p, fs)) as ->.
  { unfold bind, on_fst, libc_signal.
    by rewrite (proj2 (Z.eqb_neq _ _) Hk), (proj2 (Z.eqb_neq _ _) Hs). }
  destruct (IH Hl (set_disposition e.1 Caught p, fs)) as [Hi Hsame].
  split; [|exact Hsame]. rewrite Hi. cbn [fst]. rewrite dispositions_set, fmap_cons.
  repeat case_decide; rewrite ?elem_of_cons in *; naive_solver.
Qed.

Lemma names_catchable : Forall (fun e : Z * bytes => e.1 <> SIGKILL /\ e.1 <> SIGSTOP) SIG_NAMES.
Proof. apply (bool_decide_unpack _). vm_compute. exact I. Qed.

(** The process once broken pipes are pinned to be ignored. *)
Definition pinned (int_ok term_ok : bool) (p : Proc) : Proc :=
  (libc_signal SIGPIPE SIG_IGN (watch_shutdown int_ok term_ok p).2).2.

Lemma pinned_tamed int_ok term_ok p : tamed int_ok term_ok (pinned int_ok term_ok p).
Proof.
  split; [|intros ->..]; unfold pinned, watch_shutdown, whenM, bind, libc_signal, disposition_of.
  - by destruct int_ok, term_ok; cbn; rewrite lookup_insert_eq.
  - by destruct term_ok; cbn; repeat (rewrite lookup_insert_eq || rewrite lookup_insert_ne by done).
  - by destruct int_ok; cbn; repeat (rewrite lookup_insert_eq || rewrite lookup_insert_ne by done).
Qed.

Lemma become_daemon_steps int_ok term_ok log s :
  (become_daemon int_ok term_ok log s).2 =
    let s1 := (install_signal_death_marks log
                 (redirect_stdio_to log (pinned int_ok term_ok s.1, s.2)).2).2 in
    (add_panic_hook log s1.1, s1.2).
Proof.
  destruct s as [p fs]. unfold become_daemon, pinned, bind, on_fst. cbn [fst snd].
  destruct (watch_shutdown int_ok term_ok p) as [u1 p1]. cbn [snd].
  destruct (libc_signal SIGPIPE SIG_IGN p1) as [u2 p2]. cbn [snd].
  destruct (redirect_stdio_to log (p2, fs)) as [u3 s3]. cbn [snd].
  by destruct (install_signal_death_marks log s3) as [u4 [p4 fs4]].
Qed.

Lemma install_dispositions log s sig :
  sig ∉ SIG_NAMES.*1 -> disposition_of (install_signal_death_marks log s).2.1 sig = disposition_of s.1 sig.
Proof.
  intros Hn. pose proof (open_fd_handling log s) as (Ho & _). unfold install_signal_death_marks, bind at 1.
  destruct (open_fd log s) as [[fd|] [p fs]]; cbn [fst snd] in Ho.
  - unfold bind. change (on_fst (modify (set_death_fd fd)) (p, fs)) with (tt, (set_death_fd fd p, fs)).
    cbv beta iota. destruct (signals_installed SIG_NAMES (set_death_fd fd p, fs) sig names_catchable) as [Hs _].
    rewrite Hs, decide_False by done. unfold disposition_of. simpl. by rewrite Ho.
  - unfold disposition_of. simpl. by rewrite Ho.
Qed.

Lemma start_tamed int_ok term_ok log s : tamed int_ok term_ok (become_daemon int_ok term_ok log s).2.1.
Proof.
  rewrite become_daemon_steps. cbn [fst].
  assert (tamed int_ok term_ok
            (install_signal_death_marks log (redirect_stdio_to log (pinned int_ok term_ok s.1, s.2)).2).2.1)
    as [Hp Hi Ht]; [|by split].
  pose proof (redirect_handling log (pinned int_ok term_ok s.1, s.2)) as (Hd & _).
  destruct (pinned_tamed int_ok term_ok s.1) as [Hp Hi Ht].
  split; [|intros Ho..]; (rewrite install_dispositions by (apply (bool_decide_unpack _); vm_compute; exact I));
    unfold disposition_of; rewrite Hd; auto.
Qed.

(** ** The marks *)

Section Logged.
Context `{StdPanic} (log : path).

(** What the log holds. *)
Definition text (s : Machine) : bytes := default "" (content (disk s.2) log).

(** The streams and the marks all go to the log [i], the handlers are set, and
    no call fails. *)
Record logged (i : nat) (s : Machine) : Prop := {
  lg_file : dir (disk s.2) !! log = Some i;
  lg_there : is_Some (inodes (disk s.2) !! i);
  lg_err : descriptors s.1 !! 2 = Some (ToFile i);
  lg_out : descriptors s.1 !! 1 = Some (ToFile i);
  lg_fd : 0 <= death_fd s.1;
  lg_mark : descriptors s.1 !! death_fd s.1 = Some (ToFile i);
  lg_caught : forall sig, sig ∈ SIG_NAMES.*1 -> disposition_of s.1 sig = Caught;
  lg_hooks : panic_hooks s.1 = [log];
  lg_faults : faults s.2 = [];
}.

Lemma nofault fs A (fail : bytes -> M Fs (result io_error A)) succeed :
  faults fs = [] -> io fail succeed fs = succeed fs.
Proof. intros Hf. by apply io_nofault. Qed.

Lemma append_text i b j fs :
  faults fs = [] -> dir (disk fs) !! log = Some i -> is_Some (inodes (disk fs) !! i) ->
  let r := fs_write_handle j b fs in
  r.1 = Ok tt /\ faults r.2 = [] /\ dir (disk r.2) !! log = Some i /\ is_Some (inodes (disk r.2) !! i) /\
  (j = i -> default "" (content (disk r.2) log) = default "" (content (disk fs) log) +:+ b).
Proof.
  intros Hf Hd [ino Hi]. cbv zeta. unfold fs_write_handle. rewrite nofault by done.
  cbn -[append_inode]. split; [done|]. split; [done|]. unfold append_inode.
  destruct (inodes (disk fs) !! j) as [jno|] eqn:Ej; [|split; [done|]; split; [by eexists|intros ->; congruence]].
  split; [done|]. split.
  - destruct (decide (j = i)) as [->|Hne]; simpl; [rewrite lookup_insert_eq|rewrite lookup_insert_ne by done]; by eexists.
  - intros ->. unfold content, inode_at. simpl. rewrite Hd, lookup_insert_eq, Ej. done.
Qed.

Lemma logged_fs i s fs :
  logged i s -> faults fs = [] -> dir (disk fs) !! log = Some i -> is_Some (inodes (disk fs) !! i) ->
  logged i (s.1, fs).
Proof. by intros [] ???. Qed.

Lemma write_logged i fd b s :
  logged i s ->
  logged i (write_raw fd b s).2 /\
  (descriptors s.1 !! fd = Some (ToFile i) -> text (write_raw fd b s).2 = text s +:+ b).
Proof.
  intros Hl. destruct s as [p fs]. destruct (write_raw fd b (p, fs)) as [w s'] eqn:E.
  revert E. unfold write_raw, bind at 1, gets. cbn [fst snd].
  destruct (descriptors p !! fd) as [[j|r]|]; [|by intros [= _ <-]..].
  destruct (append_text i b j fs (lg_faults _ _ Hl) (lg_file _ _ Hl) (lg_there _ _ Hl)) as (Hr & Hf & Hd & Hi & Ht).
  unfold bind, on_snd. destruct (fs_write_handle j b fs) as [r fs']. cbn [fst snd] in *. subst r.
  intros [= _ <-]. split; [by apply (logged_fs i (p, fs))|]. intros [= ->]. by apply Ht.
Qed.

(** The hook of the log, then the standard one on the error stream. *)
Lemma hooks_logged i loc pl s :
  logged i s -> disposition_of s.1 SIGPIPE = SIG_IGN ->
  exists fs, run_hooks [log] loc pl s = (Ok tt, (s.1, fs)) /\ logged i (s.1, fs) /\
    text (s.1, fs) = text s +:+ panic_line loc pl +:+ panic_report loc pl.
Proof.
  intros Hl Hp. destruct s as [p fs]. cbn [run_hooks].
  assert (fs_open_append log fs = (Ok i, fs)) as Hopen.
  { unfold fs_open_append. rewrite nofault by apply Hl.
    pose proof (lg_file _ _ Hl) as Hd. cbn [snd] in Hd. by rewrite Hd. }
  unfold bind at 1, on_snd at 1. unfold bind at 1. rewrite Hopen. unfold bind at 1.
  destruct (append_text i (panic_line loc pl) i fs (lg_faults _ _ Hl) (lg_file _ _ Hl) (lg_there _ _ Hl))
    as (_ & Hf & Hd & Hi & Ht).
  destruct (fs_write_handle i (panic_line loc pl) fs) as [r fs1]. cbn [fst snd ret] in *.
  pose proof (logged_fs i (p, fs) fs1 Hl Hf Hd Hi) as Hl1. cbn [fst] in Hl1.
  destruct (write_logged i 2 (panic_report loc pl) _ Hl1) as [Hl2 Ht2].
  unfold bindR, bind. rewrite sys_write_returns by done.
  pose proof (write_raw_proc 2 (panic_report loc pl) (p, fs1)) as Hw.
  destruct (write_raw 2 (panic_report loc pl) (p, fs1)) as [w [p2 fs2]]. cbn [fst snd ret] in *. subst p2.
  exists fs2. split; [done|]. split; [done|]. rewrite Ht2 by apply Hl1.
  unfold text at 1. cbn [snd]. rewrite Ht by done. by rewrite string_app_assoc.
Qed.

Lemma mark_of_named sig : sig ∉ SIG_NAMES.*1 -> mark_of sig = None.
Proof.
  intros Hn. unfold mark_of. destruct (find _ SIG_NAMES) as [e|] eqn:Ef; [|done].
  apply find_some in Ef as [Hin He%Z.eqb_eq]. destruct Hn. rewrite <- He.
  apply list_elem_of_fmap. exists e. split; [done|by apply list_elem_of_In].
Qed.

Lemma named_ends sig : sig ∈ SIG_NAMES.*1 -> default_ends sig = true.
Proof.
  intros Hn. assert (Forall (fun sig => default_ends sig = true) SIG_NAMES.*1) as Hall
    by (apply (bool_decide_unpack _); vm_compute; exact I).
  rewrite Forall_forall in Hall. by apply Hall.
Qed.

Lemma mark_logged i sig s :
  logged i s -> logged i (mark_tried sig s) /\ text (mark_tried sig s) = text s +:+ default "" (mark_of sig).
Proof.
  intros Hl. unfold mark_tried. rewrite (proj2 (Z.leb_le _ _) (lg_fd _ _ Hl)).
  destruct (mark_of sig) as [msg|].
  - destruct (write_logged i (death_fd s.1) msg s Hl) as [Hl' Ht]. split; [done|]. apply Ht, Hl.
  - cbn [default]. by rewrite string_app_nil_r.
Qed.

(** The log keeps up with a signal, to the end. *)
Lemma raise_logged i sig s :
  logged i s -> disposition_of s.1 SIGPIPE = SIG_IGN ->
  match raise sig s with
  | (Ok _, s') => logged i s'
  | (Err _, s') => text s' = text s +:+ default "" (mark_of sig)
  end.
Proof.
  intros Hl Hp.
  assert (disposition_of s.1 sig <> Caught -> mark_of sig = None) as Hnone.
  { intros Hc. apply mark_of_named. intros Hn. by apply Hc, Hl. }
  unfold raise. destruct (disposition_of s.1 sig) eqn:Ed.
  - cbn [deliver]. unfold bind, gets. rewrite Ed. unfold ret. destruct (by_default sig); [done|].
    rewrite Hnone by done. cbn [default]. by rewrite string_app_nil_r.
  - by rewrite deliver_ignored.
  - rewrite (handler_spec 1) by done. destruct (mark_logged i sig s Hl) as [Hm Ht].
    destruct (by_default sig) as [u|x] eqn:Eb; [|exact Ht].
    assert (sig ∉ SIG_NAMES.*1) as Hn.
    { intros Hn%named_ends. unfold by_default in Eb. by rewrite Hn in Eb. }
    destruct Hm. unfold libc_signal. destruct (_ || _); [by split|].
    split; try done. intros sig' Hs. cbn [modify fst snd]. rewrite dispositions_set, decide_False by congruence. auto.
  - cbn [deliver]. unfold bind, gets. rewrite Ed. destruct s as [p fs]. cbn. by destruct Hl.
Qed.

(** What the log says of the end of the process. *)
Definition last_words (x : Z) (e : Event) : bytes :=
  match e with
  | Panics loc pl => panic_line loc pl +:+ panic_report loc pl +:+ default "" (mark_of x)
  | _ => default "" (mark_of x)
  end.

Lemma happen_logged int_ok term_ok aborts i e s :
  logged i s -> tamed int_ok term_ok s.1 ->
  match happen aborts e s with
  | (Ok _, s') => logged i s'
  | (Err x, s') => text s' = text s +:+ last_words x e
  end.
Proof.
  intros Hl Ht. pose proof (tm_pipe _ _ _ Ht) as Hp. destruct e as [fd b|fd|sig|loc pl]; cbn [happen].
  - unfold bindR, bind. rewrite sys_write_returns by done.
    destruct (write_logged i fd b s Hl) as [Hl' _]. by destruct (write_raw fd b s).
  - destruct s as [p fs]. unfold bind, on_fst, modify. cbn. destruct Hl as [Hd Hi H2 H1 Hf Hm Hc Hk Hx].
    unfold hang_up. cbn [fst snd] in *. destruct (descriptors p !! fd) as [[j|r]|] eqn:E; [by split| |by split].
    split; try done; cbn; rewrite lookup_insert_ne; try done; congruence.
  - pose proof (raise_logged i sig s Hl Hp) as Hr. pose proof (raise_tamed _ _ sig s Ht) as Hx.
    destruct (raise sig s) as [[u|x] s']; [done|]. by destruct Hx as (-> & _).
  - unfold panics, bind at 1, gets. rewrite (lg_hooks _ _ Hl).
    destruct (hooks_logged i loc pl s Hl Hp) as (fs & Hr & Hl' & Htx).
    unfold bindR, bind at 1. rewrite Hr. destruct aborts; [|done].
    pose proof (raise_logged i SIGABRT (s.1, fs) Hl' Hp) as Ha.
    pose proof (raise_tamed _ _ SIGABRT (s.1, fs) Ht) as Hx.
    unfold abort_process, bind.
    destruct (raise SIGABRT (s.1, fs)) as [[u|x] s'] eqn:Er; cbn [ret last_words].
    + exfalso. revert Er. unfold raise. rewrite (handler_spec 1); [discriminate|done|].
      apply Hl'. apply (bool_decide_unpack _). vm_compute. exact I.
    + destruct Hx as (-> & _). rewrite Ha, Htx. by rewrite !string_app_assoc.
Qed.

Lemma live_through_logged int_ok term_ok aborts i es s s' u :
  logged i s -> tamed int_ok term_ok s.1 -> live_through aborts es s = (Ok u, s') -> logged i s'.
Proof.
  revert s. induction es as [|e es IH]; intros s Hl Ht; cbn [live_through]; [by intros [= _ <-]|].
  pose proof (happen_logged _ _ aborts i e s Hl Ht) as He. pose proof (happen_tamed _ _ aborts e s Ht) as Hh.
  unfold bindR, bind. destruct (happen aborts e s) as [[v|x] s1]; [|done].
  by apply IH; [|destruct Hh].
Qed.

(** *** The log is in place from the start *)

Lemma free_from_spec n fd fds :
  0 <= fd -> (forall m, 0 <= m < fd -> is_Some (fds !! m)) -> fd + Z.of_nat n = Z.of_nat (size fds) ->
  0 <= free_from n fd fds /\ fds !! free_from n fd fds = None.
Proof.
  revert fd. induction n as [|n IH]; intros fd H0 Hbusy Hs; cbn [free_from].
  - split; [done|]. destruct (fds !! fd) as [t|] eqn:Ef; [|done]. exfalso.
    assert (list_to_set (seqZ 0 (fd + 1)) ⊆ dom fds) as Hsub.
    { intros m Hm%elem_of_list_to_set%elem_of_seqZ. apply elem_of_dom.
      destruct (decide (m = fd)) as [->|]; [by eexists|apply Hbusy; lia]. }
    apply subseteq_size in Hsub. rewrite size_dom, size_list_to_set in Hsub by apply NoDup_seqZ.
    rewrite length_seqZ in Hsub. lia.
  - destruct (fds !! fd) as [t|] eqn:Ef; [|done]. apply IH; [lia| |lia].
    intros m Hm. destruct (decide (m = fd)) as [->|]; [by eexists|apply Hbusy; lia].
Qed.

Lemma lowest_free_spec fds : 0 <= lowest_free fds /\ fds !! lowest_free fds = None.
Proof. apply free_from_spec; [done|lia|lia]. Qed.

Lemma open_fd_spec p fs :
  faults fs = [] -> disk_wf (disk fs) ->
  exists i fs', open_fd log (p, fs) =
      (Some (lowest_free (descriptors p)),
       (set_descriptors (<[lowest_free (descriptors p) := ToFile i]> (descriptors p)) p, fs')) /\
    faults fs' = [] /\ dir (disk fs') !! log = Some i /\ is_Some (inodes (disk fs') !! i) /\
    (is_Some (dir (disk fs) !! log) -> fs' = fs).
Proof.
  intros Hf Hw. unfold open_fd, bind, on_snd, open_append_mode. rewrite nofault by done.
  destruct (dir (disk fs) !! log) as [i|] eqn:Ed.
  - exists i, fs. split; [done|]. split; [done|]. split; [done|]. split; [|done].
    by apply (proj2 Hw (dir (disk fs)) log i); [left|].
  - eexists _, _. split; [done|]. unfold write_disk. rewrite Ed. cbn. rewrite !lookup_insert_eq.
    split; [done|]. split; [done|]. split; [by eexists|]. by intros [? ?].
Qed.

Lemma redirect_spec p fs i fs1 fd :
  open_fd log (p, fs) = (Some fd, (set_descriptors (<[fd := ToFile i]> (descriptors p)) p, fs1)) ->
  exists fds, redirect_stdio_to log (p, fs) = (tt, (set_descriptors fds p, fs1)) /\
    fds !! 1 = Some (ToFile i) /\ fds !! 2 = Some (ToFile i).
Proof.
  intros Ho. unfold redirect_stdio_to, bind at 1. rewrite Ho. unfold on_fst, bind, dup2, modify, close_fd.
  cbn -[Z.ltb]. rewrite lookup_insert_eq. cbn -[Z.ltb].
  assert ((<[1 := ToFile i]> (<[fd := ToFile i]> (descriptors p))) !! fd = Some (ToFile i)) as ->.
  { rewrite lookup_insert. case_decide; [done|by rewrite lookup_insert_eq]. }
  unfold whenM, ret. destruct (Z.ltb_spec 2 fd); cbn; (eexists; split; [done|]).
  - rewrite !lookup_delete_ne by lia. rewrite (lookup_insert_ne _ 2 1) by done.
    by rewrite !lookup_insert_eq.
  - rewrite (lookup_insert_ne _ 2 1) by done. by rewrite !lookup_insert_eq.
Qed.

Lemma install_spec p fs i :
  faults fs = [] -> dir (disk fs) !! log = Some i ->
  let s' := (install_signal_death_marks log (p, fs)).2 in
  s'.2 = fs /\ descriptors s'.1 = <[lowest_free (descriptors p) := ToFile i]> (descriptors p) /\
  death_fd s'.1 = lowest_free (descriptors p) /\ panic_hooks s'.1 = panic_hooks p /\
  (forall sig, sig ∈ SIG_NAMES.*1 -> disposition_of s'.1 sig = Caught).
Proof.
  intros Hf Hd. cbv zeta.
  assert (open_fd log (p, fs) = (Some (lowest_free (descriptors p)),
            (set_descriptors (<[lowest_free (descriptors p) := ToFile i]> (descriptors p)) p, fs))) as Ho.
  { unfold open_fd, bind, on_snd, open_append_mode. rewrite nofault by done. by rewrite Hd. }
  destruct (install_signal_death_marks log (p, fs)) as [u s3] eqn:E. revert E.
  unfold install_signal_death_marks, bind at 1. rewrite Ho. unfold bind.
  match goal with |- context [on_fst (modify ?f) ?s] =>
    change (on_fst (modify f) s) with (tt, (f s.1, s.2)) end. cbv beta iota. cbn [fst snd].
  match goal with |- context [forM SIG_NAMES _ ?s] =>
    pose proof (fun sig => proj1 (signals_installed SIG_NAMES s sig names_catchable)) as Hc;
    pose proof (proj2 (signals_installed SIG_NAMES s 0 names_catchable)) as Hs;
    destruct (forM SIG_NAMES _ s) as [u2 s2] end.
  intros [= <- <-]. cbn [snd] in *. rewrite Hs. cbn. repeat split.
  intros sig Hin. specialize (Hc sig). rewrite decide_True in Hc by done. exact Hc.
Qed.

Lemma start_logged int_ok term_ok p fs :
  faults fs = [] -> disk_wf (disk fs) -> panic_hooks p = [] ->
  exists i, logged i (become_daemon int_ok term_ok log (p, fs)).2.
Proof.
  intros Hf Hw Hk. rewrite become_daemon_steps. cbn [fst snd].
  assert (panic_hooks (pinned int_ok term_ok p) = []) as Hk1.
  { unfold pinned, watch_shutdown, whenM, bind, libc_signal. by destruct int_ok, term_ok. }
  destruct (open_fd_spec (pinned int_ok term_ok p) fs Hf Hw) as (i & fs1 & Ho & Hf1 & Hd1 & Hi1 & _).
  destruct (redirect_spec _ _ _ _ _ Ho) as (fds & -> & H1 & H2). cbn [snd].
  destruct (install_spec (set_descriptors fds (pinned int_ok term_ok p)) fs1 i Hf1 Hd1)
    as (Hfs & Hds & Hfd & Hh & Hc). destruct (lowest_free_spec fds) as [H0 Hfree].
  exists i. cbn [set_descriptors descriptors panic_hooks] in *.
  split; cbn [fst snd add_panic_hook panic_hooks descriptors death_fd]; try (by rewrite Hfs); rewrite ?Hds, ?Hfd.
  - rewrite lookup_insert_ne; [done|congruence].
  - rewrite lookup_insert_ne; [done|congruence].
  - done.
  - by rewrite lookup_insert_eq.
  - exact Hc.
  - by rewrite Hh, Hk1.
Qed.
End Logged.

Lemma daemon_start_steps cmd int_ok term_ok log s :
  exists p, dispositions p !! SIGPIPE = Some (if restores_sigpipe_default cmd then SIG_DFL else SIG_IGN) /\
    panic_hooks p = panic_hooks s.1 /\
    (daemon_start cmd int_ok term_ok log s).2 = (become_daemon int_ok term_ok log (p, s.2)).2.
Proof.
  destruct s as [p fs]. unfold daemon_start, bind, on_fst, main_signals, whenM. cbn [fst snd].
  unfold runtime_start, libc_signal, modify. cbn -[become_daemon].
  destruct (restores_sigpipe_default cmd); (eexists; split; [|split]; cycle 2; [done|apply lookup_insert_eq|done]).
Qed.

(** C8: how a daemon dies.  However it is launched and whatever its log does,
    once it is set up no write to a broken pipe ends it, nor does SIGPIPE itself,
    and the signals to stop only tell it to shut down; only another fatal signal
    sent to it ends it, or a panic where panics abort.  And where the log could
    be opened and takes what is written, the log ends with exactly the mark of
    that signal, or with the panic and the mark of SIGABRT after it. *)
Theorem daemon_deaths_marked `{StdPanic} cmd int_ok term_ok log aborts es p fs :
  let s := (daemon_start cmd int_ok term_ok log (p, fs)).2 in
  match live_through aborts es s with
  | (Ok _, s') => term_ok = true -> Sent SIGTERM ∈ es -> shutdown s'.1 = true
  | (Err x, s') =>
      exists es1 e es2 s1, es = es1 ++ e :: es2 /\
        live_through aborts es1 s = (Ok tt, s1) /\ happen aborts e s1 = (Err x, s') /\
        fatal int_ok term_ok aborts x e /\
        (faults fs = [] -> disk_wf (disk fs) -> panic_hooks p = [] ->
         text log s' = text log s1 +:+ last_words x e)
  end.
Proof.
  cbv zeta. destruct (daemon_start_steps cmd int_ok term_ok log (p, fs)) as (q & _ & Hh & ->).
  cbn [fst snd] in *. pose proof (start_tamed int_ok term_ok log (q, fs)) as Ht.
  pose proof (fun Hf Hw Hk => start_logged log int_ok term_ok q fs Hf Hw Hk) as Hlog.
  destruct (become_daemon int_ok term_ok log (q, fs)) as [u0 s]. cbn [snd] in *.
  pose proof (live_through_tamed int_ok term_ok aborts es s Ht) as Hl.
  destruct (live_through aborts es s) as [[u|x] s']; [by destruct Hl as (_ & _ & Hl)|].
  destruct Hl as (es1 & e & es2 & s1 & -> & Hl & He & Hfat). exists es1, e, es2, s1.
  split; [done|]. split; [done|]. split; [done|]. split; [done|]. intros Hf Hw Hk.
  rewrite Hh in Hlog. destruct (Hlog Hf Hw Hk) as [i Hi].
  pose proof (live_through_tamed int_ok term_ok aborts es1 s Ht) as Ht1. rewrite Hl in Ht1.
  pose proof (live_through_logged log _ _ aborts i es1 s s1 tt Hi Ht Hl) as Hi1.
  pose proof (happen_logged log _ _ aborts i e s1 Hi1 (proj1 Ht1)) as Hx. by rewrite He in Hx.
Qed.

(** ** Witness *)

(** std's report for the main thread, as its format is. *)
Definition witness_report : StdPanic :=
  {| panic_report := fun loc p =>
       newline +:+ "thread 'main' panicked at " +:+
       match loc with Some (file, line) => file +:+ ":" +:+ pretty line +:+ ":9" | None => "?" end +:+ ":" +:+ newline +:+
       panic_message p +:+ newline +:+
       "note: run with `RUST_BACKTRACE=1` environment variable to display a backtrace" +:+ newline |}.

#[local] Existing Instance witness_report.

(** A daemon started by systemd: its streams are sockets of the journal. *)
Definition journal_proc : Proc :=
  {| dispositions := ∅; descriptors := {[0 := ToPipe true; 1 := ToPipe true; 2 := ToPipe true]};
     death_fd := -1; panic_hooks := []; shutdown := false |}.

Definition no_config_flags : RunArgs :=
  {| ra_common := {| arg_config := None; arg_data_dir := None |}; ra_cfg := no_flags; ra_foreground := false |}.

(** The journal goes away, a client of the socket hangs up in the middle of an
    answer, a thread panics, and somebody sends SIGHUP. *)
Definition bad_day : list Event :=
  [HangsUp 1; Writes 1 "line"; HangsUp 0; Writes 0 "answer"; Sent SIGPIPE; Sent SIGTERM; Sent SIGHUP].

Abbreviation start_here := (daemon_start (RunCmd no_config_flags) true true "/d/keep-at.log"
                              (journal_proc, fresh_fs [("/d/keep-at.log", "boot" +:+ newline)] [])).2.

Example dies_of_sighup :
  let r := live_through true bad_day start_here in
  r.1 = Err SIGHUP /\ shutdown r.2.1 = true /\
  text "/d/keep-at.log" r.2 = "boot" +:+ newline +:+ "line" +:+ "death-mark: SIGHUP (1) received" +:+ newline.
Proof. vm_compute. done. Qed.

(** The debug knob's panic: the release profile aborts. *)
Example panic_aborts :
  let r := live_through true [Panics (Some ("src/bin/keep-at.rs", 261)) (PanicStr "intentional")] start_here in
  r.1 = Err SIGABRT /\
  text "/d/keep-at.log" r.2 =
    "boot" +:+ newline +:+ "death-mark: PANIC at src/bin/keep-at.rs:261: intentional" +:+ newline +:+
    newline +:+ "thread 'main' panicked at src/bin/keep-at.rs:261:9:" +:+ newline +:+ "intentional" +:+ newline +:+
    "note: run with `RUST_BACKTRACE=1` environment variable to display a backtrace" +:+ newline +:+
    "death-mark: SIGABRT (6) received" +:+ newline.
Proof. vm_compute. done. Qed.

Lemma daemon_deaths_marked_witness :
  exists es1 e es2 s1 s', bad_day = es1 ++ e :: es2 /\
    live_through true es1 start_here = (Ok tt, s1) /\ happen true e s1 = (Err SIGHUP, s') /\
    fatal true true true SIGHUP e /\
    text "/d/keep-at.log" s' = text "/d/keep-at.log" s1 +:+ last_words SIGHUP e.
Proof.
  pose proof (daemon_deaths_marked (RunCmd no_config_flags) true true "/d/keep-at.log" true bad_day journal_proc
                (fresh_fs [("/d/keep-at.log", "boot" +:+ newline)] [])) as Hd.
  assert ((live_through true bad_day start_here).1 = Err SIGHUP) as Hx by (vm_compute; reflexivity).
  cbv zeta in Hd. destruct (live_through true bad_day start_here) as [r s']. cbn [fst] in Hx. subst r.
  destruct Hd as (es1 & e & es2 & s1 & Hes & Hl & He & Hf & Ht).
  exists es1, e, es2, s1, s'. split; [exact Hes|]. split; [exact Hl|]. split; [exact He|]. split; [exact Hf|].
  apply Ht; [reflexivity|apply fresh_disk_wf|reflexivity].
Defined.
