(* ===== verification/Follow.v ===== *)
(** Printing the end of a growing file and following it, [logs.rs] and
    [history.rs].  Both commands poll the file twice a second with the same loop,
    over bytes in one and over text in the other; what a poll finds at the path is
    its argument. *)

From S2P Require Import Prelude Text Float64 Fs Humanize History.

(** ** Complete lines *)

(** [rposition] (or [rfind]) of a newline, plus one; zero without a newline. *)
Fixpoint complete_len (s : bytes) : nat :=
  match s with
  | EmptyString => 0
  | String a s =>
      match complete_len s with
      | O => if Ascii.eqb a newline then 1 else 0
      | S n => S (S n)
      end
  end.

Definition complete (s : bytes) : bytes := str_take (complete_len s) s.

(** ** The tail that is printed first *)

(** The backward search of [print_tail] over the reversed text, for the newline
    that makes [lines]; the offset behind it, and how many were seen. *)
Fixpoint count_back (lines seen : nat) (rev_text : list ascii) : option nat * nat :=
  match rev_text with
  | [] => (None, seen)
  | b :: rest =>
      if Ascii.eqb b newline then
        if (S seen =? lines)%nat then (Some (S (length rest)), S seen)
        else count_back lines (S seen) rest
      else count_back lines seen rest
  end.

Definition tail_start (lines : nat) (text : string) : nat :=
  if (lines =? 0)%nat then String.length text
  else
    let '(idx, seen) := count_back lines 0 (rev (String.list_ascii_of_string text)) in
    if (seen <? lines)%nat then 0%nat else default (String.length text) idx.

(** [print_tail] on the contents: what is printed, and the offset returned. *)
Definition print_tail (lines : nat) (data : bytes) : string * nat :=
  let text := complete (lossy data) in
  (drop_bytes (tail_start lines text) text, String.length text).

(** ** The loop *)

Definition file_id : Type := Z * Z.

Record Follow := {
  f_pos : nat;
  f_last_id : option file_id;
}.

(** What one pass finds: device, inode and length, when the path can be read;
    and the contents when the file is opened a moment later. *)
Record Sight := {
  s_meta : option (file_id * nat);
  s_open : option bytes;
}.

(** What is printed: that the file was replaced, or complete lines. *)
Inductive Shown := Replaced | Lines (b : bytes).

Section Loop.
(** Whether the bytes read are a text; the history reads bytes. *)
Context (is_text : bytes -> bool).

(** What the read from the offset gives to print. *)
Definition readable_lines (buf : bytes) : bytes := if is_text buf then complete buf else "".

Definition follow_poll (p : path) (s : Sight) (st : Follow) : result error Follow * list Shown :=
  match s_meta s with
  | None => (Ok st, [])
  | Some (id, len) =>
      let replaced := (len <? f_pos st)%nat ||
                      match f_last_id st with Some prev => negb (bool_decide (prev = id)) | None => false end in
      let pos := if replaced then 0%nat else f_pos st in
      let notice := if replaced then [Replaced] else [] in
      if (pos <? len)%nat then
        match s_open s with
        | None => (Err ("reading " +:+ p), notice)
        | Some data =>
            let lines := readable_lines (drop_bytes pos data) in
            (Ok {| f_pos := pos + String.length lines; f_last_id := Some id |},
             notice ++ if String.eqb lines "" then [] else [Lines lines])
        end
      else (Ok {| f_pos := pos; f_last_id := Some id |}, notice)
  end.

(** The passes of the loop, until one fails. *)
Fixpoint follow (p : path) (sights : list Sight) (st : Follow) : result error Follow * list Shown :=
  match sights with
  | [] => (Ok st, [])
  | s :: sights =>
      match follow_poll p s st with
      | (Ok st, shown) => let '(r, rest) := follow p sights st in (r, shown ++ rest)
      | (Err e, shown) => (Err e, shown)
      end
  end.
End Loop.

(** ** Complete lines, proofs *)

Definition ends_line (s : bytes) : Prop := complete_len s = String.length s.
Definition str_prefix (a b : bytes) : Prop := exists t, b = a +:+ t.

Lemma complete_len_le s : (complete_len s <= String.length s)%nat.
Proof. induction s as [|a s IH]; simpl; [lia|]. destruct (complete_len s); [destruct (Ascii.eqb _ _)|]; lia. Qed.

Lemma complete_len_app a b :
  complete_len (a +:+ b) =
    if (complete_len b =? 0)%nat then complete_len a else (String.length a + complete_len b)%nat.
Proof.
  induction a as [|x a IH].
  - change ("" +:+ b) with b. simpl. by destruct (complete_len b).
  - rewrite string_app_cons. cbn [complete_len String.length]. rewrite IH.
    destruct (complete_len b) as [|n]; [done|]. cbn [Nat.eqb]. rewrite Nat.add_succ_r. simpl. lia.
Qed.

Lemma complete_len_after a b : ends_line a -> complete_len (a +:+ b) = (String.length a + complete_len b)%nat.
Proof. intros Ha. rewrite complete_len_app. destruct (complete_len b); [rewrite Ha; simpl; lia|done]. Qed.

Lemma drop_bytes_app a b : drop_bytes (String.length a) (a +:+ b) = b.
Proof.
  induction a as [|x a IH]; [apply drop_bytes_0|]. rewrite string_app_cons. simpl String.length.
  by rewrite drop_bytes_cons.
Qed.

Lemma str_take_app a b : str_take (String.length a) (a +:+ b) = a.
Proof. induction a as [|x a IH]; [by destruct b|]. rewrite string_app_cons. simpl. by rewrite IH. Qed.

(** The complete lines, and a last line without an end. *)
Lemma complete_split s : exists rest, s = complete s +:+ rest /\ complete_len rest = 0%nat.
Proof.
  unfold complete. induction s as [|a s (rest & Hs & Hr)]; [by exists ""|]. cbn [complete_len].
  destruct (complete_len s) as [|n] eqn:E.
  - destruct (Ascii.eqb a newline) eqn:Ea.
    + exists s. simpl. destruct s; by rewrite ?E.
    + exists (String a s). simpl. rewrite E, Ea. done.
  - exists rest. cbn [str_take]. rewrite string_app_cons. split; [by f_equal|done].
Qed.

Lemma complete_length s : String.length (complete s) = complete_len s.
Proof. unfold complete. rewrite str_take_length. pose proof (complete_len_le s). lia. Qed.

Lemma complete_ends s : ends_line (complete s).
Proof.
  destruct (complete_split s) as (rest & Hs & Hr). unfold ends_line. rewrite complete_length.
  rewrite Hs at 2. by rewrite complete_len_app, Hr.
Qed.

Lemma complete_after a b : ends_line a -> complete (a +:+ b) = a +:+ complete b.
Proof.
  intros Ha. unfold complete. rewrite complete_len_after by done. generalize (complete_len b) as n. intros n.
  clear Ha. induction a as [|x a IH]; [done|]. rewrite !string_app_cons. simpl. by rewrite IH.
Qed.

Lemma ends_line_app a b : ends_line a -> ends_line b -> ends_line (a +:+ b).
Proof. unfold ends_line. intros Ha Hb. rewrite complete_len_after, string_length_app by done. lia. Qed.

Lemma string_app_inj (a b c : string) : a +:+ b = a +:+ c -> b = c.
Proof. induction a as [|x a IH]; [done|]. rewrite !string_app_cons. intros [= H]. by apply IH. Qed.

Lemma ends_line_tail a b : ends_line a -> ends_line (a +:+ b) -> ends_line b.
Proof. unfold ends_line. intros Ha. rewrite complete_len_after, string_length_app by done. lia. Qed.

(** A prefix that ends a line is a prefix of the complete lines. *)
Lemma ends_line_complete a : ends_line a -> complete a = a.
Proof. intros Ha. unfold complete. rewrite Ha. by apply str_take_all. Qed.

Lemma str_prefix_trans a b c : str_prefix a b -> str_prefix b c -> str_prefix a c.
Proof. intros [t ->] [u ->]. exists (t +:+ u). by rewrite string_app_assoc. Qed.

(** ** Following loses and repeats nothing *)

(** What the passes may find while a file of one identity only grows: its length
    at one moment, its contents at a later one. *)
Inductive grows (id : file_id) : bytes -> list Sight -> bytes -> Prop :=
  | grows_end c : grows id c [] c
  | grows_unseen c o ss last :
      grows id c ss last -> grows id c ({| s_meta := None; s_open := o |} :: ss) last
  | grows_seen c m d ss last :
      str_prefix c m -> str_prefix m d -> grows id d ss last ->
      grows id c ({| s_meta := Some (id, String.length m); s_open := Some d |} :: ss) last.

(** A pass that finds the file as it stays. *)
Definition at_rest (id : file_id) (c : bytes) : Sight :=
  {| s_meta := Some (id, String.length c); s_open := Some c |}.

Lemma grows_prefix id c ss last : grows id c ss last -> str_prefix c last.
Proof.
  induction 1 as [c|c o ss last _ IH|c m d ss last Hm Hd _ IH]; [by exists ""; rewrite string_app_nil_r|done|].
  eauto using str_prefix_trans.
Qed.

Section Exact.
Context (is_text : bytes -> bool) (p : path) (id : file_id).
(** A text stays one without its first lines. *)
Hypothesis text_tail : forall a b, ends_line a -> is_text (a +:+ b) = true -> is_text b = true.

(** Up to where the follower has come in [c]. *)
Record reached (pre : bytes) (c : bytes) (st : Follow) : Prop := {
  reached_prefix : str_prefix pre c;
  reached_pos : f_pos st = String.length pre;
  reached_line : ends_line pre;
  reached_id : forall i, f_last_id st = Some i -> i = id;
}.

Lemma readable_prefix buf : exists rest,
  buf = readable_lines is_text buf +:+ rest /\ ends_line (readable_lines is_text buf) /\
  (is_text buf = true -> readable_lines is_text buf = complete buf).
Proof.
  unfold readable_lines. destruct (is_text buf).
  - destruct (complete_split buf) as (rest & Hb & _). eauto using complete_ends.
  - by exists buf.
Qed.

(** One pass: what it prints are the lines behind those reached. *)
Lemma poll_exact pre c m d st :
  reached pre c st -> str_prefix c m -> str_prefix m d ->
  exists st' lines,
    follow_poll is_text p {| s_meta := Some (id, String.length m); s_open := Some d |} st =
      (Ok st', if String.eqb lines "" then [] else [Lines lines]) /\
    reached (pre +:+ lines) d st' /\
    (m = d -> (forall r, d = pre +:+ r -> is_text r = true) -> pre +:+ lines = complete d) /\
    (forall r, d = pre +:+ r -> is_text r = false -> lines = "").
Proof.
  intros [[t ->] Hpos Hline Hid] Hm [u ->]. destruct Hm as [v ->].
  unfold follow_poll. cbn [s_meta s_open].
  assert ((String.length ((pre +:+ t) +:+ v) <? f_pos st)%nat = false) as ->
    by (apply Nat.ltb_ge; rewrite Hpos, !string_length_app; lia).
  assert (match f_last_id st with Some prev => negb (bool_decide (prev = id)) | None => false end = false) as ->
    by (destruct (f_last_id st) as [i|]; [by rewrite (Hid i eq_refl), bool_decide_eq_true_2|done]).
  cbn [orb app]. rewrite Hpos, !string_app_assoc, drop_bytes_app.
  destruct (Nat.ltb_spec (String.length pre) (String.length (pre +:+ (t +:+ v)))) as [Hlt|Hge].
  - set (buf := t +:+ (v +:+ u)).
    destruct (readable_prefix buf) as (rest & Hbuf & Hends & Hall).
    eexists _, (readable_lines is_text buf). split; [done|]. split.
    + split; cbn [f_pos f_last_id]; [|by rewrite string_length_app|by apply ends_line_app|by intros i [= <-]].
      exists rest. by rewrite string_app_assoc, <- Hbuf.
    + split; [intros _ Ht; rewrite complete_after by done; f_equal; apply Hall; by apply Ht|].
      intros r Hr%string_app_inj Ht. unfold readable_lines. by rewrite Hr, Ht.
  - rewrite string_length_app in Hge. assert (t +:+ v = "") as Htv by (destruct (t +:+ v); simpl in Hge; [done|lia]).
    exists {| f_pos := String.length pre; f_last_id := Some id |}, "". split; [done|].
    rewrite string_app_nil_r. split.
    + split; [by eexists|done|done|by intros i [= <-]].
    + split; [|done]. intros Hmd _.
      assert (u = "") as -> by (pose proof (f_equal String.length Hmd) as Hl;
        rewrite !string_length_app in Hl; destruct u; simpl in Hl; [done|lia]).
      assert (t = "" /\ v = "") as [-> ->] by (destruct t, v; done).
      rewrite !string_app_nil_r. by rewrite ends_line_complete.
Qed.

Lemma reached_grown pre c d st : reached pre c st -> str_prefix c d -> reached pre d st.
Proof. intros [] Hd. split; [by eapply str_prefix_trans|done..]. Qed.

Lemma follow_reached c ss last pre st :
  grows id c ss last -> reached pre c st ->
  exists st' bs, follow is_text p ss st = (Ok st', Lines <$> bs) /\
    reached (pre +:+ str_concat bs) last st' /\ Forall ends_line bs.
Proof.
  intros Hg. revert pre st.
  induction Hg as [c|c o ss last Hg IH|c m d ss last Hm Hd Hg IH]; intros pre st Hr.
  - exists st, []. split; [done|]. split; [by rewrite string_app_nil_r|done].
  - destruct (IH pre st Hr) as (st' & bs & Hf & Hr'). exists st', bs. split; [|done].
    cbn [follow]. unfold follow_poll. cbn [s_meta]. by rewrite Hf.
  - destruct (poll_exact pre c m d st Hr Hm Hd) as (st1 & lines & Hp & Hr1 & _).
    destruct (IH _ _ Hr1) as (st' & bs & Hf & Hr' & Hbs). cbn [follow]. rewrite Hp, Hf.
    exists st'. destruct (String.eqb lines "") eqn:El.
    + exists bs. split; [done|]. apply String.eqb_eq in El. by rewrite El, string_app_nil_r in Hr'.
    + exists (lines :: bs). split; [done|]. cbn [str_concat foldr]. rewrite <- string_app_assoc.
      split; [done|]. constructor; [|done]. eapply ends_line_tail; [apply Hr|apply Hr1].
Qed.

Lemma follow_app ss1 ss2 st :
  follow is_text p (ss1 ++ ss2) st =
    match follow is_text p ss1 st with
    | (Ok st1, shown) => let '(r, rest) := follow is_text p ss2 st1 in (r, shown ++ rest)
    | (Err e, shown) => (Err e, shown)
    end.
Proof.
  revert st. induction ss1 as [|s ss1 IH]; intros st; cbn [follow app].
  - by destruct (follow is_text p ss2 st).
  - destruct (follow_poll is_text p s st) as [[st1|e] shown]; [|done]. rewrite IH.
    destruct (follow is_text p ss1 st1) as [[st2|e] shown1]; [|done].
    destruct (follow is_text p ss2 st2) as [r rest]. by rewrite app_assoc.
Qed.

(** While the file grows, what is printed are exactly its lines from where the
    follower was: all of them once it is seen at rest. *)
Lemma follow_exact c ss last pre rest st :
  grows id c ss last -> reached pre c st -> last = pre +:+ rest -> is_text rest = true ->
  exists st' bs, follow is_text p (ss ++ [at_rest id last]) st = (Ok st', Lines <$> bs) /\
    pre +:+ str_concat bs = complete last /\ Forall ends_line bs.
Proof.
  intros Hg Hr Hlast Ht. destruct (follow_reached c ss last pre st Hg Hr) as (st1 & bs & Hf & Hr1 & Hbs).
  destruct (poll_exact _ last last last st1 Hr1) as (st' & lines & Hp & Hr2 & Hall & _); [by exists ""; rewrite string_app_nil_r..|].
  rewrite follow_app, Hf. cbn [follow]. unfold at_rest. rewrite Hp.
  exists st', (bs ++ if String.eqb lines "" then [] else [lines]). split.
  - rewrite fmap_app. by destruct (String.eqb lines "").
  - pose proof (ends_line_tail _ _ (reached_line _ _ _ Hr1) (reached_line _ _ _ Hr2)) as Hlines. split.
    2: { apply Forall_app. split; [done|]. destruct (String.eqb lines ""); by repeat constructor. }
    rewrite <- Hall; [|done|].
    + rewrite string_app_assoc. f_equal. clear. induction bs as [|b bs IH]; cbn [str_concat foldr app].
      * destruct (String.eqb lines "") eqn:El; cbn; [by apply String.eqb_eq in El|by rewrite string_app_nil_r].
      * unfold str_concat in *. by rewrite string_app_assoc, <- IH.
    + intros r Hd. rewrite Hlast in Hd. rewrite string_app_assoc in Hd. apply string_app_inj in Hd as ->.
      eapply text_tail; [|exact Ht]. eapply ends_line_tail; [apply Hr|apply Hr1].
Qed.

(** A file that was replaced, or that shrank, is printed from its start. *)
Lemma follow_restarts m d ss last st old :
  f_last_id st = Some old -> old <> id \/ (String.length m < f_pos st)%nat ->
  str_prefix m d -> grows id d ss last -> is_text last = true ->
  let first := {| s_meta := Some (id, String.length m); s_open := Some d |} in
  exists st' bs, follow is_text p ((first :: ss) ++ [at_rest id last]) st = (Ok st', Replaced :: (Lines <$> bs)) /\
    str_concat bs = complete last.
Proof.
  intros Hold Hnew Hm Hg Ht first. set (fresh := {| f_pos := 0; f_last_id := Some id |}).
  assert (grows id "" (first :: ss) last) as Hg' by (constructor; [by eexists|done|done]).
  destruct (follow_exact "" (first :: ss) last "" last fresh) as (st' & bs & Hf & Hb & _); try done.
  { split; [by exists ""|done|done|by intros i [= <-]]. }
  exists st', bs. split; [|done]. rewrite <- app_comm_cons in *. cbn [follow] in *.
  assert (follow_poll is_text p first st =
    let '(r, shown) := follow_poll is_text p first fresh in (r, Replaced :: shown)) as ->.
  { unfold follow_poll, fresh. cbn [first s_meta s_open f_pos f_last_id].
    rewrite Hold, (bool_decide_eq_true_2 (id = id)) by done. cbn [negb orb].
    assert ((String.length m <? 0)%nat = false) as -> by (apply Nat.ltb_ge; lia).
    assert ((String.length m <? f_pos st)%nat || negb (bool_decide (old = id)) = true) as ->.
    { apply orb_true_iff. destruct Hnew; [right|left; by apply Nat.ltb_lt].
      by rewrite bool_decide_eq_false_2. }
    cbn [orb app]. destruct (0 <? String.length m)%nat; [|done]. by destruct (String.eqb _ _). }
  destruct (follow_poll is_text p first fresh) as [[st1|e] shown]; [|done].
  destruct (follow is_text p (ss ++ _) st1) as [r rest]. injection Hf as -> Hs.
  by rewrite <- app_comm_cons, Hs.
Qed.

(** Complete lines that are no text stop it for good, however the file grows. *)
Lemma follow_stalls c ss last pre bad rest st :
  (forall a b, ends_line a -> is_text (a +:+ b) = true -> is_text a = true) ->
  grows id c ss last -> reached pre c st -> c = pre +:+ (bad +:+ rest) ->
  ends_line bad -> is_text bad = false ->
  exists st', follow is_text p ss st = (Ok st', []) /\ f_pos st' = f_pos st.
Proof.
  intros Hfront Hg. revert rest st.
  induction Hg as [c|c o ss last Hg IH|c m d ss last Hm Hd Hg IH]; intros rest st Hr Hc Hbad Hb.
  - by exists st.
  - destruct (IH rest st Hr Hc Hbad Hb) as (st' & Hf & Hp). exists st'. cbn [follow].
    unfold follow_poll. cbn [s_meta]. by rewrite Hf.
  - destruct (str_prefix_trans _ _ _ Hm Hd) as [u Hu]. rewrite Hc, !string_app_assoc in Hu.
    destruct (poll_exact pre c m d st Hr Hm Hd) as (st1 & lines & Hp & Hr1 & _ & Hnot).
    assert (lines = "") as ->.
    { apply (Hnot _ Hu). destruct (is_text (bad +:+ (rest +:+ u))) eqn:E; [|done].
      by rewrite (Hfront _ _ Hbad E) in Hb. }
    rewrite string_app_nil_r in Hr1.
    destruct (IH (rest +:+ u) st1 Hr1 Hu Hbad Hb) as (st' & Hf & Hpos).
    exists st'. cbn [follow]. rewrite Hp, Hf. split; [done|].
    by rewrite Hpos, (reached_pos _ _ _ Hr1), (reached_pos _ _ _ Hr).
Qed.
End Exact.

(** ** The tail *)

Fixpoint line_count (s : bytes) : nat :=
  match s with
  | EmptyString => 0
  | String a s => ((if Ascii.eqb a newline then 1 else 0) + line_count s)%nat
  end.

Lemma line_count_app a b : line_count (a +:+ b) = (line_count a + line_count b)%nat.
Proof. induction a as [|x a IH]; [done|]. rewrite string_app_cons. cbn [line_count]. rewrite IH. lia. Qed.

(** A text from its reversed bytes. *)
Definition unrev (l : list ascii) : string := String.string_of_list_ascii (rev l).

Lemma unrev_app l k : unrev (l ++ k) = unrev k +:+ unrev l.
Proof.
  unfold unrev. rewrite rev_app_distr. induction (rev k) as [|x k' IH]; [done|].
  cbn [app String.string_of_list_ascii]. by rewrite string_app_cons, IH.
Qed.

Lemma unrev_text t : unrev (rev (String.list_ascii_of_string t)) = t.
Proof. unfold unrev. by rewrite rev_involutive, String.string_of_list_ascii_of_string. Qed.

Lemma unrev_length l : String.length (unrev l) = length l.
Proof.
  induction l as [|x l IH] using rev_ind; [done|]. rewrite unrev_app, string_length_app, IH, length_app.
  simpl. lia.
Qed.

Lemma count_back_spec lines l : forall seen, (seen < lines)%nat ->
  match count_back lines seen l with
  | (None, n) => n = (seen + line_count (unrev l))%nat /\ (n < lines)%nat
  | (Some i, n) => n = lines /\ exists l1 l2, l = l1 ++ newline :: l2 /\ i = S (length l2) /\
      (seen + line_count (unrev l1) + 1)%nat = lines
  end.
Proof.
  induction l as [|b l IH]; intros seen Hs; [simpl; lia|]. cbn [count_back].
  destruct (Ascii.eqb_spec b newline) as [->|Hb].
  - destruct (Nat.eqb_spec (S seen) lines) as [<-|Hne].
    + split; [done|]. exists [], l. split; [done|]. split; [done|]. simpl. lia.
    + specialize (IH (S seen) ltac:(lia)). destruct (count_back lines (S seen) l) as [[i|] n].
      * destruct IH as (-> & l1 & l2 & -> & -> & Hc). split; [done|]. exists (newline :: l1), l2.
        split; [done|]. split; [done|]. change (newline :: l1) with ([newline] ++ l1).
        rewrite unrev_app, line_count_app. simpl. lia.
      * change (newline :: l) with ([newline] ++ l). rewrite unrev_app, line_count_app. simpl. lia.
  - specialize (IH seen Hs). destruct (count_back lines seen l) as [[i|] n].
    + destruct IH as (-> & l1 & l2 & -> & -> & Hc). split; [done|]. exists (b :: l1), l2.
      split; [done|]. split; [done|]. change (b :: l1) with ([b] ++ l1).
      rewrite unrev_app, line_count_app. cbn [unrev rev app String.string_of_list_ascii line_count].
      rewrite (proj2 (Ascii.eqb_neq _ _) Hb). lia.
    + change (b :: l) with ([b] ++ l). rewrite unrev_app, line_count_app.
      cbn [unrev rev app String.string_of_list_ascii line_count].
      rewrite (proj2 (Ascii.eqb_neq _ _) Hb). lia.
Qed.

(** The tail begins at a line, and is one line short of what was asked for,
    unless the text has no more: the newline that ends the last line counts. *)
Lemma tail_spec lines t :
  ends_line t ->
  exists pre tail, t = pre +:+ tail /\ tail_start lines t = String.length pre /\ ends_line pre /\
    line_count tail = Nat.min (pred lines) (line_count t).
Proof.
  intros Ht. unfold tail_start. destruct (Nat.eqb_spec lines 0) as [->|Hl].
  { exists t, "". rewrite string_app_nil_r. by repeat split. }
  pose proof (count_back_spec lines (rev (String.list_ascii_of_string t)) 0 ltac:(lia)) as Hc.
  destruct (count_back lines 0 _) as [[i|] n].
  - destruct Hc as (-> & l1 & l2 & Hr & -> & Hn). rewrite Nat.ltb_irrefl.
    pose proof (unrev_text t) as Hu. rewrite Hr, unrev_app in Hu.
    change (newline :: l2) with ([newline] ++ l2) in Hu. rewrite unrev_app in Hu.
    exists (unrev l2 +:+ String newline ""), (unrev l1). split; [by rewrite <- Hu|].
    rewrite string_length_app, unrev_length. split; [simpl; lia|].
    split; [unfold ends_line; rewrite complete_len_app, string_length_app; simpl; lia|].
    rewrite <- Hu, !line_count_app. simpl in *. lia.
  - rewrite unrev_text in Hc. destruct Hc as [-> Hlt]. rewrite (proj2 (Nat.ltb_lt _ _) Hlt).
    exists "", t. split; [done|]. split; [done|]. split; [done|]. lia.
Qed.

(** ** The log *)

(** [logs] without [--all]: the tail, then what the passes show. *)
Definition logs_follow (p : path) (lines : nat) (data : bytes) (sights : list Sight)
    : result error Follow * list Shown :=
  let '(tail, pos) := print_tail lines data in
  let '(r, shown) := follow utf8_valid p sights {| f_pos := pos; f_last_id := None |} in
  (r, Lines tail :: shown).

Lemma ends_line_inv a : ends_line a -> a = "" \/ exists s, a = s +:+ String newline "".
Proof.
  unfold ends_line. induction a as [|x a IH]; [by left|]. cbn [complete_len String.length]. intros H. right.
  destruct (complete_len a) as [|n] eqn:E.
  - destruct (Ascii.eqb_spec x newline) as [->|_]; [|done]. exists "". by destruct a.
  - destruct IH as [->|[s ->]]; [lia|done|]. by exists (String x s).
Qed.

Lemma utf8_lines a b : ends_line a -> utf8_valid (a +:+ b) = utf8_valid a && utf8_valid b.
Proof.
  intros [->|[s ->]]%ends_line_inv; [done|]. rewrite string_app_assoc.
  change (String newline "" +:+ b) with (String newline b).
  rewrite !utf8_app_ascii by done. by rewrite andb_true_r.
Qed.

Lemma utf8_tail a b : ends_line a -> utf8_valid (a +:+ b) = true -> utf8_valid b = true.
Proof. intros Ha. rewrite utf8_lines by done. by intros [_ H]%andb_true_iff. Qed.

Lemma utf8_front a b : ends_line a -> utf8_valid (a +:+ b) = true -> utf8_valid a = true.
Proof. intros Ha. rewrite utf8_lines by done. by intros [H _]%andb_true_iff. Qed.

Lemma no_line s : complete_len s = 0%nat <-> string_forall (fun a => negb (Ascii.eqb a newline)) s = true.
Proof.
  induction s as [|a s IH]; [done|]. cbn [complete_len string_forall]. rewrite andb_true_iff, <- IH.
  destruct (complete_len s); [|by split; [|intros [_ H]]]. by destruct (Ascii.eqb a newline); split; try done; intros [].
Qed.

(** The lossy conversion changes no complete line of a valid text. *)
Lemma lossy_complete c last :
  str_prefix c last -> utf8_valid last = true -> complete (lossy c) = complete c.
Proof.
  intros [t ->] Hu. destruct (complete_split c) as (r & Hc & Hr).
  pose proof (complete_ends c) as He. set (cc := complete c) in *.
  rewrite Hc, string_app_assoc in Hu. pose proof (utf8_front _ _ He Hu) as Hv.
  assert (lossy c = cc +:+ lossy r) as ->.
  { rewrite Hc. destruct (ends_line_inv cc He) as [->|[s Hs]]; [done|].
    rewrite Hs, string_app_assoc in *. change (String newline "" +:+ r) with (String newline r).
    rewrite utf8_app_ascii in Hv by done. apply andb_true_iff in Hv as [Hv _].
    rewrite lossy_app_ascii, lossy_valid, string_app_assoc by done. done. }
  rewrite complete_after by done. unfold complete.
  rewrite (proj2 (no_line (lossy r))); [|by apply lossy_no_new; [vm_compute|apply no_line]].
  by rewrite string_app_nil_r.
Qed.

(** C40: [logs] loses no line of a log of valid UTF-8 and repeats none.  When the
    whole log, as it is at last, is valid UTF-8, then however it grows between
    the passes and at whatever moment each of them finds it, once it is seen at
    rest what was shown is the whole of its complete lines from where the tail
    began, in order; and the tail began at a line, one line short of those asked
    for.  Without that condition it fails: see [logs_stall] below. *)
Theorem logs_follow_exact p id lines c ss last :
  grows id c ss last -> utf8_valid last = true ->
  exists st bs skipped tail,
    logs_follow p lines c (ss ++ [at_rest id last]) = (Ok st, Lines <$> bs) /\
    complete last = skipped +:+ str_concat bs /\
    complete c = skipped +:+ tail /\ ends_line skipped /\
    line_count tail = Nat.min (pred lines) (line_count (complete c)).
Proof.
  intros Hg Hu. pose proof (grows_prefix _ _ _ _ Hg) as Hp. unfold logs_follow, print_tail.
  rewrite (lossy_complete c last Hp Hu). destruct (complete_split c) as (r & Hc & _).
  destruct (str_prefix_trans (complete c) c last ltac:(by eexists) Hp) as [rest Hl].
  destruct (follow_exact utf8_valid p id utf8_tail c ss last (complete c) rest
              {| f_pos := String.length (complete c); f_last_id := None |}) as (st & bs & Hf & Hb & _); try done.
  { split; [by eexists|done|apply complete_ends|done]. }
  { rewrite Hl in Hu. eapply utf8_tail; [|exact Hu]. apply complete_ends. }
  destruct (tail_spec lines (complete c) (complete_ends c)) as (pre & tail & Ht & Hs & Hpre & Hn).
  rewrite Hf. exists st, (tail :: bs), pre, tail. split; [by rewrite Hs, Ht, drop_bytes_app|].
  split; [|done]. cbn [str_concat foldr]. fold (str_concat bs). by rewrite <- Hb, Ht, string_app_assoc.
Qed.

(** Nothing more is shown once a complete line is not valid UTF-8. *)
Lemma logs_stall p id c ss last pre bad rest st :
  grows id c ss last -> reached id pre c st -> c = pre +:+ (bad +:+ rest) ->
  ends_line bad -> utf8_valid bad = false ->
  exists st', follow utf8_valid p ss st = (Ok st', []) /\ f_pos st' = f_pos st.
Proof. intros Hg Hr. eapply follow_stalls; eauto using utf8_front. Qed.

(** ** The history *)

Definition ESC : string := String "027" "".
Definition GREEN : string := ESC +:+ "[32m".
Definition YELLOW : string := ESC +:+ "[33m".
Definition RED : string := ESC +:+ "[31m".
Definition RESET : string := ESC +:+ "[0m".

Definition paint (color : bool) (code s : string) : string := if color then code +:+ s +:+ RESET else s.

(** [&hash[..hash.len().min(8)]]; [None]: a slice inside a character panics. *)
Definition hash_head (h : string) : option string :=
  let n := Nat.min 8 (String.length h) in
  match drop_bytes n h with
  | String a _ => if continuation a then None else Some (str_take n h)
  | EmptyString => Some (str_take n h)
  end.

Section Render.
(** Chrono's RFC 3339 reader and [%Y-%m-%d %H:%M:%S] in UTC. *)
Context (fmt_rfc3339 : string -> option string) (color : bool).

Definition fmt_ts (ts : string) : string := default ts (fmt_rfc3339 ts).

Definition displaced_line (ts code : string) (d : Displaced) : option string :=
  match human_bytes (as_i64 (disp_size_bytes d)), hash_head (disp_hash d) with
  | Some size, Some head =>
      Some (paint color code
        (ts +:+ "   displaced " +:+ sanitize_title (disp_title d) +:+ " (" +:+ size +:+ ", " +:+
         pretty (disp_seeders d) +:+ " seeders) [" +:+ head +:+ "]"))
  | _, _ => None
  end.

(** [render]; [None]: a slice panics, or formatting a size does not return. *)
Definition render (ev : Event) : option (list string) :=
  match ev with
  | Add ts hash title size_bytes seeders location cause chance roll seeder_floor reason displaced =>
      let ts := fmt_ts ts in
      let code := match cause with Swap => YELLOW | _ => GREEN end in
      let verb := match cause with Swap => "swapped in " | _ => "added     " end in
      match human_bytes (as_i64 size_bytes), hash_head hash, mapM (displaced_line ts code) displaced with
      | Some size, Some head, Some rest =>
          Some (paint color code
            (ts +:+ " " +:+ verb +:+ sanitize_title title +:+ " (" +:+ size +:+ ", " +:+ pretty seeders +:+
             " seeders) at " +:+ location +:+ " — " +:+ label cause +:+ ": " +:+ reason +:+ " (chance " +:+
             fmt2 chance +:+ ", roll " +:+ fmt2 roll +:+ ", seeder floor " +:+ pretty seeder_floor +:+
             ") [" +:+ head +:+ "]") :: rest)
      | _, _, _ => None
      end
  | Remove ts hash title size_bytes seeders location cause reason =>
      match human_bytes (as_i64 size_bytes), hash_head hash with
      | Some size, Some head =>
          Some [paint color RED
            (fmt_ts ts +:+ " dropped   " +:+ sanitize_title title +:+ " (" +:+ size +:+ ", " +:+
             pretty seeders +:+ " seeders) from " +:+ location +:+ " — " +:+ label cause +:+ ": " +:+
             reason +:+ " [" +:+ head +:+ "]")]
      | _, _ => None
      end
  end.

Definition render_all (evs : list Event) : option (list string) := @concat string <$> mapM render evs.

Context `{EventCodec}.

Definition show_history (s : Shown) : option (list string) :=
  match s with
  | Replaced => Some ["--- history rotated; following the new generation ---"]
  | Lines b => render_all (parse_lines b).1
  end.

(** The last [lines] events. *)
Definition last_events (lines : nat) (evs : list Event) : list Event := drop (length evs - lines) evs.

(** [history] without [--all], on the contents first read: the tail, then what
    the passes show. *)
Definition history_follow (p : path) (lines : nat) (data : bytes) (sights : list Sight)
    : result error Follow * option (list string) :=
  let pos := complete_len data in
  let '(events, _) := parse_lines (str_take pos data) in
  let '(r, shown) := follow (fun _ => true) p sights {| f_pos := pos; f_last_id := None |} in
  (r, match render_all (last_events lines events), mapM show_history shown with
      | Some tail, Some rest => Some (tail ++ @concat string rest)
      | _, _ => None
      end).
End Render.

(** *** Proofs *)

Lemma split_on_lines a b :
  split_on newline (a +:+ String newline b) = split_on newline a ++ split_on newline b.
Proof.
  induction a as [|x a IH].
  - change ("" +:+ String newline b) with (String newline b). cbn [split_on]. by rewrite Ascii.eqb_refl.
  - rewrite string_app_cons. cbn [split_on]. rewrite IH.
    destruct (Ascii.eqb x newline); [done|]. destruct (split_on newline a) eqn:E; [|done].
    by destruct a as [|y a]; cbn [split_on] in E; [|destruct (Ascii.eqb y newline); [|destruct (split_on newline a)]].
Qed.

Section HistoryExact.
Context `{EventCodec}.

Lemma parse_from acc ls :
  foldl parse_line acc ls =
    (acc.1 ++ (foldl parse_line ([], 0%nat) ls).1, (acc.2 + (foldl parse_line ([], 0%nat) ls).2)%nat).
Proof.
  revert acc. induction ls as [|l ls IH]; intros [evs n]; cbn [foldl]; [by rewrite app_nil_r, Nat.add_0_r|].
  rewrite IH, (IH (parse_line ([], 0%nat) l)). unfold parse_line.
  destruct (String.eqb l ""); [done|]. destruct (event_from_slice l); cbn [fst snd app].
  - by rewrite <- app_assoc.
  - f_equal. lia.
Qed.

Lemma parse_lines_app a b :
  ends_line a -> (parse_lines (a +:+ b)).1 = (parse_lines a).1 ++ (parse_lines b).1.
Proof.
  intros [->|[s ->]]%ends_line_inv; [done|]. unfold parse_lines. rewrite string_app_assoc.
  change (String newline "" +:+ b) with (String newline b). rewrite !split_on_lines, !foldl_app.
  by rewrite (parse_from (foldl _ _ (split_on newline s)) (split_on newline b)).
Qed.

Context (fmt_rfc3339 : string -> option string) (color : bool).

Lemma mapM_option_app {A B} (f : A -> option B) l k :
  mapM f (l ++ k) =
    match mapM f l, mapM f k with Some a, Some b => Some (a ++ b) | _, _ => None end.
Proof.
  induction l as [|x l IH]; simpl; [by destruct (mapM f k)|]. rewrite IH.
  destruct (f x); [|done]. simpl. by destruct (mapM f l), (mapM f k).
Qed.

Lemma render_all_app evs evs' :
  render_all fmt_rfc3339 color (evs ++ evs') =
    match render_all fmt_rfc3339 color evs, render_all fmt_rfc3339 color evs' with
    | Some a, Some b => Some (a ++ b)
    | _, _ => None
    end.
Proof.
  unfold render_all. rewrite mapM_option_app.
  destruct (mapM _ evs) as [a|], (mapM _ evs') as [b|]; try done. simpl. by rewrite concat_app.
Qed.

Lemma show_lines bs :
  Forall ends_line bs ->
  match mapM (show_history fmt_rfc3339 color) (Lines <$> bs) with
  | Some shown => Some (@concat string shown)
  | None => None
  end = render_all fmt_rfc3339 color (parse_lines (str_concat bs)).1.
Proof.
  induction 1 as [|b bs Hb _ IH]; [done|]. change (str_concat (b :: bs)) with (b +:+ str_concat bs).
  rewrite parse_lines_app, render_all_app, <- IH by done.
  change (Lines <$> (b :: bs)) with ([Lines b] ++ (Lines <$> bs)). rewrite mapM_option_app.
  assert (mapM (show_history fmt_rfc3339 color) [Lines b] =
    (fun a => [a]) <$> render_all fmt_rfc3339 color (parse_lines b).1) as ->
    by (simpl; by destruct (render_all _ _ _)).
  destruct (render_all fmt_rfc3339 color (parse_lines b).1); [|done].
  simpl. by destruct (mapM _ _).
Qed.
End HistoryExact.

(** [history] misses no event.  However the ledger grows while it is followed,
    once it is seen at rest what was shown are its events, rendered in order,
    from the [lines] last ones of those it held at first. *)
Theorem history_follow_exact `{EventCodec} fmt_rfc3339 color p id lines c ss last :
  grows id c ss last ->
  exists st, history_follow fmt_rfc3339 color p lines c (ss ++ [at_rest id last]) =
    (Ok st, render_all fmt_rfc3339 color
              (drop (length (parse_lines (complete c)).1 - lines) (parse_lines (complete last)).1)).
Proof.
  intros Hg. unfold history_follow. change (str_take (complete_len c) c) with (complete c).
  destruct (complete_split c) as (r & Hc & _).
  destruct (str_prefix_trans (complete c) c last ltac:(by eexists) (grows_prefix _ _ _ _ Hg)) as [rest Hl].
  destruct (follow_exact (fun _ => true) p id ltac:(done) c ss last (complete c) rest
              {| f_pos := complete_len c; f_last_id := None |}) as (st & bs & Hf & Hb & Hbs); try done.
  { split; [by eexists|by rewrite complete_length|apply complete_ends|done]. }
  exists st. pose proof (show_lines fmt_rfc3339 color bs Hbs) as Hs.
  rewrite <- Hb, parse_lines_app by apply complete_ends. rewrite drop_app_le by lia.
  destruct (parse_lines (complete c)) as [events skipped]. cbn [fst] in *.
  rewrite render_all_app, <- Hs, Hf. unfold last_events. f_equal.
  destruct (render_all fmt_rfc3339 color (drop _ events)); [|done].
  by destruct (mapM _ (Lines <$> bs)).
Qed.

(** ** Witnesses *)

Definition witness_id : file_id := (1, 2).
Definition nl : string := String newline "".

(** A log that is read in the middle of a line, and grows between the look at its
    length and the reading. *)
Definition witness_before : bytes := "a" +:+ nl +:+ "b" +:+ nl +:+ "c".
Definition witness_between : bytes := witness_before +:+ nl.
Definition witness_after : bytes := witness_between +:+ "d" +:+ nl +:+ "e".
Definition witness_sights : list Sight :=
  [{| s_meta := None; s_open := None |};
   {| s_meta := Some (witness_id, String.length witness_between); s_open := Some witness_after |}].

Lemma witness_grows : grows witness_id witness_before witness_sights witness_after.
Proof.
  apply grows_unseen. apply (grows_seen _ _ witness_between); [by exists nl|by eexists|apply grows_end].
Defined.

Example logs_shows :
  (logs_follow "keep-at.log" 2 witness_before witness_sights).2 =
    [Lines ("b" +:+ nl); Lines ("c" +:+ nl +:+ "d" +:+ nl)].
Proof. by vm_compute. Qed.

Lemma logs_follow_exact_witness :
  exists st bs skipped tail,
    logs_follow "keep-at.log" 2 witness_before (witness_sights ++ [at_rest witness_id witness_after]) =
      (Ok st, Lines <$> bs) /\
    complete witness_after = skipped +:+ str_concat bs /\
    complete witness_before = skipped +:+ tail /\ ends_line skipped /\
    line_count tail = Nat.min 1 (line_count (complete witness_before)).
Proof.
  exact (logs_follow_exact "keep-at.log" witness_id 2 witness_before witness_sights witness_after
           witness_grows eq_refl).
Defined.

(** A ledger of two removals, the second of which arrives while it is followed. *)
Definition witness_ledger : bytes := witness_line.
Definition witness_ledger_after : bytes := witness_ledger +:+ witness_line.
Definition ledger_sights : list Sight :=
  [{| s_meta := Some (witness_id, String.length witness_ledger_after); s_open := Some witness_ledger_after |}].

Lemma ledger_grows : grows witness_id witness_ledger ledger_sights witness_ledger_after.
Proof.
  apply (grows_seen _ _ witness_ledger_after); [by eexists|exists ""; by rewrite string_app_nil_r|apply grows_end].
Defined.

Example history_shows :
  (@history_follow (fun _ => None) false witness_events "history.jsonl" 1 witness_ledger ledger_sights).2 =
    Some ["t dropped   x (10 B, 0 seeders) from /s — stalled: no seeders [aa]";
          "t dropped   x (10 B, 0 seeders) from /s — stalled: no seeders [aa]"].
Proof. by vm_compute. Qed.

Lemma history_follow_exact_witness :
  exists st, @history_follow (fun _ => None) false witness_events "history.jsonl" 1 witness_ledger
               (ledger_sights ++ [at_rest witness_id witness_ledger_after]) =
    (Ok st, render_all (fun _ => None) false [witness_removal; witness_removal]).
Proof.
  destruct (@history_follow_exact witness_events (fun _ => None) false "history.jsonl" witness_id 1
              witness_ledger ledger_sights witness_ledger_after ledger_grows) as [st Hs].
  exists st. rewrite Hs. f_equal.
Defined.
