(* ===== verification/NetStats.v ===== *)
(** Scan progress snapshots and runtime summaries, [netstats.rs]. *)

From S2P Require Import Prelude Text Float64 Fs Persist Time.

Record Snapshot := {
  scan_started_at : option instant;
  scan_completed_at : option instant;
  total_candidates : Z;
  processed_candidates : Z;
  snap_seeder_floor : Z;
}.

Definition snapshot_default : Snapshot :=
  {| scan_started_at := None; scan_completed_at := None; total_candidates := 0;
     processed_candidates := 0; snap_seeder_floor := 0 |}.

Definition in_progress (s : Snapshot) : bool :=
  match scan_started_at s, scan_completed_at s with Some _, None => true | _, _ => false end.

Definition progress_percent (s : Snapshot) : f64 :=
  if total_candidates s =? 0 then fzero
  else fmin (fmul (fdiv (f64_of_Z (processed_candidates s)) (f64_of_Z (total_candidates s)))
                  (f64_of_Z 100)) (f64_of_Z 100).

Record RuntimeStats := {
  collected_at : option instant;
  uptime_seconds : Z;
  held_torrents : Z;
  seeding_torrents : Z;
  downloading_torrents : Z;
  quarantined_torrents : Z;
  disk_used_bytes : Z;
  disk_limit_bytes : Z;
  disk_committed_bytes : Z;
  useful_bytes_uploaded : Z;
  useful_bytes_downloaded : Z;
  total_bytes_uploaded : Z;
  total_bytes_downloaded : Z;
  active_peers : Z;
  stat_rss_bytes : Z;
  heap_bytes : Z;
  tasks : Z;
}.

Definition runtime_default : RuntimeStats :=
  {| collected_at := None; uptime_seconds := 0; held_torrents := 0; seeding_torrents := 0;
     downloading_torrents := 0; quarantined_torrents := 0; disk_used_bytes := 0;
     disk_limit_bytes := 0; disk_committed_bytes := 0; useful_bytes_uploaded := 0;
     useful_bytes_downloaded := 0; total_bytes_uploaded := 0; total_bytes_downloaded := 0;
     active_peers := 0; stat_rss_bytes := 0; heap_bytes := 0; tasks := 0 |}.

(** [RuntimeStats::uptime]. *)
Definition uptime (s : RuntimeStats) : duration := secs (uptime_seconds s).

Definition upload_bits_per_sec (s : RuntimeStats) : f64 :=
  if uptime_seconds s =? 0 then fzero
  else fdiv (fmul (f64_of_Z (total_bytes_uploaded s)) (f64_of_Z 8)) (f64_of_Z (uptime_seconds s)).

Definition download_bits_per_sec (s : RuntimeStats) : f64 :=
  if uptime_seconds s =? 0 then fzero
  else fdiv (fmul (f64_of_Z (total_bytes_downloaded s)) (f64_of_Z 8)) (f64_of_Z (uptime_seconds s)).

Definition disk_used_pct (s : RuntimeStats) : f64 :=
  if disk_limit_bytes s =? 0 then fzero
  else fmin (fmul (fdiv (f64_of_Z (disk_used_bytes s)) (f64_of_Z (disk_limit_bytes s)))
                  (f64_of_Z 100)) (f64_of_Z 100).

(** serde_json on both files. *)
Class StatsCodec := {
  snapshot_to : Snapshot -> option bytes;
  snapshot_from : bytes -> option Snapshot;
  snapshot_from_to s b : snapshot_to s = Some b -> snapshot_from b = Some s;
  runtime_to : RuntimeStats -> option bytes;
  runtime_from : bytes -> option RuntimeStats;
  runtime_from_to s b : runtime_to s = Some b -> runtime_from b = Some s;
}.

Section Files.
Context `{StatsCodec}.

Definition load_snapshot (p : path) : M Fs (result error Snapshot) :=
  let* r := fs_read p in
  ret match r with
      | Err NotFound => Ok snapshot_default
      | Err OtherIo => Err ("reading " +:+ p)
      | Ok data => match snapshot_from data with
                   | Some s => Ok s
                   | None => Err ("parsing " +:+ p)
                   end
      end.

Definition save_snapshot (p : path) (s : Snapshot) : M Fs (result error unit) :=
  match snapshot_to s with
  | None => ret (Err "marshalling snapshot")
  | Some data => atomic_write p data
  end.

Definition load_runtime (p : path) : M Fs (result error RuntimeStats) :=
  let* r := fs_read p in
  ret match r with
      | Err NotFound => Ok runtime_default
      | Err OtherIo => Err ("reading " +:+ p)
      | Ok data => match runtime_from data with
                   | Some s => Ok s
                   | None => Err ("parsing " +:+ p)
                   end
      end.

Definition save_runtime (p : path) (s : RuntimeStats) : M Fs (result error unit) :=
  match runtime_to s with
  | None => ret (Err "marshalling runtime stats")
  | Some data => atomic_write p data
  end.
End Files.

(** [Tracker]: distinct nodes and the bytes they hold. *)
Record Tracker := {
  nodes : gset string;
  seeding_bytes : Z;
  leeching_bytes : Z;
}.

Definition observe (node_key : string) (torrent_size : Z) (complete : bool) (t : Tracker) : Tracker :=
  {| nodes := {[node_key]} ∪ nodes t;
     seeding_bytes := if complete then wrap64 (seeding_bytes t + torrent_size) else seeding_bytes t;
     leeching_bytes := if complete then leeching_bytes t else wrap64 (leeching_bytes t + torrent_size) |}.

Definition node_count (t : Tracker) : nat := size (nodes t).


(** ** A codec for the witnesses *)

Section WitnessStats.
Definition to_fields (s : Snapshot) : option instant * option instant * Z * Z * Z :=
  (scan_started_at s, scan_completed_at s, total_candidates s, processed_candidates s,
   snap_seeder_floor s).

Definition of_fields (f : option instant * option instant * Z * Z * Z) : Snapshot :=
  let '(st, co, total, done, floor) := f in
  {| scan_started_at := st; scan_completed_at := co; total_candidates := total;
     processed_candidates := done; snap_seeder_floor := floor |}.

Lemma witness_snapshot s b :
  Some (digits (encode (to_fields s))) = Some b ->
  of_fields <$> decode (of_digits b) = Some s.
Proof. intros [= <-]. rewrite of_digits_digits, decode_encode. by destruct s. Qed.

(** All the numbers in one list. *)
Definition to_numbers (s : RuntimeStats) : option instant * list Z :=
  (collected_at s,
   [uptime_seconds s; held_torrents s; seeding_torrents s; downloading_torrents s;
    quarantined_torrents s; disk_used_bytes s; disk_limit_bytes s; disk_committed_bytes s;
    useful_bytes_uploaded s; useful_bytes_downloaded s; total_bytes_uploaded s;
    total_bytes_downloaded s; active_peers s; stat_rss_bytes s; heap_bytes s; tasks s]).

Definition of_numbers (f : option instant * list Z) : RuntimeStats :=
  let n i := nth i f.2 0 in
  {| collected_at := f.1; uptime_seconds := n 0%nat; held_torrents := n 1%nat;
     seeding_torrents := n 2%nat; downloading_torrents := n 3%nat; quarantined_torrents := n 4%nat;
     disk_used_bytes := n 5%nat; disk_limit_bytes := n 6%nat; disk_committed_bytes := n 7%nat;
     useful_bytes_uploaded := n 8%nat; useful_bytes_downloaded := n 9%nat;
     total_bytes_uploaded := n 10%nat; total_bytes_downloaded := n 11%nat;
     active_peers := n 12%nat; stat_rss_bytes := n 13%nat; heap_bytes := n 14%nat;
     tasks := n 15%nat |}.

Lemma witness_runtime s b :
  Some (digits (encode (to_numbers s))) = Some b ->
  of_numbers <$> decode (of_digits b) = Some s.
Proof. intros [= <-]. rewrite of_digits_digits, decode_encode. by destruct s. Qed.

Definition witness_stats : StatsCodec :=
  {| snapshot_to := fun s => Some (digits (encode (to_fields s)));
     snapshot_from := fun b => of_fields <$> decode (of_digits b);
     snapshot_from_to := witness_snapshot;
     runtime_to := fun s => Some (digits (encode (to_numbers s)));
     runtime_from := fun b => of_numbers <$> decode (of_digits b);
     runtime_from_to := witness_runtime |}.
End WitnessStats.
