(* ===== verification/Stats.v ===== *)
(** What the node reports of itself, [engine/stats.rs]: the resident memory, and
    the runtime statistics of a moment.  The sum of the storage locations,
    [disk_usage], is in [Storage]. *)

From S2P Require Import Prelude Text Fs Time World NetStats.

(** [split_whitespace]. *)
Fixpoint split_whitespace (s : string) : list string :=
  match s with
  | EmptyString => []
  | String c s' =>
      if is_space c then split_whitespace s'
      else
        match s' with
        | String c' _ =>
            if is_space c' then String c "" :: split_whitespace s'
            else match split_whitespace s' with
                 | w :: ws => String c w :: ws
                 | [] => [String c ""]
                 end
        | EmptyString => [String c ""]
        end
  end.

(** The second field of [/proc/self/statm], in pages of 4096 bytes. *)
Definition rss_of (statm : string) : Z :=
  let rss_pages := default 0 ((split_whitespace statm) !! 1%nat ≫= parse_unsigned U64_MAX) in
  wrap64 (rss_pages * 4096).

Definition runtime_stats_path (data_dir : path) : path := path_join data_dir "runtime-stats.json".

Section Stats.
Context {W : Type} `{World W}.

Definition process_rss_bytes : M W Z :=
  let* data := read_statm in ret (rss_of (default "" data)).

Definition collect (started_at : instant) (held seeding quarantined disk_used disk_limit
    disk_committed : Z) : M W RuntimeStats :=
  let* snap := session_counters in
  let* rss := process_rss_bytes in
  let* at_ := utc_now in
  let* t := mono_now in
  ret {| collected_at := Some at_; uptime_seconds := Z.max (t - started_at) 0 / NANOS;
         held_torrents := held; seeding_torrents := seeding;
         downloading_torrents := sat_sub held seeding; quarantined_torrents := quarantined;
         disk_used_bytes := disk_used; disk_limit_bytes := disk_limit;
         disk_committed_bytes := disk_committed; useful_bytes_uploaded := sc_uploaded_bytes snap;
         useful_bytes_downloaded := sc_fetched_bytes snap;
         total_bytes_uploaded := sc_uploaded_bytes snap;
         total_bytes_downloaded := sc_fetched_bytes snap; active_peers := sc_live_peers snap;
         stat_rss_bytes := rss; heap_bytes := 0; tasks := 0 |}.
End Stats.

