(* ===== verification/Torrents.v ===== *)
(** The life of a torrent in the session, [engine/torrents.rs]. *)

From S2P Require Import Prelude Text Fs Net Pool World Time.

Section Torrents.
Context {W : Type} `{World W} `{HexCrate}.

(** [hex::decode] of a trimmed hash of 20 bytes ([parse_id20], [decode_hash]). *)
Definition parse_id20 (hex_str : string) : result error string :=
  match hex_decode (trim hex_str) with
  | None => Err "invalid infohash hex"
  | Some b => if (String.length b =? 20)%nat then Ok b else Err "invalid infohash length"
  end.

Definition torrent_output_dir (location : path) (info_hash_hex : string) : path :=
  path_join location info_hash_hex.

Definition add_torrent_bytes (info_hash_hex : string) (output_dir : path)
    (trackers : list (list string)) (cache_path : path) (wait_init : bool)
    : M (Node W) (result error string) :=
  let? raw := with_context ("loading cached .torrent for " +:+ info_hash_hex)
                (on_fs (fs_read cache_path)) in
  let opts := {| opt_output_folder := output_dir; opt_overwrite := true;
                 opt_trackers := concat trackers; opt_force_tracker_interval := secs 1800 |} in
  let? ih := ret (parse_id20 info_hash_hex) in
  on_registry (modify (register_torrent ih output_dir true)) ;;;
  let* added := on_world (session_add raw opts) in
  (if is_ok added then ret tt else on_registry (modify (unregister_torrent ih))) ;;;
  match added with
  | Err _ => ret (Err "adding torrent to session")
  | Ok None => ret (Err "torrent added list-only, expected managed")
  | Ok (Some handle) =>
      (if wait_init then on_world (session_wait_initialized handle) else ret tt) ;;;
      ret (Ok handle)
  end.

(** Failures to delete are logged, and the directory is removed as far as
    possible: only a malformed hash is an error. *)
Definition remove_torrent (info_hash_hex : string) (output_dir : path)
    : M (Node W) (result error unit) :=
  let? id := ret (parse_id20 info_hash_hex) in
  let* deleted := on_world (session_delete id true) in
  (if is_ok deleted then ret tt
   else
     let* there := on_world (path_exists output_dir) in
     if (there : bool) then (let* _ := on_world (remove_dir_all output_dir) in ret tt) else ret tt) ;;;
  on_registry (modify (unregister_torrent id)) ;;;
  let* there := on_world (path_exists output_dir) in
  (if (there : bool) then (let* _ := on_world (remove_dir output_dir) in ret tt) else ret tt) ;;;
  ret (Ok tt).

Definition find_torrent (info_hash_hex : string) : M (Node W) (result error (option Managed)) :=
  let? id := ret (parse_id20 info_hash_hex) in
  let* ts := on_world session_torrents in
  ret (Ok (list_find (fun t => mt_info_hash t = id) ts ≫= fun it => Some it.2)).
End Torrents.

(** What a call on the node may have changed: nothing on the files when [R]. *)
Definition same_files {W} (n n' : Node W) : Prop := node_fs n = node_fs n'.

#[export] Instance same_files_equiv {W} : Equivalence (@same_files W).
Proof. split; [done|by intros ? ?|intros ? ? ?; unfold same_files; congruence]. Qed.

Section Frames.
Context {W : Type} `{World W} `{HexCrate}.

Lemma on_world_files {A} (m : M W A) : keeps same_files (on_world m).
Proof. intros n. unfold on_world. by destruct (m (world n)). Qed.

Lemma on_registry_files {A} (m : M Registry A) : keeps (@same_files W) (on_registry m).
Proof. intros n. unfold on_registry. by destruct (m (registry n)). Qed.

Lemma remove_torrent_files hex dir : keeps same_files (remove_torrent hex dir).
Proof.
  unfold remove_torrent, bindR. apply keeps_bind; [apply _|apply keeps_ret; apply _|].
  intros [id|e]; [|apply keeps_ret; apply _].
  apply keeps_bind; [apply _|apply on_world_files|]. intros deleted.
  apply keeps_bind; [apply _| |].
  { destruct (is_ok deleted); [apply keeps_ret; apply _|].
    apply keeps_bind; [apply _|apply on_world_files|]. intros [];
      [|apply keeps_ret; apply _].
    apply keeps_bind; [apply _|apply on_world_files|]. intros. apply keeps_ret; apply _. }
  intros. apply keeps_bind; [apply _|apply on_registry_files|]. intros.
  apply keeps_bind; [apply _|apply on_world_files|]. intros there.
  apply keeps_bind; [apply _| |intros; apply keeps_ret; apply _].
  destruct there; [|apply keeps_ret; apply _].
  apply keeps_bind; [apply _|apply on_world_files|]. intros. apply keeps_ret; apply _.
Qed.
End Frames.
