(* ===== verification/Session.v ===== *)
(** Opening the BitTorrent session of the node, [engine/session.rs]: its options
    and the attempts to bind its listener. *)

From S2P Require Import Prelude Time Ram Config World.

(** [nonzero_u32]: zero, and what a [u32] cannot hold, are no limit. *)
Definition nonzero_u32 (v : Z) : option Z := if (0 <? v) && (v <=? U32_MAX) then Some v else None.

(** [session_rate_limits]: upload and download. *)
Definition session_rate_limits (c : Config) : option Z * option Z :=
  (nonzero_u32 (upload_rate_limit c), nonzero_u32 (download_rate_limit c)).

(** The cap on pending handshakes never switches accepting off. *)
Definition listener_options (port : Z) (ipv4_only : bool) : ListenerOptions :=
  {| lo_port := port; lo_ipv4_only := ipv4_only; lo_max_pending_handshakes := USIZE_MAX |}.

(** [build_opts] of [new_seeder_session]. *)
Definition build_opts (c : Config) (ram_budget : Z) (ipv4_only : bool) : SessionOptions :=
  {| so_data_dir := data_dir c; so_listen := listener_options (port c) ipv4_only; so_ipv4_only := ipv4_only;
     so_upload_bps := (session_rate_limits c).1; so_download_bps := (session_rate_limits c).2;
     so_peer_limit := peer_limit_for_budget ram_budget; so_enable_tcp := Some true; so_dht := false;
     so_disable_local_discovery := true; so_pooled_storage := true |}.

(** Dual stack, IPv4 only, dual stack again. *)
Definition ATTEMPTS : list (bool * string) :=
  [(false, "dualstack"); (true, "ipv4-only"); (false, "dualstack")].

Section Session.
Context {W : Type} `{World W}.

Fixpoint try_sessions (c : Config) (ram_budget : Z) (attempt : Z) (modes : list (bool * string))
    (last_err : error) : M W (result error unit) :=
  match modes with
  | [] => ret (Err last_err)
  | (ipv4_only, mode) :: modes =>
      let* r := session_open (build_opts c ram_budget ipv4_only) in
      match r with
      | Ok _ => ret (Ok tt)
      | Err _ =>
          whenM (attempt <? 3) (sleep (secs 10)) ;;;
          try_sessions c ram_budget (attempt + 1) modes
            ("creating rqbit session (attempt " +:+ pretty attempt +:+ "/3, " +:+ mode +:+ ")")
      end
  end.

Definition new_seeder_session (c : Config) (ram_budget : Z) : M W (result error unit) :=
  try_sessions c ram_budget 1 ATTEMPTS "session creation never attempted".

Definition stop_session (timeout : duration) : M W unit := session_stop timeout.
End Session.

(** A rate that is not zero and fits is passed on as it is; no other is. *)
Lemma nonzero_u32_spec v b : nonzero_u32 v = Some b <-> b = v /\ 0 < v <= U32_MAX.
Proof.
  unfold nonzero_u32.
  destruct (Z.ltb_spec 0 v), (Z.leb_spec v U32_MAX); simpl; (split; [intros [= <-]|intros [-> ?]]); done || lia.
Qed.
