(* ===== verification/Swap.v ===== *)
(** The pure decisions of a scan, [engine/scan.rs]: which catalog items are
    candidates, which held torrents a swap displaces, and the gates on the
    device and on a collapsed catalog. *)

From S2P Require Import Prelude Text Float64 Fs Time Quarantine Ram Selector State Net Filter Catalog.
From S2P Require Import Humanize.

(** ** Candidates *)

(** Extra bytes reserved per torrent beyond nominal size. *)
Definition PER_TORRENT_SIZE_BUFFER : Z := 256 * 1024.

(** [size_needed]. *)
Definition size_needed (nominal : Z) : Z := sat_add64 nominal PER_TORRENT_SIZE_BUFFER.

Inductive Prefilter := PreHeld | PreBlocked | PreTooBig | PrePending.

#[export] Instance prefilter_eq_dec : EqDecision Prefilter.
Proof. solve_decision. Defined.

Section Items.
Context `{HexCrate}.
Variable to_lowercase : string -> string.

Definition prefilter_reason (item : Item) (held : gset string) (blocklist : KeywordBlocklist)
    (max_fittable : Z) : Prefilter :=
  if decide (hex_encode (item_info_hash item) ∈ held) then PreHeld
  else if blocks to_lowercase blocklist (item_title item) (item_description item) is Some _ then PreBlocked
  else if (0 <? max_fittable) && (max_fittable <? item_size_bytes item) then PreTooBig
  else PrePending.

Definition count_pending (items : list Item) (held : gset string) (blocklist : KeywordBlocklist)
    (max_fittable : Z) : Z :=
  Z.of_nat (length (filter (fun i => prefilter_reason i held blocklist max_fittable = PrePending)
                           items)).

Definition tiers_of (flat : list string) : list (list string) := (fun t => [t]) <$> flat.

(** [decode_hash]. *)
Definition decode_hash (hex_str : string) : result error string :=
  match hex_decode (trim hex_str) with
  | None => Err "invalid infohash hex"
  | Some b => if (String.length b =? 20)%nat then Ok b else Err "invalid infohash length"
  end.

(** Twenty zero bytes. *)
Definition zero_hash : string :=
  String.string_of_list_ascii (repeat Ascii.zero 20).

(** [decode_hash(..).unwrap_or([0u8; 20])]. *)
Definition hash_or_zero (hex_str : string) : string :=
  match decode_hash hex_str with Ok h => h | Err _ => zero_hash end.
End Items.

(** ** What a swap displaces *)

(** The candidate a held torrent is scored as. *)
Definition as_candidate (t : Torrent) : Candidate :=
  {| cand_info_hash := zero_hash; cand_title := ""; cand_size_bytes := t_size_bytes t;
     cand_piece_count := t_piece_count t; cand_seeders := t_last_known_seeders t;
     cand_leechers := 0; cand_seeder_floor := 0 |}.

Section Displace.
Context `{Libm}.

Definition evict_cmp (size_bias : f64) (peer_limit : Z) (a b : Torrent) : comparison :=
  match partial_cmp (eviction_score (as_candidate a) size_bias peer_limit)
                    (eviction_score (as_candidate b) size_bias peer_limit) with
  | Some o => o
  | None => t_size_bytes a ?= t_size_bytes b
  end.

(** RAM freed by displacing a torrent. *)
Definition freed_ram_of (peer_limit : Z) (t : Torrent) : Z :=
  torrent_ram (Z.max (t_piece_count t) 1) peer_limit.

(** The greedy loop, over the torrents in eviction order. *)
Fixpoint displace (need ram_cost peer_limit : Z) (l chosen : list Torrent) (freed freed_ram : Z)
    : option (list Torrent) :=
  match l with
  | [] => None
  | h :: l =>
      let freed := sat_add64 freed (t_size_bytes h) in
      let freed_ram := sat_add64 freed_ram (freed_ram_of peer_limit h) in
      let chosen := chosen ++ [h] in
      if (need <=? freed) && (ram_cost <=? freed_ram) then Some chosen
      else displace need ram_cost peer_limit l chosen freed freed_ram
  end.

Definition clears_margin (min_seed_margin candidate_seeders : Z) (h : Torrent) : Prop :=
  candidate_seeders <= t_last_known_seeders h - min_seed_margin.

#[export] Instance clears_margin_dec m s h : Decision (clears_margin m s h).
Proof. unfold clears_margin. apply _. Defined.

Definition select_displaceable (in_location : list Torrent) (candidate_seeders need ram_cost
    peer_limit min_seed_margin : Z) (size_bias : f64) : option (list Torrent) :=
  let qualifying := filter (clears_margin min_seed_margin candidate_seeders) in_location in
  match qualifying with
  | [] => None
  | _ => displace need ram_cost peer_limit (sort_by (evict_cmp size_bias peer_limit) qualifying)
           [] 0 0
  end.
End Displace.

(** ** Gates *)

(** [human_bytes(n as i64)] in a message (it does not return for exactly [2^63]
    bytes, which no device has). *)
Definition shown_bytes (n : Z) : string := default "" (human_bytes (as_i64 n)).

(** Device-level swap gate: [None] admits. *)
Definition device_gate_reason (dev_free : option Z) (freed_actual need : Z) : option string :=
  match dev_free with
  | None => None
  | Some dev_free =>
      let after := sat_add64 dev_free freed_actual in
      if after <? need then
        Some ("device free space after displacement (" +:+ shown_bytes after +:+
              ") is below the candidate's need (" +:+ shown_bytes need +:+
              ") - displaced torrents were sparse")
      else None
  end.

(** The catalog collapse guard of [scan_once]. *)
Definition catalog_collapsed (held catalog : gset string) (held_len : nat) (percent : Z) : bool :=
  let still_listed := Z.of_nat (size (catalog ∩ held)) in
  negb (held_len =? 0)%nat && (0 <? percent) &&
  (still_listed <? Z.max (Z.of_nat held_len * percent / 100) 1).

(** ** Displacement is sound, minimal and complete *)

Section DisplaceSpec.
Context `{Libm}.
Variable size_bias : f64.
Variable peer_limit : Z.
Hypothesis bias_num : is_nan size_bias = false.
Hypothesis limit_ok : 0 <= peer_limit.

Definition torrent_wf (t : Torrent) : Prop :=
  in_u64 (t_size_bytes t) /\ in_u32 (t_piece_count t) /\ in_u32 (t_last_known_seeders t).

Definition score (t : Torrent) : f64 := eviction_score (as_candidate t) size_bias peer_limit.

(** Evicted no later than. *)
Definition evict_before (a b : Torrent) : Prop := fle (score a) (score b) = true.

Lemma score_num t : torrent_wf t -> is_nan (score t) = false.
Proof.
  intros (Hs & Hp & Hl). unfold score, eviction_score. destruct (feq _ _).
  - simpl. destruct (f64_of_Z_in_pow (t_last_known_seeders t)) as [Hx _]; [ulia|].
    apply in_pow_finite in Hx. by destruct (f64_of_Z _).
  - apply size_bias_score_num; [done|]. repeat split; simpl; ulia.
Qed.

Lemma evict_cmp_gt a b :
  torrent_wf a -> torrent_wf b -> evict_cmp size_bias peer_limit a b = Gt -> evict_before b a.
Proof.
  intros Ha Hb. unfold evict_cmp, evict_before. fold (score a) (score b).
  pose proof (fle_total _ _ (score_num a Ha) (score_num b Hb)) as Hne.
  pose proof (partial_cmp_antisym (score a) (score b)) as Hanti.
  unfold fle, SFleb. change SFcompare with partial_cmp. rewrite Hanti.
  destruct (partial_cmp (score a) (score b)) as [[]|]; simpl; done.
Qed.

Lemma evict_cmp_le a b :
  torrent_wf a -> torrent_wf b -> evict_cmp size_bias peer_limit a b <> Gt -> evict_before a b.
Proof.
  intros Ha Hb. unfold evict_cmp, evict_before. fold (score a) (score b).
  pose proof (fle_total _ _ (score_num a Ha) (score_num b Hb)) as Hne.
  unfold fle, SFleb. change SFcompare with partial_cmp.
  destruct (partial_cmp (score a) (score b)) as [[]|]; simpl; done.
Qed.

Lemma evict_sorted l :
  Forall torrent_wf l -> StronglySorted evict_before (sort_by (evict_cmp size_bias peer_limit) l).
Proof.
  intros Hl. apply (sort_by_sorted _ torrent_wf evict_before); [| | |done].
  - intros x y z. apply fle_trans.
  - apply evict_cmp_gt.
  - apply evict_cmp_le.
Qed.

(** What a displaced set frees. *)
Definition freed_bytes (l : list Torrent) : Z := sumZ t_size_bytes l.
Definition freed_ram (l : list Torrent) : Z := sumZ (freed_ram_of peer_limit) l.

(** A set that frees enough. *)
Definition frees_enough (need ram_cost : Z) (l : list Torrent) : Prop :=
  need <= freed_bytes l /\ ram_cost <= freed_ram l.

(** Sizes are not negative. *)
Definition sized_list (l : list Torrent) : Prop := Forall (fun t => 0 <= t_size_bytes t) l.

Lemma wf_sized l : Forall torrent_wf l -> sized_list l.
Proof. intros Hl. eapply Forall_impl; [exact Hl|]. intros t [[? ?] _]. done. Qed.

Lemma freed_nonneg l : sized_list l -> 0 <= freed_bytes l /\ 0 <= freed_ram l.
Proof.
  unfold sized_list. intros Hl. rewrite Forall_forall in Hl. split; apply sumZ_nonneg; intros t Ht.
  - by apply Hl in Ht.
  - by apply torrent_ram_nonneg.
Qed.

Lemma displace_spec need ram_cost l : forall chosen,
  need <= U64_MAX -> ram_cost <= U64_MAX ->
  sized_list (chosen ++ l) -> ~ frees_enough need ram_cost chosen \/ chosen = [] ->
  match displace need ram_cost peer_limit l chosen
          (Z.min (freed_bytes chosen) U64_MAX) (Z.min (freed_ram chosen) U64_MAX) with
  | Some ds => exists d rest last, ds = d ++ [last] /\ chosen ++ l = ds ++ rest /\
      frees_enough need ram_cost ds /\ (~ frees_enough need ram_cost d \/ d = [])
  | None => ~ frees_enough need ram_cost (chosen ++ l) \/ chosen ++ l = []
  end.
Proof.
  induction l as [|h l IH]; intros chosen Hn Hr Hwf Hc; cbn [displace].
  { by rewrite app_nil_r. }
  pose proof Hwf as Hwf'. unfold sized_list in Hwf'. rewrite Forall_app, Forall_cons in Hwf'. destruct Hwf' as (Hch & Hh & _).
  destruct (freed_nonneg chosen Hch) as [Hb0 Hr0].
  assert (0 <= freed_ram_of peer_limit h) by (by apply torrent_ram_nonneg).
  assert (0 <= t_size_bytes h) by exact Hh.
  assert (sat_add64 (Z.min (freed_bytes chosen) U64_MAX) (t_size_bytes h) =
          Z.min (freed_bytes (chosen ++ [h])) U64_MAX) as ->.
  { unfold freed_bytes. rewrite sumZ_app. simpl. unfold freed_bytes in *. ulia. }
  assert (sat_add64 (Z.min (freed_ram chosen) U64_MAX) (freed_ram_of peer_limit h) =
          Z.min (freed_ram (chosen ++ [h])) U64_MAX) as ->.
  { unfold freed_ram. rewrite sumZ_app. simpl. unfold freed_ram in *. ulia. }
  destruct (_ && _) eqn:E.
  - simpl_bool. exists chosen, l, h. split; [done|]. split; [by rewrite <- app_assoc|].
    split; [split; lia|done].
  - rewrite (app_assoc chosen [h] l : chosen ++ h :: l = (chosen ++ [h]) ++ l).
    apply IH; [done|done|by rewrite <- app_assoc|]. left. intros [Hx Hy].
    apply andb_false_iff in E as [E|E]; simpl_bool; lia.
Qed.

(** A displaced set is part of what qualifies and frees enough. *)
Lemma select_some in_location candidate_seeders need ram_cost min_seed_margin ds :
  sized_list in_location -> need <= U64_MAX -> ram_cost <= U64_MAX ->
  select_displaceable in_location candidate_seeders need ram_cost peer_limit
    min_seed_margin size_bias = Some ds ->
  (exists rest, ds ++ rest ≡ₚ filter (clears_margin min_seed_margin candidate_seeders) in_location) /\
  frees_enough need ram_cost ds /\ ds <> [].
Proof.
  intros Hwf Hn Hr. unfold select_displaceable. set (q := filter _ in_location).
  assert (sized_list q) as Hq.
  { unfold sized_list in *. rewrite Forall_forall in Hwf |- *. intros t [_ Ht]%list_elem_of_filter. by apply Hwf. }
  destruct q as [|t0 q0] eqn:Eq; [done|]. rewrite <- Eq in *. clear Eq t0 q0.
  pose proof (sort_by_perm (evict_cmp size_bias peer_limit) q) as Hperm.
  set (l := sort_by _ q) in *.
  assert (sized_list ([] ++ l)) as Hl by (unfold sized_list; simpl; by rewrite Hperm).
  pose proof (displace_spec need ram_cost l [] Hn Hr Hl (or_intror eq_refl)) as Hd.
  change (Z.min (freed_bytes []) U64_MAX) with 0 in Hd.
  change (Z.min (freed_ram []) U64_MAX) with 0 in Hd. intros E. rewrite E in Hd.
  destruct Hd as (d & rest & last & Hds & Hsplit & Hen & _). split.
  - exists rest. rewrite <- Hsplit. exact Hperm.
  - split; [done|]. rewrite Hds. by destruct d.
Qed.
End DisplaceSpec.

(** C9: the torrents a swap displaces all clear the seed margin, together free
    the disk and the RAM the candidate needs, and are no more than needed: they
    are an initial segment of the qualifying torrents in eviction order, and
    without the last of them something would be short.  When nothing is
    returned, evicting every qualifying torrent of the location would not be
    enough (or there is none). *)
Theorem select_displaceable_spec `{Libm} in_location candidate_seeders need ram_cost peer_limit
    min_seed_margin size_bias :
  Forall torrent_wf in_location -> is_nan size_bias = false -> 0 <= peer_limit ->
  need <= U64_MAX -> ram_cost <= U64_MAX ->
  let qualifying := filter (clears_margin min_seed_margin candidate_seeders) in_location in
  match select_displaceable in_location candidate_seeders need ram_cost peer_limit
          min_seed_margin size_bias with
  | Some ds => exists d last rest,
      ds = d ++ [last] /\ ds ++ rest ≡ₚ qualifying /\
      StronglySorted (evict_before size_bias peer_limit) (ds ++ rest) /\
      frees_enough peer_limit need ram_cost ds /\
      (d = [] \/ ~ frees_enough peer_limit need ram_cost d)
  | None => qualifying = [] \/ ~ frees_enough peer_limit need ram_cost qualifying
  end.
Proof.
  intros Hwf Hbias Hpl Hn Hr. cbv zeta. unfold select_displaceable.
  set (q := filter _ in_location).
  assert (Forall torrent_wf q) as Hq.
  { rewrite Forall_forall in Hwf |- *. intros t [_ Ht]%list_elem_of_filter. by apply Hwf. }
  destruct q as [|t0 q0] eqn:Eq; [by left|]. rewrite <- Eq in *. clear Eq t0 q0.
  set (l := sort_by (evict_cmp size_bias peer_limit) q).
  pose proof (sort_by_perm (evict_cmp size_bias peer_limit) q : l ≡ₚ q) as Hperm.
  assert (Forall torrent_wf ([] ++ l)) as Hl by (simpl; by rewrite Hperm).
  pose proof (displace_spec peer_limit Hpl need ram_cost l [] Hn Hr (wf_sized _ Hl) (or_intror eq_refl)) as Hd.
  change (Z.min (freed_bytes []) U64_MAX) with 0 in Hd.
  change (Z.min (freed_ram peer_limit []) U64_MAX) with 0 in Hd. simpl app in Hd.
  destruct (displace _ _ _ _ _ _ _) as [ds|].
  - destruct Hd as (d & rest & last & Hds & Hsplit & Hen & Hmin). exists d, last, rest.
    rewrite <- Hsplit. split; [done|]. split; [done|]. split; [by apply evict_sorted|]. tauto.
  - destruct Hd as [Hd|Hd]; [right|left].
    + unfold frees_enough, freed_bytes, freed_ram in *. by rewrite !(sumZ_perm _ _ _ Hperm) in Hd.
    + apply Permutation_nil. by rewrite <- Hperm, Hd.
Qed.

Definition witness_held_torrent (hash : string) (size pieces seeders : Z) : Torrent :=
  {| t_info_hash := hash; t_title := hash; t_size_bytes := size; t_storage_location := "/s";
     t_added_at := 0; t_piece_count := pieces; t_last_known_seeders := seeders;
     t_completed_pieces := 0; t_last_progress_at := None; t_last_confirmed_in_catalog_at := None |}.

Definition witness_location : list Torrent :=
  [witness_held_torrent "aa" 3000000 10 50; witness_held_torrent "bb" 900000 20 9;
   witness_held_torrent "cc" 2000000 15 12].

Lemma select_displaceable_spec_witness :
  let qualifying := filter (clears_margin 4 6) witness_location in
  match @select_displaceable witness_libm witness_location 6 1000000 500000 8 4 fone with
  | Some ds => exists d last rest,
      ds = d ++ [last] /\ ds ++ rest ≡ₚ qualifying /\
      StronglySorted (@evict_before witness_libm fone 8) (ds ++ rest) /\
      frees_enough 8 1000000 500000 ds /\ (d = [] \/ ~ frees_enough 8 1000000 500000 d)
  | None => qualifying = [] \/ ~ frees_enough 8 1000000 500000 qualifying
  end.
Proof.
  apply (@select_displaceable_spec witness_libm witness_location 6 1000000 500000 8 4 fone).
  - repeat constructor; vm_compute; discriminate.
  - reflexivity.
  - lia.
  - vm_compute. discriminate.
  - vm_compute. discriminate.
Defined.
