(* ===== verification/Swarm.v ===== *)
(** Asking trackers about a swarm, [engine/scan.rs]: the rate limiter shared by
    every request to the tracker operator, the scrape cache, the scrape policy
    with its 429 back-off, and the evaluation of one catalog item. *)

From S2P Require Import Prelude Text Float64 Fs Persist Time Net AtKey AtTorrent Catalog World Torrents.
From S2P Require Import Swap Pool.

Definition SCRAPE_TIMEOUT : duration := secs 15.

(** ** The rate limiter *)

Record RateLimiter := {
  per_second : f64;
  next_allowed : instant;
}.

(** [Duration::try_from_secs_f64]: the exact value rounded to the nearest
    nanosecond, ties to even; an error when it is negative, not finite or too
    long. *)
Definition try_from_secs_f64 (x : f64) : option duration :=
  match x with
  | S754_zero _ => Some 0
  | S754_finite false m e =>
      let ns :=
        if 0 <=? e then Z.pos m * NANOS * 2 ^ e
        else
          let d := 2 ^ (- e) in
          let q := Z.pos m * NANOS / d in
          let r := Z.pos m * NANOS mod d in
          if 2 * r <? d then q
          else if d <? 2 * r then q + 1
          else if Z.even q then q else q + 1 in
      if ns <? 2 ^ 64 * NANOS then Some ns else None
  | _ => None
  end.

(** The time between two requests at a rate. *)
Definition gap_of (rate : f64) : duration :=
  default (secs (365 * 24 * 3600)) (try_from_secs_f64 (fdiv fone rate)).

Section Rate.
Context {W : Type} `{World W}.

Definition wait : M (RateLimiter * W) unit :=
  let* rl := gets fst in
  if is_nan (per_second rl) || fle (per_second rl) fzero then ret tt
  else
    let* now := on_snd mono_now in
    whenM (now <? next_allowed rl) (on_snd (sleep (next_allowed rl - now))) ;;;
    let* now' := on_snd mono_now in
    on_fst (modify (fun rl =>
      {| per_second := per_second rl; next_allowed := now' + gap_of (per_second rl) |})).
End Rate.

(** ** The scrape cache *)

Record CachedSwarm := {
  cached_counts : SwarmCounts;
  cached_at : instant;
}.

Record SwarmCache := {
  cache_path : path;
  ttl : duration;
  entries : gmap string CachedSwarm;
}.

Record StoredEntry := {
  stored_seeders : Z;
  stored_leechers : Z;
  stored_at : instant;
}.

(** serde_json on [StoredCache]. *)
Class CacheCodec := {
  cache_to : gmap string StoredEntry -> option bytes;
  cache_from : bytes -> option (gmap string StoredEntry);
  cache_from_to m b : cache_to m = Some b -> cache_from b = Some m;
}.

(** [to_std().unwrap_or(Duration::MAX)]: a stamp in the future is never fresh. *)
Definition stale (now at_ : instant) (ttl : duration) : bool :=
  match to_std (since now at_) with Some age => ttl <? age | None => true end.

Definition swarm_get (now : instant) (info_hash : string) (c : SwarmCache) : option SwarmCounts :=
  match entries c !! info_hash with
  | Some e => if stale now (cached_at e) (ttl c) then None else Some (cached_counts e)
  | None => None
  end.

Definition swarm_insert (now : instant) (info_hash : string) (counts : SwarmCounts)
    (c : SwarmCache) : SwarmCache :=
  {| cache_path := cache_path c; ttl := ttl c;
     entries := <[info_hash := {| cached_counts := counts; cached_at := now |}]> (entries c) |}.

Section CacheFile.
Context `{CacheCodec} `{HexCrate} `{HashIter}.

Definition restore_entry (m : gmap string CachedSwarm) (he : string * StoredEntry)
    : gmap string CachedSwarm :=
  match decode_hash he.1 with
  | Ok h => <[h := {| cached_counts := {| seeders := stored_seeders he.2;
                                          leechers := stored_leechers he.2; completed := 0 |};
                      cached_at := stored_at he.2 |}]> m
  | Err _ => m
  end.

Definition swarm_load (p : path) (ttl : duration) : M Fs SwarmCache :=
  let* r := fs_read p in
  let m := match r with
           | Ok data => match cache_from data with
                        | Some stored => foldl restore_entry ∅ (hash_iter stored)
                        | None => ∅
                        end
           | Err _ => ∅
           end in
  ret {| cache_path := p; ttl := ttl; entries := m |}.

Definition store_entry (m : gmap string StoredEntry) (he : string * CachedSwarm)
    : gmap string StoredEntry :=
  <[hex_encode he.1 := {| stored_seeders := seeders (cached_counts he.2);
                          stored_leechers := leechers (cached_counts he.2);
                          stored_at := cached_at he.2 |}]> m.

Definition swarm_save (c : SwarmCache) : M Fs (result error unit) :=
  match cache_to (foldl store_entry ∅ (hash_iter (entries c))) with
  | None => ret (Err "marshalling scrape cache")
  | Some data => atomic_write (cache_path c) data
  end.
End CacheFile.

(** ** Evaluating catalog items *)

(** [ScanStats]: one atomic counter each. *)
Inductive Counter :=
  | LibraryBytes | MetadataFetched | MetadataCached | ScrapeRequests | ScrapeCached
  | SkippedHeld | SkippedBlocked | SkippedTooBig | SkippedAge | SkippedFetchErr | SkippedScrapeErr
  | Eligible.

#[export] Instance counter_eq_dec : EqDecision Counter.
Proof. solve_decision. Defined.

Definition ScanStats : Type := Counter -> Z.
Definition stats_zero : ScanStats := fun _ => 0.

(** [fetch_add]. *)
Definition fetch_add (k : Counter) (n : Z) (s : ScanStats) : ScanStats :=
  fun k' => if decide (k = k') then wrap64 (s k + n) else s k'.

(** [add_into]. *)
Definition add_into (dst src : ScanStats) : ScanStats := fun k => wrap64 (dst k + src k).

(** What the evaluation workers and the engine share. *)
Record Shared := {
  sh_rate : RateLimiter;
  sh_cache : SwarmCache;
  sh_stats : ScanStats;
}.

Record Evaluated := {
  ev_title : string;
  ev_info_hash : string;
  ev_size_bytes : Z;
  ev_piece_count : Z;
  ev_seeders : Z;
  ev_leechers : Z;
}.

(** The fixed inputs of an evaluation. *)
Record EvalCtx := {
  ctx_data_dir : path;
  ctx_moderation_bypass : duration;
  ctx_torrent_base_url : string;
  ctx_scrape_backoff : duration;
}.

Definition torrent_cache_path (data_dir : path) (info_hash_hex : string) : path :=
  path_join (path_join data_dir "torrent-cache") (info_hash_hex +:+ ".torrent").

(** HTTP 429, as far as the message tells. *)
Definition is_rate_limited (e : error) : bool :=
  contains e "429" || contains (ascii_lower e) "too many requests".

Section Evaluate.
Context {W : Type} `{World W} `{Decoders} `{Chrono} `{HexCrate} `{UrlCrate}.

Definition on_node {A} (m : M (Node W) A) : M (Shared * Node W) A := on_snd m.

Definition count (k : Counter) : M (Shared * Node W) unit :=
  on_fst (modify (fun sh =>
    {| sh_rate := sh_rate sh; sh_cache := sh_cache sh; sh_stats := fetch_add k 1 (sh_stats sh) |})).

Definition set_cache (f : SwarmCache -> SwarmCache) : M (Shared * Node W) unit :=
  on_fst (modify (fun sh =>
    {| sh_rate := sh_rate sh; sh_cache := f (sh_cache sh); sh_stats := sh_stats sh |})).

Definition wait_turn : M (Shared * Node W) unit := fun '(sh, n) =>
  let '(u, (rl, w)) := wait (sh_rate sh, world n) in
  (u, ({| sh_rate := rl; sh_cache := sh_cache sh; sh_stats := sh_stats sh |},
       {| node_fs := node_fs n; registry := registry n; world := w |})).

(** Read a cached .torrent file: [None] when it is missing or does not parse. *)
Definition read_metadata (p : path) : M (Node W) (option TorrentMeta) :=
  let* r := on_fs (fs_read p) in
  ret match r with
      | Ok data => match parse_torrent_bytes torrent_from_bytes data with
                   | Ok md => Some md
                   | Err _ => None
                   end
      | Err _ => None
      end.

Definition fetch_metadata (data_dir : path) (base_url info_hash_hex : string)
    : M (Shared * Node W) (result error TorrentMeta) :=
  let p := torrent_cache_path data_dir info_hash_hex in
  let* cached := on_node (read_metadata p) in
  match cached with
  | Some md => ret (Ok md)
  | None =>
      wait_turn ;;;
      let? mr := on_node (on_net (fetch_torrent torrent_from_bytes base_url info_hash_hex (Some p))) in
      ret (Ok mr.1)
  end.

Fixpoint scrape_trackers (backoff : duration) (trackers : list string) (info_hash : string)
    (last_err : option error) : M (Shared * Node W) (result error SwarmCounts) :=
  match trackers with
  | [] => ret (Err (default "no tracker returned scrape data" last_err))
  | tracker :: trackers =>
      whenM (is_at_tracker_url tracker) wait_turn ;;;
      if negb (starts_with "http://" tracker) && negb (starts_with "https://" tracker)
      then scrape_trackers backoff trackers info_hash last_err
      else
        count ScrapeRequests ;;;
        let* late := on_node (on_world (request_times_out SCRAPE_TIMEOUT)) in
        if (late : bool) then scrape_trackers backoff trackers info_hash (Some "scrape timed out")
        else
          let* r := on_node (on_world (scrape_http bencode_from_bytes tracker info_hash)) in
          match r with
          | Ok c =>
              let* now := on_node (on_world utc_now) in
              set_cache (swarm_insert now info_hash c) ;;; ret (Ok c)
          | Err e =>
              if is_rate_limited e then
                let* interrupted := on_node (on_world (sleep_or_shutdown backoff)) in
                ret (Err (if (interrupted : bool) then "scan interrupted by shutdown"
                          else "tracker rate-limited"))
              else scrape_trackers backoff trackers info_hash (Some e)
          end
  end.

Definition scrape_swarm_cached (backoff : duration) (trackers : list string) (info_hash : string)
    : M (Shared * Node W) (result error SwarmCounts) :=
  let* now := on_node (on_world utc_now) in
  let* hit := gets (fun s => swarm_get now info_hash (sh_cache s.1)) in
  match hit with
  | Some c => count ScrapeCached ;;; ret (Ok c)
  | None => scrape_trackers backoff trackers info_hash None
  end.

(** The age gate: an unknown creation date is not old enough. *)
Definition old_enough (now : instant) (created_at : option instant) (delay : duration) : bool :=
  match created_at with
  | Some t => delay <=? default 0 (to_std (since now t))
  | None => false
  end.

Definition evaluate_one_item (ctx : EvalCtx) (item : Item)
    : M (Shared * Node W) (option Evaluated) :=
  let hex := hex_encode (item_info_hash item) in
  let* r := fetch_metadata (ctx_data_dir ctx) (ctx_torrent_base_url ctx) hex in
  match r with
  | Err _ => count SkippedFetchErr ;;; ret None
  | Ok md =>
      count MetadataFetched ;;;
      let* now := on_node (on_world utc_now) in
      if negb (old_enough now (tm_created_at md) (ctx_moderation_bypass ctx)) then
        count SkippedAge ;;; ret None
      else
        let* r := scrape_swarm_cached (ctx_scrape_backoff ctx) (tm_trackers md) (tm_info_hash md) in
        match r with
        | Err _ => count SkippedScrapeErr ;;; ret None
        | Ok swarm =>
            count Eligible ;;;
            ret (Some {| ev_title := item_title item; ev_info_hash := tm_info_hash md;
                         ev_size_bytes := tm_total_length md; ev_piece_count := tm_piece_count md;
                         ev_seeders := seeders swarm; ev_leechers := leechers swarm |})
        end
  end.
End Evaluate.

(** ** The limiter spaces requests *)

Lemma try_from_secs_nonneg x d : try_from_secs_f64 x = Some d -> 0 <= d.
Proof.
  unfold try_from_secs_f64. destruct x as [s|s| |[] m e]; try done; [by intros [= <-]|].
  set (ns := if 0 <=? e then _ else _). destruct (ns <? _); [|done]. intros [= <-]. unfold ns.
  assert (0 < NANOS) by done.
  destruct (0 <=? e) eqn:E; simpl_bool; [assert (0 <= 2 ^ e) by (apply Z.pow_nonneg; lia); nia|].
  assert (0 < 2 ^ (- e)) by (apply Z.pow_pos_nonneg; lia).
  assert (0 <= Z.pos m * NANOS / 2 ^ (- e)) by (apply Z.div_pos; lia).
  repeat case_match; lia.
Qed.

Lemma gap_nonneg rate : 0 <= gap_of rate.
Proof.
  unfold gap_of. destruct (try_from_secs_f64 _) as [d|] eqn:E; simpl; [|done].
  by apply try_from_secs_nonneg in E.
Qed.

Section Spacing.
Context {W : Type} `{World W} (time : W -> instant).

(** A clock reading lies within the call, and a sleep lasts. *)
Definition clock_ok : Prop :=
  (forall w, time w <= (mono_now w).1 <= time ((mono_now w).2)) /\
  (forall d w, time w + d <= time ((sleep d w).2)).

(** Requests, each after its turn, with anything that does not turn back time
    in between (the request itself, and whatever other tasks do). *)
Fixpoint requests (acts : list (M W unit)) : M (RateLimiter * W) unit :=
  match acts with
  | [] => ret tt
  | act :: acts => wait ;;; on_snd act ;;; requests acts
  end.

Definition forward (act : M W unit) : Prop := forall w, time w <= time ((act w).2).

Lemma wait_spec rl w :
  clock_ok -> is_nan (per_second rl) = false -> fle (per_second rl) fzero = false ->
  let '(rl', w') := (wait (rl, w)).2 in
  per_second rl' = per_second rl /\
  Z.max (next_allowed rl) (time w) + gap_of (per_second rl) <= next_allowed rl' /\
  next_allowed rl' <= time w' + gap_of (per_second rl).
Proof.
  intros [Hnow Hsleep] Hn Hz. unfold wait, gets, bind. cbv beta iota. cbn [fst]. rewrite Hn, Hz. cbn [orb].
  unfold on_snd. pose proof (Hnow w) as H1. destruct (mono_now w) as [now w1]. simpl in H1.
  destruct (now <? next_allowed rl) eqn:E; simpl whenM; simpl_bool.
  - pose proof (Hsleep (next_allowed rl - now) w1) as H2.
    destruct (sleep (next_allowed rl - now) w1) as [u w2]. simpl in H2.
    pose proof (Hnow w2) as H3. destruct (mono_now w2) as [now' w3]. simpl in *.
    repeat split; lia.
  - unfold ret. pose proof (Hnow w1) as H3. destruct (mono_now w1) as [now' w3]. simpl in *.
    repeat split; lia.
Qed.

Lemma requests_spec acts : forall rl w,
  clock_ok -> is_nan (per_second rl) = false -> fle (per_second rl) fzero = false ->
  Forall forward acts -> acts <> [] ->
  let '(_, w') := (requests acts (rl, w)).2 in
  Z.max (next_allowed rl) (time w) + (Z.of_nat (length acts) - 1) * gap_of (per_second rl)
    <= time w'.
Proof.
  induction acts as [|act acts IH]; intros rl w Hc Hn Hz Hacts Hne; [done|].
  rewrite Forall_cons in Hacts. destruct Hacts as [Hact Hacts]. cbn [requests].
  unfold bind. pose proof (wait_spec rl w Hc Hn Hz) as Hw.
  destruct (wait (rl, w)) as [u [rl1 w1]]. simpl in Hw. destruct Hw as (Hp & Hlo & Hhi).
  unfold on_snd. pose proof (Hact w1) as Ha. destruct (act w1) as [u' w2]. simpl in Ha.
  pose proof (gap_nonneg (per_second rl)) as Hg.
  destruct acts as [|act' acts]; [simpl; lia|].
  rewrite <- Hp in Hn, Hz. specialize (IH rl1 w2 Hc Hn Hz Hacts ltac:(done)).
  destruct (requests (act' :: acts) (rl1, w2)) as [u2 [rl2 w3]].
  cbn [snd] in IH |- *. rewrite Hp in IH.
  change (length (act :: act' :: acts)) with (S (length (act' :: acts))). rewrite Nat2Z.inj_succ.
  set (k := Z.of_nat (length (act' :: acts))) in *. nia.
Qed.
End Spacing.

(** C24: the rate limit holds whatever happens between the requests: [n] requests
    that all take their turn at one limiter last at least [n - 1] times the gap
    of its rate, counted from the first. *)
Theorem rate_limiter_spacing {W} `{World W} time acts rl w :
  clock_ok time -> is_nan (per_second rl) = false -> fle (per_second rl) fzero = false ->
  Forall (forward time) acts -> acts <> [] ->
  time w + (Z.of_nat (length acts) - 1) * gap_of (per_second rl)
    <= time ((requests acts (rl, w)).2.2).
Proof.
  intros Hc Hn Hz Hacts Hne. pose proof (requests_spec time acts rl w Hc Hn Hz Hacts Hne) as Hr.
  destruct (requests acts (rl, w)) as [u [rl' w']]. simpl in *. lia.
Qed.

(** At the default rate, two seconds between requests. *)
Example gap_default : gap_of (f64_lit 5 10) = secs 2.
Proof. vm_compute. reflexivity. Qed.

(** ** The scrape cache survives a restart *)

Section CacheRoundtrip.
Context `{CacheCodec} `{HexCrate} `{HashIter}.

Definition keys_ok (m : gmap string CachedSwarm) : Prop :=
  map_Forall (fun h _ => String.length h = 20%nat) m.

(** What the file keeps of an entry. *)
Definition forget_completed (e : CachedSwarm) : CachedSwarm :=
  {| cached_counts := {| seeders := seeders (cached_counts e);
                         leechers := leechers (cached_counts e); completed := 0 |};
     cached_at := cached_at e |}.

Definition to_stored (e : CachedSwarm) : StoredEntry :=
  {| stored_seeders := seeders (cached_counts e); stored_leechers := leechers (cached_counts e);
     stored_at := cached_at e |}.

Definition of_stored (e : StoredEntry) : CachedSwarm :=
  {| cached_counts := {| seeders := stored_seeders e; leechers := stored_leechers e; completed := 0 |};
     cached_at := stored_at e |}.

Lemma decode_hash_encode h : String.length h = 20%nat -> decode_hash (hex_encode h) = Ok h.
Proof. intros Hl. unfold decode_hash. by rewrite hex_encode_trim, hex_decode_encode, Hl. Qed.

Lemma stored_map (m : gmap string CachedSwarm) k e :
  foldl store_entry ∅ (hash_iter m) !! k = Some e <->
  exists h c, m !! h = Some c /\ hex_encode h = k /\ to_stored c = e.
Proof.
  change store_entry with (fun (m : gmap string StoredEntry) (kv : string * CachedSwarm) =>
    <[hex_encode kv.1 := to_stored kv.2]> m).
  rewrite foldl_insert_lookup.
  - setoid_rewrite hash_iter_elem. rewrite lookup_empty. naive_solver.
  - apply NoDup_fmap_2; [|apply hash_iter_nodup]. intros a b. apply hex_encode_inj.
Qed.

Lemma restored_entries (stored : gmap string StoredEntry) (m : gmap string CachedSwarm) :
  keys_ok m ->
  (forall k e, stored !! k = Some e <->
     exists h c, m !! h = Some c /\ hex_encode h = k /\ to_stored c = e) ->
  foldl restore_entry ∅ (hash_iter stored) = forget_completed <$> m.
Proof.
  intros Hk Hstored.
  assert (forall k e, (k, e) ∈ hash_iter stored ->
    exists h c, m !! h = Some c /\ hex_encode h = k /\ to_stored c = e /\ hash_or_zero k = h) as Hin.
  { intros k e (h & c & Hc & He & Hs)%hash_iter_elem%Hstored. exists h, c.
    repeat (split; [done|]). unfold hash_or_zero. by rewrite <- He, decode_hash_encode by exact (Hk h c Hc). }
  assert (foldl restore_entry ∅ (hash_iter stored) =
          foldl (fun m kv => <[hash_or_zero kv.1 := of_stored kv.2]> m) ∅ (hash_iter stored)) as ->.
  { generalize (∅ : gmap string CachedSwarm).
    induction (hash_iter stored) as [|[k e] l IH]; intros m0; [done|]. simpl.
    destruct (Hin k e) as (h & c & Hc & He & _); [left|].
    unfold restore_entry at 2, hash_or_zero at 2. simpl.
    rewrite <- He, decode_hash_encode by exact (Hk h c Hc). apply IH. intros k' e' ?. apply Hin. by right. }
  apply map_eq. intros h. apply option_eq. intros c. rewrite lookup_fmap, fmap_Some.
  rewrite foldl_insert_lookup, lookup_empty.
  - split.
    + intros [(k & e & (h' & c' & Hc & He & Hs & Hh)%Hin & Hk' & <-)|[? _]]; [|done].
      rewrite Hk' in Hh. subst. by exists c'.
    + intros (c' & Hc & ->). left. exists (hex_encode h), (to_stored c').
      split; [apply hash_iter_elem, Hstored; eauto|]. split; [|done].
      unfold hash_or_zero. by rewrite decode_hash_encode by exact (Hk h c' Hc).
  - apply NoDup_fmap_2_strong; [|apply hash_iter_nodup].
    intros k1 k2 ([? e1] & -> & Hk1)%list_elem_of_fmap ([? e2] & -> & Hk2)%list_elem_of_fmap.
    apply Hin in Hk1 as (h1 & c1 & _ & <- & _ & E1). apply Hin in Hk2 as (h2 & c2 & _ & <- & _ & E2).
    simpl. rewrite E1, E2. by intros ->.
Qed.
End CacheRoundtrip.

(** The scrape cache survives a restart: what a fault-free save wrote, a load
    finds again, entry by entry, with its counts and its time stamp (the
    completed count, which nothing reads, is not kept). *)
Theorem swarm_cache_roundtrip `{CacheCodec} `{HexCrate} `{HashIter} c ttl' fs data :
  faultless fs -> disk_wf (disk fs) ->
  no_alias (disk fs) (tmp_path (cache_path c)) (cache_path c) ->
  keys_ok (entries c) ->
  cache_to (foldl store_entry ∅ (hash_iter (entries c))) = Some data ->
  (swarm_save c fs).1 = Ok tt /\
  (swarm_load (cache_path c) ttl' (swarm_save c fs).2).1 =
    {| cache_path := cache_path c; ttl := ttl'; entries := forget_completed <$> entries c |}.
Proof.
  intros Hf Hw Hn Hk Hdata. unfold swarm_save. rewrite Hdata.
  pose proof (atomic_write_succeeds (cache_path c) data 420 fs Hf) as [Hok Hf'].
  pose proof (atomic_write_crash_safe (cache_path c) data 420 fs Hw Hn) as Hc.
  unfold atomic_write. destruct (atomic_write_mode _ data 420 fs) as [[[]|e] fs']; [|done].
  split; [done|]. simpl in Hc. destruct Hc as (_ & _ & _ & (ino & Hino & Hd & _) & _). simpl in *.
  unfold swarm_load, bind, fs_read. rewrite (io_nofault _ _ fs' Hf'). simpl.
  unfold content. rewrite Hino. simpl. rewrite Hd, (cache_from_to _ _ Hdata).
  by rewrite (restored_entries _ (entries c) Hk (stored_map (entries c))).
Qed.

(** ** What an evaluation vouches for *)

Section EvaluateSpec.
Context {W : Type} `{World W} `{Decoders} `{Chrono} `{HexCrate} `{UrlCrate}.

(** The cache answers [c] for [h] at [now]. *)
Definition cached_as (h : string) (c : SwarmCounts) (s : Shared * Node W) : Prop :=
  exists e, entries (sh_cache s.1) !! h = Some e /\ cached_counts e = c.

Lemma count_cache k s : sh_cache ((count (W:=W) k s).2.1) = sh_cache s.1.
Proof. by destruct s. Qed.

Lemma scrape_trackers_cached backoff trackers h last s :
  let '(r, s') := scrape_trackers (W:=W) backoff trackers h last s in
  match r with
  | Ok c => cached_as h c s'
  | Err _ => sh_cache s'.1 = sh_cache s.1
  end.
Proof.
  revert last s. induction trackers as [|t ts IH]; intros last s; cbn [scrape_trackers]; [done|].
  assert (forall s0, sh_cache ((whenM (is_at_tracker_url t) (wait_turn (W:=W)) s0).2.1) =
                     sh_cache s0.1) as Hwait.
  { intros [sh n]. destruct (is_at_tracker_url t); [|done]. simpl. unfold wait_turn.
    by destruct (wait _) as [u [rl w]]. }
  unfold bind at 1. specialize (Hwait s).
  destruct (whenM (is_at_tracker_url t) wait_turn s) as [u s1]. simpl in Hwait.
  destruct (_ && _).
  { specialize (IH last s1). destruct (scrape_trackers _ ts h last s1) as [[c|e] s2]; [done|congruence]. }
  unfold bind. pose proof (count_cache ScrapeRequests s1) as Hcount.
  destruct (count ScrapeRequests s1) as [u' s2]. simpl in Hcount.
  unfold on_node, on_snd, on_world.
  destruct s2 as [sh2 n2]. simpl in Hcount. destruct (request_times_out _ (world n2)) as [late w2].
  destruct late.
  { specialize (IH (Some "scrape timed out") (sh2, {| node_fs := node_fs n2; registry := registry n2; world := w2 |})).
    destruct (scrape_trackers _ ts h _ _) as [[c|e] s3]; [done|]. simpl in IH. congruence. }
  simpl. destruct (scrape_http _ t h w2) as [[c|e] w3].
  - simpl. destruct (utc_now w3) as [now w4]. unfold cached_as. simpl. eexists. split; [apply lookup_insert_eq|done].
  - destruct (is_rate_limited e); [simpl; destruct (sleep_or_shutdown backoff w3) as [[] w4]; simpl; congruence|].
    specialize (IH (Some e) (sh2, {| node_fs := node_fs n2; registry := registry n2; world := w3 |})).
    destruct (scrape_trackers _ ts h _ _) as [[c|e'] s3]; [done|]. simpl in IH. congruence.
Qed.

Lemma scrape_swarm_cached_as backoff trackers h s c s' :
  scrape_swarm_cached (W:=W) backoff trackers h s = (Ok c, s') -> cached_as h c s'.
Proof.
  unfold scrape_swarm_cached. destruct s as [sh n]. unfold bind at 1, on_node, on_snd, on_world.
  destruct (utc_now (world n)) as [now w]. unfold gets, bind at 1. simpl.
  unfold swarm_get. destruct (entries (sh_cache sh) !! h) as [e|] eqn:E.
  - destruct (stale _ _ _).
    + intros Hs. pose proof (scrape_trackers_cached backoff trackers h None
        (sh, {| node_fs := node_fs n; registry := registry n; world := w |})) as Ht.
      rewrite Hs in Ht. exact Ht.
    + intros [= <- <-]. exists e. done.
  - intros Hs. pose proof (scrape_trackers_cached backoff trackers h None
      (sh, {| node_fs := node_fs n; registry := registry n; world := w |})) as Ht.
    rewrite Hs in Ht. exact Ht.
Qed.
End EvaluateSpec.

(** C23: an item the evaluation hands on is one the metadata vouches for: by the
    clock read right after the metadata was had, it was created at least the
    moderation delay ago, its hash, size and piece count are those of the
    metadata fetched for the item's hash, and its swarm counts are the ones now
    in the scrape cache under its hash. *)
Theorem evaluate_item_sound {W} `{World W} `{Decoders} `{Chrono} `{HexCrate} `{UrlCrate}
    ctx item s ev s' :
  let fetched := fetch_metadata (W:=W) (ctx_data_dir ctx) (ctx_torrent_base_url ctx)
                   (hex_encode (item_info_hash item)) s in
  let now := (utc_now (world fetched.2.2)).1 in
  evaluate_one_item ctx item s = (Some ev, s') ->
  exists md created c,
    fetched.1 = Ok md /\ tm_created_at md = Some created /\
    ctx_moderation_bypass ctx <= Z.max (now - created) 0 /\
    ev_title ev = item_title item /\ ev_info_hash ev = tm_info_hash md /\
    ev_size_bytes ev = tm_total_length md /\ ev_piece_count ev = tm_piece_count md /\
    cached_as (ev_info_hash ev) c s' /\ ev_seeders ev = seeders c /\ ev_leechers ev = leechers c.
Proof.
  cbv zeta. unfold evaluate_one_item. unfold bind at 1.
  destruct (fetch_metadata _ _ _ s) as [[md|e] [sh1 n1]]; [|discriminate].
  unfold bind at 1. unfold count at 1, on_fst, modify. cbn [fst snd].
  unfold bind at 1, on_node at 1, on_snd, on_world. destruct (utc_now (world n1)) as [now w].
  destruct (old_enough _ _ _) eqn:Eage; cbn [negb]; [|discriminate].
  unfold bind at 1. set (s3 := (_, _)).
  pose proof (scrape_swarm_cached_as (ctx_scrape_backoff ctx) (tm_trackers md) (tm_info_hash md) s3) as Hs.
  destruct (scrape_swarm_cached _ _ _ s3) as [[c|e] s4]; [|destruct s4; discriminate].
  specialize (Hs c s4 eq_refl). destruct s4 as [sh4 n4]. cbn. intros [= <- <-].
  unfold old_enough in Eage. destruct (tm_created_at md) as [t|] eqn:Et; [|done].
  exists md, t, c. split; [done|]. split; [done|]. split; [|done].
  apply Z.leb_le in Eage. unfold to_std, since in Eage.
  destruct (now - t <? 0) eqn:En; simpl in Eage; simpl_bool; lia.
Qed.

(** ** Witnesses *)

Lemma toy_clock_ok : @clock_ok Toy witness_world toy_clock.
Proof.
  assert (secs 1 = NANOS) as Hs by reflexivity.
  split; intros; simpl; rewrite ?Hs; unfold NANOS; lia.
Qed.

Definition toy_start : Toy :=
  {| toy_clock := secs 1000000; toy_replies := []; toy_rolls := []; toy_torrents := [];
     toy_free := 0 |}.

Lemma rate_limiter_spacing_witness :
  let rl := {| per_second := f64_lit 5 10; next_allowed := 0 |} in
  let acts := repeat (ret tt : M Toy unit) 5 in
  toy_clock toy_start + (5 - 1) * gap_of (f64_lit 5 10)
    <= toy_clock ((@requests Toy witness_world acts (rl, toy_start)).2.2).
Proof.
  apply (@rate_limiter_spacing Toy witness_world toy_clock
           (repeat (ret tt) 5) {| per_second := f64_lit 5 10; next_allowed := 0 |} toy_start).
  - apply toy_clock_ok.
  - vm_compute. reflexivity.
  - vm_compute. reflexivity.
  - repeat constructor; intros w; simpl; lia.
  - discriminate.
Defined.

#[local] Instance stored_entry_eq_dec : EqDecision StoredEntry.
Proof. solve_decision. Defined.
#[local] Instance stored_entry_countable : Countable StoredEntry.
Proof.
  apply (inj_countable' (fun e => (stored_seeders e, stored_leechers e, stored_at e))
    (fun '(a, b, c) => {| stored_seeders := a; stored_leechers := b; stored_at := c |})).
  by intros [].
Defined.

Lemma witness_cache_from_to (m : gmap string StoredEntry) b :
  Some (digits (encode m)) = Some b -> decode (of_digits b) = Some m.
Proof. intros [= <-]. by rewrite of_digits_digits, decode_encode. Qed.

Definition witness_cache_codec : CacheCodec :=
  {| cache_to := fun m => Some (digits (encode m)); cache_from := fun b => decode (of_digits b);
     cache_from_to := witness_cache_from_to |}.

Definition witness_hash : string := "aaaaaaaaaaaaaaaaaaaa".

Definition witness_cache : SwarmCache :=
  {| cache_path := "/d/scrape-cache.json"; ttl := secs 60;
     entries := {[witness_hash := {| cached_counts := {| seeders := 3; leechers := 1; completed := 9 |};
                                     cached_at := 7 |}]} |}.

Lemma swarm_cache_roundtrip_witness :
  let fs := fresh_fs [] [] in
  let save := @swarm_save witness_cache_codec witness_hex hash_iter_sorted witness_cache fs in
  save.1 = Ok tt /\
  (@swarm_load witness_cache_codec witness_hex hash_iter_sorted "/d/scrape-cache.json" (secs 60) save.2).1 =
    {| cache_path := "/d/scrape-cache.json"; ttl := secs 60;
       entries := forget_completed <$> entries witness_cache |}.
Proof.
  eapply (@swarm_cache_roundtrip witness_cache_codec witness_hex hash_iter_sorted witness_cache
            (secs 60) (fresh_fs [] [])).
  - reflexivity.
  - apply fresh_disk_wf.
  - apply fresh_no_alias. discriminate.
  - apply map_Forall_singleton. reflexivity.
  - reflexivity.
Defined.

Definition witness_ctx : EvalCtx :=
  {| ctx_data_dir := "/d"; ctx_moderation_bypass := secs 60; ctx_torrent_base_url := "https://at";
     ctx_scrape_backoff := secs 60 |}.

Definition witness_item : Item :=
  {| item_title := "t"; item_category := ""; item_info_hash := witness_hash; item_guid := "";
     item_link := ""; item_description := ""; item_size_bytes := 1000000 |}.

Definition witness_eval_state : Shared * Node Toy :=
  ({| sh_rate := {| per_second := f64_lit 5 10; next_allowed := 0 |}; sh_cache := witness_cache;
      sh_stats := stats_zero |},
   {| node_fs := fresh_fs [] []; registry := {| registered := ∅; uid_source := 0 |};
      world := {| toy_clock := secs 1000000;
                  toy_replies := [Ok {| status := "200 OK"; is_success := true; body := Ok witness_hash |};
                                  Ok {| status := "200 OK"; is_success := true; body := Ok witness_hash |}];
                  toy_rolls := []; toy_torrents := []; toy_free := 0 |} |}).

Definition witness_evaluation : option Evaluated * (Shared * Node Toy) :=
  @evaluate_one_item Toy witness_world witness_decoders witness_chrono witness_hex witness_urls
    witness_ctx witness_item witness_eval_state.

Definition witness_evaluated : Evaluated :=
  {| ev_title := "t"; ev_info_hash := witness_hash; ev_size_bytes := 1000000; ev_piece_count := 10;
     ev_seeders := 1; ev_leechers := 0 |}.

Lemma evaluate_item_sound_witness :
  let fetched := @fetch_metadata Toy witness_world witness_decoders witness_chrono witness_hex
                   "/d" "https://at" (@hex_encode witness_hex witness_hash) witness_eval_state in
  exists md created c,
    fetched.1 = Ok md /\ tm_created_at md = Some created /\
    secs 60 <= Z.max ((@utc_now Toy witness_world (world fetched.2.2)).1 - created) 0 /\
    "t" = item_title witness_item /\ witness_hash = tm_info_hash md /\
    1000000 = tm_total_length md /\ 10 = tm_piece_count md /\
    cached_as witness_hash c witness_evaluation.2 /\ 1 = seeders c /\ 0 = leechers c.
Proof.
  apply (@evaluate_item_sound Toy witness_world witness_decoders witness_chrono witness_hex
           witness_urls witness_ctx witness_item witness_eval_state witness_evaluated).
  vm_compute. reflexivity.
Defined.
