(* ===== verification/Live.v ===== *)
(** Live read-only queries over a Unix socket, [live.rs]: the two-phase handle
    the engine publishes to, the views it answers with, the cache of disk usage
    in front of them, the request protocol of both ends, and the server's
    admission of connections.

    The handle lives beside the outside world: an operation is a function on
    [LiveHandle * W].  [serde_json] is the class [LiveCodec], the socket's system
    calls are the class [UnixSocket]. *)

From S2P Require Import Prelude Text Float64 Fs Time Net World Storage NetStats Stats Bandwidth History.

Definition SOCKET_NAME : string := "keep-at.sock".
Definition QUERY_TIMEOUT : duration := secs 5.
Definition MAX_REQUEST_BYTES : Z := 64 * 1024.
Definition MAX_CONCURRENT_QUERIES : nat := 32.
Definition BIND_RETRY_WINDOW : duration := secs 30.
Definition BIND_RETRY_INTERVAL : duration := 500000000.
Definition DISK_CACHE_TTL : duration := secs 60.

Definition socket_path (data_dir : path) : path := path_join data_dir SOCKET_NAME.

(** ** The protocol's data *)

Inductive Request := RuntimeQuery | HeldQuery.

Definition activity_str (a : Activity) : string :=
  match a with Booting => "booting" | Seeding => "seeding" | Scanning => "scanning" end.

Record RuntimeView := {
  rv_booting : bool;
  rv_activity : Activity;
  rv_checks_in_progress : Z;
  rv_uptime_seconds : Z;
  rv_held_torrents : Z;
  rv_seeding_torrents : Z;
  rv_downloading_torrents : Z;
  rv_quarantined_torrents : Z;
  rv_disk_used_bytes : Z;
  rv_disk_limit_bytes : Z;
  rv_disk_committed_bytes : Z;
  rv_total_bytes_uploaded : Z;
  rv_total_bytes_downloaded : Z;
  rv_upload_bps_hour : f64;
  rv_download_bps_hour : f64;
  rv_upload_bps_day : f64;
  rv_download_bps_day : f64;
  rv_active_peers : Z;
  rv_process_rss_bytes : Z;
}.

Record HeldTorrentView := {
  hv_title : string;
  hv_info_hash : string;
  hv_size_bytes : Z;
  hv_progress_bytes : Z;
  hv_finished : bool;
  hv_verifying : bool;
  hv_last_known_seeders : Z;
}.

Record HeldView := {
  held_booting : bool;
  held_list : list HeldTorrentView;
}.

Inductive Response :=
  | RuntimeAnswer (v : RuntimeView)
  | HeldAnswer (v : HeldView)
  | ErrorAnswer (msg : string).

(** A rate that JSON can hold: a finite one, and none that reading could push out
    of the range. *)
Definition rate_fits (x : f64) : Prop := is_finite x = true /\ fle x (f64_of_Z (2 ^ 64)) = true.

Definition response_finite (r : Response) : Prop :=
  match r with
  | RuntimeAnswer v =>
      rate_fits (rv_upload_bps_hour v) /\ rate_fits (rv_download_bps_hour v) /\
      rate_fits (rv_upload_bps_day v) /\ rate_fits (rv_download_bps_day v)
  | _ => True
  end.

(** Everything of a response but the four rates: the numbers that serde_json, as
    it is built here, does not promise to read back to the last bit. *)
Definition sans_rates (r : Response) : Response :=
  match r with
  | RuntimeAnswer v =>
      RuntimeAnswer
        {| rv_booting := rv_booting v; rv_activity := rv_activity v;
           rv_checks_in_progress := rv_checks_in_progress v; rv_uptime_seconds := rv_uptime_seconds v;
           rv_held_torrents := rv_held_torrents v; rv_seeding_torrents := rv_seeding_torrents v;
           rv_downloading_torrents := rv_downloading_torrents v;
           rv_quarantined_torrents := rv_quarantined_torrents v;
           rv_disk_used_bytes := rv_disk_used_bytes v; rv_disk_limit_bytes := rv_disk_limit_bytes v;
           rv_disk_committed_bytes := rv_disk_committed_bytes v;
           rv_total_bytes_uploaded := rv_total_bytes_uploaded v;
           rv_total_bytes_downloaded := rv_total_bytes_downloaded v;
           rv_upload_bps_hour := fzero; rv_download_bps_hour := fzero;
           rv_upload_bps_day := fzero; rv_download_bps_day := fzero;
           rv_active_peers := rv_active_peers v; rv_process_rss_bytes := rv_process_rss_bytes v |}
  | _ => r
  end.

Definition same_response (r r' : Response) : Prop := sans_rates r = sans_rates r'.

(** [<[u8]>::trim_ascii]. *)
Definition is_ascii_whitespace (a : ascii) : bool :=
  let b := byte a in (b =? 32) || (b =? 9) || (b =? 10) || (b =? 12) || (b =? 13).

Definition trim_ascii (s : string) : string := trim_by is_ascii_whitespace s.

(** [serde_json] on requests and responses: compact output, with newlines
    escaped and without white space around it, parses back, also from a line, up
    to the last bits of the rates; a request is a tag of a few bytes. *)
Class LiveCodec := {
  request_to_string : Request -> option string;
  request_from_slice : string -> option Request;
  response_to_string : Response -> option string;
  response_from_str : string -> option Response;
  request_line r b : request_to_string r = Some b ->
    one_line b = true /\ trim_ascii b = b /\ Z.of_nat (String.length b) < 64;
  request_from_to r b : request_to_string r = Some b -> request_from_slice b = Some r;
  response_line r b : response_to_string r = Some b -> one_line b = true /\ trim b <> "";
  response_from_to r b : response_finite r -> response_to_string r = Some b ->
    exists r', response_from_str (b +:+ String newline "") = Some r' /\ same_response r r';
}.

(** ** Reading a request

    The request line is read buffer by buffer, as [fill_buf] hands them out, up
    to one byte more than the cap. *)

Record Reading := {
  line_bytes : bytes;
  remaining : Z;
  (** [Some] when the loop has ended: whether a newline was found *)
  terminated : option bool;
}.

Definition start_reading : Reading :=
  {| line_bytes := ""; remaining := MAX_REQUEST_BYTES + 1; terminated := None |}.

(** One turn of the loop on a buffer; the empty one is the end of the stream. *)
Definition feed (buf : bytes) (r : Reading) : Reading :=
  match terminated r with
  | Some _ => r
  | None =>
      if String.eqb buf "" then
        {| line_bytes := line_bytes r; remaining := remaining r; terminated := Some false |}
      else
        let take := Z.min (Z.of_nat (String.length buf)) (remaining r) in
        let line := line_bytes r +:+ str_take (Z.to_nat take) buf in
        let found := negb (one_line line) in
        let rest := remaining r - take in
        {| line_bytes := line; remaining := rest;
           terminated := if found || (rest =? 0) then Some found else None |}
  end.

(** What a client sends: buffers, then it closes, breaks, or falls silent. *)
Inductive StreamEnd := Closed | Broken | Silent.

Record Conn := {
  arriving : list bytes;
  ending : StreamEnd;
}.

Fixpoint read_loop (bufs : list bytes) (fin : StreamEnd) (r : Reading) : result error Reading :=
  match terminated r with
  | Some _ => Ok r
  | None =>
      match bufs with
      | buf :: bufs => read_loop bufs fin (feed buf r)
      | [] => match fin with
              | Closed => Ok (feed "" r)
              | Broken => Err "reading request"
              | Silent => Err "reading request (client timed out)"
              end
      end
  end.

Definition read_request (c : Conn) : result error bytes :=
  try? r := read_loop (arriving c) (ending c) start_reading in
  if negb (default false (terminated r)) ||
     (MAX_REQUEST_BYTES <? Z.of_nat (String.length (line_bytes r)))
  then Err ("request too large or unterminated (" +:+
            pretty (Z.of_nat (String.length (line_bytes r))) +:+ " bytes)")
  else Ok (line_bytes r).

(** ** The handle *)

Record LiveState := {
  lv_tracker : RateTracker;
  lv_started_at : instant;
  lv_storage : list (path * Z);
  lv_held : list StateEntry;
  lv_quarantined : nat;
}.

Inductive HandleInner :=
  | BootingPhase (started_at : instant) (storage : list (path * Z)) (held : list HeldTorrentView)
  | LivePhase (live : LiveState).

(** [DiskCache]: when the sums were taken, used and limit. *)
Definition DiskCache : Type := option (instant * Z * Z).

Record LiveHandle := {
  h_inner : HandleInner;
  h_activity : Activity;
  h_disk : DiskCache;
}.

Definition set_inner (i : HandleInner) (h : LiveHandle) : LiveHandle :=
  {| h_inner := i; h_activity := h_activity h; h_disk := h_disk h |}.
Definition set_activity (a : Activity) (h : LiveHandle) : LiveHandle :=
  {| h_inner := h_inner h; h_activity := a; h_disk := h_disk h |}.
Definition set_disk_cache (d : DiskCache) (h : LiveHandle) : LiveHandle :=
  {| h_inner := h_inner h; h_activity := h_activity h; h_disk := d |}.

(** [LiveHandle::booting]. *)
Definition booting (started_at : instant) (storage : list (path * Z))
    (held : list HeldTorrentView) : LiveHandle :=
  {| h_inner := BootingPhase started_at storage held; h_activity := Booting; h_disk := None |}.

(** A torrent whose progress is not known yet. *)
Definition verifying_view (t : StateEntry) : HeldTorrentView :=
  {| hv_title := se_title t; hv_info_hash := se_info_hash t; hv_size_bytes := se_size_bytes t;
     hv_progress_bytes := 0; hv_finished := false; hv_verifying := true;
     hv_last_known_seeders := se_last_known_seeders t |}.

(** [LiveHandle::refresh]. *)
Definition refresh (quarantined : nat) (torrents : list StateEntry) (h : LiveHandle) : LiveHandle :=
  set_inner
    match h_inner h with
    | BootingPhase at_ storage _ => BootingPhase at_ storage (verifying_view <$> torrents)
    | LivePhase live =>
        LivePhase {| lv_tracker := lv_tracker live; lv_started_at := lv_started_at live;
                     lv_storage := lv_storage live; lv_held := torrents;
                     lv_quarantined := quarantined |}
    end h.

Definition h_started_at (h : LiveHandle) : instant :=
  match h_inner h with BootingPhase at_ _ _ => at_ | LivePhase l => lv_started_at l end.
Definition h_storage (h : LiveHandle) : list (path * Z) :=
  match h_inner h with BootingPhase _ st _ => st | LivePhase l => lv_storage l end.

(** ** What the session says of a torrent *)

Record Progress := {
  pr_bytes : Z;
  pr_finished : bool;
  pr_verifying : bool;
}.

Definition progress_of (t : Managed) : Progress :=
  {| pr_bytes := mt_progress_bytes t; pr_finished := mt_finished t;
     pr_verifying := mt_initializing t |}.

(** Seeding, being checked and downloading. *)
Definition count_phases (ts : list Managed) : Z * Z * Z :=
  foldl (fun '(seeding, checks, downloading) t =>
    if mt_finished t then (seeding + 1, checks, downloading)
    else if mt_initializing t then (seeding, checks + 1, downloading)
    else (seeding, checks, downloading + 1)) (0, 0, 0) ts.

Section LiveMap.
Context `{HexCrate}.

(** The live progress under each hash; a later torrent of the same hash
    replaces an earlier one. *)
Definition live_map (ts : list Managed) : gmap string Progress :=
  foldl (fun m t => <[hex_encode (mt_info_hash t) := progress_of t]> m) ∅ ts.

Definition live_view (m : gmap string Progress) (t : StateEntry) : HeldTorrentView :=
  let p := default {| pr_bytes := 0; pr_finished := false; pr_verifying := false |}
             (m !! se_info_hash t) in
  {| hv_title := se_title t; hv_info_hash := se_info_hash t; hv_size_bytes := se_size_bytes t;
     hv_progress_bytes := pr_bytes p; hv_finished := pr_finished p;
     hv_verifying := pr_verifying p; hv_last_known_seeders := se_last_known_seeders t |}.
End LiveMap.

(** The socket's system calls.  [accept_write] sends a response within the
    timeout and flushes it. *)
Inductive ConnectError := ConnectNotFound | ConnectRefused | ConnectOther.

Class UnixSocket (W : Type) := {
  connect : path -> M W (result ConnectError unit);
  set_timeouts : M W bool;
  stream_send : bytes -> M W bool;
  stream_read_line : M W (option string);
  accept_write : bytes -> M W (result error unit);
  listener_bind : path -> M W (result error unit);
  socket_unlink : path -> M W unit;
  socket_chmod : path -> Z -> M W unit;
}.

Section Handle.
Context {W : Type} `{World W} `{HexCrate}.
(** whether the tracker's lock is free at once *)
Context (tracker_free : M W bool).

Abbreviation Outside := (LiveHandle * W)%type.

Definition handle {A} (f : LiveHandle -> A) : M Outside A := gets (fun s => f s.1).
Definition update_handle (f : LiveHandle -> LiveHandle) : M Outside unit := on_fst (modify f).

(** [DiskCache::get]. *)
Definition disk_get (storage : list (path * Z)) : M Outside (Z * Z) :=
  let* slot := handle h_disk in
  let* fresh :=
    match slot with
    | Some (at_, used, limit) =>
        let* t := on_snd mono_now in
        ret (if Z.max (t - at_) 0 <? DISK_CACHE_TTL then Some (used, limit) else None)
    | None => ret None
    end in
  match fresh with
  | Some sums => ret sums
  | None =>
      let* sums := on_snd (disk_usage storage) in
      let* t := on_snd mono_now in
      update_handle (set_disk_cache (Some (t, sums.1, sums.2))) ;;;
      ret sums
  end.

(** [LiveHandle::activate]: once; the tracker starts from the session's
    counters. *)
Definition activate (quarantined : nat) (torrents : list StateEntry) : M Outside unit :=
  let* inner := handle h_inner in
  match inner with
  | LivePhase _ => ret tt
  | BootingPhase started_at storage _ =>
      let* snap := on_snd session_counters in
      let tracker := Bandwidth.new started_at (sc_uploaded_bytes snap) (sc_fetched_bytes snap) in
      update_handle (set_inner (LivePhase
        {| lv_tracker := tracker; lv_started_at := started_at; lv_storage := storage;
           lv_held := torrents; lv_quarantined := quarantined |})) ;;;
      update_handle (set_activity Seeding)
  end.

Definition set_tracker (t : RateTracker) (l : LiveState) : LiveState :=
  {| lv_tracker := t; lv_started_at := lv_started_at l; lv_storage := lv_storage l;
     lv_held := lv_held l; lv_quarantined := lv_quarantined l |}.

(** [LiveHandle::tick_tracker]; nothing while booting, or when another query
    has the lock. *)
Definition tick_tracker : M Outside unit :=
  let* inner := handle h_inner in
  match inner with
  | BootingPhase _ _ _ => ret tt
  | LivePhase l =>
      let* sess := on_snd session_counters in
      let* now := on_snd mono_now in
      let* free := on_snd tracker_free in
      whenM free (update_handle (set_inner (LivePhase
        (set_tracker (Bandwidth.tick now (sc_uploaded_bytes sess) (sc_fetched_bytes sess)
                        (lv_tracker l)) l))))
  end.

(** The rates over the past hour and day. *)
Definition read_rates : M Outside (f64 * f64 * f64 * f64) :=
  let* inner := handle h_inner in
  match inner with
  | BootingPhase _ _ _ => ret (fzero, fzero, fzero, fzero)
  | LivePhase l =>
      let* now := on_snd mono_now in
      let* free := on_snd tracker_free in
      let tr := lv_tracker l in
      ret (if (free : bool) then
             (rate_up now (secs 3600) tr, rate_down now (secs 3600) tr,
              rate_up now (secs 86400) tr, rate_down now (secs 86400) tr)
           else (fzero, fzero, fzero, fzero))
  end.

(** The held torrents, the bytes they reserve, and the size of the quarantine. *)
Definition published (h : LiveHandle) : Z * Z * Z :=
  match h_inner h with
  | BootingPhase _ _ held =>
      (Z.of_nat (length held), wrap64 (sumZ hv_size_bytes held), 0)
  | LivePhase l =>
      (Z.of_nat (length (lv_held l)), wrap64 (sumZ se_size_bytes (lv_held l)),
       Z.of_nat (lv_quarantined l))
  end.

(** [LiveHandle::runtime_view]. *)
Definition runtime_view : M Outside RuntimeView :=
  let* h := handle id in
  let '(held_len, committed, quarantined) := published h in
  let* sess :=
    match h_inner h with
    | LivePhase _ =>
        let* ts := on_snd session_torrents in
        let '(seeding, checks, downloading) := count_phases ts in
        let* sess := on_snd session_counters in
        ret (seeding, downloading, checks,
             (sc_uploaded_bytes sess, sc_fetched_bytes sess), sc_live_peers sess)
    | BootingPhase _ _ _ => ret (0, held_len, 0, (0, 0), 0)
    end in
  let '(seeding, downloading, checks, totals, peers) := sess in
  tick_tracker ;;;
  let* rates := read_rates in
  let '(up_hour, down_hour, up_day, down_day) := rates in
  let* usage := disk_get (h_storage h) in
  let* t := on_snd mono_now in
  let* rss := on_snd process_rss_bytes in
  ret {| rv_booting := match h_inner h with BootingPhase _ _ _ => true | LivePhase _ => false end;
         rv_activity := h_activity h; rv_checks_in_progress := checks;
         rv_uptime_seconds := Z.max (t - h_started_at h) 0 / NANOS;
         rv_held_torrents := held_len; rv_seeding_torrents := seeding;
         rv_downloading_torrents := downloading; rv_quarantined_torrents := quarantined;
         rv_disk_used_bytes := usage.1; rv_disk_limit_bytes := usage.2;
         rv_disk_committed_bytes := committed; rv_total_bytes_uploaded := totals.1;
         rv_total_bytes_downloaded := totals.2; rv_upload_bps_hour := up_hour;
         rv_download_bps_hour := down_hour; rv_upload_bps_day := up_day;
         rv_download_bps_day := down_day; rv_active_peers := peers;
         rv_process_rss_bytes := rss |}.

(** [LiveHandle::held_view]. *)
Definition held_view : M Outside HeldView :=
  let* inner := handle h_inner in
  match inner with
  | BootingPhase _ _ held => ret {| held_booting := true; held_list := held |}
  | LivePhase l =>
      let* ts := on_snd session_torrents in
      ret {| held_booting := false;
             held_list := sort_by (fun a b => String.compare (hv_title a) (hv_title b))
                            (live_view (live_map ts) <$> lv_held l) |}
  end.

(** ** Both ends of a query *)

Definition respond (req : Request) : M Outside Response :=
  match req with
  | RuntimeQuery => let* v := runtime_view in ret (RuntimeAnswer v)
  | HeldQuery => let* v := held_view in ret (HeldAnswer v)
  end.

Context `{LiveCodec}.

(** [serve_one], up to the line it writes. *)
Definition answer (c : Conn) : M Outside (result error bytes) :=
  let? line := ret (read_request c) in
  match request_from_slice (trim_ascii line) with
  | None => ret (Err "parsing request")
  | Some req =>
      let* resp := respond req in
      ret match response_to_string resp with
          | Some out => Ok (out +:+ String newline "")
          | None => Err "marshalling response"
          end
  end.
End Handle.

Section Sockets.
Context {W : Type} `{UnixSocket W}.

(** [serve_one]. *)
Definition serve_one `{World W} `{HexCrate} `{LiveCodec} (tracker_free : M W bool) (c : Conn)
    : M (LiveHandle * W) (result error unit) :=
  let? out := answer tracker_free c in
  on_snd (accept_write out).

(** [query]: [None] sends the caller to the files. *)
Definition query `{LiveCodec} (data_dir : path) (req : Request) : M W (option Response) :=
  let* c := connect (socket_path data_dir) in
  match c with
  | Err _ => ret None
  | Ok _ =>
      let* ready := set_timeouts in
      if negb ready then ret None
      else
        match request_to_string req with
        | None => ret None
        | Some line =>
            let* sent := stream_send (line +:+ String newline "") in
            if negb sent then ret None
            else
              let* resp := stream_read_line in
              ret match resp with
                  | None => None
                  | Some resp =>
                      if String.eqb (trim resp) "" then None else response_from_str resp
                  end
        end
  end.

(** The bind of [serve]: the file of a dead owner is unlinked; failures are
    retried until the window closes. [None] when the fuel runs out. *)
Context `{World W}.

Definition unlink_if_dead (p : path) : M W unit :=
  let* c := connect p in
  match c with Ok _ => ret tt | Err _ => socket_unlink p end.

Fixpoint bind_loop (fuel : nat) (p : path) (deadline : instant) : M W (option bool) :=
  match fuel with
  | O => ret None
  | S fuel =>
      let* r := listener_bind p in
      match r with
      | Ok _ => ret (Some true)
      | Err _ =>
          let* t := mono_now in
          if t <? deadline then
            unlink_if_dead p ;;;
            sleep BIND_RETRY_INTERVAL ;;;
            bind_loop fuel p deadline
          else ret (Some false)
      end
  end.

(** Attempts that fit the window, and the one that gives up. *)
Definition BIND_ATTEMPTS : nat := 61.

Definition open_listener (data_dir : path) : M W (option bool) :=
  let p := socket_path data_dir in
  let* there := path_exists p in
  whenM there (unlink_if_dead p) ;;;
  let* t := mono_now in
  let* bound := bind_loop BIND_ATTEMPTS p (t + BIND_RETRY_WINDOW) in
  match bound with
  | Some true => socket_chmod p 438 ;;; ret (Some true)
  | other => ret other
  end.
End Sockets.

Section Snapshot.
Context {W : Type} `{World W} `{StatsCodec}.

(** [DiskCache::from_snapshot]. *)
Definition from_snapshot (data_dir : path) : M (Node W) DiskCache :=
  let* r := on_fs (load_runtime (path_join data_dir "runtime-stats.json")) in
  let seeded := match r with
                | Ok s => (NetStats.disk_used_bytes s, NetStats.disk_limit_bytes s)
                | Err _ => (0, 0)
                end in
  let* t := on_world mono_now in
  ret (Some (t, seeded.1, seeded.2)).

Definition booting_with_snapshot (started_at : instant) (storage : list (path * Z))
    (held : list HeldTorrentView) (data_dir : path) : M (Node W) LiveHandle :=
  let* d := from_snapshot data_dir in
  ret (set_disk_cache d (booting started_at storage held)).
End Snapshot.

(** ** The server: connections under a semaphore

    The events of [serve]'s loop and of its tasks: a connection arrives, an
    accept fails, a buffer of a connection arrives, a query ends. *)
Inductive ServerEvent :=
  | Accepted (id : nat)
  | AcceptFailed
  | Arrived (id : nat) (buf : bytes)
  | Ended (id : nat).

(** The connections that hold a permit, with what each has read. *)
Abbreviation Server := (gmap nat Reading).

(** A connection over capacity is dropped. *)
Definition server_step (s : Server) (ev : ServerEvent) : Server :=
  match ev with
  | Accepted id =>
      match s !! id with
      | Some _ => s
      | None => if (size s <? MAX_CONCURRENT_QUERIES)%nat then <[id := start_reading]> s else s
      end
  | AcceptFailed => s
  | Arrived id buf => match s !! id with Some r => <[id := feed buf r]> s | None => s end
  | Ended id => delete id s
  end.

Definition server_run (evs : list ServerEvent) : Server := foldl server_step ∅ evs.

(** ** Reading is bounded, and exact on a request that fits *)

Lemma one_line_app (s t : string) : one_line (s +:+ t) = one_line s && one_line t.
Proof.
  unfold one_line. induction s as [|a s IH]; [done|]. rewrite string_app_cons.
  cbn [string_forall]. by rewrite IH, andb_assoc.
Qed.

(** What holds between two buffers: the two counters add up, and the loop goes
    on only without a newline and with room left. *)
Record reading_ok (r : Reading) : Prop := {
  reading_sum : Z.of_nat (String.length (line_bytes r)) + remaining r = MAX_REQUEST_BYTES + 1;
  reading_room : 0 <= remaining r;
  reading_goes : terminated r = None -> one_line (line_bytes r) = true /\ 0 < remaining r;
  reading_found : terminated r = Some true -> one_line (line_bytes r) = false;
}.

Lemma start_reading_ok : reading_ok start_reading.
Proof. by split; simpl. Qed.

Lemma feed_ok buf r : reading_ok r -> reading_ok (feed buf r).
Proof.
  intros [Hs Hr Hg Hf]. unfold feed. destruct (terminated r) as [b|] eqn:Et; [by split; rewrite ?Et|].
  destruct (Hg eq_refl) as [Hone Hpos].
  destruct (String.eqb_spec buf "") as [->|Hb]; [by split|].
  set (take := Z.min _ _).
  assert (0 <= take <= remaining r /\ take <= Z.of_nat (String.length buf)) as Ht by lia.
  assert (Z.of_nat (String.length (str_take (Z.to_nat take) buf)) = take) as Hl
    by (rewrite str_take_length; lia).
  split; cbn [line_bytes remaining terminated].
  - rewrite string_length_app. lia.
  - lia.
  - destruct (negb _) eqn:E; cbn [orb]; [done|]. apply negb_false_iff in E.
    destruct (Z.eqb_spec (remaining r - take) 0); [done|]. intros _. split; [done|lia].
  - destruct (negb _) eqn:E; cbn [orb]; [intros _; by apply negb_true_iff in E|].
    by destruct (_ =? 0).
Qed.

Lemma read_loop_ok bufs fin r r' : reading_ok r -> read_loop bufs fin r = Ok r' -> reading_ok r'.
Proof.
  revert r. induction bufs as [|buf bufs IH]; intros r Hr; cbn [read_loop].
  - destruct (terminated r); [by intros [= <-]|]. destruct fin; [|done|done].
    intros [= <-]. by apply feed_ok.
  - destruct (terminated r); [by intros [= <-]|]. by apply IH, feed_ok.
Qed.

Lemma one_line_nl s t : one_line (s +:+ String newline t) = false.
Proof. rewrite one_line_app. apply andb_false_r. Qed.

Lemma str_app_nil (s t : string) : s +:+ t = "" -> s = "" /\ t = "".
Proof. by destruct s, t. Qed.

(** Of two ways to cut a line, the part with the newline is the whole line. *)
Lemma line_prefix s rest line :
  s +:+ rest = line +:+ String newline "" -> one_line line = true ->
  one_line s = false -> s = line +:+ String newline "" /\ rest = "".
Proof.
  revert s. induction line as [|a line IH]; intros s Hs Hl Ho.
  - destruct s as [|b s]; [done|]. rewrite string_app_cons in Hs. injection Hs as -> Hs.
    by apply str_app_nil in Hs as [-> ->].
  - destruct s as [|b s]; [done|]. rewrite !string_app_cons in Hs. injection Hs as -> Hs.
    unfold one_line in Hl, Ho. cbn [string_forall] in Hl, Ho. apply andb_true_iff in Hl as [Ha Hl].
    rewrite Ha in Ho. destruct (IH s Hs Hl Ho) as [-> ->]. done.
Qed.

Lemma read_loop_line bufs fin line r :
  Forall (fun b => b <> "") bufs -> reading_ok r -> terminated r = None ->
  one_line line = true -> Z.of_nat (String.length line) < MAX_REQUEST_BYTES ->
  line_bytes r +:+ str_concat bufs = line +:+ String newline "" ->
  exists r', read_loop bufs fin r = Ok r' /\ terminated r' = Some true /\
             line_bytes r' = line +:+ String newline "".
Proof.
  revert r. induction bufs as [|buf bufs IH]; intros r Hne Hr Ht Hl Hlen Hcat.
  - cbn [str_concat foldr] in Hcat. rewrite string_app_nil_r in Hcat.
    destruct (reading_goes r Hr Ht) as [Hone _]. rewrite Hcat, one_line_nl in Hone. done.
  - rewrite Forall_cons in Hne. destruct Hne as [Hb Hne]. cbn [read_loop]. rewrite Ht.
    pose proof (feed_ok buf r Hr) as Hok.
    assert (String.length (line_bytes r) + String.length buf <= S (String.length line))%nat as Hfit.
    { apply (f_equal String.length) in Hcat. cbn [str_concat foldr] in Hcat.
      rewrite !string_length_app in Hcat. simpl in Hcat. lia. }
    assert (line_bytes (feed buf r) = line_bytes r +:+ buf) as Hfl.
    { unfold feed. rewrite Ht, (proj2 (String.eqb_neq _ _) Hb). cbn [line_bytes]. f_equal.
      apply str_take_all. pose proof (reading_sum r Hr). lia. }
    assert ((line_bytes r +:+ buf) +:+ str_concat bufs = line +:+ String newline "") as Hcat'
      by by rewrite string_app_assoc.
    destruct (terminated (feed buf r)) as [found|] eqn:Ef.
    + exists (feed buf r). assert (read_loop bufs fin (feed buf r) = Ok (feed buf r)) as ->
        by (destruct bufs; cbn [read_loop]; by rewrite Ef).
      split; [done|]. assert (found = true) as ->.
      { destruct found; [done|]. exfalso. revert Ef. unfold feed.
        rewrite Ht, (proj2 (String.eqb_neq _ _) Hb). cbn [terminated].
        destruct (negb _) eqn:E; cbn [orb]; [done|]. case_match eqn:Er; [|done]. intros _.
        apply Z.eqb_eq in Er. pose proof (reading_sum r Hr). lia. }
      pose proof (reading_found _ Hok Ef) as Hnl. rewrite Hfl in Hnl |- *.
      by destruct (line_prefix _ _ _ Hcat' Hl Hnl) as [-> _].
    + apply IH; try done. by rewrite Hfl.
Qed.

Lemma read_request_line c line :
  Forall (fun b => b <> "") (arriving c) -> one_line line = true ->
  Z.of_nat (String.length line) < MAX_REQUEST_BYTES ->
  str_concat (arriving c) = line +:+ String newline "" ->
  read_request c = Ok (line +:+ String newline "").
Proof.
  intros Hne Hl Hlen Hcat. unfold read_request.
  destruct (read_loop_line (arriving c) (ending c) line start_reading) as (r & -> & Ht & Hb);
    [done|apply start_reading_ok|done|done|done|exact Hcat|].
  cbn [rbind]. rewrite Ht, Hb, string_length_app.
  cbn [default negb orb String.length].
  by rewrite (proj2 (Z.ltb_ge MAX_REQUEST_BYTES _)) by lia.
Qed.

(** ** The server's buffers *)

Definition buffered (s : Server) : Z :=
  sumZ (fun r => Z.of_nat (String.length (line_bytes r))) (map_to_list s).*2.

Lemma server_step_ok s ev :
  map_Forall (fun _ => reading_ok) s -> (size s <= MAX_CONCURRENT_QUERIES)%nat ->
  map_Forall (fun _ => reading_ok) (server_step s ev) /\
  (size (server_step s ev) <= MAX_CONCURRENT_QUERIES)%nat.
Proof.
  intros Hok Hsz. destruct ev as [id| |id buf|id]; cbn [server_step].
  - destruct (s !! id) eqn:E; [done|]. case_match eqn:El; [|done]. apply Nat.ltb_lt in El. split.
    + apply map_Forall_insert; [done|]. split; [apply start_reading_ok|done].
    + rewrite map_size_insert_None by done. lia.
  - done.
  - destruct (s !! id) as [r|] eqn:E; [|done]. split.
    + apply map_Forall_insert_2; [|done]. apply feed_ok. by eapply Hok.
    + by rewrite map_size_insert_Some.
  - split; [by apply map_Forall_delete|]. rewrite map_size_delete. destruct (s !! id); simpl; lia.
Qed.

Lemma server_run_ok evs :
  map_Forall (fun _ => reading_ok) (server_run evs) /\
  (size (server_run evs) <= MAX_CONCURRENT_QUERIES)%nat.
Proof.
  unfold server_run.
  assert (forall s, map_Forall (fun _ => reading_ok) s -> (size s <= MAX_CONCURRENT_QUERIES)%nat ->
    map_Forall (fun _ => reading_ok) (foldl server_step s evs) /\
    (size (foldl server_step s evs) <= MAX_CONCURRENT_QUERIES)%nat) as Hgen.
  { induction evs as [|ev evs IH]; intros s Hok Hsz; [done|]. cbn [foldl].
    destruct (server_step_ok s ev Hok Hsz). by apply IH. }
  apply Hgen; [apply map_Forall_empty|]. rewrite map_size_empty. unfold MAX_CONCURRENT_QUERIES. lia.
Qed.

(** Whatever local clients do, in whatever order connections arrive, send
    and end, the server never serves more than its 32 queries at once, no
    request grows past the cap and a byte, and all of them together keep at
    most 32 times that. *)
Theorem server_bounded evs :
  (size (server_run evs) <= 32)%nat /\
  (forall id r, server_run evs !! id = Some r ->
     Z.of_nat (String.length (line_bytes r)) <= 65537) /\
  buffered (server_run evs) <= 32 * 65537.
Proof.
  destruct (server_run_ok evs) as [Hok Hsz].
  assert (forall id r, server_run evs !! id = Some r ->
     Z.of_nat (String.length (line_bytes r)) <= 65537) as Hone.
  { intros id r Hr. destruct (Hok id r Hr) as [Hs Hroom _ _]. unfold MAX_REQUEST_BYTES in Hs. lia. }
  split; [exact Hsz|]. split; [done|]. unfold buffered.
  transitivity (sumZ (fun _ => 65537) (map_to_list (server_run evs)).*2).
  - apply sumZ_le. intros r ((id & r') & -> & Hin%elem_of_map_to_list)%list_elem_of_fmap. by apply (Hone id).
  - rewrite sumZ_const, length_fmap, length_map_to_list. unfold MAX_CONCURRENT_QUERIES in Hsz. lia.
Qed.

(** ** A query reaches the running daemon

    Both ends on one socket: what the client sends arrives at [serve_one], cut
    into buffers in any way, and the client reads the line it wrote. *)

Fixpoint first_line (s : string) : string :=
  match s with
  | EmptyString => EmptyString
  | String a s => String a (if Ascii.eqb a newline then EmptyString else first_line s)
  end.

Lemma first_line_whole l : one_line l = true -> first_line (l +:+ String newline "") = l +:+ String newline "".
Proof.
  unfold one_line. induction l as [|a l IH]; intros Hl; [done|].
  cbn [string_forall] in Hl. apply andb_true_iff in Hl as [Ha Hl]. apply negb_true_iff in Ha.
  rewrite string_app_cons. cbn [first_line]. by rewrite Ha, (IH Hl).
Qed.

Section Loopback.
Context {W : Type} `{World W} `{HexCrate} `{LiveCodec}.
Context (tracker_free : M W bool) (cut : bytes -> list bytes).

Abbreviation Looped := ((LiveHandle * W) * bytes)%type.

Definition serve_sent (b : bytes) : M Looped bool :=
  let* r := on_fst (answer tracker_free {| arriving := cut b; ending := Silent |}) in
  on_snd (modify (fun _ => default "" (result_ok r))) ;;;
  ret true.

Definition loopback : UnixSocket Looped :=
  {| connect := fun _ => ret (Ok tt); set_timeouts := ret true;
     stream_send := serve_sent;
     stream_read_line := on_snd (gets (fun inbox => Some (first_line inbox)));
     accept_write := fun b => on_snd (modify (fun _ => b)) ;;; ret (Ok tt);
     listener_bind := fun _ => ret (Ok tt); socket_unlink := fun _ => ret tt;
     socket_chmod := fun _ _ => ret tt |}.

Lemma answer_request c req line s :
  request_to_string req = Some line ->
  Forall (fun b => b <> "") (arriving c) -> str_concat (arriving c) = line +:+ String newline "" ->
  answer tracker_free c s =
    let '(resp, s') := respond tracker_free req s in
    (match response_to_string resp with
     | Some out => Ok (out +:+ String newline "")
     | None => Err "marshalling response"
     end, s').
Proof.
  intros Hl Hne Hcat. destruct (request_line req line Hl) as (Hone & Htrim & Hlen).
  unfold answer, bindR, bind, ret.
  rewrite (read_request_line c line) by (done || unfold MAX_REQUEST_BYTES; lia).
  unfold trim_ascii in *. rewrite trim_by_snoc, Htrim, (request_from_to req line Hl) by done.
  by destruct (respond tracker_free req s).
Qed.
End Loopback.

(** C28: a query is answered by the running daemon: however the request is cut into
    buffers on its way, what the client parses is the very line that the view
    the handle gives at that moment encodes to, and the handle is left as
    answering it leaves it.  So, when the rates of the view are finite and fit,
    the client gets that view, exact but for the last bits of the four rates,
    and a view of the held torrents exactly. *)
Theorem query_answers {W} `{World W} `{HexCrate} `{LiveCodec} tracker_free cut data_dir req line s :
  (forall b, Forall (fun x => x <> "") (cut b) /\ str_concat (cut b) = b) ->
  request_to_string req = Some line ->
  let '(resp, s') := respond (W:=W) tracker_free req s in
  forall out, response_to_string resp = Some out ->
  let got := response_from_str (out +:+ String newline "") in
  (exists inbox, query (H := loopback tracker_free cut) data_dir req (s, "") = (got, (s', inbox))) /\
  (response_finite resp -> exists resp', got = Some resp' /\ same_response resp resp') /\
  forall v, resp = HeldAnswer v -> got = Some resp.
Proof.
  intros Hcut Hl. destruct (Hcut (line +:+ String newline "")) as [Hne Hcat].
  pose proof (answer_request tracker_free {| arriving := cut (line +:+ String newline ""); ending := Silent |}
                req line s Hl Hne Hcat) as Ha.
  destruct (respond tracker_free req s) as [resp s']. intros out Hout got. rewrite Hout in Ha.
  destruct (response_line resp out Hout) as [Hone Hblank]. split; [|split].
  - unfold query, bind at 1, connect, loopback, ret at 1. unfold bind at 1, set_timeouts, ret at 1.
    cbn [negb]. rewrite Hl. unfold bind at 1, stream_send, serve_sent, on_fst, bind at 1.
    rewrite Ha. cbn. rewrite first_line_whole by done. exists (out +:+ String newline "").
    unfold trim. change (trim_end_by is_space (trim_start_by is_space ?x)) with (trim_by is_space x).
    rewrite trim_by_snoc by done. change (trim_by is_space out) with (trim out).
    by rewrite (proj2 (String.eqb_neq _ _) Hblank).
  - intros Hf. by apply response_from_to.
  - intros v ->. destruct (response_from_to (HeldAnswer v) out I Hout) as (r' & Hg & Hs).
    subst got. rewrite Hg. f_equal. unfold same_response in Hs. cbn in Hs. by destruct r'.
Qed.

(** ** Disk usage is not walked twice within the cache's life *)

Section Cache.
Context {W : Type} `{World W}.

Lemma disk_get_fresh storage h w at_ used limit :
  h_disk h = Some (at_, used, limit) -> (mono_now w).1 - at_ < DISK_CACHE_TTL ->
  disk_get storage (h, w) = ((used, limit), (h, (mono_now w).2)).
Proof.
  intros Hd Ht. unfold disk_get, handle, bind, gets, on_snd. cbn [fst snd]. rewrite Hd.
  destruct (mono_now w) as [t w1]. cbn [fst snd] in *.
  rewrite (proj2 (Z.ltb_lt _ DISK_CACHE_TTL)); [done|unfold DISK_CACHE_TTL, secs, NANOS in *; lia].
Qed.

Lemma disk_get_stale storage h w :
  match h_disk h with
  | Some (at_, _, _) => DISK_CACHE_TTL <= (mono_now w).1 - at_
  | None => True
  end ->
  exists w0 at_, let '(sums, w1) := disk_usage storage w0 in
  exists w2, disk_get storage (h, w) = (sums, (set_disk_cache (Some (at_, sums.1, sums.2)) h, w2)).
Proof.
  intros Hd. unfold disk_get, handle, bind, gets, on_snd, update_handle, on_fst, modify, ret. cbn [fst snd].
  destruct (h_disk h) as [[[at_ used] limit]|].
  - destruct (mono_now w) as [t w0]. cbn [fst snd] in *. exists w0.
    rewrite (proj2 (Z.ltb_ge _ DISK_CACHE_TTL)) by lia.
    destruct (disk_usage storage w0) as [sums w1]. destruct (mono_now w1) as [t' w2]. exists t'.
    by exists w2.
  - exists w. destruct (disk_usage storage w) as [sums w1]. destruct (mono_now w1) as [t' w2].
    exists t'. by exists w2.
Qed.
End Cache.

(** ** Witnesses *)

(** A text form of what a view of the held torrents says. *)
Definition view_fields (v : HeldTorrentView) : string * string * Z * Z * bool * bool * Z :=
  (hv_title v, hv_info_hash v, hv_size_bytes v, hv_progress_bytes v, hv_finished v,
   hv_verifying v, hv_last_known_seeders v).

Definition view_of_fields (f : string * string * Z * Z * bool * bool * Z) : HeldTorrentView :=
  let '(title, hash, size, progress, finished, verifying, seeders) := f in
  {| hv_title := title; hv_info_hash := hash; hv_size_bytes := size;
     hv_progress_bytes := progress; hv_finished := finished; hv_verifying := verifying;
     hv_last_known_seeders := seeders |}.

Definition witness_response_to (r : Response) : option string :=
  match r with
  | HeldAnswer v =>
      Some (String "#" (digits (encode (held_booting v, view_fields <$> held_list v))))
  | _ => None
  end.

Fixpoint drop_newline (s : string) : string :=
  match s with
  | EmptyString => EmptyString
  | String a s => if Ascii.eqb a newline then EmptyString else String a (drop_newline s)
  end.

Definition witness_response_of (s : string) : option Response :=
  match drop_newline s with
  | String "#" s =>
      (fun '(b, l) => HeldAnswer {| held_booting := b; held_list := view_of_fields <$> l |})
        <$> decode (of_digits s)
  | _ => None
  end.

Lemma drop_newline_snoc s : one_line s = true -> drop_newline (s +:+ String newline "") = s.
Proof.
  unfold one_line. induction s as [|a s IH]; intros Hs; [done|].
  cbn [string_forall] in Hs. apply andb_true_iff in Hs as [Ha Hs]. apply negb_true_iff in Ha.
  rewrite string_app_cons. cbn [drop_newline]. by rewrite Ha, (IH Hs).
Qed.

Lemma witness_request_line r b :
  Some (activity_str match r with RuntimeQuery => Seeding | HeldQuery => Scanning end) = Some b ->
  one_line b = true /\ trim_ascii b = b /\ Z.of_nat (String.length b) < 64.
Proof. destruct r; intros [= <-]; repeat split; vm_compute; congruence. Qed.

Definition witness_request_of (s : string) : option Request :=
  if String.eqb s "seeding" then Some RuntimeQuery
  else if String.eqb s "scanning" then Some HeldQuery else None.

Lemma witness_request_from_to r b :
  Some (activity_str match r with RuntimeQuery => Seeding | HeldQuery => Scanning end) = Some b ->
  witness_request_of b = Some r.
Proof. destruct r; by intros [= <-]. Qed.

Lemma witness_response_one r b : witness_response_to r = Some b -> one_line b = true.
Proof.
  destruct r as [|v|]; [done| |done]. intros [= <-]. unfold one_line. cbn [string_forall].
  by rewrite digits_forall.
Qed.

Lemma witness_response_line r b :
  witness_response_to r = Some b -> one_line b = true /\ trim b <> "".
Proof.
  intros Hb. split; [by eapply witness_response_one|]. destruct r as [|v|]; [done| |done].
  injection Hb as <-. rewrite trim_no_space; [done|]. cbn [string_forall]. by rewrite digits_forall.
Qed.

Lemma witness_response_from_to r b :
  response_finite r -> witness_response_to r = Some b ->
  exists r', witness_response_of (b +:+ String newline "") = Some r' /\ same_response r r'.
Proof.
  intros _ Hb. exists r. split; [|done]. unfold witness_response_of.
  rewrite drop_newline_snoc by (by eapply witness_response_one).
  destruct r as [|v|]; [done| |done]. injection Hb as <-.
  rewrite of_digits_digits, decode_encode. cbn. do 2 f_equal. destruct v as [b l]. cbn. f_equal.
  rewrite <- list_fmap_compose. rewrite <- (list_fmap_id l) at 2. apply list_fmap_ext.
  intros _ v _. by destruct v.
Qed.

Definition witness_live_codec : LiveCodec :=
  {| request_to_string := fun r =>
       Some (activity_str match r with RuntimeQuery => Seeding | HeldQuery => Scanning end);
     request_from_slice := witness_request_of;
     response_to_string := witness_response_to; response_from_str := witness_response_of;
     request_line := witness_request_line; request_from_to := witness_request_from_to;
     response_line := witness_response_line; response_from_to := witness_response_from_to |}.

(** A request that arrives byte by byte. *)
Fixpoint bytewise (s : string) : list bytes :=
  match s with
  | EmptyString => []
  | String a s => String a "" :: bytewise s
  end.

Lemma bytewise_cut s : Forall (fun x => x <> "") (bytewise s) /\ str_concat (bytewise s) = s.
Proof.
  induction s as [|a s [IH1 IH2]]; [by split|]. split; [by constructor|].
  cbn [bytewise str_concat foldr]. unfold str_concat in IH2. by rewrite IH2.
Qed.

Definition free_always {W} : M W bool := ret true.

(** One torrent held and in the session. *)
Definition live_toy : Toy :=
  {| toy_clock := secs 100; toy_replies := []; toy_rolls := [];
     toy_torrents := [{| mt_info_hash := "aaaaaaaaaaaaaaaaaaaa"; mt_finished := false;
                         mt_progress_bytes := 40; mt_live := None; mt_initializing := true |}];
     toy_free := 0 |}.

Definition live_entry : StateEntry :=
  {| se_title := "t"; se_info_hash := @hex_encode witness_hex "aaaaaaaaaaaaaaaaaaaa";
     se_size_bytes := 100; se_last_known_seeders := 2 |}.

Definition live_handle : LiveHandle :=
  (@activate Toy witness_world 1 [live_entry] (booting 0 [] [], live_toy)).2.1.

Lemma query_answers_witness :
  let r := @respond Toy witness_world witness_hex free_always HeldQuery (live_handle, live_toy) in
  r.1 = HeldAnswer {| held_booting := false;
          held_list := [{| hv_title := "t"; hv_info_hash := se_info_hash live_entry;
            hv_size_bytes := 100; hv_progress_bytes := 40; hv_finished := false;
            hv_verifying := true; hv_last_known_seeders := 2 |}] |} /\
  exists out, witness_response_to r.1 = Some out /\
  let got := witness_response_of (out +:+ String newline "") in
  (exists inbox,
    @query _ (@loopback Toy witness_world witness_hex witness_live_codec free_always bytewise)
      witness_live_codec "/d" HeldQuery ((live_handle, live_toy), "") = (got, (r.2, inbox))) /\
  (response_finite r.1 -> exists resp', got = Some resp' /\ same_response r.1 resp') /\
  forall v, r.1 = HeldAnswer v -> got = Some r.1.
Proof.
  split; [vm_compute; reflexivity|].
  pose proof (@query_answers Toy witness_world witness_hex witness_live_codec free_always bytewise "/d"
                HeldQuery "scanning" (live_handle, live_toy) bytewise_cut eq_refl) as Hq.
  cbv zeta. destruct (respond _ HeldQuery _) as [resp s'] eqn:E.
  assert (exists v, resp = HeldAnswer v) as [v Hv].
  { exists (@held_view Toy witness_world witness_hex (live_handle, live_toy)).1.
    transitivity (@respond Toy witness_world witness_hex free_always HeldQuery (live_handle, live_toy)).1;
      [by rewrite E|reflexivity]. }
  rewrite Hv in Hq |- *. eexists. split; [reflexivity|]. exact (Hq _ eq_refl).
Defined.
