(* ===== verification/Engine.v ===== *)
(** The engine and how it acts on a candidate, [engine/scan.rs]: what a location
    and the RAM budget have left, the quarantine gate, filling free space,
    swapping, and acting on the ranked window of what a scan has evaluated.

    An engine step is a function on [Engine * Node W].  Log lines are left out;
    so are the futures: every [await] here is a call that returns.  Paths are
    spelled without repeated or trailing slashes, so that equality of paths is
    equality of strings. *)

From S2P Require Import Prelude Text Float64 Fs Persist Time Ram Selector Net Quarantine State.
From S2P Require Import AtKey AtTorrent Filter FdLimit Catalog World Config Storage NetStats Torrents.
From S2P Require Import Pool History Swap Swarm.

(** ** The engine's value *)

Record LastScanStats := {
  ls_eligible : Z;
  ls_scrape_requests : Z;
  ls_scrape_cached : Z;
  ls_processed : Z;
  ls_total : Z;
}.

Record Engine := {
  e_cfg : Config;
  e_state : State;
  (** the rate limiter, the scrape cache and the counters of the running scan *)
  e_shared : Shared;
  e_blocklist : KeywordBlocklist;
  e_base_url : string;
  e_catalog_url : string;
  e_user_announce : string;
  e_user_announce_ipv6 : string;
  e_max_torrents : Z;
  e_ram_budget : Z;
  e_size_bias : f64;
  e_scrape_backoff : duration;
  (** when the process started, on the monotonic clock *)
  e_started_at : instant;
  e_evaluated_counts : list Z;
  e_last_scan : option LastScanStats;
  e_completed_seen : gset string;
  (** whether a live query handle is attached *)
  e_live : bool;
  e_history : Writer;
  e_detector : Detector;
  e_last_catalog : option (gset string);
}.

Definition set_state (st : State) (e : Engine) : Engine :=
  {| e_cfg := e_cfg e; e_state := st; e_shared := e_shared e; e_blocklist := e_blocklist e;
     e_base_url := e_base_url e; e_catalog_url := e_catalog_url e;
     e_user_announce := e_user_announce e; e_user_announce_ipv6 := e_user_announce_ipv6 e;
     e_max_torrents := e_max_torrents e; e_ram_budget := e_ram_budget e;
     e_size_bias := e_size_bias e; e_scrape_backoff := e_scrape_backoff e;
     e_started_at := e_started_at e;
     e_evaluated_counts := e_evaluated_counts e; e_last_scan := e_last_scan e;
     e_completed_seen := e_completed_seen e; e_live := e_live e; e_history := e_history e;
     e_detector := e_detector e; e_last_catalog := e_last_catalog e |}.

Definition set_shared (sh : Shared) (e : Engine) : Engine :=
  {| e_cfg := e_cfg e; e_state := e_state e; e_shared := sh; e_blocklist := e_blocklist e;
     e_base_url := e_base_url e; e_catalog_url := e_catalog_url e;
     e_user_announce := e_user_announce e; e_user_announce_ipv6 := e_user_announce_ipv6 e;
     e_max_torrents := e_max_torrents e; e_ram_budget := e_ram_budget e;
     e_size_bias := e_size_bias e; e_scrape_backoff := e_scrape_backoff e;
     e_started_at := e_started_at e;
     e_evaluated_counts := e_evaluated_counts e; e_last_scan := e_last_scan e;
     e_completed_seen := e_completed_seen e; e_live := e_live e; e_history := e_history e;
     e_detector := e_detector e; e_last_catalog := e_last_catalog e |}.

(** The bookkeeping no decision about the held set reads back. *)
Definition set_books (counts : list Z) (ls : option LastScanStats) (seen : gset string)
    (w : Writer) (d : Detector) (cat : option (gset string)) (e : Engine) : Engine :=
  {| e_cfg := e_cfg e; e_state := e_state e; e_shared := e_shared e; e_blocklist := e_blocklist e;
     e_base_url := e_base_url e; e_catalog_url := e_catalog_url e;
     e_user_announce := e_user_announce e; e_user_announce_ipv6 := e_user_announce_ipv6 e;
     e_max_torrents := e_max_torrents e; e_ram_budget := e_ram_budget e;
     e_size_bias := e_size_bias e; e_scrape_backoff := e_scrape_backoff e;
     e_started_at := e_started_at e;
     e_evaluated_counts := counts; e_last_scan := ls;
     e_completed_seen := seen; e_live := e_live e; e_history := w;
     e_detector := d; e_last_catalog := cat |}.

Definition set_history (w : Writer) (e : Engine) : Engine :=
  set_books (e_evaluated_counts e) (e_last_scan e) (e_completed_seen e) w (e_detector e)
    (e_last_catalog e) e.
Definition set_detector (d : Detector) (e : Engine) : Engine :=
  set_books (e_evaluated_counts e) (e_last_scan e) (e_completed_seen e) (e_history e) d
    (e_last_catalog e) e.
Definition set_last_catalog (c : option (gset string)) (e : Engine) : Engine :=
  set_books (e_evaluated_counts e) (e_last_scan e) (e_completed_seen e) (e_history e)
    (e_detector e) c e.
Definition set_counts (c : list Z) (e : Engine) : Engine :=
  set_books c (e_last_scan e) (e_completed_seen e) (e_history e) (e_detector e) (e_last_catalog e) e.
Definition set_last_scan (l : option LastScanStats) (e : Engine) : Engine :=
  set_books (e_evaluated_counts e) l (e_completed_seen e) (e_history e) (e_detector e)
    (e_last_catalog e) e.
Definition set_completed_seen (s : gset string) (e : Engine) : Engine :=
  set_books (e_evaluated_counts e) (e_last_scan e) s (e_history e) (e_detector e)
    (e_last_catalog e) e.

(** [snapshot_entries]. *)
Definition snapshot_entries `{HashIter} (st : State) : list StateEntry :=
  (fun t => {| se_title := t_title t; se_info_hash := t_info_hash t;
               se_size_bytes := t_size_bytes t;
               se_last_known_seeders := t_last_known_seeders t |}) <$> State.all st.

(** [PathBuf]'s order: component by component. *)
Fixpoint compare_components (a b : list string) : comparison :=
  match a, b with
  | [], [] => Eq
  | [], _ => Lt
  | _, [] => Gt
  | x :: a, y :: b => match String.compare x y with
                      | Eq => compare_components a b
                      | c => c
                      end
  end.

Definition path_compare (a b : path) : comparison :=
  compare_components (split_on "/" a) (split_on "/" b).

Section Engine.
Context {W : Type} `{World W} `{Decoders} `{Chrono} `{HexCrate} `{UrlCrate} `{HashIter} `{Libm}.
Context `{StateCodec} `{EventCodec}.

Abbreviation Sys := (Engine * Node W)%type.

(** *** Lifting calls *)

Definition on_outside {A} (m : M (Node W) A) : M Sys A := on_snd m.
Definition engine {A} (f : Engine -> A) : M Sys A := gets (fun s => f s.1).
Definition change (f : Engine -> Engine) : M Sys unit := on_fst (modify f).

Definition with_shared {A} (m : M (Shared * Node W) A) : M Sys A := fun '(e, n) =>
  let '(a, (sh, n)) := m (e_shared e, n) in (a, (set_shared sh e, n)).

(** The same with counters of its own, dropped afterwards. *)
Definition with_shared_uncounted {A} (m : M (Shared * Node W) A) : M Sys A := fun '(e, n) =>
  let sh := e_shared e in
  let '(a, (sh', n)) :=
    m ({| sh_rate := sh_rate sh; sh_cache := sh_cache sh; sh_stats := stats_zero |}, n) in
  (a, (set_shared {| sh_rate := sh_rate sh'; sh_cache := sh_cache sh'; sh_stats := sh_stats sh |} e, n)).

Definition with_state {A} (m : M (State * Fs) A) : M Sys A := fun '(e, n) =>
  let '(a, (st, fs)) := m (e_state e, node_fs n) in
  (a, (set_state st e, {| node_fs := fs; registry := registry n; world := world n |})).

Definition record (ev : Event) : M Sys unit := fun '(e, n) =>
  let '(w, fs) := History.record ev (e_history e) (node_fs n) in
  (tt, (set_history w e, {| node_fs := fs; registry := registry n; world := world n |})).

(** [push_live]. *)
Definition push_live : M Sys unit :=
  let* live := engine e_live in
  if (live : bool) then
    let* st := engine e_state in
    on_outside (on_world (live_refresh (State.quarantine_count st) (snapshot_entries st)))
  else ret tt.

Definition set_activity (a : Activity) : M Sys unit :=
  let* live := engine e_live in
  whenM live (on_outside (on_world (live_set_activity a))).

Definition now : M Sys instant := on_outside (on_world utc_now).

Definition fetch_metadata (info_hash_hex : string) : M Sys (result error TorrentMeta) :=
  let* e := engine id in
  with_shared (Swarm.fetch_metadata (data_dir (e_cfg e)) (e_base_url e) info_hash_hex).

(** [scrape_swarm], with the caller's own throw-away counters. *)
Definition scrape_swarm (trackers : list string) (info_hash : string)
    : M Sys (result error SwarmCounts) :=
  let* backoff := engine e_scrape_backoff in
  with_shared_uncounted (scrape_swarm_cached backoff trackers info_hash).

Definition cache_path_of (info_hash_hex : string) : M Sys path :=
  engine (fun e => torrent_cache_path (data_dir (e_cfg e)) info_hash_hex).

(** [let _ = fs::remove_file(self.torrent_cache_path(..))]. *)
Definition drop_cached (info_hash_hex : string) : M Sys unit :=
  let* p := cache_path_of info_hash_hex in
  let* _ := on_outside (on_fs (fs_remove p)) in ret tt.

(** *** What is left *)

Definition max_fittable_size (e : Engine) : Z :=
  match (fun l => limit_bytes l) <$> storage (e_cfg e) with
  | [] => 0
  | l :: ls => foldl Z.max l ls
  end.

(** Nominal bytes and per-torrent buffers reserved in a location. *)
Definition reserved (st : State) (location : path) : Z :=
  let n := length (filter (fun t => t_storage_location t = location) (State.all st)) in
  sat_add64 (State.bytes_used st location) (wrap64 (Z.of_nat n * PER_TORRENT_SIZE_BUFFER)).

Definition free_bytes (loc : StorageLocation) : M Sys Z :=
  let* st := engine e_state in
  let free := sat_sub (limit_bytes loc) (reserved st (location_path loc)) in
  let* r := on_outside (device_free_bytes (location_path loc)) in
  ret match r with Ok dev_free => Z.min free dev_free | Err _ => free end.

Fixpoint free_bytes_all (locs : list StorageLocation) : M Sys (list Z) :=
  match locs with
  | [] => ret []
  | l :: locs =>
      let* f := free_bytes l in
      let* fs := free_bytes_all locs in
      ret (f :: fs)
  end.

(** The RAM a held torrent is priced at; an unknown piece count is typical. *)
Definition held_ram (peer_limit : Z) (t : Torrent) : Z :=
  torrent_ram (if 0 <? t_piece_count t then t_piece_count t else 1024) peer_limit.

Definition ram_used (budget : Z) (st : State) : Z :=
  foldl (fun used t => sat_add64 used (held_ram (peer_limit_for_budget budget) t)) 0
    (State.all st).

Definition ram_headroom_bytes (e : Engine) : Z :=
  sat_sub (e_ram_budget e) (ram_used (e_ram_budget e) (e_state e)).

(** [quarantine_gate]: the active entry, or whether this is a re-probe. *)
Definition quarantine_gate (info_hash_hex : string) : M Sys (option Quarantine * bool) :=
  let* q := engine (fun e => State.quarantine_get (e_state e) info_hash_hex) in
  match q with
  | None => ret (None, false)
  | Some q =>
      let* t := now in
      if q_cooldown_until q <=? t then ret (None, true) else ret (Some q, false)
  end.
End Engine.

(** ** Acting on a candidate *)

Definition with_pieces (n : Z) (c : Candidate) : Candidate :=
  {| cand_info_hash := cand_info_hash c; cand_title := cand_title c;
     cand_size_bytes := cand_size_bytes c; cand_piece_count := n; cand_seeders := cand_seeders c;
     cand_leechers := cand_leechers c; cand_seeder_floor := cand_seeder_floor c |}.

(** The candidate [try_add] judges. *)
Definition judged (c : Candidate) (md : TorrentMeta) (size_bytes seeder_floor : Z) : Candidate :=
  {| cand_info_hash := cand_info_hash c; cand_title := cand_title c; cand_size_bytes := size_bytes;
     cand_piece_count := tm_piece_count md; cand_seeders := cand_seeders c;
     cand_leechers := cand_leechers c; cand_seeder_floor := seeder_floor |}.

(** The roll of a quarantine re-probe, which beats any chance. *)
Definition PROBE_ROLL : f64 := f64_of_Z (-1).

Definition not_decided (reason : string) : SwapDecision :=
  {| should_swap := false; swap_chance := fzero; swap_roll := fzero; swap_reason := reason |}.

Section Acting.
Context {W : Type} `{World W} `{Decoders} `{Chrono} `{HexCrate} `{UrlCrate} `{HashIter} `{Libm}.
Context `{StateCodec} `{EventCodec}.

Abbreviation Sys := (Engine * Node W)%type.

Definition displaced_entry (d : Held) : Displaced :=
  {| disp_hash := hex_encode (held_info_hash d); disp_title := held_title d;
     disp_seeders := held_seeders d; disp_size_bytes := held_size_bytes d |}.

(** The state entry of an added candidate; three readings of the clock. *)
Definition new_torrent (c : Candidate) (md : TorrentMeta) (size_bytes : Z) (location : path)
    : M Sys Torrent :=
  let* added := now in
  let* progress := now in
  let* confirmed := now in
  ret {| t_info_hash := hex_encode (cand_info_hash c); t_title := cand_title c;
         t_size_bytes := size_bytes; t_storage_location := location; t_added_at := added;
         t_piece_count := tm_piece_count md; t_last_known_seeders := cand_seeders c;
         t_completed_pieces := 0; t_last_progress_at := Some progress;
         t_last_confirmed_in_catalog_at := Some confirmed |}.

Definition try_add (c : Candidate) (md : TorrentMeta) (size_bytes : Z) (location : path)
    (displaced : list Held) (seeder_floor : Z) (roll : f64) : M Sys (bool * SwapDecision) :=
  let* e := engine id in
  let decision := evaluate_swap (judged c md size_bytes seeder_floor) displaced
                    (min_seed_margin (scan (e_cfg e))) (aggressiveness (e_cfg e)) roll in
  if negb (should_swap decision) then ret (false, decision)
  else
    let hex_str := hex_encode (cand_info_hash c) in
    let out_dir := torrent_output_dir location hex_str in
    let* made := on_outside (on_world (create_data_dir out_dir)) in
    if negb (is_ok made) then ret (false, decision)
    else
      let keyed := at_trackers_only (tiers_of (tm_trackers md)) (e_user_announce e)
                     (e_user_announce_ipv6 e) in
      let* cache := cache_path_of hex_str in
      let* added := on_outside (add_torrent_bytes hex_str out_dir keyed cache true) in
      if negb (is_ok added) then ret (false, decision)
      else
        let* t := new_torrent c md size_bytes location in
        let* _ := with_state (State.put t) in
        let* ts := now in
        record (add_event (to_rfc3339 ts) hex_str (cand_title c) size_bytes (cand_seeders c)
                  location (match displaced with [] => Fill | _ => Swap end)
                  (swap_chance decision) (swap_roll decision) seeder_floor (swap_reason decision)
                  (displaced_entry <$> displaced)) ;;;
        push_live ;;;
        ret (true, decision).

(** What a displaced set occupies on the device. *)
Definition actual_bytes (displaced : list Torrent) : M Sys Z :=
  foldM (fun acc h =>
    let* n := on_outside (on_world (dir_size_bytes
                (torrent_output_dir (t_storage_location h) (t_info_hash h)))) in
    ret (wrap64 (acc + n))) 0 displaced.

Definition as_held (h : Torrent) : Held :=
  {| held_info_hash := hash_or_zero (t_info_hash h); held_title := t_title h;
     held_size_bytes := t_size_bytes h; held_piece_count := t_piece_count h;
     held_seeders := t_last_known_seeders h |}.

(** Remove one displaced torrent; whether its entry left the saved state. *)
Definition swap_out (removed : Z) (h : Torrent) : M Sys Z :=
  let* _ := on_outside (remove_torrent (t_info_hash h)
              (torrent_output_dir (t_storage_location h) (t_info_hash h))) in
  drop_cached (t_info_hash h) ;;;
  let* r := with_state (State.remove (t_info_hash h)) in
  ret (if is_ok r then removed + 1 else removed).

(** The locations that hold anything, in order. *)
Definition held_locations (held : list Torrent) : list path :=
  sort_by path_compare (remove_dups (t_storage_location <$> held)).

Fixpoint swap_locations (c : Candidate) (md : TorrentMeta) (size_bytes seeder_floor : Z)
    (roll : f64) (held : list Torrent) (locations : list path) (last : SwapDecision)
    : M Sys (bool * SwapDecision * Z) :=
  match locations with
  | [] => ret (false, last, 0)
  | location :: locations =>
      let* e := engine id in
      let peer_limit := peer_limit_for_budget (e_ram_budget e) in
      let in_location := filter (fun t => t_storage_location t = location) held in
      let need := size_needed size_bytes in
      match select_displaceable in_location (cand_seeders c) need
              (torrent_ram (tm_piece_count md) peer_limit) peer_limit
              (min_seed_margin (scan (e_cfg e))) (e_size_bias e) with
      | None => swap_locations c md size_bytes seeder_floor roll held locations last
      | Some displaced =>
          let* freed_actual := actual_bytes displaced in
          let* dev_free := on_outside (device_free_bytes location) in
          match device_gate_reason (result_ok dev_free) freed_actual need with
          | Some reason =>
              swap_locations c md size_bytes seeder_floor roll held locations (not_decided reason)
          | None =>
              let* r := try_add c md size_bytes location (as_held <$> displaced) seeder_floor roll in
              let '(ok, decision) := r in
              if (ok : bool) then
                let* removed := foldM swap_out 0 displaced in
                whenM (0 <? removed) push_live ;;;
                ret (true, decision, removed)
              else swap_locations c md size_bytes seeder_floor roll held locations decision
          end
      end
  end.

Definition try_swap (c : Candidate) (md : TorrentMeta) (size_bytes seeder_floor : Z) (roll : f64)
    : M Sys (bool * SwapDecision * Z) :=
  let* held := engine (fun e => State.all (e_state e)) in
  swap_locations c md size_bytes seeder_floor roll held (held_locations held)
    (not_decided "no held torrent clears the seed margin against this candidate").

(** The free-space fill, when there is a slot: whether the candidate was added,
    and the decision. *)
Definition try_fill (c : Candidate) (md : TorrentMeta) (size_bytes held_count seeder_floor : Z)
    (roll : f64) : M Sys (bool * SwapDecision) :=
  let none := (false, not_decided "candidate not evaluated") in
  let* e := engine id in
  if held_count <? e_max_torrents e then
    let ram_cost := torrent_ram (cand_piece_count c) (peer_limit_for_budget (e_ram_budget e)) in
    if ram_headroom_bytes e <? ram_cost then ret none
    else
      let* free_space := free_bytes_all (storage (e_cfg e)) in
      let space_needed := (fun _ => size_needed size_bytes) <$> storage (e_cfg e) in
      let* where_roll := on_outside (on_world gen_range_01) in
      match choose_location free_space space_needed where_roll with
      | Some idx =>
          match storage (e_cfg e) !! idx with
          | Some loc => try_add c md size_bytes (location_path loc) [] seeder_floor roll
          | None => ret none
          end
      | None => ret none
      end
  else ret none.

(** [act_on_candidate]: the new count of held torrents. *)
Definition act_on_candidate (c : Candidate) (held_count seeder_floor : Z) : M Sys Z :=
  let hex := hex_encode (cand_info_hash c) in
  let* gate := quarantine_gate hex in
  let '(active_quarantine, quarantine_probe) := gate in
  match active_quarantine with
  | Some _ => ret held_count
  | None =>
      let* r := fetch_metadata hex in
      match r with
      | Err _ => ret held_count
      | Ok md =>
          let size_bytes := tm_total_length md in
          let c := with_pieces (tm_piece_count md) c in
          let* limits := on_outside (on_world fd_limits) in
          if negb (fits_in_headroom (tm_file_count md) (fd_headroom limits.1 limits.2)) then
            ret held_count
          else
            let* roll := (if quarantine_probe then ret PROBE_ROLL
                          else on_outside (on_world gen_range_01)) in
            let* filled := try_fill c md size_bytes held_count seeder_floor roll in
            let '(added, decision) := filled in
            if (added : bool) then ret (held_count + 1)
            else if seed_scarcity_blocked decision then ret held_count
            else if quarantine_probe then ret held_count
            else
              let* swapped := try_swap c md size_bytes seeder_floor roll in
              let '(swapped, _, removed) := swapped in
              ret (if (swapped : bool) then sat_sub (held_count + 1) removed else held_count)
      end
  end.

Definition as_ranked (seeder_floor : Z) (e : Evaluated) : Candidate :=
  {| cand_info_hash := ev_info_hash e; cand_title := ev_title e; cand_size_bytes := ev_size_bytes e;
     cand_piece_count := ev_piece_count e; cand_seeders := ev_seeders e;
     cand_leechers := ev_leechers e; cand_seeder_floor := seeder_floor |}.

(** The window of [act_on_windowed]. *)
Definition ranked_window (e : Engine) (evaluated : list Evaluated) (seeder_floor : Z)
    : list Candidate :=
  let sel := rank_candidates (as_ranked seeder_floor <$> evaluated) (e_size_bias e)
               (peer_limit_for_budget (e_ram_budget e)) in
  take (Z.to_nat (Z.min (e_max_torrents e) (Z.of_nat (length sel)))) sel.

(** One candidate of the window, unless it was acted on before. *)
Definition act_once (seeder_floor : Z) (st : gset string * Z) (c : Candidate)
    : M Sys (gset string * Z) :=
  let '(acted, held_count) := st in
  let key := hex_encode (cand_info_hash c) in
  if decide (key ∈ acted) then ret (acted, held_count)
  else
    let* held_count := act_on_candidate c held_count seeder_floor in
    ret ({[key]} ∪ acted, held_count).

Definition act_on_windowed (evaluated : list Evaluated) (acted : gset string)
    (held_count seeder_floor : Z) : M Sys (gset string * Z) :=
  let* window := engine (fun e => ranked_window e evaluated seeder_floor) in
  foldM (act_once seeder_floor) (acted, held_count) window.
End Acting.
