(* ===== verification/EngineCore.v ===== *)
(** The part of the engine its decisions depend on, and the steps that leave it
    alone: reading clocks, files and the network, talking to the session, writing
    the ledger.  [hoare (at_core k)] reasons about a step from a known core. *)

From S2P Require Import Prelude Text Float64 Fs Persist Time Ram Selector Net Quarantine State.
From S2P Require Import AtKey AtTorrent Filter FdLimit Catalog World Config Storage NetStats Torrents.
From S2P Require Import Pool History Swap Swarm Engine.

(** The part of the engine the decisions depend on. *)
Record Core := {
  k_cfg : Config;
  k_state : State;
  k_max : Z;
  k_budget : Z;
  k_bias : f64;
}.

Definition core (e : Engine) : Core :=
  {| k_cfg := e_cfg e; k_state := e_state e; k_max := e_max_torrents e; k_budget := e_ram_budget e;
     k_bias := e_size_bias e |}.

Definition core_state (st : State) (k : Core) : Core :=
  {| k_cfg := k_cfg k; k_state := st; k_max := k_max k; k_budget := k_budget k; k_bias := k_bias k |}.

Section Frames.
Context {W : Type} `{World W} `{Decoders} `{Chrono} `{HexCrate} `{UrlCrate} `{HashIter} `{Libm}.
Context `{StateCodec} `{EventCodec}.

Abbreviation Sys := (Engine * Node W)%type.

Definition at_core (k : Core) (s : Sys) : Prop := core s.1 = k.

(** A step that leaves the core alone. *)
Definition steady {A} (m : M Sys A) : Prop := forall k, hoare (at_core k) m (fun _ => at_core k).

Lemma steady_ret {A} (a : A) : steady (ret a).
Proof. intros k. by apply hoare_ret. Qed.

Lemma steady_bind {A B} (m : M Sys A) (f : A -> M Sys B) :
  steady m -> (forall a, steady (f a)) -> steady (bind m f).
Proof. intros Hm Hf k. eapply hoare_bind; [apply Hm|]. intros a. apply Hf. Qed.

Lemma steady_outside {A} (m : M (Node W) A) : steady (on_outside m).
Proof. intros k [e n] Hs. unfold on_outside, on_snd. by destruct (m n). Qed.

Lemma steady_engine {A} (f : Engine -> A) : steady (engine f).
Proof. intros k [e n] Hs. exact Hs. Qed.

Lemma steady_shared {A} (m : M (Shared * Node W) A) : steady (with_shared m).
Proof. intros k [e n] Hs. unfold with_shared. by destruct (m (e_shared e, n)) as [a [sh n']]. Qed.

Lemma steady_shared_uncounted {A} (m : M (Shared * Node W) A) : steady (with_shared_uncounted m).
Proof.
  intros k [e n] Hs. unfold with_shared_uncounted.
  by destruct (m (_, n)) as [a [sh n']].
Qed.

Lemma steady_record ev : steady (record ev).
Proof. intros k [e n] Hs. unfold record. by destruct (History.record ev _ _) as [w fs]. Qed.

Lemma steady_when b (m : M Sys unit) : steady m -> steady (whenM b m).
Proof. intros Hm. destruct b; [exact Hm|apply steady_ret]. Qed.

Lemma steady_fold {A B} (f : B -> A -> M Sys B) b l :
  (forall b x, steady (f b x)) -> steady (foldM f b l).
Proof.
  intros Hf. revert b. induction l as [|x l IH]; intros b; [apply steady_ret|].
  apply steady_bind; [apply Hf|]. intros b'. apply IH.
Qed.

#[local] Hint Resolve steady_ret steady_bind steady_outside steady_engine steady_shared
  steady_shared_uncounted steady_record steady_when steady_fold : keepat.

Lemma steady_push_live : steady push_live.
Proof.
  unfold push_live. apply steady_bind; [auto with keepat|]. intros []; auto with keepat.
Qed.

Lemma steady_now : steady now.
Proof. unfold now. auto with keepat. Qed.

Lemma steady_fetch hex : steady (fetch_metadata hex).
Proof. unfold fetch_metadata. auto with keepat. Qed.

Lemma steady_scrape trackers h : steady (scrape_swarm trackers h).
Proof. unfold scrape_swarm. auto with keepat. Qed.

Lemma steady_drop_cached hex : steady (drop_cached hex).
Proof. unfold drop_cached, cache_path_of. auto with keepat. Qed.

Lemma steady_free_bytes_all locs : steady (free_bytes_all locs).
Proof.
  induction locs as [|l locs IH]; [apply steady_ret|]. cbn [free_bytes_all].
  apply steady_bind; [unfold free_bytes; auto with keepat|]. auto with keepat.
Qed.

Lemma steady_actual ds : steady (actual_bytes ds).
Proof. unfold actual_bytes. auto with keepat. Qed.

Lemma steady_new_torrent c md size loc : steady (new_torrent c md size loc).
Proof. unfold new_torrent. repeat (apply steady_bind; [apply steady_now|intros]). apply steady_ret. Qed.

(** Sequencing after a steady step. *)
Lemma after_steady {A B} k (m : M Sys A) (f : A -> M Sys B) Q :
  steady m -> (forall a, hoare (at_core k) (f a) Q) -> hoare (at_core k) (bind m f) Q.
Proof. intros Hm Hf. eapply hoare_bind; [apply Hm|exact Hf]. Qed.

(** Reading the engine. *)
Lemma after_engine {A B} k (g : Engine -> A) (f : A -> M Sys B) Q :
  (forall e, core e = k -> hoare (at_core k) (f (g e)) Q) ->
  hoare (at_core k) (bind (engine g) f) Q.
Proof. intros Hf [e n] Hs. apply (Hf e Hs (e, n) Hs). Qed.

(** *** State operations *)

(** An operation of the state module, by what it does to the maps in memory. *)
Lemma with_state_core {A} k (m : M (State * Fs) A) (P : State -> Prop) :
  (forall fs, P (m (k_state k, fs)).2.1) ->
  hoare (at_core k) (with_state (W:=W) m)
    (fun _ s => exists st, P st /\ at_core (core_state st k) s).
Proof.
  intros Hm [e n] Hs. unfold with_state. assert (e_state e = k_state k) as -> by (by rewrite <- Hs).
  specialize (Hm (node_fs n)). destruct (m _) as [a [st fs]]. simpl in *. exists st. split; [done|].
  unfold at_core. simpl. by rewrite <- Hs.
Qed.

(** The same when the memory afterwards is known. *)
Lemma with_state_to {A} k (m : M (State * Fs) A) st :
  (forall fs, (m (k_state k, fs)).2.1 = st) ->
  hoare (at_core k) (with_state (W:=W) m) (fun _ => at_core (core_state st k)).
Proof.
  intros Hm s Hs. by destruct (with_state_core k m (eq st) (fun fs => eq_sym (Hm fs)) s Hs) as (? & <- & ?).
Qed.

Lemma put_core k t :
  hoare (at_core k) (with_state (W:=W) (State.put t))
    (fun _ => at_core (core_state (set_torrents (<[t_info_hash t := t]> (torrents (k_state k)))
                                     (k_state k)) k)).
Proof.
  apply with_state_to. intros fs. exact (save_memory (set_torrents _ _, fs)).
Qed.

Lemma remove_core k hex :
  hoare (at_core k) (with_state (W:=W) (State.remove hex))
    (fun _ => at_core (core_state (set_torrents (delete hex (torrents (k_state k))) (k_state k)) k)).
Proof.
  apply with_state_to. intros fs. exact (save_memory (set_torrents _ _, fs)).
Qed.

Lemma core_eta k : core_state (k_state k) k = k.
Proof. by destruct k. Qed.
End Frames.

#[export] Hint Resolve steady_ret steady_bind steady_outside steady_engine steady_shared
  steady_shared_uncounted steady_record steady_when steady_fold steady_push_live steady_now
  steady_fetch steady_scrape steady_drop_cached steady_actual steady_new_torrent : keepat.
