(* ===== verification/Acting.v ===== *)
(** What acting on a candidate does to the held set, whatever the outside world
    answers: every case of [act_on_candidate] ([Engine]). *)

From S2P Require Import Prelude Text Float64 Fs Persist Time Ram Selector Net Quarantine State.
From S2P Require Import AtKey AtTorrent Filter FdLimit Catalog World Config Storage NetStats Torrents.
From S2P Require Import Pool History Swap Swarm Engine.
From S2P Require Import EngineCore.

Section Cases.
Context {W : Type} `{World W} `{Decoders} `{Chrono} `{HexCrate} `{UrlCrate} `{HashIter} `{Libm}.
Context `{StateCodec} `{EventCodec}.

Abbreviation Sys := (Engine * Node W)%type.

(** *** [try_add] *)

(** The entry an added candidate gets. *)
Definition entry_of (c : Candidate) (md : TorrentMeta) (size_bytes : Z) (location : path)
    (t : Torrent) : Prop :=
  t_info_hash t = hex_encode (cand_info_hash c) /\ t_size_bytes t = size_bytes /\
  t_storage_location t = location /\ t_piece_count t = tm_piece_count md /\
  t_last_known_seeders t = cand_seeders c.

Definition held_with (t : Torrent) (k : Core) : Core :=
  core_state (set_torrents (<[t_info_hash t := t]> (torrents (k_state k))) (k_state k)) k.

Definition decided (k : Core) (c : Candidate) (md : TorrentMeta) (size_bytes : Z)
    (displaced : list Held) (seeder_floor : Z) (roll : f64) : SwapDecision :=
  evaluate_swap (judged c md size_bytes seeder_floor) displaced
    (min_seed_margin (scan (k_cfg k))) (aggressiveness (k_cfg k)) roll.

Lemma try_add_spec k c md size loc disp floor roll :
  hoare (at_core k) (try_add (W:=W) c md size loc disp floor roll)
    (fun r s => r.2 = decided k c md size disp floor roll /\
       if r.1 then should_swap r.2 = true /\
                   exists t, entry_of c md size loc t /\ at_core (held_with t k) s
       else at_core k s).
Proof.
  unfold try_add. apply after_engine. intros e He.
  set (d := evaluate_swap _ _ _ _ _).
  assert (d = decided k c md size disp floor roll) as Hd by (by rewrite <- He).
  destruct (should_swap d) eqn:Ed; cbn [negb]; [|by apply hoare_ret].
  apply after_steady; [apply steady_outside|]. intros made.
  destruct (negb (is_ok made)); [by apply hoare_ret|].
  apply after_steady; [apply steady_engine|]. intros cache.
  apply after_steady; [apply steady_outside|]. intros added.
  destruct (negb (is_ok added)); [by apply hoare_ret|].
  eapply hoare_bind with (R := fun t s => entry_of c md size loc t /\ at_core k s).
  { intros s Hs. split; [|by apply steady_new_torrent].
    destruct s as [e' n]. unfold new_torrent, bind, now, on_outside, on_snd, on_world.
    destruct (utc_now (world n)) as [? w1]. simpl. destruct (utc_now w1) as [? w2]. simpl.
    destruct (utc_now w2) as [? w3]. simpl. done. }
  intros t. eapply hoare_bind with (R := fun _ s => entry_of c md size loc t /\ at_core (held_with t k) s).
  { intros s [Ht Hs]. split; [done|]. by apply (put_core k t). }
  intros _ s [Ht Hs].
  assert (steady (let* ts := now in
     record (add_event (to_rfc3339 ts) (hex_encode (cand_info_hash c)) (cand_title c) size
               (cand_seeders c) loc (match disp with [] => Fill | _ => Swap end) (swap_chance d)
               (swap_roll d) floor (swap_reason d) (displaced_entry <$> disp)) ;;;
     push_live ;;; ret (true, d))) as Hst.
  { apply steady_bind; [apply steady_now|]. intros ts. apply steady_bind; [apply steady_record|].
    intros _. apply steady_bind; [apply steady_push_live|]. intros _. apply steady_ret. }
  pose proof (Hst _ s Hs) as Hs'.
  assert ((bind now (fun ts =>
     record (add_event (to_rfc3339 ts) (hex_encode (cand_info_hash c)) (cand_title c) size
               (cand_seeders c) loc (match disp with [] => Fill | _ => Swap end) (swap_chance d)
               (swap_roll d) floor (swap_reason d) (displaced_entry <$> disp)) ;;;
     push_live ;;; ret (true, d)) s).1 = (true, d)) as Hr.
  { unfold bind. destruct (now s) as [? s1]. destruct (record _ s1) as [? s2].
    by destruct (push_live s2). }
  rewrite Hr. simpl. split; [done|]. split; [done|]. exists t. done.
Qed.

(** *** Metadata *)

Definition md_ok (md : TorrentMeta) : Prop :=
  in_u64 (tm_total_length md) /\ in_u32 (tm_piece_count md).

Lemma parsed_md_ok b md : parse_torrent_bytes torrent_from_bytes b = Ok md -> md_ok md.
Proof.
  unfold parse_torrent_bytes. destruct (torrent_from_bytes b) as [m|] eqn:Em; [|done].
  destruct (rm_validated m) as [v|] eqn:Ev; [|done]. intros [= <-].
  exact (torrent_sizes b m v Em Ev).
Qed.

Lemma fetched_md_ok data_dir url hex s md :
  (Swarm.fetch_metadata (W:=W) data_dir url hex s).1 = Ok md -> md_ok md.
Proof.
  unfold Swarm.fetch_metadata, bind at 1, on_node, on_snd. destruct s as [sh n].
  unfold read_metadata, bind at 1, on_fs. destruct (fs_read _ (node_fs n)) as [[data|e] fs]; simpl.
  - destruct (parse_torrent_bytes torrent_from_bytes data) as [md'|e] eqn:E.
    { intros [= <-]. by eapply parsed_md_ok. }
    simpl. unfold bind. destruct (wait_turn _) as [u [sh2 n2]]. unfold bindR, bind, on_net.
    unfold fetch_torrent, bindR, bind, with_cause, on_fst, on_snd, ret, bind.
    destruct (http_get _ _) as [[resp|] w]; [|done]. destruct (reply_bytes _ _ resp); [|done].
    destruct (parse_torrent_bytes torrent_from_bytes a) as [md'|] eqn:E'; [|done].
    destruct (atomic_write _ _ _). simpl. intros [= <-]. by eapply parsed_md_ok.
  - unfold bind. destruct (wait_turn _) as [u [sh2 n2]]. unfold bindR, bind, on_net.
    unfold fetch_torrent, bindR, bind, with_cause, on_fst, on_snd, ret, bind.
    destruct (http_get _ _) as [[resp|] w]; [|done]. destruct (reply_bytes _ _ resp); [|done].
    destruct (parse_torrent_bytes torrent_from_bytes a) as [md'|] eqn:E'; [|done].
    destruct (atomic_write _ _ _). simpl. intros [= <-]. by eapply parsed_md_ok.
Qed.

Lemma fetch_metadata_ok k hex :
  hoare (at_core k) (fetch_metadata (W:=W) hex)
    (fun r s => at_core k s /\ match r with Ok md => md_ok md | Err _ => True end).
Proof.
  intros [e n] Hs. split; [by apply steady_fetch|].
  unfold fetch_metadata, bind at 1, engine, gets, with_shared. simpl.
  destruct (Swarm.fetch_metadata _ _ _ _) as [[md|er] [sh n']] eqn:E; [|done]. simpl.
  eapply fetched_md_ok. by rewrite E.
Qed.

(** *** Filling *)

Definition room (k : Core) (l : StorageLocation) : Z :=
  sat_sub (limit_bytes l) (reserved (k_state k) (location_path l)).

Lemma free_bytes_all_spec k locs :
  hoare (at_core k) (free_bytes_all (W:=W) locs)
    (fun fs s => at_core k s /\ Forall2 (fun l f => f <= room k l) locs fs).
Proof.
  induction locs as [|l locs IH]; [by apply hoare_ret|]. cbn [free_bytes_all].
  eapply hoare_bind with (R := fun f s => at_core k s /\ f <= room k l).
  - unfold free_bytes. apply after_engine. intros e He.
    apply after_steady; [apply steady_outside|]. intros [dev|er]; apply hoare_ret; intros s Hs;
      (split; [done|]); unfold room; rewrite <- He; simpl; lia.
  - intros f. intros s [Hs Hf]. pose proof (IH s Hs) as Hr. unfold bind.
    destruct (free_bytes_all locs s) as [fs s']. simpl in *. destruct Hr as [? ?].
    split; [done|]. by constructor.
Qed.

Definition ram_price (k : Core) (md : TorrentMeta) : Z :=
  torrent_ram (tm_piece_count md) (peer_limit_for_budget (k_budget k)).

(** A location with room for the candidate, within the RAM budget and the cap. *)
Definition fill_fits (k : Core) (md : TorrentMeta) (held_count : Z) (loc : StorageLocation) : Prop :=
  held_count < k_max k /\ loc ∈ storage (k_cfg k) /\
  size_needed (tm_total_length md) <= room k loc /\
  ram_price k md <= sat_sub (k_budget k) (ram_used (k_budget k) (k_state k)).

(** A decision in favour, and the entry it made. *)
Definition admitted (k : Core) (c : Candidate) (md : TorrentMeta) (disp : list Held)
    (floor : Z) (roll : f64) (location : path) (t : Torrent) : Prop :=
  should_swap (decided k c md (tm_total_length md) disp floor roll) = true /\
  entry_of c md (tm_total_length md) location t.

Lemma try_fill_spec k c md held floor roll :
  cand_piece_count c = tm_piece_count md ->
  hoare (at_core k) (try_fill (W:=W) c md (tm_total_length md) held floor roll)
    (fun r s =>
       if r.1 then exists loc t, fill_fits k md held loc /\
                     admitted k c md [] floor roll (location_path loc) t /\
                     at_core (held_with t k) s
       else at_core k s).
Proof.
  intros Hpc. unfold try_fill. apply after_engine. intros e He. unfold id.
  destruct (held <? e_max_torrents e) eqn:Emax; [|by apply hoare_ret].
  destruct (_ <? torrent_ram _ _) eqn:Eram; [by apply hoare_ret|].
  assert (storage (e_cfg e) = storage (k_cfg k)) as Est by (by rewrite <- He).
  rewrite Est. eapply hoare_bind; [apply free_bytes_all_spec|]. intros free. apply hoare_pull. intros Hfree.
  apply after_steady; [apply steady_outside|]. intros where_roll.
  destruct (choose_location _ _ _) as [idx|] eqn:Eloc; [|by apply hoare_ret].
  apply choose_location_room in Eloc as (f & n & Hf & Hn & Hle).
  destruct (storage (k_cfg k) !! idx) as [loc|] eqn:Eidx; [|by apply hoare_ret].
  eapply hoare_weaken; [apply (try_add_spec k)|done|]. intros [ok d] s (Hd & Hr). simpl in *.
  destruct ok; [|done]. destruct Hr as (Hsw & t & Ht & Hk). exists loc, t. split.
  - split; [rewrite <- He; by simpl_bool|]. split; [by eapply list_elem_of_lookup_2|]. split.
    + apply list_lookup_fmap_Some in Hn as (loc' & Heq & _). subst n.
      pose proof (Forall2_lookup_lr _ _ _ _ _ _ Hfree Eidx Hf) as Hroom. simpl in Hroom. lia.
    + simpl_bool. unfold ram_price. rewrite <- Hpc, <- He. exact Eram.
  - split; [|done]. split; [by rewrite <- Hd|done].
Qed.

(** *** Swapping *)

Definition without (ds : list Torrent) (k : Core) : Core :=
  core_state (set_torrents (foldl (fun m h => delete (t_info_hash h) m) (torrents (k_state k)) ds)
                (k_state k)) k.

Lemma swap_out_spec k h removed :
  hoare (at_core k) (swap_out (W:=W) removed h)
    (fun r s => at_core (without [h] k) s /\ removed <= r <= removed + 1).
Proof.
  unfold swap_out. apply after_steady; [apply steady_outside|]. intros _.
  apply after_steady; [apply steady_drop_cached|]. intros _.
  eapply hoare_bind; [apply remove_core|]. intros r. apply hoare_ret. intros s Hs.
  split; [exact Hs|]. destruct (is_ok r); lia.
Qed.

Lemma core_state_twice st st' k : core_state st (core_state st' k) = core_state st k.
Proof. done. Qed.

Lemma swap_out_all_spec ds : forall k removed,
  hoare (at_core k) (foldM (swap_out (W:=W)) removed ds)
    (fun r s => at_core (without ds k) s /\ removed <= r <= removed + Z.of_nat (length ds)).
Proof.
  induction ds as [|h ds IH]; intros k removed; cbn [foldM].
  - apply hoare_ret. intros s Hs. split; [|simpl; lia].
    unfold at_core in *. rewrite Hs. unfold without. simpl. destruct k as [? [] ? ? ?]. done.
  - eapply hoare_bind; [apply swap_out_spec|]. intros r s [Hs Hr].
    pose proof (IH _ r s Hs) as [Hk Hr']. split; [exact Hk|]. simpl length. lia.
Qed.

Lemma swap_out_tail k ds (d : SwapDecision) :
  hoare (at_core k)
    (let* removed := foldM (swap_out (W:=W)) 0 ds in
     whenM (0 <? removed) push_live ;;; ret (true, d, removed))
    (fun r s => r.1 = (true, d) /\ 0 <= r.2 <= Z.of_nat (length ds) /\ at_core (without ds k) s).
Proof.
  eapply hoare_bind; [apply swap_out_all_spec|]. intros removed. apply hoare_pull. intros Hr.
  eapply hoare_bind; [apply steady_when, steady_push_live|]. intros u. by apply hoare_ret.
Qed.

Definition all_held (k : Core) : list Torrent := State.all (k_state k).

(** The set a swap at a location displaces. *)
Definition displaced_at (k : Core) (c : Candidate) (md : TorrentMeta) (location : path)
    : option (list Torrent) :=
  select_displaceable (filter (fun t => t_storage_location t = location) (all_held k))
    (cand_seeders c) (size_needed (tm_total_length md)) (ram_price k md)
    (peer_limit_for_budget (k_budget k)) (min_seed_margin (scan (k_cfg k))) (k_bias k).

Lemma swap_locations_spec k c md floor roll locs last :
  hoare (at_core k)
    (swap_locations (W:=W) c md (tm_total_length md) floor roll (all_held k) locs last)
    (fun r s => let '(ok, d, removed) := r in
       if ok then exists location ds t, displaced_at k c md location = Some ds /\
                    admitted k c md (as_held <$> ds) floor roll location t /\
                    0 <= removed <= Z.of_nat (length ds) /\
                    at_core (without ds (held_with t k)) s
       else at_core k s).
Proof.
  revert last. induction locs as [|location locs IH]; intros last; cbn [swap_locations];
    [by apply hoare_ret|].
  apply after_engine. intros e He. unfold id.
  replace (select_displaceable _ _ _ _ _ _ _) with (displaced_at k c md location)
    by (by rewrite <- He).
  destruct (displaced_at k c md location) as [ds|] eqn:Eds; [|apply IH].
  apply after_steady; [apply steady_actual|]. intros freed.
  apply after_steady; [apply steady_outside|]. intros dev.
  destruct (device_gate_reason _ _ _); [apply IH|].
  eapply hoare_bind; [apply (try_add_spec k)|]. intros [ok d]. simpl. destruct ok.
  - intros s (Hd & Hsw & t & Ht & Hk).
    pose proof (swap_out_tail (held_with t k) ds d s Hk) as (Hr & Hn & Hk').
    destruct (bind _ _ s) as [[[ok' d'] removed] s']. simpl in *. injection Hr as -> ->.
    exists location, ds, t. split; [done|]. split; [split; [by rewrite <- Hd|done]|]. done.
  - intros s (_ & Hs). by apply IH.
Qed.

(** *** Every case of [act_on_candidate] *)

Definition gate_open (k : Core) (at_ : instant) (hex : string) : Prop :=
  match quarantined (k_state k) !! hex with
  | None => True
  | Some q => q_cooldown_until q <= at_
  end.

Inductive acted (k : Core) (at_ : instant) (c : Candidate) (held floor : Z) : Z -> Core -> Prop :=
  | acted_not : acted k at_ c held floor held k
  | acted_fill md loc t roll :
      md_ok md -> gate_open k at_ (hex_encode (cand_info_hash c)) ->
      fill_fits k md held loc -> admitted k c md [] floor roll (location_path loc) t ->
      acted k at_ c held floor (held + 1) (held_with t k)
  | acted_swap md location ds t roll removed :
      md_ok md -> quarantined (k_state k) !! hex_encode (cand_info_hash c) = None ->
      displaced_at k c md location = Some ds ->
      admitted k c md (as_held <$> ds) floor roll location t ->
      0 <= removed <= Z.of_nat (length ds) ->
      acted k at_ c held floor (sat_sub (held + 1) removed) (without ds (held_with t k)).

(** What the quarantine gate lets through, and that it changes nothing. *)
Lemma quarantine_gate_spec hex (s : Sys) :
  let '(gate, s') := quarantine_gate (W:=W) hex s in
  at_core (core s.1) s' /\ match gate with
    | (Some _, _) => True
    | (None, true) => gate_open (core s.1) (now (W:=W) s).1 hex
    | (None, false) => quarantined (k_state (core s.1)) !! hex = None
    end.
Proof.
  destruct s as [e n]. unfold quarantine_gate, bind, engine, gets, State.quarantine_get. simpl.
  unfold gate_open. simpl. destruct (quarantined (e_state e) !! hex) as [q|] eqn:Eq; [|done].
  unfold now, on_outside, on_snd, on_world. destruct (utc_now (world n)) as [t w]. simpl.
  destruct (q_cooldown_until q <=? t) eqn:Et; simpl; [|done]. split; [done|]. by simpl_bool.
Qed.

Lemma act_cases c held floor s :
  let '(held', s') := act_on_candidate (W:=W) c held floor s in
  acted (core s.1) (now (W:=W) s).1 c held floor held' (core s'.1).
Proof.
  unfold act_on_candidate. unfold bind at 1.
  set (k := core s.1). set (hex := hex_encode (cand_info_hash c)).
  pose proof (quarantine_gate_spec hex s) as Hgate. fold k in Hgate.
  destruct (quarantine_gate hex s) as [[active probe] s1]. destruct Hgate as [Hs1 Hgate].
  destruct active as [q|]; [unfold ret; rewrite Hs1; constructor|].
  assert (gate_open k (now s).1 hex) as Hopen.
  { destruct probe; [done|]. unfold gate_open. by rewrite Hgate. }
  unfold bind at 1. pose proof (fetch_metadata_ok k hex s1 Hs1) as Hf.
  destruct (fetch_metadata hex s1) as [[md|er] s2]; destruct Hf as [Hs2 Hmd]; simpl in Hs2, Hmd;
    [|unfold ret; rewrite Hs2; constructor].
  set (c' := with_pieces (tm_piece_count md) c). revert s2 Hs2.
  match goal with |- forall s2 : Sys, at_core k s2 -> let '(_, _) := ?m s2 in _ =>
    enough (hoare (at_core k) m (fun r s' => acted k (now s).1 c held floor r (core s'.1))) as Hh end.
  { intros s2 Hs2. specialize (Hh s2 Hs2). cbv beta in Hh.
    match goal with |- match ?x with (_, _) => _ end => by destruct x end. }
  apply after_steady; [apply steady_outside|]. intros limits.
  assert (forall s' : Sys, at_core k s' -> acted k (now s).1 c held floor held (core s'.1)) as Hnot.
  { intros s' Hs'. rewrite Hs'. constructor. }
  destruct (negb _); [apply hoare_ret; exact Hnot|].
  apply after_steady; [destruct probe; [apply steady_ret|apply steady_outside]|]. intros roll.
  eapply hoare_bind; [by apply (try_fill_spec k c')|]. intros [added d]. simpl. destruct added.
  { apply hoare_ret. intros s' (loc & t & Hfit & Hadm & Hk). rewrite Hk.
    eapply (acted_fill k _ c held floor md); [done|done|exact Hfit|exact Hadm]. }
  destruct (seed_scarcity_blocked d); [apply hoare_ret; exact Hnot|].
  destruct probe; [apply hoare_ret; exact Hnot|].
  eapply hoare_bind with (R := fun r s => let '(ok, d, removed) := r in
       if ok : bool then exists location ds t, displaced_at k c' md location = Some ds /\
                    admitted k c' md (as_held <$> ds) floor roll location t /\
                    0 <= removed <= Z.of_nat (length ds) /\
                    at_core (without ds (held_with t k)) s
       else at_core k s).
  { unfold try_swap. apply after_engine. intros e He.
    replace (State.all (e_state e)) with (all_held k) by (by rewrite <- He). apply swap_locations_spec. }
  intros [[ok d'] removed]. apply hoare_ret. intros s'. destruct ok; [|apply Hnot].
  intros (location & ds & t & Hds & Hadm & Hr & Hk). rewrite Hk.
  eapply (acted_swap k _ c held floor md); [done|exact Hgate|exact Hds|exact Hadm|exact Hr].
Qed.
End Cases.
