(* ===== verification/Books.v ===== *)
(** The books of the held set: what each storage location is charged, what the
    set is priced at in RAM, how large it is; and [within], the relation between
    the engine before and after a step that keeps every budget. *)

From S2P Require Import Prelude Text Float64 Fs Persist Time Ram Selector Net Quarantine State.
From S2P Require Import AtKey AtTorrent Filter FdLimit Catalog World Config Storage NetStats Torrents.
From S2P Require Import Pool History Swap Swarm Engine EngineCore.

(** ** Sums over the held set *)

Definition map_sum (f : Torrent -> Z) (m : gmap string Torrent) : Z :=
  sumZ f (map_to_list m).*2.

Lemma sumZ_filter {A} (P : A -> Prop) `{forall x, Decision (P x)} (f : A -> Z) l :
  sumZ f (filter P l) = sumZ (fun x => if decide (P x) then f x else 0) l.
Proof.
  induction l as [|x l IH]; [done|]. rewrite filter_cons. simpl.
  destruct (decide (P x)); simpl; unfold sumZ in *; lia.
Qed.

Lemma map_sum_insert f m h t :
  m !! h = None -> map_sum f (<[h := t]> m) = f t + map_sum f m.
Proof.
  intros Hm. unfold map_sum.
  by rewrite (sumZ_perm _ _ _ (fmap_Permutation snd _ _ (map_to_list_insert m _ t Hm))).
Qed.

Lemma map_sum_delete f m h t :
  m !! h = Some t -> map_sum f m = f t + map_sum f (delete h m).
Proof.
  intros Hm. unfold map_sum.
  by rewrite <- (sumZ_perm _ _ _ (fmap_Permutation snd _ _ (map_to_list_delete m h t Hm))).
Qed.

Lemma map_sum_nonneg f m : map_Forall (fun _ t => 0 <= f t) m -> 0 <= map_sum f m.
Proof.
  intros Hf. apply sumZ_nonneg. intros t [[h t'] [-> Ht]]%list_elem_of_fmap.
  apply elem_of_map_to_list in Ht. by apply (Hf h).
Qed.

(** Losing members, or making them lighter, never adds to a sum. *)
Lemma map_sum_sub f m : forall m', map_Forall (fun _ t => 0 <= f t) m ->
  (forall h t', m' !! h = Some t' -> exists t, m !! h = Some t /\ f t' <= f t) ->
  map_sum f m' <= map_sum f m.
Proof.
  intros m'. revert m. induction m' as [|h t' m' Hh IH] using map_ind; intros m Hf Hsub.
  - by apply map_sum_nonneg.
  - destruct (Hsub h t') as (t & Ht & Hle); [by rewrite lookup_insert_eq|].
    rewrite map_sum_insert, (map_sum_delete f m h t) by done.
    enough (map_sum f m' <= map_sum f (delete h m)) by lia. apply IH.
    + intros h2 t2. rewrite lookup_delete_Some. intros [_ H2]. by apply (Hf h2).
    + intros h2 t2 H2. assert (h2 <> h) as Hne by (intros ->; congruence).
      destruct (Hsub h2 t2) as (t3 & H3 & Hle3); [by rewrite lookup_insert_ne|].
      exists t3. by rewrite lookup_delete_ne.
Qed.

(** The held set without some of its members. *)
Definition drop_all (m : gmap string Torrent) (ds : list Torrent) : gmap string Torrent :=
  foldl (fun m h => delete (t_info_hash h) m) m ds.

Lemma map_sum_drop f ds : forall m,
  NoDup (t_info_hash <$> ds) -> (forall d, d ∈ ds -> m !! t_info_hash d = Some d) ->
  map_sum f (drop_all m ds) = map_sum f m - sumZ f ds.
Proof.
  induction ds as [|d ds IH]; intros m Hnd Hin; cbn [drop_all foldl]; [simpl; lia|].
  cbn [fmap list_fmap] in Hnd. apply NoDup_cons in Hnd as [Hd Hnd].
  fold (drop_all (delete (t_info_hash d) m) ds). rewrite IH; [|done|].
  - rewrite (map_sum_delete f m _ d) by (apply Hin; left). unfold sumZ. simpl. lia.
  - intros d' Hd'. rewrite lookup_delete_ne; [by apply Hin; right|].
    intros Heq. apply Hd. rewrite Heq. by apply list_elem_of_fmap_2.
Qed.

Lemma drop_all_lookup ds : forall m h,
  drop_all m ds !! h = if decide (h ∈ t_info_hash <$> ds) then None else m !! h.
Proof.
  induction ds as [|d ds IH]; intros m h; cbn [drop_all foldl fmap list_fmap].
  { by rewrite decide_False by apply not_elem_of_nil. }
  fold (drop_all (delete (t_info_hash d) m) ds). rewrite IH.
  destruct (decide (h = t_info_hash d)) as [->|Hne].
  - rewrite lookup_delete_eq. rewrite (decide_True _ _ (list_elem_of_here _ _)). by case_decide.
  - rewrite lookup_delete_ne by done. destruct (decide (h ∈ t_info_hash <$> ds)).
    + by rewrite decide_True by (by right).
    + rewrite decide_False; [done|]. by rewrite not_elem_of_cons.
Qed.

(** An entry that joins, or replaces another under its hash. *)
Lemma map_sum_insert_le f m h t :
  map_Forall (fun _ t => 0 <= f t) m -> map_sum f (<[h := t]> m) <= f t + map_sum f m.
Proof.
  intros Hf. destruct (m !! h) as [t0|] eqn:Hm; [|rewrite map_sum_insert by done; lia].
  rewrite <- insert_delete_eq, map_sum_insert by apply lookup_delete_eq.
  rewrite (map_sum_delete f m h t0 Hm). specialize (Hf h t0 Hm). simpl in Hf. lia.
Qed.

(** The same when members leave as well, the entry itself perhaps among them. *)
Lemma map_sum_swap f m h t ds :
  NoDup (t_info_hash <$> ds) -> (forall d, d ∈ ds -> m !! t_info_hash d = Some d) ->
  map_Forall (fun _ t => 0 <= f t) m -> 0 <= f t ->
  map_sum f (drop_all (<[h := t]> m) ds) <= f t + map_sum f m - sumZ f ds.
Proof.
  intros Hnd Hin Hf Ht. destruct (decide (h ∈ t_info_hash <$> ds)) as [Hd|Hd].
  - assert (drop_all (<[h := t]> m) ds = drop_all m ds) as ->; [|rewrite map_sum_drop by done; lia].
    apply map_eq. intros h'. rewrite !drop_all_lookup. case_decide as Hd'; [done|].
    rewrite lookup_insert_ne; [done|]. by intros ->.
  - rewrite map_sum_drop; [|done|].
    + pose proof (map_sum_insert_le f m h t Hf). lia.
    + intros d Hd'. rewrite lookup_insert_ne; [by apply Hin|]. intros ->.
      apply Hd. by apply list_elem_of_fmap_2.
Qed.

(** ** The books *)

Definition one (_ : Torrent) : Z := 1.

Definition at_location (loc : path) (t : Torrent) : Z :=
  if decide (t_storage_location t = loc) then t_size_bytes t + PER_TORRENT_SIZE_BUFFER else 0.

Lemma at_its_location t :
  at_location (t_storage_location t) t = t_size_bytes t + PER_TORRENT_SIZE_BUFFER.
Proof. unfold at_location. by rewrite decide_True. Qed.

Lemma at_elsewhere loc t : t_storage_location t <> loc -> at_location loc t = 0.
Proof. intros Hne. unfold at_location. by rewrite decide_False. Qed.

(** Bytes a location is charged for, and the RAM the held set is priced at, each
    torrent by the pieces recorded for it, at least one, as the swap prices what
    it frees.  The engine's own count of used RAM ([held_ram]) is never less: it
    takes 1024 pieces for a torrent without a record. *)
Definition disk_at (m : gmap string Torrent) (loc : path) : Z := map_sum (at_location loc) m.
Definition ram_at (k : Core) : Z :=
  map_sum (freed_ram_of (peer_limit_for_budget (k_budget k))) (torrents (k_state k)).
Definition held_size (k : Core) : Z := map_sum one (torrents (k_state k)).

(** Entries under their own hash, in range, and no location charged past what a
    [u64] holds. *)
Record books (k : Core) : Prop := {
  keyed : map_Forall (fun h t => t_info_hash t = h) (torrents (k_state k));
  sized : map_Forall (fun _ t => in_u64 (t_size_bytes t)) (torrents (k_state k));
  charged : forall loc, disk_at (torrents (k_state k)) loc <= U64_MAX;
}.

Record settings_ok (k : Core) : Prop := {
  limits_ok : Forall (fun l => limit_bytes l < U64_MAX) (storage (k_cfg k));
  budget_ok : in_u64 (k_budget k);
}.

(** What no decision may break. *)
Record within (k k' : Core) : Prop := {
  same_settings : k_cfg k' = k_cfg k /\ k_max k' = k_max k /\ k_budget k' = k_budget k;
  disk_within loc :
    disk_at (torrents (k_state k')) loc <= disk_at (torrents (k_state k)) loc \/
    exists l, l ∈ storage (k_cfg k) /\ location_path l = loc /\
      disk_at (torrents (k_state k')) loc <= limit_bytes l;
  ram_within : ram_at k' <= Z.max (k_budget k) (ram_at k);
  size_within : held_size k' <= Z.max (k_max k) (held_size k);
}.

Section Sums.
Context `{HashIter}.

Lemma all_sum f st : sumZ f (State.all st) = map_sum f (torrents st).
Proof.
  unfold State.all, hash_values, map_sum. apply sumZ_perm. apply fmap_Permutation, hash_iter_perm.
Qed.

Lemma all_elem st t : t ∈ State.all st <-> exists h, torrents st !! h = Some t.
Proof. apply elem_of_hash_values. Qed.

Lemma all_keyed k t : books k -> t ∈ State.all (k_state k) ->
  torrents (k_state k) !! t_info_hash t = Some t.
Proof. intros Hb [h Hh]%all_elem. by rewrite (keyed k Hb h t Hh). Qed.

Lemma all_sized k : books k -> sized_list (State.all (k_state k)).
Proof. intros Hb. apply Forall_forall. intros t [h Hh]%all_elem. by apply (sized k Hb h t Hh). Qed.

Lemma all_hashes_nodup k : books k -> NoDup (t_info_hash <$> State.all (k_state k)).
Proof.
  intros Hb. unfold State.all, hash_values. rewrite <- list_fmap_compose.
  rewrite (list_fmap_ext _ fst (hash_iter (torrents (k_state k)))); [apply hash_iter_nodup|].
  intros i [h t] Hi. apply (keyed k Hb). rewrite <- hash_iter_elem. by apply list_elem_of_lookup_2 in Hi.
Qed.

Lemma disk_at_filter st loc :
  disk_at (torrents st) loc =
  occupied st loc +
  PER_TORRENT_SIZE_BUFFER *
    Z.of_nat (length (filter (fun t => t_storage_location t = loc) (State.all st))).
Proof.
  unfold disk_at, occupied. rewrite <- all_sum, <- sumZ_const, <- sumZ_add.
  unfold at_location. by rewrite <- sumZ_filter.
Qed.

(** While the books are in range, what a location reserves is what it is
    charged for. *)
Lemma reserved_exact k loc :
  books k -> reserved (k_state k) loc = disk_at (torrents (k_state k)) loc.
Proof.
  intros Hb. pose proof (charged k Hb loc) as Hc. rewrite disk_at_filter in Hc |- *.
  assert (map_Forall (fun _ t => 0 <= t_size_bytes t) (torrents (k_state k))) as Hpos.
  { intros h t Ht. apply (sized k Hb h t Ht). }
  assert (0 <= occupied (k_state k) loc) as Hocc.
  { apply sumZ_nonneg. intros t [_ [h Hh]%all_elem]%list_elem_of_filter. by apply (Hpos h). }
  unfold reserved. set (n := length _) in *. unfold PER_TORRENT_SIZE_BUFFER in *.
  rewrite bytes_used_exact by (done || lia). rewrite wrap64_small by ulia. ulia.
Qed.

Lemma foldl_sat_sum (f : Torrent -> Z) l acc :
  (forall t, 0 <= f t) -> 0 <= acc <= U64_MAX ->
  foldl (fun u t => sat_add64 u (f t)) acc l = Z.min (acc + sumZ f l) U64_MAX.
Proof.
  intros Hf. revert acc. induction l as [|t l IH]; intros acc Ha; simpl; [lia|].
  pose proof (Hf t). assert (0 <= sumZ f l) by (by apply sumZ_nonneg).
  unfold sumZ in *. rewrite IH by ulia. ulia.
Qed.

(** The engine's own price of the held set is never below the price on record. *)
Lemma ram_used_ge k : Z.min (ram_at k) U64_MAX <= ram_used (k_budget k) (k_state k).
Proof.
  unfold ram_at, ram_used. rewrite <- all_sum. set (pl := peer_limit_for_budget _).
  assert (0 <= pl) by apply peer_limit_nonneg.
  rewrite foldl_sat_sum by (auto with keepat || ulia || (intros; by apply torrent_ram_nonneg)).
  assert (sumZ (freed_ram_of pl) (State.all (k_state k)) <=
          sumZ (held_ram pl) (State.all (k_state k))); [|lia].
  apply sumZ_le. intros t _. unfold freed_ram_of, held_ram. apply torrent_ram_mono.
  destruct (Z.ltb_spec 0 (t_piece_count t)); lia.
Qed.
End Sums.

(** ** Keeping the books *)

Lemma at_location_nonneg k loc : books k ->
  map_Forall (fun _ t => 0 <= at_location loc t) (torrents (k_state k)).
Proof.
  intros Hb h t Ht. destruct (sized k Hb h t Ht) as [Hs _].
  unfold at_location, PER_TORRENT_SIZE_BUFFER. case_decide; lia.
Qed.

Lemma disk_at_nonneg k loc : books k -> 0 <= disk_at (torrents (k_state k)) loc.
Proof. intros Hb. by apply map_sum_nonneg, at_location_nonneg. Qed.

Lemma within_charged k k' loc :
  books k -> settings_ok k -> within k k' -> disk_at (torrents (k_state k')) loc <= U64_MAX.
Proof.
  intros Hb [Hl _] Hw. pose proof (charged k Hb loc).
  destruct (disk_within k k' Hw loc) as [?|(l & Hin & _ & ?)]; [lia|].
  rewrite Forall_forall in Hl. specialize (Hl l Hin). simpl in Hl. lia.
Qed.

Lemma within_refl k : within k k.
Proof. split; [done|intros; left; lia|lia|lia]. Qed.

Lemma within_trans k1 k2 k3 : within k1 k2 -> within k2 k3 -> within k1 k3.
Proof.
  intros [(Hc & Hm & Hb) Hd Hr Hs] [(Hc' & Hm' & Hb') Hd' Hr' Hs']. split.
  - by rewrite Hc', Hm', Hb'.
  - intros loc. destruct (Hd' loc) as [Hd1|(l & Hin & Hl & Hle)].
    + destruct (Hd loc) as [Hd2|(l & Hin & Hl & Hle)]; [left; lia|right].
      exists l. split; [done|]. split; [done|lia].
    + right. exists l. rewrite <- Hc. done.
  - rewrite Hb in Hr'. lia.
  - rewrite Hm in Hs'. lia.
Qed.

Lemma settings_within k k' : settings_ok k -> within k k' -> settings_ok k'.
Proof. intros [Hl Hb] [(Hc & _ & Hbud) _ _ _]. split; by rewrite ?Hc, ?Hbud. Qed.

(** A step that keeps the books and every budget. *)
Definition safe (k k' : Core) : Prop :=
  books k -> settings_ok k -> within k k' /\ books k'.

#[export] Instance safe_preorder : PreOrder safe.
Proof.
  split; [intros k Hb _; split; [apply within_refl|done]|].
  intros k1 k2 k3 H12 H23 Hb Hs. destruct (H12 Hb Hs) as [Hw Hb2].
  destruct (H23 Hb2 (settings_within _ _ Hs Hw)) as [Hw2 Hb3].
  split; [by eapply within_trans|done].
Qed.

(** An entry charged as another. *)
Definition charged_as (t t' : Torrent) : Prop :=
  t_info_hash t' = t_info_hash t /\ t_size_bytes t' = t_size_bytes t /\
  t_storage_location t' = t_storage_location t /\ t_piece_count t' = t_piece_count t.

#[export] Instance charged_as_preorder : PreOrder charged_as.
Proof. split; [done|]. intros t1 t2 t3 (? & ? & ? & ?) (? & ? & ? & ?). repeat split; congruence. Qed.

(** Members may leave and change what is not charged; none joins. *)
Definition shrunk (m m' : gmap string Torrent) : Prop :=
  forall h t', m' !! h = Some t' -> exists t, m !! h = Some t /\ charged_as t t'.

#[export] Instance shrunk_preorder : PreOrder shrunk.
Proof.
  split; [by intros m h t Ht; exists t|].
  intros m1 m2 m3 H12 H23 h t3 H3. destruct (H23 h t3 H3) as (t2 & H2 & Hc2).
  destruct (H12 h t2 H2) as (t1 & H1 & Hc1). exists t1. split; [done|]. by etransitivity.
Qed.

Lemma shrunk_delete m h : shrunk m (delete h m).
Proof. intros h' t. rewrite lookup_delete_Some. intros [_ Ht]. by exists t. Qed.

Lemma shrunk_insert m h t t' : m !! h = Some t -> charged_as t t' -> shrunk m (<[h := t']> m).
Proof.
  intros Hm Hc h' t2. rewrite lookup_insert_Some. intros [[<- <-]|[_ Ht]]; [by exists t|by exists t2].
Qed.

Lemma shrunk_safe k st' :
  shrunk (torrents (k_state k)) (torrents st') -> safe k (core_state st' k).
Proof.
  intros Hsh Hb _.
  assert (forall f, (forall t t', charged_as t t' -> f t' = f t) ->
    map_Forall (fun _ t => 0 <= f t) (torrents (k_state k)) ->
    map_sum f (torrents st') <= map_sum f (torrents (k_state k))) as Hsum.
  { intros f Hf Hpos. apply map_sum_sub; [done|]. intros h t' Ht'.
    destruct (Hsh h t' Ht') as (t & Ht & Hc). exists t. split; [done|]. by rewrite (Hf t t' Hc). }
  assert (forall loc, disk_at (torrents st') loc <= disk_at (torrents (k_state k)) loc) as Hdisk.
  { intros loc. apply Hsum; [|by apply at_location_nonneg].
    intros t t' (_ & Hs & Hl & _). unfold at_location. by rewrite Hs, Hl. }
  split; split; simpl.
  - done.
  - intros loc. left. apply Hdisk.
  - unfold ram_at. simpl. etransitivity; [apply Hsum|lia].
    + intros t t' (_ & _ & _ & Hp). unfold freed_ram_of. by rewrite Hp.
    + intros h t _. apply torrent_ram_nonneg, peer_limit_nonneg.
  - unfold held_size. simpl. etransitivity; [apply Hsum; [done|]|lia]. by intros h t _.
  - intros h t' Ht'. destruct (Hsh h t' Ht') as (t & Ht & -> & _). by apply (keyed k Hb).
  - intros h t' Ht'. destruct (Hsh h t' Ht') as (t & Ht & _ & -> & _). by apply (sized k Hb h).
  - intros loc. etransitivity; [apply Hdisk|]. apply (charged k Hb).
Qed.
