(* ===== verification/Budget.v ===== *)
(** The budgets the engine keeps while it acts on candidates, and what the
    quarantine gate and the seed margin rule out.  Everything here follows from
    the cases of [act_on_candidate] ([Acting]). *)

From S2P Require Import Prelude Text Float64 Fs Persist Time Ram Selector Net Quarantine State.
From S2P Require Import AtKey AtTorrent Filter FdLimit Catalog World Config Storage NetStats Torrents.
From S2P Require Import Pool History Swap Swarm Engine EngineCore Acting Books.

(** ** Filling and swapping keep the books *)

Section Moves.
Context `{HashIter} `{HexCrate} `{Libm}.

Lemma entry_sized c md loc t : md_ok md ->
  entry_of c md (tm_total_length md) loc t -> in_u64 (t_size_bytes t).
Proof. intros [Hs _] (_ & Es & _). by rewrite Es. Qed.

Lemma entry_price k c md size loc t : entry_of c md size loc t ->
  freed_ram_of (peer_limit_for_budget (k_budget k)) t = ram_price k md.
Proof.
  unfold freed_ram_of, ram_price, torrent_ram. intros (_ & _ & _ & -> & _).
  by rewrite <- Z.max_assoc, (Z.max_id 1).
Qed.

(** The entries of a set that grew by [t] and lost [ds]. *)
Lemma books_kept k t ds m :
  books k -> settings_ok k -> in_u64 (t_size_bytes t) ->
  m = drop_all (<[t_info_hash t := t]> (torrents (k_state k))) ds ->
  within k (core_state (set_torrents m (k_state k)) k) ->
  books (core_state (set_torrents m (k_state k)) k).
Proof.
  intros Hb Hs Ht -> Hw.
  assert (forall P : string -> Torrent -> Prop, P (t_info_hash t) t -> map_Forall P (torrents (k_state k)) ->
    map_Forall P (drop_all (<[t_info_hash t := t]> (torrents (k_state k))) ds)) as Hall.
  { intros P Hpt Hp h t'. rewrite drop_all_lookup. case_decide; [done|].
    intros [[<- <-]|[_ ?]]%lookup_insert_Some; [done|]. by apply Hp. }
  split; simpl.
  - apply Hall; [done|]. apply (keyed k Hb).
  - apply (Hall (fun _ t => in_u64 (t_size_bytes t))); [done|]. apply (sized k Hb).
  - intros loc. apply (within_charged k _ loc Hb Hs Hw).
Qed.

Lemma price_pos k md : PER_TORRENT_RAM_BASE <= ram_price k md.
Proof. apply torrent_ram_pos, peer_limit_nonneg. Qed.

(** Nothing a set is charged for is negative. *)
Lemma charges_nonneg k : books k ->
  (forall loc, map_Forall (fun _ t => 0 <= at_location loc t) (torrents (k_state k))) /\
  map_Forall (fun _ t => 0 <= freed_ram_of (peer_limit_for_budget (k_budget k)) t)
    (torrents (k_state k)) /\
  map_Forall (fun _ t => 0 <= one t) (torrents (k_state k)).
Proof.
  intros Hb. split; [intros loc; by apply at_location_nonneg|]. split; [|done].
  intros h t _. apply torrent_ram_nonneg, peer_limit_nonneg.
Qed.

(** A fill, of a hash that is held already or not. *)
Lemma fill_within k c md held loc floor roll t :
  books k -> settings_ok k -> md_ok md -> held_size k <= held ->
  fill_fits k md held loc -> admitted k c md [] floor roll (location_path loc) t ->
  within k (held_with t k) /\ held_size (held_with t k) <= held + 1.
Proof.
  intros Hb Hset [[Hsize _] _] Hheld (Hmax & Hin & Hroom & Hram) (_ & Ht).
  pose proof (entry_price k _ _ _ _ _ Ht) as Hprice.
  destruct Ht as (_ & Es & El & _ & _). destruct (charges_nonneg k Hb) as (Hdisk & Hfr & Hone).
  pose proof (map_sum_insert_le one _ (t_info_hash t) t Hone) as Hcount. unfold one at 2 in Hcount.
  split; [|unfold held_size in *; simpl; lia].
  split; [done| | |].
  - intros l. unfold disk_at. simpl.
    pose proof (map_sum_insert_le (at_location l) _ (t_info_hash t) t (Hdisk l)) as Hins.
    fold (disk_at (torrents (k_state k)) l) in *.
    destruct (decide (t_storage_location t = l)) as [<-|Hne];
      [right|left; rewrite at_elsewhere in Hins by done; lia].
    exists loc. split; [done|]. split; [done|]. etransitivity; [exact Hins|].
    rewrite at_its_location, El, Es.
    unfold room in Hroom. rewrite reserved_exact in Hroom by done.
    pose proof (disk_at_nonneg k (location_path loc) Hb).
    destruct Hset as [Hl _]. rewrite Forall_forall in Hl. specialize (Hl loc Hin). simpl in Hl.
    unfold size_needed, PER_TORRENT_SIZE_BUFFER in *. ulia.
  - unfold ram_at. simpl. etransitivity; [by apply map_sum_insert_le|]. rewrite Hprice. fold (ram_at k).
    pose proof (ram_used_ge k). pose proof (price_pos k md). destruct Hset as [_ Hbud].
    unfold PER_TORRENT_RAM_BASE in *. ulia.
  - unfold held_size in *. simpl. lia.
Qed.

(** What a swap displaces: held torrents of the target location that clear the
    seed margin, freeing the bytes and the RAM the candidate needs. *)
Lemma displaced_facts k c md location ds :
  books k -> md_ok md -> displaced_at k c md location = Some ds ->
  NoDup (t_info_hash <$> ds) /\ ds <> [] /\
  (forall d, d ∈ ds -> torrents (k_state k) !! t_info_hash d = Some d /\
     t_storage_location d = location /\
     clears_margin (min_seed_margin (scan (k_cfg k))) (cand_seeders c) d) /\
  frees_enough (peer_limit_for_budget (k_budget k)) (size_needed (tm_total_length md))
    (ram_price k md) ds.
Proof.
  intros Hb [Hs _] Hd. unfold displaced_at, all_held in Hd.
  apply select_some in Hd as ((rest & Hperm) & Hfree & Hne).
  - rewrite list_filter_filter in Hperm. split; [|split; [done|split; [|done]]].
    + apply (NoDup_app (t_info_hash <$> ds) (t_info_hash <$> rest)).
      rewrite <- fmap_app, Hperm. eapply sublist_NoDup; [apply (all_hashes_nodup k Hb)|].
      apply fmap_sublist, sublist_filter.
    + intros d Hin.
      assert (d ∈ ds ++ rest) as Hin' by (apply elem_of_app; by left).
      rewrite Hperm, list_elem_of_filter in Hin'. destruct Hin' as [[Hm Hl] Ha].
      split; [by apply all_keyed|done].
  - apply peer_limit_nonneg.
  - pose proof (all_sized k Hb) as Hall. unfold sized_list in *. rewrite Forall_forall in Hall |- *.
    intros x [_ Hd']%list_elem_of_filter. by apply Hall.
  - unfold size_needed. apply sat_add64_le.
  - unfold ram_price, torrent_ram. apply sat_add64_le.
Qed.

Lemma swap_within k c md location ds floor roll t :
  books k -> md_ok md -> displaced_at k c md location = Some ds ->
  admitted k c md (as_held <$> ds) floor roll location t ->
  within k (without ds (held_with t k)) /\
  held_size (without ds (held_with t k)) <= held_size k + 1 - Z.of_nat (length ds) /\
  (0 < length ds)%nat.
Proof.
  intros Hb Hmd Hds (_ & Ht). pose proof (entry_price k _ _ _ _ _ Ht) as Hprice.
  destruct (displaced_facts k c md location ds Hb Hmd Hds) as (Hnd & Hne & Hin & Hbytes & Hram).
  destruct (charges_nonneg k Hb) as (Hdisk & Hfr & Hone).
  assert (0 <= t_size_bytes t) as Hts by (by destruct (entry_sized _ _ _ _ Hmd Ht)).
  destruct Ht as (_ & Es & El & _ & _).
  assert (0 < length ds)%nat as Hlen by (destruct ds; [done|simpl; lia]).
  assert (forall f, map_Forall (fun _ t => 0 <= f t) (torrents (k_state k)) -> 0 <= f t ->
    map_sum f (torrents (k_state (without ds (held_with t k)))) <=
    f t + map_sum f (torrents (k_state k)) - sumZ f ds) as Hsum.
  { intros f Hf Hnn. apply map_sum_swap; [done| |done|done]. intros d Hd. apply (Hin d Hd). }
  assert (held_size (without ds (held_with t k)) <= held_size k + 1 - Z.of_nat (length ds)) as Hsize.
  { unfold held_size. etransitivity; [by apply Hsum|]. unfold one at 1 3. rewrite sumZ_const. lia. }
  split; [|done]. split; [done| | |lia].
  - intros l. left. unfold disk_at at 1. etransitivity.
    { apply Hsum; [apply Hdisk|]. unfold at_location, PER_TORRENT_SIZE_BUFFER. case_decide; lia. }
    fold (disk_at (torrents (k_state k)) l). destruct (decide (location = l)) as [<-|Hnl].
    + assert (sumZ (at_location location) ds =
              freed_bytes ds + PER_TORRENT_SIZE_BUFFER * Z.of_nat (length ds)) as ->.
      { unfold freed_bytes. rewrite <- sumZ_const, <- sumZ_add. apply sumZ_ext.
        intros d Hd. destruct (Hin d Hd) as (_ & <- & _). apply at_its_location. }
      rewrite <- El, at_its_location, Es. unfold size_needed, PER_TORRENT_SIZE_BUFFER in *.
      destruct Hmd as [[_ Hmax] _]. ulia.
    + rewrite at_elsewhere by congruence. rewrite (sumZ_ext _ (fun _ => 0)), sumZ_const; [lia|].
      intros d Hd. destruct (Hin d Hd) as (_ & <- & _). by apply at_elsewhere.
  - unfold ram_at at 1. etransitivity; [apply Hsum; [done|]|].
    { simpl. rewrite Hprice. pose proof (price_pos k md). unfold PER_TORRENT_RAM_BASE in *. lia. }
    simpl. rewrite Hprice. unfold freed_ram, ram_at in *. lia.
Qed.
End Moves.

(** ** Acting *)

Section Acting.
Context {W : Type} `{World W} `{Decoders} `{Chrono} `{HexCrate} `{UrlCrate} `{HashIter} `{Libm}.
Context `{StateCodec} `{EventCodec}.

Abbreviation Sys := (Engine * Node W)%type.

(** The books, the settings, and a count that covers the held set. *)
Definition counted (k : Core) (held : Z) : Prop :=
  books k /\ settings_ok k /\ held_size k <= held.

Lemma acted_within k at_ c held floor held' k' :
  counted k held -> acted k at_ c held floor held' k' -> within k k' /\ counted k' held'.
Proof.
  intros (Hb & Hset & Hheld) [|md loc t roll Hmd _ Hfit Hadm|md location ds t roll removed Hmd _ Hds Hadm Hrem].
  - split; [apply within_refl|done].
  - destruct (fill_within k c md held loc floor roll t) as [Hw Hs]; [done..|].
    split; [exact Hw|]. split; [|split; [by eapply settings_within|exact Hs]].
    apply (books_kept k t []); [done|done| |done|exact Hw]. eapply entry_sized; [done|apply Hadm].
  - destruct (swap_within k c md location ds floor roll t) as (Hw & Hs & Hlen); [done..|].
    split; [exact Hw|]. split; [|split; [by eapply settings_within|unfold sat_sub; lia]].
    apply (books_kept k t ds); [done|done| |done|exact Hw]. eapply entry_sized; [done|apply Hadm].
Qed.

(** Acting changes the held set and nothing else of the core. *)
Definition moved (k k' : Core) : Prop :=
  exists m, k' = core_state (set_torrents m (k_state k)) k.

#[export] Instance moved_preorder : PreOrder moved.
Proof.
  split; [intros k; exists (torrents (k_state k)); by destruct k as [? [] ? ? ?]|].
  intros k1 k2 k3 [m ->] [m' ->]. by exists m'.
Qed.

Lemma acted_moved k at_ c held floor held' k' : acted k at_ c held floor held' k' -> moved k k'.
Proof. intros [| |]; [reflexivity|by eexists|by eexists]. Qed.

(** A window of candidates, whatever their hashes. *)
Lemma window_within k0 evaluated acted0 held floor :
  counted k0 held ->
  hoare (at_core k0) (act_on_windowed (W:=W) evaluated acted0 held floor)
    (fun st s => within k0 (core s.1) /\ counted (core s.1) st.2 /\ moved k0 (core s.1)).
Proof.
  intros Hc. unfold act_on_windowed. apply after_engine. intros e _.
  set (inv := fun (st : gset string * Z) (s : Sys) =>
    within k0 (core s.1) /\ counted (core s.1) st.2 /\ moved k0 (core s.1)).
  eapply hoare_weaken with (P := inv (acted0, held)) (Q := inv).
  - apply hoare_foldM. intros [acted held'] c _. unfold act_once.
    destruct (decide _); [by apply hoare_ret|]. intros s (Hw & Hcnt & Hm). unfold bind.
    pose proof (act_cases c held' floor s) as Hact.
    destruct (act_on_candidate c held' floor s) as [held2 s'].
    destruct (acted_within _ _ _ _ _ _ _ Hcnt Hact) as [Hw' Hcnt'].
    split; [by eapply within_trans|]. split; [exact Hcnt'|].
    etransitivity; [exact Hm|by eapply acted_moved].
  - intros s Hs. unfold inv. rewrite Hs. split; [apply within_refl|done].
  - done.
Qed.
End Acting.

(** Acting on a window of candidates keeps every budget, whatever the
    network, the disk, the session and the dice answer, whichever saves fail,
    and whichever hashes the candidates name, held ones included: no storage
    location is charged more than before unless it stays within its configured
    limit, the RAM price of the held set stays within the budget (or does not
    grow), the held set does not outgrow the torrent cap, and the running count
    of held torrents never drops below the real one, so the next window can be
    acted on in turn. *)
Theorem window_keeps_budgets {W : Type} `{World W} `{Decoders} `{Chrono} `{HexCrate} `{UrlCrate}
    `{HashIter} `{Libm} `{StateCodec} `{EventCodec} evaluated acted held floor (s : Engine * Node W) :
  counted (core s.1) held ->
  let '((acted', held'), s') := act_on_windowed evaluated acted held floor s in
  within (core s.1) (core s'.1) /\ counted (core s'.1) held'.
Proof.
  intros Hcnt. pose proof (window_within (core s.1) evaluated acted held floor Hcnt s eq_refl) as Hh.
  destruct (act_on_windowed _ _ _ _ s) as [[acted' held'] s']. tauto.
Qed.

(** C4: the quarantine gate is absolute.  While a hash's cooldown runs, acting on
    it leaves the held set, the registry of broken torrents and the count as
    they were; once it has lapsed the re-probe may add the candidate, but never
    costs a held torrent its place; and in both cases every quarantine entry
    survives, so that its attempts keep counting. *)
Theorem quarantine_gate_guards {W : Type} `{World W} `{Decoders} `{Chrono} `{HexCrate} `{UrlCrate}
    `{HashIter} `{Libm} `{StateCodec} `{EventCodec} c held floor (s : Engine * Node W) q :
  let hex := hex_encode (cand_info_hash c) in
  quarantined (k_state (core s.1)) !! hex = Some q ->
  torrents (k_state (core s.1)) !! hex = None ->
  let '(held', s') := act_on_candidate c held floor s in
  ((now s).1 < q_cooldown_until q -> core s'.1 = core s.1 /\ held' = held) /\
  torrents (k_state (core s.1)) ⊆ torrents (k_state (core s'.1)) /\
  quarantined (k_state (core s'.1)) = quarantined (k_state (core s.1)).
Proof.
  intros hex Hq Hm. pose proof (act_cases c held floor s) as Hact.
  destruct (act_on_candidate c held floor s) as [held' s'].
  destruct Hact as [|md loc t roll _ Hopen _ [_ (Eh & _)]|md loc ds t roll r _ Hno _ _ _].
  - done.
  - split; [|split; [|done]].
    + unfold gate_open in Hopen. fold hex in Hopen. rewrite Hq in Hopen. lia.
    + simpl. apply insert_subseteq. by rewrite Eh.
  - fold hex in Hno. congruence.
Qed.

(** C3: a held torrent loses its place to a candidate only when it clears the
    seed margin: it has at least the configured margin more seeders than the
    candidate that replaced it, sat in the very location the candidate went to,
    and the candidate is held now, with the swap decided in its favour, and was
    not under quarantine. *)
Theorem displaced_clear_margin {W : Type} `{World W} `{Decoders} `{Chrono} `{HexCrate} `{UrlCrate}
    `{HashIter} `{Libm} `{StateCodec} `{EventCodec} c held floor (s : Engine * Node W) h t :
  let k := core s.1 in
  let hex := hex_encode (cand_info_hash c) in
  books k -> torrents (k_state k) !! hex = None ->
  torrents (k_state k) !! h = Some t ->
  let s' := (act_on_candidate c held floor s).2 in
  torrents (k_state (core s'.1)) !! h = None ->
  cand_seeders c <= t_last_known_seeders t - min_seed_margin (scan (k_cfg k)) /\
  quarantined (k_state k) !! hex = None /\
  exists t', torrents (k_state (core s'.1)) !! hex = Some t' /\
    t_storage_location t' = t_storage_location t /\ t_last_known_seeders t' = cand_seeders c.
Proof.
  intros k hex Hb Hfr Ht. pose proof (act_cases c held floor s) as Hact.
  destruct (act_on_candidate c held floor s) as [held' s']. cbn [snd]. fold k in Hact. clearbody k.
  destruct Hact as [|md loc t' roll _ _ _ _|md loc ds t' roll r Hmd Hno Hds [_ He] _].
  - congruence.
  - simpl. intros [? _]%lookup_insert_None. congruence.
  - destruct (displaced_facts k c md loc ds Hb Hmd Hds) as (_ & _ & Hin & _).
    destruct He as (Eh & _ & El & _ & Ec). fold hex in Eh, Hno.
    unfold without. simpl.
    change (foldl _ _ ds) with (drop_all (<[t_info_hash t' := t']> (torrents (k_state k))) ds).
    rewrite !drop_all_lookup, Eh. destruct (decide (h ∈ _)) as [Hd|Hd].
    + intros _. apply list_elem_of_fmap in Hd as (d & -> & Hd).
      destruct (Hin d Hd) as (Hdm & Hdl & Hdc). assert (d = t) as -> by congruence.
      split; [exact Hdc|]. split; [done|]. exists t'. rewrite decide_False, lookup_insert_eq.
      { split; [done|]. split; [congruence|done]. }
      intros (d & Hhd & Hd')%list_elem_of_fmap. destruct (Hin d Hd') as (Hdm' & _). congruence.
    + intros [? _]%lookup_insert_None. congruence.
Qed.

(** ** Witnesses

    A node with one held torrent, one hash on file as broken and a location with
    room, acting on one candidate of ten pieces. *)

Definition witness_held : Torrent := witness_held_torrent "bb" 3000000 20 9.

Definition witness_broken (until : instant) : Quarantine :=
  {| q_title := "t"; q_reason := "r"; q_quarantined_at := 0; q_cooldown_until := until;
     q_attempts := 1; q_wasted_bytes := 7 |}.

Definition witness_candidate (seeders : Z) : Evaluated :=
  {| ev_title := "t"; ev_info_hash := witness_hash; ev_size_bytes := 1000000; ev_piece_count := 10;
     ev_seeders := seeders; ev_leechers := 0 |}.

(** [limit] bytes for the one location, [max] torrents, and the entry of the
    candidate's hash. *)
Definition witness_engine (bytes max : Z) (entry : option Quarantine) : Engine :=
  {| e_cfg := {| port := 0; data_dir := "/d";
       storage := [{| location_path := "/s"; limit := Bytes bytes |}];
       Config.scan := scan_default; aggressiveness := DEFAULT_AGGRESSIVENESS; keyword_blocklist := [];
       preserve_deleted_torrents := false; catalog_collapse_percent := 30; max_ram := 0;
       api_key := ""; upload_rate_limit := 0; download_rate_limit := 0;
       stats_interval := secs 60; debug := false; log_file := None |};
     e_state := {| state_path := "/d/state.json"; torrents := {["bb" := witness_held]};
                   quarantined := from_option (singletonM (@hex_encode witness_hex witness_hash)) ∅ entry |};
     e_shared := witness_eval_state.1; e_blocklist := {| keywords := [] |}; e_base_url := "https://at";
     e_catalog_url := "https://at/c"; e_user_announce := ""; e_user_announce_ipv6 := "";
     e_max_torrents := max; e_ram_budget := 1024 ^ 3; e_size_bias := fzero;
     e_scrape_backoff := secs 60; e_started_at := 0; e_evaluated_counts := []; e_last_scan := None;
     e_completed_seen := ∅; e_live := false; e_history := witness_writer; e_detector := ∅;
     e_last_catalog := None |}.

Definition witness_node : Node Toy :=
  {| node_fs := fresh_fs [] []; registry := {| registered := ∅; uid_source := 0 |};
     world := {| toy_clock := secs 1000000;
                 toy_replies := [Ok {| status := "200 OK"; is_success := true; body := Ok witness_hash |}];
                 toy_rolls := []; toy_torrents := []; toy_free := 10 ^ 12 |} |}.

Definition witness_sys (bytes max : Z) (entry : option Quarantine) : Engine * Node Toy :=
  (witness_engine bytes max entry, witness_node).

Abbreviation act_there :=
  (@act_on_candidate Toy witness_world witness_decoders witness_chrono witness_hex witness_urls
     hash_iter_sorted witness_libm witness_codec witness_events).

(** There is room: the candidate joins.  There is no slot, the held torrent has
    nine seeders and the candidate one: it is displaced.  Under a running
    cooldown nothing happens. *)
Example fills_free_space :
  let s' := act_there (as_ranked 3 (witness_candidate 1)) 1 3 (witness_sys (10 ^ 9) 5 None) in
  s'.1 = 2 /\
  (map_to_list (torrents (e_state s'.2.1))).*1 = [@hex_encode witness_hex witness_hash; "bb"].
Proof. split; vm_compute; reflexivity. Qed.

Example displaces_at_the_cap :
  let s' := act_there (as_ranked 3 (witness_candidate 1)) 1 3 (witness_sys (10 ^ 9) 1 None) in
  s'.1 = 1 /\
  (map_to_list (torrents (e_state s'.2.1))).*1 = [@hex_encode witness_hex witness_hash].
Proof. split; vm_compute; reflexivity. Qed.

Lemma witness_books bytes max entry : books (core (witness_sys bytes max entry).1).
Proof.
  split; simpl.
  - by apply map_Forall_singleton.
  - apply map_Forall_singleton. repeat split; vm_compute; discriminate.
  - intros loc. unfold disk_at, map_sum. rewrite map_to_list_singleton. simpl.
    unfold at_location. case_decide; vm_compute; discriminate.
Qed.

Lemma witness_counted entry : counted (core (witness_sys (10 ^ 9) 1 entry).1) 1.
Proof.
  split; [apply witness_books|]. split; [|vm_compute; discriminate].
  split; [repeat constructor|vm_compute; split; discriminate].
Qed.

Lemma window_keeps_budgets_witness :
  let s := witness_sys (10 ^ 9) 1 None in
  let '((acted', held'), s') :=
    @act_on_windowed Toy witness_world witness_decoders witness_chrono witness_hex witness_urls
      hash_iter_sorted witness_libm witness_codec witness_events [witness_candidate 1] ∅ 1 3 s in
  within (core s.1) (core s'.1) /\ counted (core s'.1) held'.
Proof.
  apply (@window_keeps_budgets Toy witness_world witness_decoders witness_chrono witness_hex
           witness_urls hash_iter_sorted witness_libm witness_codec witness_events
           [witness_candidate 1] ∅ 1 3 (witness_sys (10 ^ 9) 1 None)).
  apply witness_counted.
Defined.

Lemma quarantine_gate_guards_witness :
  let s := witness_sys (10 ^ 9) 5 (Some (witness_broken (secs 2000000))) in
  let '(held', s') := act_there (as_ranked 3 (witness_candidate 1)) 1 3 s in
  ((@now Toy witness_world s).1 < secs 2000000 -> core s'.1 = core s.1 /\ held' = 1) /\
  torrents (k_state (core s.1)) ⊆ torrents (k_state (core s'.1)) /\
  quarantined (k_state (core s'.1)) = quarantined (k_state (core s.1)).
Proof.
  apply (@quarantine_gate_guards Toy witness_world witness_decoders witness_chrono witness_hex
           witness_urls hash_iter_sorted witness_libm witness_codec witness_events
           (as_ranked 3 (witness_candidate 1)) 1 3
           (witness_sys (10 ^ 9) 5 (Some (witness_broken (secs 2000000))))
           (witness_broken (secs 2000000))); vm_compute; reflexivity.
Defined.

Lemma displaced_clear_margin_witness :
  let s := witness_sys (10 ^ 9) 1 None in
  let hex := @hex_encode witness_hex witness_hash in
  let s' := (act_there (as_ranked 3 (witness_candidate 1)) 1 3 s).2 in
  1 <= 9 - min_seed_margin scan_default /\
  quarantined (k_state (core s.1)) !! hex = None /\
  exists t', torrents (k_state (core s'.1)) !! hex = Some t' /\
    t_storage_location t' = "/s" /\ t_last_known_seeders t' = 1.
Proof.
  apply (@displaced_clear_margin Toy witness_world witness_decoders witness_chrono witness_hex
           witness_urls hash_iter_sorted witness_libm witness_codec witness_events
           (as_ranked 3 (witness_candidate 1)) 1 3 (witness_sys (10 ^ 9) 1 None) "bb" witness_held);
    [apply witness_books|vm_compute; reflexivity..].
Defined.
