(* ===== verification/Maintain.v ===== *)
(** The maintenance a scan does on what is held, [engine/scan.rs]: removing the
    torrents that left the catalog, confirming the others, refreshing seeder
    counts and progress, removing stalled downloads, and resuming after a boot. *)

From S2P Require Import Prelude Text Float64 Fs Persist Time Ram Selector Net Quarantine State.
From S2P Require Import AtKey AtTorrent Filter FdLimit Catalog World Config Storage NetStats Torrents.
From S2P Require Import Pool History Humanize Swap Swarm Engine EngineCore Books Budget.

(** ** Which torrents go *)

(** How long a torrent has not been confirmed in the catalog; one without a
    stamp counts from when it was added.  [None]: the stamp lies ahead. *)
Definition absent_for (now : instant) (h : Torrent) : option duration :=
  to_std (since now (default (t_added_at h) (t_last_confirmed_in_catalog_at h))).

Definition vanished (now : instant) (timeout : duration) (catalog : gset string) (h : Torrent)
    : bool :=
  negb (bool_decide (t_info_hash h ∈ catalog)) &&
  match absent_for now h with Some absent => timeout <=? absent | None => false end.

(** How long a torrent has made no progress; [None]: no stamp yet, or one that
    lies ahead. *)
Definition stalled_for (now : instant) (h : Torrent) : option duration :=
  t_last_progress_at h ≫= fun t => to_std (since now t).

Definition stall_reason (since : duration) (h : Torrent) : string :=
  if t_last_known_seeders h =? 0 then
    "zero seeders and no download progress for " +:+ human_duration since
  else
    "no download progress for " +:+ human_duration since +:+ " (" +:+
    pretty (t_last_known_seeders h) +:+ " seeders, incomplete)".

(** ** What the passes write *)

Definition confirm (now : instant) (t : Torrent) : Torrent :=
  {| t_info_hash := t_info_hash t; t_title := t_title t; t_size_bytes := t_size_bytes t;
     t_storage_location := t_storage_location t; t_added_at := t_added_at t;
     t_piece_count := t_piece_count t; t_last_known_seeders := t_last_known_seeders t;
     t_completed_pieces := t_completed_pieces t; t_last_progress_at := t_last_progress_at t;
     t_last_confirmed_in_catalog_at := Some now |}.

Definition set_seeders (seeders : Z) (t : Torrent) : Torrent :=
  {| t_info_hash := t_info_hash t; t_title := t_title t; t_size_bytes := t_size_bytes t;
     t_storage_location := t_storage_location t; t_added_at := t_added_at t;
     t_piece_count := t_piece_count t; t_last_known_seeders := seeders;
     t_completed_pieces := t_completed_pieces t; t_last_progress_at := t_last_progress_at t;
     t_last_confirmed_in_catalog_at := t_last_confirmed_in_catalog_at t |}.

(** The update of one refreshed torrent, applied at [now]. *)
Definition refresh (seeders progress : Z) (now : instant) (t : Torrent) : Torrent :=
  let t := set_seeders seeders t in
  if progressed progress t then bump_progress progress now t else t.

(** Whether the catalog confirms a torrent later than its stamp. *)
Definition confirmable (catalog : gset string) (now : instant) (h : Torrent) : Prop :=
  t_info_hash h ∈ catalog /\
  match t_last_confirmed_in_catalog_at h with Some t => t < now | None => True end.

#[export] Instance confirmable_dec catalog now h : Decision (confirmable catalog now h).
Proof. unfold confirmable. destruct (t_last_confirmed_in_catalog_at h); apply _. Defined.

Section Maintain.
Context {W : Type} `{World W} `{Decoders} `{Chrono} `{HexCrate} `{UrlCrate} `{HashIter} `{Libm}.
Context `{StateCodec} `{EventCodec}.

Abbreviation Sys := (Engine * Node W)%type.

Definition output_dir_of (h : Torrent) : path :=
  torrent_output_dir (t_storage_location h) (t_info_hash h).

(** What every removal does; an error of the session is logged, and the ledger
    records the removal only once it is saved. *)
Definition drop_held (h : Torrent) (cause : Cause) (reason : string) (any : bool) : M Sys bool :=
  let* _ := on_outside (remove_torrent (t_info_hash h) (output_dir_of h)) in
  drop_cached (t_info_hash h) ;;;
  let* r := with_state (State.remove (t_info_hash h)) in
  if is_ok r then
    let* ts := now in
    record (remove_event (to_rfc3339 ts) (t_info_hash h) (t_title h) (t_size_bytes h)
              (t_last_known_seeders h) (t_storage_location h) cause reason) ;;;
    ret true
  else ret any.

Definition remove_if_vanished (now : instant) (timeout : duration) (catalog : gset string)
    (any : bool) (h : Torrent) : M Sys bool :=
  if vanished now timeout catalog h then
    drop_held h DeletedFromCatalog "no longer listed on Academic Torrents" any
  else ret any.

Definition remove_deleted_torrents (held : list Torrent) (catalog : gset string) : M Sys unit :=
  let* e := engine id in
  if preserve_deleted_torrents (e_cfg e) then ret tt
  else
    let* at_ := now in
    let* any := foldM (remove_if_vanished at_ (vanished_eviction_timeout (scan (e_cfg e))) catalog)
                  false held in
    whenM any push_live.

(** The confirmation stamps a scan renews. *)
Definition confirm_listed (catalog : gset string) : M Sys unit :=
  let* at_ := now in
  let* held := engine (fun e => State.all (e_state e)) in
  let updates := (fun h => (t_info_hash h, confirm at_)) <$> filter (confirmable catalog at_) held in
  let* r := with_state (State.update_each updates) in
  whenM (match r with Ok n => (0 <? n)%nat | Err _ => false end) push_live.

Definition held_progress_bytes (h : Torrent) : M Sys Z :=
  let* found := on_outside (find_torrent (t_info_hash h)) in
  match found with
  | Ok (Some handle) => ret (mt_progress_bytes handle)
  | _ => on_outside (on_world (dir_size_bytes (output_dir_of h)))
  end.

(** The walk over the held set: hash, scraped seeders and progress of each
    torrent that could be scraped, until a shutdown is signalled. *)
Fixpoint collect_refresh (held : list Torrent) : M Sys (list (string * Z * Z)) :=
  match held with
  | [] => ret []
  | h :: held =>
      let* stop := on_outside (on_world shutdown_signalled) in
      if (stop : bool) then ret []
      else
        let* r := fetch_metadata (t_info_hash h) in
        match r with
        | Err _ => collect_refresh held
        | Ok md =>
            let* sw := scrape_swarm (tm_trackers md) (hash_or_zero (t_info_hash h)) in
            match sw with
            | Err _ => collect_refresh held
            | Ok sw =>
                let* progress := held_progress_bytes h in
                let* rest := collect_refresh held in
                ret ((t_info_hash h, seeders sw, progress) :: rest)
            end
        end
  end.

(** Each update reads the clock when it is applied; all of them are applied at
    the end of the walk, in one pass without anything in between. *)
Fixpoint stamped (updates : list (string * Z * Z)) : M Sys (list (string * (Torrent -> Torrent))) :=
  match updates with
  | [] => ret []
  | (hex, n, progress) :: updates =>
      let* at_ := now in
      let* rest := stamped updates in
      ret ((hex, refresh n progress at_) :: rest)
  end.

Definition refresh_held_seeder_counts : M Sys unit :=
  let* held := engine (fun e => State.all (e_state e)) in
  let* updates := collect_refresh held in
  let* updates := stamped updates in
  let* r := with_state (State.update_each updates) in
  whenM (match r with Ok n => (0 <? n)%nat | Err _ => false end) push_live.

(** What saves a torrent past its timeout: its check is running, or it is
    complete by the session's flag, by the verified bytes or, outside the
    session, by its directory.  The session is asked once for all of it. *)
Definition spared (h : Torrent) : M (Node W) bool :=
  let* found := find_torrent (t_info_hash h) in
  let handle := default None (result_ok found) in
  if from_option mt_initializing false handle then ret true
  else
    let* progress := match handle with
                     | Some t => ret (mt_progress_bytes t)
                     | None => on_world (dir_size_bytes (output_dir_of h))
                     end in
    ret (from_option mt_finished false handle || (t_size_bytes h <=? progress)).

(** One torrent of the stall pass. *)
Definition evict_if_stalled (now : instant) (timeout : duration) (catalog : gset string)
    (any : bool) (h : Torrent) : M Sys bool :=
  if negb (bool_decide (t_info_hash h ∈ catalog)) then ret any
  else
    match stalled_for now h with
    | None => ret any
    | Some since =>
        if since <? timeout then ret any
        else
          let* keep := on_outside (spared h) in
          if (keep : bool) then ret any else drop_held h Stalled (stall_reason since h) any
    end.

Definition evict_stalled_torrents (catalog : gset string) : M Sys unit :=
  let* e := engine id in
  let timeout := stall_eviction_timeout (scan (e_cfg e)) in
  if timeout <=? 0 then ret tt
  else
    let* at_ := now in
    let* held := engine (fun e => State.all (e_state e)) in
    let* any := foldM (evict_if_stalled at_ timeout catalog) false held in
    whenM any push_live.

(** One torrent of the resumption, from its cached .torrent; failures are
    logged and skipped. *)
Definition resume_one (h : Torrent) : M Sys unit :=
  let* p := cache_path_of (t_info_hash h) in
  let* md := on_outside (read_metadata p) in
  match md with
  | None => ret tt
  | Some md =>
      let* e := engine id in
      let keyed := at_trackers_only (tiers_of (tm_trackers md)) (e_user_announce e)
                     (e_user_announce_ipv6 e) in
      let* _ := on_outside (add_torrent_bytes (t_info_hash h) (output_dir_of h) keyed p false) in
      ret tt
  end.

Definition resume_held : M Sys (result error unit) :=
  let* held := engine (fun e => State.all (e_state e)) in
  forM held resume_one ;;;
  ret (Ok tt).
End Maintain.

(** ** What the passes do to the held set *)

Section Passes.
Context {W : Type} `{World W} `{Decoders} `{Chrono} `{HexCrate} `{UrlCrate} `{HashIter} `{Libm}.
Context `{StateCodec} `{EventCodec}.

Abbreviation Sys := (Engine * Node W)%type.

Definition set_held (m : gmap string Torrent) (k : Core) : Core :=
  core_state (set_torrents m (k_state k)) k.

Lemma set_held_id k : set_held (torrents (k_state k)) k = k.
Proof. by destruct k as [? [] ? ? ?]. Qed.

Lemma drop_held_core k h cause reason any :
  hoare (at_core k) (drop_held (W:=W) h cause reason any)
    (fun _ => at_core (set_held (delete (t_info_hash h) (torrents (k_state k))) k)).
Proof.
  unfold drop_held. apply after_steady; [auto with keepat|]. intros _.
  apply after_steady; [auto with keepat|]. intros _.
  eapply hoare_bind; [apply remove_core|]. intros r.
  destruct (is_ok r); [|by apply hoare_ret]. apply after_steady; [auto with keepat|]. intros ts.
  apply after_steady; [auto with keepat|]. intros _. by apply hoare_ret.
Qed.

(** A fold that drops some of a list from the held set, one element at a time. *)
Lemma fold_drops (f : bool -> Torrent -> M Sys bool) (P : Torrent -> Prop) `{forall t, Decision (P t)} :
  (forall k any h, hoare (at_core k) (f any h) (fun _ =>
     at_core (if decide (P h) then set_held (delete (t_info_hash h) (torrents (k_state k))) k else k))) ->
  forall l k any, hoare (at_core k) (foldM f any l)
    (fun _ => at_core (set_held (drop_all (torrents (k_state k)) (filter P l)) k)).
Proof.
  intros Hf. induction l as [|h l IH]; intros k any; cbn [foldM].
  - apply hoare_ret. simpl. by rewrite set_held_id.
  - eapply hoare_bind; [apply Hf|]. intros any'. rewrite filter_cons.
    destruct (decide (P h)); [|apply IH]. eapply hoare_weaken; [apply IH|done|]. done.
Qed.

Lemma remove_if_vanished_core k at_ timeout catalog any h :
  hoare (at_core k) (remove_if_vanished (W:=W) at_ timeout catalog any h) (fun _ =>
    at_core (if decide (vanished at_ timeout catalog h = true)
             then set_held (delete (t_info_hash h) (torrents (k_state k))) k else k)).
Proof.
  unfold remove_if_vanished. destruct (vanished _ _ _ h); simpl; [apply drop_held_core|].
  by apply hoare_ret.
Qed.

(** Dropping what satisfies [P] from the whole held set filters it. *)
Lemma drop_all_filter (P : Torrent -> Prop) `{forall t, Decision (P t)} m (l : list Torrent) :
  map_Forall (fun h t => t_info_hash t = h) m ->
  (forall t, t ∈ l <-> exists h, m !! h = Some t) ->
  drop_all m (filter P l) = filter (fun ht => ~ P ht.2) m.
Proof.
  intros Hk Hl. apply map_eq. intros h. rewrite drop_all_lookup.
  destruct (decide (h ∈ _)) as [Hin|Hin].
  - apply list_elem_of_fmap in Hin as (t & -> & [Hp Ht]%list_elem_of_filter).
    apply Hl in Ht as (h & Hh). rewrite (Hk h t Hh). symmetry. apply map_lookup_filter_None_2.
    right. intros t' Ht'. assert (t' = t) as -> by congruence. simpl. tauto.
  - destruct (m !! h) as [t|] eqn:Ht; symmetry.
    + apply map_lookup_filter_Some. split; [done|]. simpl. intros Hp. apply Hin.
      rewrite <- (Hk h t Ht). apply list_elem_of_fmap_2, list_elem_of_filter. split; [done|].
      apply Hl. by exists h.
    + apply map_lookup_filter_None_2. by left.
Qed.
End Passes.

(** ** Batched updates *)

Section Batched.
Context `{StateCodec}.

Definition apply_update (m : gmap string Torrent) (u : string * (Torrent -> Torrent))
    : gmap string Torrent :=
  match m !! u.1 with Some t => <[u.1 := u.2 t]> m | None => m end.

Lemma update_each_memory ups st fs :
  (State.update_each ups (st, fs)).2.1 =
  set_torrents (foldl apply_update (torrents st) ups) st.
Proof.
  unfold State.update_each.
  assert (forall ups n st, (foldM (fun changed '(hex, f) =>
      let* t := State.with_state (fun st => torrents st !! hex) in
      match t with
      | Some t => State.on_state (fun st => set_torrents (<[hex := f t]> (torrents st)) st) ;;;
          ret (S changed)
      | None => ret changed
      end) n ups (st, fs)).2 = (set_torrents (foldl apply_update (torrents st) ups) st, fs)) as Hloop.
  { clear. induction ups as [|[hex f] ups IH]; intros n st.
    - by destruct st.
    - cbn [foldM foldl]. unfold bind at 1. rewrite State.with_state_bind. unfold apply_update at 2. simpl.
      destruct (torrents st !! hex) as [t|]; [|apply IH].
      etransitivity; [apply (IH (S n) (set_torrents (<[hex := f t]> (torrents st)) st))|]. done. }
  specialize (Hloop ups 0%nat st). unfold bind. destruct (foldM _ _ _ _) as [n s1]. simpl in Hloop.
  subst s1. destruct (0 <? n)%nat; [|done]. unfold bindR, bind.
  pose proof (save_memory (set_torrents (foldl apply_update (torrents st) ups) st, fs)) as Hs.
  destruct (State.save _) as [[|] s2]; exact Hs.
Qed.

(** Updates that charge as before only ever shrink the held set. *)
Lemma updates_shrunk ups : forall m,
  Forall (fun u => forall t, charged_as t (u.2 t)) ups -> shrunk m (foldl apply_update m ups).
Proof.
  induction ups as [|[hex f] ups IH]; intros m Hups; [done|].
  apply Forall_cons in Hups as [Hf Hups]. cbn [foldl]. etransitivity; [|by apply IH].
  unfold apply_update. simpl. destruct (m !! hex) as [t|] eqn:E; [|done].
  eapply shrunk_insert; [exact E|]. apply Hf.
Qed.

(** And nobody leaves by them. *)
Lemma updates_keep ups : forall m h, is_Some (m !! h) -> is_Some (foldl apply_update m ups !! h).
Proof.
  induction ups as [|[hex f] ups IH]; intros m h Hh; [done|]. cbn [foldl]. apply IH.
  unfold apply_update. simpl. destruct (m !! hex) as [t|]; [|done].
  destruct (decide (hex = h)) as [<-|Hne]; [by rewrite lookup_insert_eq|by rewrite lookup_insert_ne].
Qed.
End Batched.

Lemma confirm_charged now t : charged_as t (confirm now t).
Proof. done. Qed.

Lemma refresh_charged n p now t : charged_as t (refresh n p now t).
Proof. unfold refresh. by destruct (progressed _ _). Qed.

(** ** The passes keep the books *)

Section Shrinking.
Context {W : Type} `{World W} `{Decoders} `{Chrono} `{HexCrate} `{UrlCrate} `{HashIter} `{Libm}.
Context `{StateCodec} `{EventCodec}.

Abbreviation Sys := (Engine * Node W)%type.

(** Afterwards the held set has shrunk, but not by the hashes in [P], and the
    registry is the same. *)
Definition shrinks (P : string -> Prop) (k : Core) (s : Sys) : Prop :=
  exists m, shrunk (torrents (k_state k)) m /\
    (forall h, P h -> is_Some (torrents (k_state k) !! h) -> is_Some (m !! h)) /\
    at_core (set_held m k) s.

Lemma shrinks_safe P k s : shrinks P k s -> safe k (core s.1).
Proof. intros (m & Hm & _ & Hs). rewrite Hs. by apply shrunk_safe. Qed.

Lemma shrinks_id P k s : at_core k s -> shrinks P k s.
Proof. intros Hs. exists (torrents (k_state k)). by rewrite set_held_id. Qed.

Lemma shrinks_weaken (P Q : string -> Prop) k s :
  (forall h, Q h -> P h) -> shrinks P k s -> shrinks Q k s.
Proof. intros HPQ (m & Hm & Hk & Hs). exists m. split; [done|]. split; [|done]. eauto. Qed.

Lemma shrinks_trans P k k' s : shrinks P k s -> core s.1 = k' -> forall s', shrinks P k' s' -> shrinks P k s'.
Proof.
  intros (m & Hm & Hk & Hs) <- s' (m' & Hm' & Hk' & Hs'). unfold at_core in Hs. rewrite Hs in *.
  exists m'. simpl in *. split; [by etransitivity|]. split; [by eauto|exact Hs'].
Qed.

Lemma shrinks_seq {A} P k (m : M Sys A) :
  (forall k, hoare (at_core k) m (fun _ => shrinks P k)) -> hoare (shrinks P k) m (fun _ => shrinks P k).
Proof. intros Hm s Hs. exact (shrinks_trans P k _ s Hs eq_refl _ (Hm (core s.1) s eq_refl)). Qed.

Lemma shrinks_steady {A} P k (m : M Sys A) : steady m -> hoare (shrinks P k) m (fun _ => shrinks P k).
Proof. intros Hm. apply shrinks_seq. intros k' s Hs. by apply shrinks_id, Hm. Qed.

(** What a stalled torrent must be to be removed. *)
Definition stalled (now : instant) (timeout : duration) (catalog : gset string) (h : Torrent) : Prop :=
  t_info_hash h ∈ catalog /\
  (exists since, stalled_for now h = Some since /\ timeout <= since) /\
  exists n : Node W, (spared h n).1 = false.

Lemma evict_if_stalled_core k at_ timeout catalog any h :
  hoare (at_core k) (evict_if_stalled (W:=W) at_ timeout catalog any h) (fun _ s =>
    at_core k s \/ (stalled at_ timeout catalog h /\
      at_core (set_held (delete (t_info_hash h) (torrents (k_state k))) k) s)).
Proof.
  unfold evict_if_stalled. destruct (bool_decide _) eqn:Ein; simpl; [|apply hoare_ret; by left].
  apply bool_decide_eq_true in Ein.
  destruct (stalled_for at_ h) as [since|] eqn:Es; [|apply hoare_ret; by left].
  destruct (since <? timeout) eqn:Et; [apply hoare_ret; by left|]. simpl_bool.
  eapply hoare_bind with (R := fun keep s =>
    at_core k s /\ (keep = false -> exists n : Node W, (spared h n).1 = false)).
  - intros [e n] Hs. split; [by apply steady_outside|]. intros Hk. exists n. revert Hk.
    unfold on_outside, on_snd. by destruct (spared h n).
  - intros keep. apply hoare_pull. intros Hn. destruct keep; [apply hoare_ret; by left|].
    eapply hoare_weaken; [apply drop_held_core|done|]. intros r s Hs. right. split; [|done].
    split; [done|]. split; [by exists since|]. by apply Hn.
Qed.

(** A fold that may drop what satisfies [P]. *)
Lemma fold_may_drop (f : bool -> Torrent -> M Sys bool) (P : Torrent -> Prop) :
  (forall k any h, hoare (at_core k) (f any h) (fun _ s =>
     at_core k s \/ (P h /\ at_core (set_held (delete (t_info_hash h) (torrents (k_state k))) k) s))) ->
  forall l k any, hoare (at_core k) (foldM f any l) (fun _ s => exists ds,
     sublist ds l /\ Forall P ds /\ at_core (set_held (drop_all (torrents (k_state k)) ds) k) s).
Proof.
  intros Hf. induction l as [|h l IH]; intros k any; cbn [foldM].
  - apply hoare_ret. intros s Hs. exists []. simpl. rewrite set_held_id. done.
  - eapply hoare_bind; [apply Hf|]. intros any' s [Hs|[Hp Hs]].
    + destruct (IH k any' s Hs) as (ds & Hsub & Hds & Hs'). exists ds.
      split; [by constructor|done].
    + destruct (IH _ any' s Hs) as (ds & Hsub & Hds & Hs'). exists (h :: ds).
      split; [by constructor|]. split; [by constructor|]. exact Hs'.
Qed.

Lemma drop_all_shrunk ds : forall m, shrunk m (drop_all m ds).
Proof.
  induction ds as [|d ds IH]; intros m; [done|]. etransitivity; [apply shrunk_delete|apply IH].
Qed.

Lemma drop_all_keeps (P : string -> Prop) m ds :
  Forall (fun d => ~ P (t_info_hash d)) ds ->
  forall h, P h -> is_Some (m !! h) -> is_Some (drop_all m ds !! h).
Proof.
  intros Hds h Hp Hh. rewrite drop_all_lookup. case_decide as Hin; [|done].
  apply list_elem_of_fmap in Hin as (d & -> & Hd). rewrite Forall_forall in Hds. by destruct (Hds d Hd).
Qed.

Lemma remove_deleted_shrinks k held catalog :
  hoare (at_core k) (remove_deleted_torrents (W:=W) held catalog)
    (fun _ => shrinks (fun h => h ∈ catalog) k).
Proof.
  unfold remove_deleted_torrents. apply after_engine. intros e He.
  destruct (preserve_deleted_torrents _); [apply hoare_ret, shrinks_id|].
  apply after_steady; [auto with keepat|]. intros at_.
  set (timeout := vanished_eviction_timeout _).
  eapply hoare_bind.
  { apply (fold_drops _ (fun h => vanished at_ timeout catalog h = true)).
    intros. apply remove_if_vanished_core. }
  intros any.
  eapply hoare_weaken; [apply steady_when, steady_push_live|done|].
  intros [] s Hs. eexists. split; [apply drop_all_shrunk|]. split; [|exact Hs].
  apply drop_all_keeps, Forall_forall. intros d [Hd _]%list_elem_of_filter.
  unfold vanished in Hd. apply andb_true_iff in Hd as [Hd _].
  by apply negb_true_iff, bool_decide_eq_false in Hd.
Qed.

Lemma evict_stalled_core k catalog at_ :
  hoare (fun s => at_core k s /\ (now s).1 = at_) (evict_stalled_torrents (W:=W) catalog)
    (fun _ s => exists ds, at_core (set_held (drop_all (torrents (k_state k)) ds) k) s /\
       sublist ds (State.all (k_state k)) /\
       Forall (fun t => 0 < stall_eviction_timeout (scan (k_cfg k)) /\
                        stalled at_ (stall_eviction_timeout (scan (k_cfg k))) catalog t) ds).
Proof.
  intros s [Hs Hat]. unfold evict_stalled_torrents, bind at 1, engine, gets, id.
  assert (e_cfg s.1 = k_cfg k) as -> by (by rewrite <- Hs).
  destruct (_ <=? 0) eqn:Et.
  { exists []. simpl. rewrite set_held_id. split; [exact Hs|]. split; [apply sublist_nil_l|done]. }
  simpl_bool. unfold bind at 1. pose proof (steady_now (W:=W) k s Hs) as Hs1.
  destruct (now s) as [t s1]. simpl in Hat, Hs1. subst t.
  assert (hoare (at_core k)
    (let* held := engine (fun e => State.all (e_state e)) in
     let* any := foldM (evict_if_stalled (W:=W) at_ (stall_eviction_timeout (scan (k_cfg k))) catalog)
                   false held in
     whenM any push_live)
    (fun _ s => exists ds, at_core (set_held (drop_all (torrents (k_state k)) ds) k) s /\
       sublist ds (State.all (k_state k)) /\
       Forall (fun t => 0 < stall_eviction_timeout (scan (k_cfg k)) /\
                        stalled at_ (stall_eviction_timeout (scan (k_cfg k))) catalog t) ds)) as Hh;
    [|exact (Hh s1 Hs1)].
  apply after_engine. intros e He. assert (e_state e = k_state k) as -> by (by rewrite <- He).
  eapply hoare_bind; [apply fold_may_drop; intros; apply evict_if_stalled_core|].
  intros any s2 (ds & Hsub & Hds & Hs2). exists ds. split; [by apply (steady_when any push_live steady_push_live)|].
  split; [done|]. eapply Forall_impl; [exact Hds|]. intros t Ht. split; [lia|done].
Qed.

Lemma evict_stalled_shrinks k catalog :
  hoare (at_core k) (evict_stalled_torrents (W:=W) catalog)
    (fun _ => shrinks (fun h => h ∉ catalog) k).
Proof.
  intros s Hs. destruct (evict_stalled_core k catalog (now s).1 s) as (ds & Hd & _ & Hst); [done|].
  exists (drop_all (torrents (k_state k)) ds). split; [apply drop_all_shrunk|]. split; [|exact Hd].
  apply drop_all_keeps. eapply Forall_impl; [exact Hst|]. intros d (_ & Hin & _) Hn. by apply Hn.
Qed.

Lemma update_each_shrinks k ups :
  Forall (fun u => forall t, charged_as t (u.2 t)) ups ->
  hoare (at_core k) (with_state (W:=W) (State.update_each ups)) (fun _ => shrinks (fun _ => True) k).
Proof.
  intros Hups. eapply hoare_weaken;
    [apply (with_state_to k _ _ (fun fs => update_each_memory ups (k_state k) fs))|done|].
  intros r s Hs. exists (foldl apply_update (torrents (k_state k)) ups).
  split; [by apply updates_shrunk|]. split; [|exact Hs]. intros h _. by apply updates_keep.
Qed.

Lemma confirm_listed_shrinks k catalog :
  hoare (at_core k) (confirm_listed (W:=W) catalog) (fun _ => shrinks (fun _ => True) k).
Proof.
  unfold confirm_listed. apply after_steady; [auto with keepat|]. intros at_.
  apply after_engine. intros e He.
  eapply hoare_bind; [apply update_each_shrinks|].
  - apply Forall_forall. intros u (h & -> & _)%list_elem_of_fmap t. apply confirm_charged.
  - intros r. apply shrinks_steady. auto with keepat.
Qed.

Lemma steady_collect held : steady (collect_refresh (W:=W) held).
Proof.
  induction held as [|h held IH]; cbn [collect_refresh]; [auto with keepat|].
  apply steady_bind; [auto with keepat|]. intros [|]; [auto with keepat|].
  apply steady_bind; [auto with keepat|]. intros [md|er]; [|exact IH].
  apply steady_bind; [auto with keepat|]. intros [sw|er]; [|exact IH].
  apply steady_bind.
  - unfold held_progress_bytes. apply steady_bind; [auto with keepat|].
    intros [[|]|]; auto with keepat.
  - intros p. apply steady_bind; [exact IH|]. auto with keepat.
Qed.

Lemma stamped_charged k ups : hoare (at_core k) (stamped (W:=W) ups) (fun l s =>
  at_core k s /\ Forall (fun u => forall t, charged_as t (u.2 t)) l).
Proof.
  induction ups as [|[[hex n] p] ups IH]; cbn [stamped]; [by apply hoare_ret|].
  apply after_steady; [auto with keepat|]. intros at_.
  eapply hoare_bind; [exact IH|]. intros l. apply hoare_ret. intros s [Hs Hl].
  split; [done|]. constructor; [|done]. intros t. apply refresh_charged.
Qed.

Lemma refresh_shrinks k :
  hoare (at_core k) (refresh_held_seeder_counts (W:=W)) (fun _ => shrinks (fun _ => True) k).
Proof.
  unfold refresh_held_seeder_counts. apply after_engine. intros e He.
  apply after_steady; [apply steady_collect|]. intros ups.
  eapply hoare_bind; [apply stamped_charged|]. intros l. apply hoare_pull. intros Hl.
  eapply hoare_bind; [by apply update_each_shrinks|]. intros r. apply shrinks_steady. auto with keepat.
Qed.

Lemma resume_steady : steady (resume_held (W:=W)).
Proof.
  unfold resume_held. apply steady_bind; [auto with keepat|]. intros held.
  apply steady_bind; [|auto with keepat]. induction held as [|h held IH]; [apply steady_ret|].
  apply steady_bind; [|by intros []]. unfold resume_one, cache_path_of.
  apply steady_bind; [auto with keepat|]. intros p. apply steady_bind; [auto with keepat|].
  intros [md|]; [|auto with keepat]. apply steady_bind; [auto with keepat|]. intros e.
  apply steady_bind; auto with keepat.
Qed.
End Shrinking.

(** Gone from the catalog: not listed, and confirmed last (or, without a stamp,
    added) at least the grace before now. *)
Definition gone (now : instant) (grace : duration) (catalog : gset string) (h : Torrent) : Prop :=
  let age := now - default (t_added_at h) (t_last_confirmed_in_catalog_at h) in
  t_info_hash h ∉ catalog /\ 0 <= age /\ grace <= age.

#[export] Instance gone_dec now grace catalog h : Decision (gone now grace catalog h).
Proof. unfold gone. apply _. Defined.

Lemma vanished_gone now grace catalog h :
  vanished now grace catalog h = true <-> gone now grace catalog h.
Proof.
  unfold vanished, gone, absent_for, to_std, since. rewrite andb_true_iff, negb_true_iff, bool_decide_eq_false.
  destruct (Z.ltb_spec (now - default (t_added_at h) (t_last_confirmed_in_catalog_at h)) 0).
  - split; [by intros [_ ?]|lia].
  - rewrite Z.leb_le. split; intros; intuition lia.
Qed.

(** C14: removing what left the catalog removes exactly the vanished torrents:
    those the catalog does not list and whose last confirmation is at least the
    configured grace behind, nothing at all when deleted torrents are preserved,
    and it touches no other entry and no quarantine entry, whatever the session
    and the disk answer. *)
Theorem remove_deleted_exact {W : Type} `{World W} `{Decoders} `{Chrono} `{HexCrate} `{UrlCrate}
    `{HashIter} `{Libm} `{StateCodec} `{EventCodec} catalog (s : Engine * Node W) :
  let k := core s.1 in
  map_Forall (fun h t => t_info_hash t = h) (torrents (k_state k)) ->
  let s' := (remove_deleted_torrents (State.all (k_state k)) catalog s).2 in
  core s'.1 =
    set_held (if preserve_deleted_torrents (k_cfg k) then torrents (k_state k)
              else filter (fun ht => ~ gone (now s).1
                             (vanished_eviction_timeout (scan (k_cfg k))) catalog ht.2)
                          (torrents (k_state k))) k.
Proof.
  intros k Hk s'. subst s'. unfold remove_deleted_torrents, bind at 1, engine, gets, id.
  change (e_cfg s.1) with (k_cfg k).
  destruct (preserve_deleted_torrents _); [by rewrite set_held_id|].
  unfold bind at 1. pose proof (steady_now (W:=W) k s eq_refl) as Hs1.
  destruct (now s) as [at_ s1]. simpl in Hs1. cbn [fst].
  set (timeout := vanished_eviction_timeout _).
  assert (filter (fun ht : string * Torrent => ~ gone at_ timeout catalog ht.2) (torrents (k_state k)) =
          filter (fun ht : string * Torrent => vanished at_ timeout catalog ht.2 <> true)
            (torrents (k_state k))) as ->.
  { apply map_filter_ext. intros h t _. cbn. by rewrite vanished_gone. }
  etransitivity; [|apply (f_equal (fun m => set_held m k));
    exact (drop_all_filter (fun h => vanished at_ timeout catalog h = true) _
             (State.all (k_state k)) Hk (all_elem (k_state k)))].
  unfold bind.
  pose proof (fold_drops (remove_if_vanished (W:=W) at_ timeout catalog)
    (fun h => vanished at_ timeout catalog h = true)
    (fun k any h => remove_if_vanished_core k at_ timeout catalog any h)
    (State.all (k_state k)) k false s1 Hs1) as Hf.
  destruct (foldM _ false _ s1) as [any s2]. by apply (steady_when any push_live steady_push_live).
Qed.

(** C15: the stall pass removes a torrent only when the catalog still lists it, no
    progress was made on it for at least the configured timeout (which is not
    zero), and, when asked, neither the session nor the directory spared it: its
    check was not running, it was not finished and its bytes were not all there.
    Everything else stays as it was. *)
Theorem evict_stalled_justified {W : Type} `{World W} `{Decoders} `{Chrono} `{HexCrate} `{UrlCrate}
    `{HashIter} `{Libm} `{StateCodec} `{EventCodec} catalog (s : Engine * Node W) :
  let k := core s.1 in
  map_Forall (fun h t => t_info_hash t = h) (torrents (k_state k)) ->
  let s' := (evict_stalled_torrents catalog s).2 in
  let timeout := stall_eviction_timeout (scan (k_cfg k)) in
  exists m, core s'.1 = set_held m k /\ m ⊆ torrents (k_state k) /\
  forall h t, torrents (k_state k) !! h = Some t -> m !! h = None ->
    0 < timeout /\ h ∈ catalog /\
    (exists since, stalled_for (now s).1 t = Some since /\ timeout <= since) /\
    exists n : Node W, (spared t n).1 = false.
Proof.
  intros k Hk s' timeout.
  destruct (evict_stalled_core k catalog (now s).1 s (conj eq_refl eq_refl)) as (ds & Hs' & Hsub & Hds).
  exists (drop_all (torrents (k_state k)) ds). split; [exact Hs'|]. split.
  - apply map_subseteq_spec. intros h t. rewrite drop_all_lookup. by case_decide.
  - intros h t Ht. rewrite drop_all_lookup. case_decide as Hin; [|congruence]. intros _.
    apply list_elem_of_fmap in Hin as (d & -> & Hd).
    rewrite Forall_forall in Hds. destruct (Hds d Hd) as (Hpos & Hcat & Hsince & Hn).
    assert (d ∈ State.all (k_state k)) as Hall by (by eapply elem_of_sublist).
    apply all_elem in Hall as (h & Hh). rewrite (Hk h d Hh) in Ht. assert (d = t) as -> by congruence.
    done.
Qed.

(** ** Witnesses *)

(** A download that stopped at the epoch. *)
Definition witness_stuck : Torrent :=
  {| t_info_hash := "bb"; t_title := "bb"; t_size_bytes := 10; t_storage_location := "/s";
     t_added_at := 0; t_piece_count := 1; t_last_known_seeders := 0; t_completed_pieces := 3;
     t_last_progress_at := Some 0; t_last_confirmed_in_catalog_at := Some 0 |}.

Definition witness_stuck_sys (seconds : Z) : Engine * Node Toy :=
  let '(e, n) := witness_sys (10 ^ 9) 5 None in
  (set_state (set_torrents {["bb" := witness_stuck]} (e_state e)) e,
   {| node_fs := node_fs n; registry := registry n; world := toy_tick (secs seconds) (world n) |}).

Example stuck_is_removed :
  let s' := (@evict_stalled_torrents Toy witness_world witness_chrono witness_hex hash_iter_sorted
               witness_codec witness_events {["bb"]} (witness_stuck_sys (10 ^ 8))).2 in
  map_to_list (torrents (e_state s'.1)) = [].
Proof. vm_compute. reflexivity. Qed.

Lemma remove_deleted_exact_witness :
  let s := witness_stuck_sys (10 ^ 8) in
  let s' := (@remove_deleted_torrents Toy witness_world witness_chrono witness_hex hash_iter_sorted
               witness_codec witness_events (@State.all hash_iter_sorted (k_state (core s.1))) ∅ s).2 in
  core s'.1 =
    set_held (filter (fun ht => ~ gone (@now Toy witness_world s).1
                        (vanished_eviction_timeout scan_default) ∅ ht.2)
                     (torrents (k_state (core s.1)))) (core s.1).
Proof.
  apply (@remove_deleted_exact Toy witness_world witness_decoders witness_chrono witness_hex
           witness_urls hash_iter_sorted witness_libm witness_codec witness_events ∅
           (witness_stuck_sys (10 ^ 8))).
  by apply map_Forall_singleton.
Defined.

Lemma evict_stalled_justified_witness :
  let s := witness_stuck_sys (10 ^ 8) in
  let s' := (@evict_stalled_torrents Toy witness_world witness_chrono witness_hex hash_iter_sorted
               witness_codec witness_events {["bb"]} s).2 in
  let timeout := stall_eviction_timeout scan_default in
  exists m, core s'.1 = set_held m (core s.1) /\ m ⊆ torrents (k_state (core s.1)) /\
  forall h t, torrents (k_state (core s.1)) !! h = Some t -> m !! h = None ->
    0 < timeout /\ h ∈ ({["bb"]} : gset string) /\
    (exists since, stalled_for (@now Toy witness_world s).1 t = Some since /\ timeout <= since) /\
    exists n : Node Toy, (@spared Toy witness_world witness_hex t n).1 = false.
Proof.
  apply (@evict_stalled_justified Toy witness_world witness_decoders witness_chrono witness_hex
           witness_urls hash_iter_sorted witness_libm witness_codec witness_events {["bb"]}
           (witness_stuck_sys (10 ^ 8))).
  by apply map_Forall_singleton.
Defined.
