(* ===== verification/Watchdog.v ===== *)
(** The broken-piece watchdog, [engine/scan.rs]: one pass feeds the detector
    with the session's counters, lifts the quarantines whose re-probe completed,
    drops entries nothing can re-probe, re-probes lapsed ones, and quarantines
    the torrents that tripped. *)

From S2P Require Import Prelude Text Float64 Fs Persist Time Ram Selector Net Quarantine State.
From S2P Require Import AtKey AtTorrent Filter FdLimit Catalog World Config Storage NetStats Torrents.
From S2P Require Import Pool History Humanize Swap Swarm Engine EngineCore Acting Books Budget Maintain.

(** ** The sweep over the session *)

(** What one sweep collects, in the order of the session. *)
Record Sweep := {
  sw_detector : Detector;
  sw_trips : list (string * Trip);
  sw_progress : list (string * Z);
  sw_seen : gset string;
  sw_lifts : list string;
}.

Section Sweep.
Context `{HexCrate}.

(** One managed torrent: a finished one clears the detector and lifts its
    quarantine; one without live counters is not judged. *)
Definition sweep_one (keys : gset string) (threshold min_windows : Z) (sw : Sweep) (h : Managed)
    : Sweep :=
  let hex := hex_encode (mt_info_hash h) in
  let seen := {[hex]} ∪ sw_seen sw in
  if mt_finished h then
    {| sw_detector := (forget hex (sw_detector sw)).2; sw_trips := sw_trips sw;
       sw_progress := sw_progress sw; sw_seen := seen;
       sw_lifts := if bool_decide (hex ∈ keys) then sw_lifts sw ++ [hex] else sw_lifts sw |}
  else
    match mt_live h with
    | None =>
        {| sw_detector := sw_detector sw; sw_trips := sw_trips sw; sw_progress := sw_progress sw;
           sw_seen := seen; sw_lifts := sw_lifts sw |}
    | Some fetched =>
        let checked := mt_progress_bytes h in
        let '(trip, d) := Quarantine.observe hex checked fetched threshold min_windows (sw_detector sw) in
        {| sw_detector := d;
           sw_trips := match trip with Some t => sw_trips sw ++ [(hex, t)] | None => sw_trips sw end;
           sw_progress := if 0 <? checked then sw_progress sw ++ [(hex, checked)] else sw_progress sw;
           sw_seen := seen; sw_lifts := sw_lifts sw |}
    end.

Definition sweep (d : Detector) (keys : gset string) (threshold min_windows : Z)
    (ts : list Managed) : Sweep :=
  foldl (sweep_one keys threshold min_windows)
    {| sw_detector := d; sw_trips := []; sw_progress := []; sw_seen := ∅; sw_lifts := [] |} ts.
End Sweep.

(** The race catch: verified to the last byte, the flag not flipped yet. *)
Definition completed_lifts (st : State) (progress : list (string * Z)) : list string :=
  omap (fun '(hex, checked) =>
    if bool_decide (hex ∈ State.quarantined_keys st) &&
       completion_lifts checked (default 0 (t_size_bytes <$> State.get st hex))
    then Some hex else None) progress.

(** An entry nothing can re-probe any more: not in the session, not held, not in
    the catalog (which is known), its cooldown lapsed. *)
Definition orphaned (st : State) (seen : gset string) (listed : option (gset string))
    (now : instant) (h : string) : bool :=
  negb (bool_decide (h ∈ seen)) &&
  negb (bool_decide (is_Some (State.get st h))) &&
  match listed with Some c => negb (bool_decide (h ∈ c)) | None => false end &&
  match State.quarantine_get st h with Some q => q_cooldown_until q <=? now | None => false end.

Definition gc_list (st : State) (seen : gset string) (listed : option (gset string)) (now : instant)
    : list string :=
  sort_by String.compare
    (filter (fun h => orphaned st seen listed now h = true) (elements (State.quarantined_keys st))).

(** The entries a re-probe considers: lapsed and not held. *)
Definition is_lapsed (st : State) (now : instant) (hq : string * Quarantine) : bool :=
  (q_cooldown_until hq.2 <=? now) && negb (bool_decide (is_Some (State.get st hq.1))).

Definition lapsed_list (st : State) (now : instant) : list (string * Quarantine) :=
  sort_by (fun a b => String.compare a.1 b.1)
    (filter (fun hq => is_lapsed st now hq = true) (map_to_list (quarantined st))).

Definition rearm (until : instant) (q : Quarantine) : Quarantine :=
  {| q_title := q_title q; q_reason := q_reason q; q_quarantined_at := q_quarantined_at q;
     q_cooldown_until := until; q_attempts := q_attempts q; q_wasted_bytes := q_wasted_bytes q |}.

(** When a re-probed entry becomes eligible again. *)
Definition rearm_until `{Chrono} (now : instant) (cooldown check : duration) : instant :=
  let cooldown' := default (weeks 520) (duration_from_std cooldown) in
  let floor := default (weeks 520) (duration_from_std (Z.max check cooldown)) in
  default (far_future now) (checked_add_signed now (Z.max cooldown' floor)).

(** The reason of a trip. *)
Definition trip_reason (trip : Trip) (suffix : string) (attempts : Z) : string :=
  "discarded " +:+ shown_bytes (wasted_bytes trip) +:+ " across " +:+ pretty (windows trip) +:+
  " zero-progress pass" +:+ (if windows trip =? 1 then "" else "es") +:+
  " (attempt " +:+ pretty attempts +:+ suffix +:+ ")".

Section Watchdog.
Context {W : Type} `{World W} `{Decoders} `{Chrono} `{HexCrate} `{UrlCrate} `{HashIter} `{Libm}.
Context `{StateCodec} `{EventCodec} `{StatsCodec}.

Abbreviation Sys := (Engine * Node W)%type.

Definition network_stats_path (e : Engine) : path :=
  path_join (data_dir (e_cfg e)) "network-stats.json".

(** The floor of the last snapshot, zero when it does not read. *)
Definition snapshot_floor : M Sys Z :=
  let* p := engine network_stats_path in
  let* r := on_outside (on_fs (load_snapshot p)) in
  ret match r with Ok s => snap_seeder_floor s | Err _ => 0 end.

(** [self.catalog.load]. *)
Definition load_catalog : M Sys (result error (Catalog * bool)) :=
  let* e := engine id in
  let p := path_join (data_dir (e_cfg e)) "database.xml" in
  let* at_ := now in
  let* age := on_outside (on_world (file_age p)) in
  on_outside (on_net (Catalog.load rss_from_reader at_ p (e_catalog_url e) age
                        (interval (scan (e_cfg e))))).

Definition hashes_of (c : Catalog) : gset string :=
  list_to_set ((fun i => hex_encode (item_info_hash i)) <$> items c).

(** The catalog's hashes: what a scan remembered, or a load, which is
    remembered. *)
Definition known_listing : M Sys (option (gset string)) :=
  let* c := engine e_last_catalog in
  match c with
  | Some c => ret (Some c)
  | None =>
      let* r := load_catalog in
      match r with
      | Ok (cat, _) => change (set_last_catalog (Some (hashes_of cat))) ;;; ret (Some (hashes_of cat))
      | Err _ => ret None
      end
  end.

(** One lapsed entry: scrape it, act on it like on any candidate, and re-arm
    its cooldown. *)
Definition reprobe_one (now : instant) (listed : gset string) (seeder_floor : Z) (held_count : Z)
    (hq : string * Quarantine) : M Sys Z :=
  let '(hex, q) := hq in
  let* held := engine (fun e => State.get (e_state e) hex) in
  if bool_decide (is_Some held) then ret held_count
  else if negb (bool_decide (hex ∈ listed)) then ret held_count
  else
    let* r := fetch_metadata hex in
    match r with
    | Err _ => ret held_count
    | Ok md =>
        let* sw := scrape_swarm (tm_trackers md) (hash_or_zero hex) in
        match sw with
        | Err _ => ret held_count
        | Ok sw =>
            let c := {| cand_info_hash := hash_or_zero hex; cand_title := q_title q;
                        cand_size_bytes := tm_total_length md;
                        cand_piece_count := tm_piece_count md; cand_seeders := seeders sw;
                        cand_leechers := leechers sw; cand_seeder_floor := seeder_floor |} in
            let* held_count := act_on_candidate c held_count seeder_floor in
            let* e := engine id in
            let s := scan (e_cfg e) in
            let until := rearm_until now (quarantine_cooldown s) (quarantine_check_interval s) in
            let* _ := with_state (State.quarantine_put hex (rearm until q)) in
            ret held_count
        end
    end.

Definition reprobe_at (at_ : instant) : M Sys unit :=
  let* lapsed := engine (fun e => lapsed_list (e_state e) at_) in
  match lapsed with
  | [] => ret tt
  | _ =>
      let* listed := known_listing in
      match listed with
      | None => ret tt
      | Some listed =>
          let* floor := snapshot_floor in
          let* held_count := engine (fun e => Z.of_nat (length (State.all (e_state e)))) in
          let* _ := foldM (reprobe_one at_ listed floor) held_count lapsed in
          ret tt
      end
  end.

Definition quarantine_reprobe : M Sys unit := let* at_ := now in reprobe_at at_.

Definition forget_hash (hex : string) : M Sys unit :=
  change (fun e => set_detector (Quarantine.forget hex (e_detector e)).2 e).

(** A trip of a torrent that is in the session but not held: enforced all the
    same, without a ledger line. *)
Definition enforce_untracked (now : instant) (hex : string) (trip : Trip) : M Sys unit :=
  let* e := engine id in
  let prev := State.quarantine_get (e_state e) hex in
  let title := default ("untracked " +:+ hex) (q_title <$> prev) in
  let q := next_quarantine_entry prev title (trip_reason trip ", untracked ghost") trip now
             (default (weeks 520) (duration_from_std (quarantine_cooldown (scan (e_cfg e)))))
             (quarantine_max_retries (scan (e_cfg e))) in
  let* _ := on_outside (remove_torrent hex "") in
  drop_cached hex ;;;
  let* _ := with_state (State.quarantine_put hex q) in
  forget_hash hex.

(** A trip of a held torrent. *)
Definition enforce_held (now : instant) (hex : string) (held : Torrent) (trip : Trip) : M Sys unit :=
  let* e := engine id in
  let q := next_quarantine_entry (State.quarantine_get (e_state e) hex) (t_title held)
             (trip_reason trip "") trip now
             (default (weeks 520) (duration_from_std (quarantine_cooldown (scan (e_cfg e)))))
             (quarantine_max_retries (scan (e_cfg e))) in
  let* _ := on_outside (remove_torrent hex (torrent_output_dir (t_storage_location held) hex)) in
  drop_cached hex ;;;
  let* r := with_state (State.quarantine_and_remove hex q) in
  match r with
  | Err _ => forget_hash hex
  | Ok _ =>
      let* ts := Engine.now in
      record (remove_event (to_rfc3339 ts) hex (t_title held) (t_size_bytes held)
                (t_last_known_seeders held) (t_storage_location held) Quarantined (q_reason q)) ;;;
      forget_hash hex
  end.

Definition enforce_trip (now : instant) (ht : string * Trip) : M Sys unit :=
  let* held := engine (fun e => State.get (e_state e) ht.1) in
  match held with
  | None => enforce_untracked now ht.1 ht.2
  | Some held => enforce_held now ht.1 held ht.2
  end.

(** [match self.state.quarantine_remove_many(..)]: whether anything was lifted. *)
Definition lift_many (hashes : list string) : M Sys bool :=
  let* r := with_state (State.quarantine_remove_many hashes) in
  ret match r with Ok n => (0 <? n)%nat | Err _ => false end.

(** The bookkeeping of a sweep: progress, lifts and the collection of orphans;
    whether progress was saved, and whether the registry changed. *)
Definition sweep_books (sw : Sweep) : M Sys (bool * bool) :=
  let* at_ := now in
  let* st := engine e_state in
  let lifts := sw_lifts sw ++ completed_lifts st (sw_progress sw) in
  let* r := with_state (State.update_progress_many (sw_progress sw) at_) in
  let* lifted := lift_many lifts in
  let* e := engine id in
  let gc := gc_list (e_state e) (sw_seen sw) (e_last_catalog e) at_ in
  let* collected := (if bool_decide (gc = []) then ret false else lift_many gc) in
  ret (default false (result_ok r), lifted || collected).

Definition quarantine_pass : M Sys unit :=
  let* e := engine id in
  let s := scan (e_cfg e) in
  if quarantine_check_interval s <=? 0 then ret tt
  else
    let* ts := on_outside (on_world session_torrents) in
    let sw := sweep (e_detector e) (State.quarantined_keys (e_state e))
                (broken_piece_discard_bytes s) (broken_piece_min_windows s) ts in
    change (set_detector (retain_only (sw_seen sw) (sw_detector sw)).2) ;;;
    let* booked := sweep_books sw in
    quarantine_reprobe ;;;
    match sw_trips sw with
    | [] => whenM (booked.2 || booked.1) push_live
    | trips =>
        let* at_ := now in
        forM trips (enforce_trip at_) ;;;
        push_live
    end.
End Watchdog.

(** ** The registry in memory *)

Section Registry.
Context `{StateCodec}.

Definition drop_keys (q : gmap string Quarantine) (hs : list string) : gmap string Quarantine :=
  foldl (fun q h => delete h q) q hs.

Lemma drop_keys_lookup hs : forall q h,
  drop_keys q hs !! h = if decide (h ∈ hs) then None else q !! h.
Proof.
  induction hs as [|h0 hs IH]; intros q h; cbn [drop_keys foldl].
  { by rewrite decide_False by apply not_elem_of_nil. }
  fold (drop_keys (delete h0 q) hs). rewrite IH. destruct (decide (h = h0)) as [->|Hne].
  - rewrite lookup_delete_eq, (decide_True _ _ (list_elem_of_here _ _)). by case_decide.
  - rewrite lookup_delete_ne by done. destruct (decide (h ∈ hs)).
    + by rewrite decide_True by (by right).
    + rewrite decide_False; [done|]. by rewrite not_elem_of_cons.
Qed.

Lemma remove_many_memory hs st fs :
  (State.quarantine_remove_many hs (st, fs)).2.1 = set_quarantined (drop_keys (quarantined st) hs) st.
Proof.
  unfold State.quarantine_remove_many.
  assert (forall hs n st, (foldM (fun removed hex =>
      let* q := State.with_state (fun st => quarantined st !! hex) in
      State.on_state (fun st => set_quarantined (delete hex (quarantined st)) st) ;;;
      ret (if q then S removed else removed)) n hs (st, fs)).2 =
    (set_quarantined (drop_keys (quarantined st) hs) st, fs)) as Hloop.
  { clear. induction hs as [|h hs IH]; intros n st; [by destruct st|].
    cbn [foldM]. unfold bind at 1. rewrite State.with_state_bind, State.on_state_bind.
    etransitivity; [apply (IH _ (set_quarantined (delete h (quarantined st)) st))|]. done. }
  specialize (Hloop hs 0%nat st). unfold bind. destruct (foldM _ _ _ _) as [n s1]. simpl in Hloop.
  subst s1. destruct (0 <? n)%nat; [|done]. unfold bindR, bind.
  pose proof (save_memory (set_quarantined (drop_keys (quarantined st) hs) st, fs)) as Hs.
  destruct (State.save _) as [[|] s2]; exact Hs.
Qed.

Lemma quarantine_put_memory hex q st fs :
  (State.quarantine_put hex q (st, fs)).2.1 = set_quarantined (<[hex := q]> (quarantined st)) st.
Proof. exact (save_memory (set_quarantined _ _, fs)). Qed.

Lemma quarantine_and_remove_memory hex q st fs :
  (State.quarantine_and_remove hex q (st, fs)).2.1 =
  set_torrents (delete hex (torrents st)) (set_quarantined (<[hex := q]> (quarantined st)) st).
Proof. exact (save_memory (set_torrents _ _, fs)). Qed.

(** Progress bookkeeping charges as before and leaves the registry alone. *)
Lemma progress_memory progress now st fs :
  let st' := (State.update_progress_many progress now (st, fs)).2.1 in
  quarantined st' = quarantined st /\ state_path st' = state_path st /\
  shrunk (torrents st) (torrents st') /\ dom (torrents st') = dom (torrents st).
Proof.
  unfold State.update_progress_many. pose proof (progress_loop progress now false st fs) as Hl.
  unfold bind. destruct (foldM _ _ _ _) as [b [st1 fs1]]. destruct Hl as (-> & Hq & Hp & Hhex).
  assert (shrunk (torrents st) (torrents st1) /\ dom (torrents st1) = dom (torrents st)) as Hsh.
  { split.
    - intros h t' Ht'. specialize (Hhex h). rewrite Ht' in Hhex.
      destruct (torrents st !! h) as [t|]; [|done]. exists t. split; [done|].
      by destruct Hhex as [[->|(c & _ & ->)] _].
    - apply set_eq. intros h. rewrite !elem_of_dom. specialize (Hhex h).
      destruct (torrents st !! h), (torrents st1 !! h); try done; split; intros [? ?]; done. }
  destruct b; [|done]. unfold bindR, bind.
  pose proof (save_memory (st1, fs)) as Hs. destruct (State.save _) as [[|] s2]; simpl in *;
    by rewrite Hs.
Qed.
End Registry.

(** A change of the registry alone. *)
Definition set_registry (q : gmap string Quarantine) (k : Core) : Core :=
  core_state (set_quarantined q (k_state k)) k.

Lemma registry_safe k st :
  torrents st = torrents (k_state k) -> safe k (core_state st k).
Proof. intros Ht. apply shrunk_safe. by rewrite Ht. Qed.

Lemma held_size_length `{HashIter} k : held_size k = Z.of_nat (length (State.all (k_state k))).
Proof.
  unfold held_size. rewrite <- all_sum. change one with (fun _ : Torrent => 1).
  rewrite sumZ_const. lia.
Qed.

(** ** The re-probe *)

(** Keys as the hex encoder spells them: what the engine itself writes. *)
Definition canonical `{HexCrate} (q : gmap string Quarantine) : Prop :=
  map_Forall (fun h _ => hex_encode (hash_or_zero h) = h) q.

Section Reprobe.
Context {W : Type} `{World W} `{Decoders} `{Chrono} `{HexCrate} `{UrlCrate} `{HashIter} `{Libm}.
Context `{StateCodec} `{EventCodec} `{StatsCodec}.

Abbreviation Sys := (Engine * Node W)%type.

Definition until_of (now : instant) (k : Core) : instant :=
  rearm_until now (quarantine_cooldown (scan (k_cfg k))) (quarantine_check_interval (scan (k_cfg k))).

(** What the re-probe may do to the node: nothing leaves, the budgets hold, no
    entry comes or goes, and an entry is as it was or, if it had lapsed and its
    hash was not held, re-armed. *)
Record probed (now : instant) (k0 k : Core) : Prop := {
  probed_within : within k0 k;
  probed_keeps : torrents (k_state k0) ⊆ torrents (k_state k);
  probed_dom : dom (quarantined (k_state k)) = dom (quarantined (k_state k0));
  probed_entries h q' : quarantined (k_state k) !! h = Some q' ->
    exists q, quarantined (k_state k0) !! h = Some q /\
      (q' = q \/ (is_lapsed (k_state k0) now (h, q) = true /\ q' = rearm (until_of now k0) q));
}.

Lemma probed_id now k : probed now k k.
Proof. split; [apply within_refl|done|done|]. intros h q' Hq. exists q'. split; [done|by left]. Qed.

Lemma same_cfg now k0 k : probed now k0 k -> k_cfg k = k_cfg k0.
Proof. intros [[[Hc _] _ _ _] _ _ _]. exact Hc. Qed.

(** The fill of a candidate no one holds. *)
Lemma probed_acted now k0 k at_ c held floor held' k' :
  probed now k0 k -> counted k held ->
  torrents (k_state k) !! hex_encode (cand_info_hash c) = None ->
  quarantined (k_state k) !! hex_encode (cand_info_hash c) <> None ->
  acted k at_ c held floor held' k' -> probed now k0 k' /\ counted k' held'.
Proof.
  intros [Hw Hk Hd Hq] Hc Hf Hin Hact.
  destruct (acted_within _ _ _ _ _ _ _ Hc Hact) as [Hw' Hc']. split; [|exact Hc'].
  destruct Hact as [|md loc t roll _ _ _ [_ (Eh & _)]|md loc ds t roll removed _ Hno _ _ _];
    [done| |done].
  split; [by eapply within_trans| |done|done].
  etransitivity; [exact Hk|]. simpl. apply insert_subseteq. rewrite Eh. exact Hf.
Qed.

Lemma probed_rearm now k0 k hex q :
  probed now k0 k -> quarantined (k_state k0) !! hex = Some q ->
  is_lapsed (k_state k0) now (hex, q) = true ->
  probed now k0 (set_registry (<[hex := rearm (until_of now k0) q]> (quarantined (k_state k))) k).
Proof.
  intros [[Hset Hdisk Hram Hsize] Hk Hd Hq] Hin Hl. split; simpl; [by split|done| |].
  - rewrite dom_insert_L, Hd. assert (hex ∈ dom (quarantined (k_state k0))) by (by apply elem_of_dom_2 in Hin).
    set_solver.
  - intros h q'. rewrite lookup_insert_Some. intros [[<- <-]|[_ Hq']]; [|by apply Hq].
    exists q. split; [done|by right].
Qed.

Lemma counted_registry k q held : counted k held -> counted (set_registry q k) held.
Proof. intros ([Hk Hs Hc] & [Hl Hb] & Hh). split; [by split|]. split; [by split|exact Hh]. Qed.

Lemma put_registry_core k hex q :
  hoare (at_core k) (with_state (W:=W) (State.quarantine_put hex q))
    (fun _ => at_core (set_registry (<[hex := q]> (quarantined (k_state k))) k)).
Proof. apply with_state_to. intros fs. apply quarantine_put_memory. Qed.

Lemma act_hoare k c held floor :
  hoare (at_core k) (act_on_candidate (W:=W) c held floor)
    (fun held' s => exists at_ k', acted k at_ c held floor held' k' /\ at_core k' s).
Proof.
  intros s Hs. pose proof (act_cases c held floor s) as Hact.
  destruct (act_on_candidate c held floor s) as [held' s']. unfold at_core in Hs. rewrite Hs in Hact.
  exists (now s).1, (core s'.1). done.
Qed.

(** A judgement over some reachable core. *)
Lemma hoare_some {A} (P : Core -> Prop) (m : M Sys A) Q :
  (forall k, P k -> hoare (at_core k) m Q) -> hoare (fun s => P (core s.1)) m Q.
Proof. intros Hm s Hs. by apply (Hm (core s.1) Hs). Qed.

(** What a re-probe learns of one entry before it acts: nothing when the hash is
    held or not listed, or when its metadata or its swarm cannot be had. *)
Definition probe_entry (listed : gset string) (hex : string)
    : M Sys (option (TorrentMeta * SwarmCounts)) :=
  let* held := engine (fun e => State.get (e_state e) hex) in
  if bool_decide (is_Some held) then ret None
  else if negb (bool_decide (hex ∈ listed)) then ret None
  else
    let* r := fetch_metadata hex in
    match r with
    | Err _ => ret None
    | Ok md =>
        let* sw := scrape_swarm (tm_trackers md) (hash_or_zero hex) in
        ret (match sw with Ok sw => Some (md, sw) | Err _ => None end)
    end.

(** The hashes of a list of entries whose probe succeeded, each judged in the
    state in which its turn comes. *)
Fixpoint answered (at_ : instant) (listed : gset string) (floor held : Z)
    (l : list (string * Quarantine)) (s : Sys) : list string :=
  match l with
  | [] => []
  | hq :: l =>
      let '(held', s') := reprobe_one at_ listed floor held hq s in
      (if (probe_entry listed hq.1 s).1 then [hq.1] else []) ++ answered at_ listed floor held' l s'
  end.

(** The hashes a re-probe from [s] reads metadata and a scrape of. *)
Definition reprobed_hashes (at_ : instant) (s : Sys) : list string :=
  match lapsed_list (e_state s.1) at_ with
  | [] => []
  | lapsed =>
      let '(listed, s1) := known_listing s in
      match listed with
      | None => []
      | Some listed =>
          let '(floor, s2) := snapshot_floor s1 in
          answered at_ listed floor (Z.of_nat (length (State.all (e_state s2.1)))) lapsed s2
      end
  end.

(** Acting on an entry that was probed, and closing it again. *)
Definition act_and_rearm (at_ : instant) (floor held : Z) (hq : string * Quarantine)
    (md : TorrentMeta) (sw : SwarmCounts) : M Sys Z :=
  let c := {| cand_info_hash := hash_or_zero hq.1; cand_title := q_title hq.2;
              cand_size_bytes := tm_total_length md; cand_piece_count := tm_piece_count md;
              cand_seeders := seeders sw; cand_leechers := leechers sw;
              cand_seeder_floor := floor |} in
  let* held := act_on_candidate c held floor in
  let* e := engine id in
  let s := scan (e_cfg e) in
  let until := rearm_until at_ (quarantine_cooldown s) (quarantine_check_interval s) in
  let* _ := with_state (State.quarantine_put hq.1 (rearm until hq.2)) in
  ret held.

Lemma reprobe_one_eq at_ listed floor held hq s :
  reprobe_one (W:=W) at_ listed floor held hq s =
  let '(r, s1) := probe_entry listed hq.1 s in
  match r with Some (md, sw) => act_and_rearm at_ floor held hq md sw s1 | None => (held, s1) end.
Proof.
  destruct hq as [hex q]. unfold reprobe_one, probe_entry, act_and_rearm, bind, engine, gets, ret.
  cbn [fst snd]. case_bool_decide; [done|]. destruct (negb _); [done|].
  destruct (fetch_metadata hex s) as [[md|er] s1]; [|done].
  by destruct (scrape_swarm _ _ s1) as [[sw|er] s2].
Qed.

Lemma steady_probe_entry listed hex : steady (probe_entry listed hex).
Proof.
  unfold probe_entry. apply steady_bind; [auto with keepat|]. intros held.
  destruct (bool_decide _); [auto with keepat|]. destruct (negb _); [auto with keepat|].
  apply steady_bind; [auto with keepat|]. intros [md|er]; [|auto with keepat].
  apply steady_bind; auto with keepat.
Qed.

(** An entry that was probed is not held. *)
Lemma probe_entry_free listed hex s x :
  (probe_entry listed hex s).1 = Some x -> torrents (k_state (core s.1)) !! hex = None.
Proof.
  unfold probe_entry, bind at 1, engine, gets. case_bool_decide as Hb; [done|].
  intros _. unfold State.get in Hb. by apply eq_None_not_Some.
Qed.

(** One turn of a re-probe: the registry changes at the entry alone, and exactly
    when it was probed. *)
Record turned (now_ : instant) (k0 : Core) (hq : string * Quarantine) (yes : bool) (k k' : Core)
    (held' : Z) : Prop := {
  turned_probed : probed now_ k0 k';
  turned_counted : counted k' held';
  turned_registry : quarantined (k_state k') =
    if yes then <[hq.1 := rearm (until_of now_ k0) hq.2]> (quarantined (k_state k))
    else quarantined (k_state k);
  turned_joins h : is_Some (torrents (k_state k') !! h) ->
    is_Some (torrents (k_state k) !! h) \/ (h = hq.1 /\ yes = true);
}.

Lemma act_and_rearm_turned now_ k0 k floor held hq md sw :
  canonical (quarantined (k_state k0)) -> hq ∈ lapsed_list (k_state k0) now_ ->
  probed now_ k0 k -> counted k held -> torrents (k_state k) !! hq.1 = None ->
  hoare (at_core k) (act_and_rearm now_ floor held hq md sw)
    (fun held' s => turned now_ k0 hq true k (core s.1) held').
Proof.
  intros Hcan Hin Hp Hc Hf. destruct hq as [hex q]. cbn [fst] in Hf. unfold lapsed_list in Hin.
  rewrite elem_of_sort_by, list_elem_of_filter, elem_of_map_to_list in Hin. destruct Hin as [Hl Hq].
  unfold act_and_rearm. cbn [fst snd]. set (c := {| cand_info_hash := hash_or_zero hex |}).
  assert (hex_encode (cand_info_hash c) = hex) as Hhex by (by apply (Hcan hex q)).
  assert (is_Some (quarantined (k_state k) !! hex)) as Hreg.
  { apply elem_of_dom. rewrite (probed_dom _ _ _ Hp). by eapply elem_of_dom_2. }
  eapply hoare_bind; [apply act_hoare|]. intros held' s (at_ & k' & Hact & Hs).
  destruct (probed_acted now_ k0 k at_ c held floor held' k') as [Hp' Hc']; rewrite ?Hhex; try done.
  { by destruct Hreg as [? ->]. }
  assert (quarantined (k_state k') = quarantined (k_state k) /\
    forall h, is_Some (torrents (k_state k') !! h) -> is_Some (torrents (k_state k) !! h) \/ h = hex)
    as [Hq' Ht'].
  { destruct Hact as [|md' loc t roll _ _ _ [_ (Eh & _)]|md' loc ds t roll removed _ Hno _ _ _].
    - split; [done|by left].
    - split; [done|]. intros h [x Hx]. simpl in Hx. apply lookup_insert_Some in Hx as [[<- _]|[_ Hx]].
      + right. by rewrite Eh.
      + left. by exists x.
    - rewrite Hhex in Hno. destruct Hreg as [? Hreg]. congruence. }
  revert s Hs. match goal with |- forall s, at_core k' s -> turned _ _ _ _ _ (core (?m s).2.1) _ =>
    change (hoare (at_core k') m (fun held' s => turned now_ k0 (hex, q) true k (core s.1) held')) end.
  apply after_engine. intros e' He'.
  assert (rearm_until now_ (quarantine_cooldown (scan (e_cfg (id e'))))
    (quarantine_check_interval (scan (e_cfg (id e')))) = until_of now_ k0) as ->.
  { unfold until_of. rewrite <- (same_cfg _ _ _ Hp'), <- He'. done. }
  eapply hoare_bind; [apply put_registry_core|]. intros r. apply hoare_ret. intros s Hs.
  unfold at_core in Hs. rewrite Hs. split; [by apply probed_rearm|by apply counted_registry| |].
  - simpl. by rewrite Hq'.
  - intros h Hh. destruct (Ht' h Hh) as [?| ->]; [by left|by right].
Qed.

Lemma reprobe_one_turned now_ listed floor k0 held hq s :
  canonical (quarantined (k_state k0)) -> hq ∈ lapsed_list (k_state k0) now_ ->
  probed now_ k0 (core s.1) -> counted (core s.1) held ->
  let '(held', s') := reprobe_one (W:=W) now_ listed floor held hq s in
  turned now_ k0 hq (bool_decide (is_Some (probe_entry listed hq.1 s).1)) (core s.1) (core s'.1) held'.
Proof.
  intros Hcan Hin Hp Hc. rewrite reprobe_one_eq.
  pose proof (steady_probe_entry listed hq.1 (core s.1) s eq_refl) as Hs.
  pose proof (probe_entry_free listed hq.1 s) as Hf.
  destruct (probe_entry listed hq.1 s) as [[[md sw]|] s1]; simpl in Hs, Hf; unfold at_core in Hs.
  - rewrite bool_decide_true by done.
    pose proof (act_and_rearm_turned now_ k0 (core s.1) floor held hq md sw Hcan Hin Hp Hc (Hf _ eq_refl) s1 Hs)
      as Ht. destruct (act_and_rearm _ _ _ _ _ _ s1) as [held' s']. exact Ht.
  - rewrite bool_decide_false by (by intros []). rewrite Hs. split; auto.
Qed.

(** A re-probe over a list of entries: the registry is re-armed at exactly the
    hashes that were probed. *)
Lemma reprobe_fold now_ listed floor k0 l : forall held s,
  canonical (quarantined (k_state k0)) -> (forall hq, hq ∈ l -> hq ∈ lapsed_list (k_state k0) now_) ->
  NoDup l.*1 -> probed now_ k0 (core s.1) -> counted (core s.1) held ->
  let done := answered now_ listed floor held l s in
  let '(held', s') := foldM (reprobe_one (W:=W) now_ listed floor) held l s in
  probed now_ k0 (core s'.1) /\ counted (core s'.1) held' /\
  (forall h, h ∉ done -> quarantined (k_state (core s'.1)) !! h = quarantined (k_state (core s.1)) !! h) /\
  (forall h, h ∈ done -> exists q, (h, q) ∈ l /\
     quarantined (k_state (core s'.1)) !! h = Some (rearm (until_of now_ k0) q)) /\
  (forall h, is_Some (torrents (k_state (core s'.1)) !! h) ->
     is_Some (torrents (k_state (core s.1)) !! h) \/ h ∈ done).
Proof.
  induction l as [|[hex q] l IH]; intros held s Hcan Hin Hnd Hp Hc; cbn [foldM answered].
  { split; [done|]. split; [done|]. split; [done|]. split; [by intros h []%elem_of_nil|by left]. }
  cbn [fmap list_fmap fst] in Hnd. apply NoDup_cons in Hnd as [Hhex Hnd]. unfold bind.
  pose proof (reprobe_one_turned now_ listed floor k0 held (hex, q) s Hcan (Hin _ (list_elem_of_here _ _)) Hp Hc)
    as Hone. cbn [fst].
  destruct (reprobe_one now_ listed floor held (hex, q) s) as [held1 s1].
  destruct Hone as [Hp1 Hc1 Hreg1 Hj1]. cbn [fst snd] in Hreg1, Hj1.
  assert (forall hq, hq ∈ l -> hq ∈ lapsed_list (k_state k0) now_) as Hin1 by (intros; apply Hin; by right).
  specialize (IH held1 s1 Hcan Hin1 Hnd Hp1 Hc1). cbv zeta in IH.
  destruct (foldM _ held1 l s1) as [held' s']. destruct IH as (Hp' & Hc' & Hout & Hdone & Hj).
  set (rest := answered now_ listed floor held1 l s1) in *.
  assert (forall h, h ∈ rest -> h ∈ l.*1) as Hsub.
  { intros h Hh. destruct (Hdone h Hh) as (q' & Hq' & _). by apply (list_elem_of_fmap_2 fst) in Hq'. }
  assert (hex ∉ rest) as Hnr by (intros ?%Hsub; done).
  destruct (probe_entry listed hex s).1 as [x|].
  - rewrite bool_decide_true in Hreg1, Hj1 by done. cbn [app].
    split; [done|]. split; [done|]. split; [|split].
    + intros h [Hne Hh]%not_elem_of_cons. by rewrite (Hout h Hh), Hreg1, lookup_insert_ne.
    + intros h [->|Hh]%elem_of_cons.
      * exists q. split; [left|]. by rewrite (Hout hex Hnr), Hreg1, lookup_insert_eq.
      * destruct (Hdone h Hh) as (q' & Hq' & Hr). exists q'. split; [by right|done].
    + intros h [Hh|Hh]%Hj; [|right; by right]. destruct (Hj1 h Hh) as [?|[-> _]]; [by left|right; left].
  - rewrite bool_decide_false in Hreg1, Hj1 by (by intros []). cbn [app].
    split; [done|]. split; [done|]. split; [|split].
    + intros h Hh. by rewrite (Hout h Hh), Hreg1.
    + intros h Hh. destruct (Hdone h Hh) as (q' & Hq' & Hr). exists q'. split; [by right|done].
    + intros h [Hh|Hh]%Hj; [|by right]. destruct (Hj1 h Hh) as [?|[_ [=]]]. by left.
Qed.

Lemma steady_change f : (forall e, core (f e) = core e) -> steady (change (W:=W) f).
Proof. intros Hf k [e n] Hs. unfold at_core in *. simpl in *. by rewrite Hf. Qed.

Lemma steady_listing : steady (known_listing (W:=W)).
Proof.
  unfold known_listing. apply steady_bind; [auto with keepat|]. intros [c|]; [auto with keepat|].
  apply steady_bind.
  - unfold load_catalog. repeat (apply steady_bind; [auto with keepat|]; intros). auto with keepat.
  - intros [[cat f]|er]; [|auto with keepat]. apply steady_bind; [by apply steady_change|]. auto with keepat.
Qed.

Lemma lapsed_list_nodup st at_ : NoDup (lapsed_list st at_).*1.
Proof.
  unfold lapsed_list. rewrite sort_by_perm. eapply sublist_NoDup.
  - apply (NoDup_fst_map_to_list (quarantined st)).
  - apply fmap_sublist, sublist_filter.
Qed.

(** What a re-probe leaves: besides [probed], the registry exactly, and which
    hashes can have joined. *)
Record reprobed (now_ : instant) (k0 : Core) (acted_on : list string) (k : Core) : Prop := {
  reprobed_probed : probed now_ k0 k;
  reprobed_books : books k;
  reprobed_others h : h ∉ acted_on -> quarantined (k_state k) !! h = quarantined (k_state k0) !! h;
  reprobed_rearmed h : h ∈ acted_on -> exists q, (h, q) ∈ lapsed_list (k_state k0) now_ /\
    quarantined (k_state k) !! h = Some (rearm (until_of now_ k0) q);
  reprobed_joins h : is_Some (torrents (k_state k) !! h) ->
    is_Some (torrents (k_state k0) !! h) \/ h ∈ acted_on;
}.

Lemma reprobed_none now_ k : books k -> reprobed now_ k [] k.
Proof. intros Hb. split; [apply probed_id|done|done|by intros h []%elem_of_nil|by left]. Qed.

Lemma steady_floor : steady (snapshot_floor (W:=W)).
Proof. unfold snapshot_floor. repeat (apply steady_bind; [auto with keepat|]; intros). auto with keepat. Qed.

Lemma reprobe_at_reprobed now_ (s : Sys) :
  let k := core s.1 in
  canonical (quarantined (k_state k)) -> books k -> settings_ok k ->
  reprobed now_ k (reprobed_hashes now_ s) (core (reprobe_at (W:=W) now_ s).2.1).
Proof.
  intros k Hcan Hb Hset. unfold reprobe_at, reprobed_hashes, bind at 1, engine, gets.
  change (e_state s.1) with (k_state k).
  destruct (lapsed_list (k_state k) now_) as [|x l] eqn:El; [by apply reprobed_none|]. rewrite <- El. clear El.
  unfold bind at 1. pose proof (steady_listing k s eq_refl) as Hs1.
  destruct (known_listing s) as [[listed|] s1]; simpl in Hs1; unfold at_core in Hs1;
    [|cbn; rewrite Hs1; by apply reprobed_none].
  unfold bind at 1. pose proof (steady_floor k s1 Hs1) as Hs2.
  destruct (snapshot_floor s1) as [floor s2]. simpl in Hs2. unfold at_core in Hs2. unfold bind at 1 2.
  set (held := Z.of_nat (length (State.all (e_state s2.1)))).
  assert (counted (core s2.1) held) as Hc.
  { rewrite Hs2. split; [done|]. split; [done|]. rewrite held_size_length, <- Hs2. done. }
  pose proof (reprobe_fold now_ listed floor k (lapsed_list (k_state k) now_) held s2 Hcan (fun _ Hin => Hin)
    (lapsed_list_nodup _ _)) as Hf. cbv zeta in Hf.
  destruct (foldM _ held _ s2) as [held' s']. rewrite Hs2 in Hf.
  destruct Hf as (Hp & Hc' & Hout & Hdone & Hj); [apply probed_id|by rewrite <- Hs2|].
  split; [done|apply Hc'|done|done|done].
Qed.

Lemma reprobe_at_probed now_ k :
  canonical (quarantined (k_state k)) -> books k -> settings_ok k ->
  hoare (at_core k) (reprobe_at (W:=W) now_) (fun _ s => probed now_ k (core s.1) /\ books (core s.1)).
Proof.
  intros Hcan Hb Hset s Hs. unfold at_core in Hs. subst k.
  by destruct (reprobe_at_reprobed now_ s Hcan Hb Hset).
Qed.
End Reprobe.

(** ** The sweep *)

Section SweepFacts.
Context `{HexCrate}.

(** What the sweep reports comes from a torrent of the session. *)
Definition finished_in (ts : list Managed) (h : string) : Prop :=
  exists t, t ∈ ts /\ hex_encode (mt_info_hash t) = h /\ mt_finished t = true.
Definition live_in (ts : list Managed) (h : string) (checked : Z) : Prop :=
  exists t, t ∈ ts /\ hex_encode (mt_info_hash t) = h /\ mt_finished t = false /\
    is_Some (mt_live t) /\ mt_progress_bytes t = checked /\ 0 < checked.

Definition unfinished_in (ts : list Managed) (h : string) : Prop :=
  exists t, t ∈ ts /\ hex_encode (mt_info_hash t) = h /\ mt_finished t = false.

Lemma sweep_facts d keys threshold mw ts :
  let sw := sweep d keys threshold mw ts in
  (forall h, h ∈ sw_lifts sw -> h ∈ keys /\ finished_in ts h) /\
  (forall h c, (h, c) ∈ sw_progress sw -> live_in ts h c) /\
  (forall h, h ∈ sw_seen sw <-> exists t, t ∈ ts /\ hex_encode (mt_info_hash t) = h) /\
  (forall h tr, (h, tr) ∈ sw_trips sw -> unfinished_in ts h).
Proof.
  cbv zeta. unfold sweep. induction ts as [|t ts IH] using rev_ind.
  { simpl. split; [by intros h []%elem_of_nil|]. split; [by intros h c []%elem_of_nil|].
    split; [|by intros h c []%elem_of_nil]. intros h. split; [set_solver|].
    by intros (t & []%elem_of_nil & _). }
  rewrite foldl_app. cbn [foldl]. set (sw := foldl _ _ ts) in *. destruct IH as (Hl & Hp & Hs & Ht).
  assert (forall h, h ∈ {[hex_encode (mt_info_hash t)]} ∪ sw_seen sw <->
    exists t', t' ∈ ts ++ [t] /\ hex_encode (mt_info_hash t') = h) as Hs'.
  { intros h. rewrite elem_of_union, elem_of_singleton, Hs. split.
    - intros [->|(t' & Hin & He)]; [exists t|exists t']; (split; [apply elem_of_app|done]);
        [right; by left|by left].
    - intros (t' & [Hin|Hin]%elem_of_app & He); [right; by exists t'|left].
      apply list_elem_of_singleton in Hin as ->. done. }
  assert (forall h, finished_in ts h -> finished_in (ts ++ [t]) h) as Hf.
  { intros h (t' & Hin & Hr). exists t'. split; [apply elem_of_app; by left|done]. }
  assert (forall h c, live_in ts h c -> live_in (ts ++ [t]) h c) as Hv.
  { intros h c (t' & Hin & Hr). exists t'. split; [apply elem_of_app; by left|done]. }
  assert (forall h, unfinished_in ts h -> unfinished_in (ts ++ [t]) h) as Hu.
  { intros h (t' & Hin & Hr). exists t'. split; [apply elem_of_app; by left|done]. }
  assert (t ∈ ts ++ [t]) as Hin by (apply elem_of_app; right; by left).
  unfold sweep_one. destruct (mt_finished t) eqn:Efin.
  - simpl. split; [|split; [|split; [exact Hs'|]]].
    + intros h. case_bool_decide as Hk; [|intros [? ?]%Hl; eauto].
      intros [[? ?]%Hl|Hh]%elem_of_app; [by eauto|].
      apply list_elem_of_singleton in Hh as ->. split; [done|]. by exists t.
    + intros h c Hc. by apply Hv, Hp.
    + intros h tr Htr. by eapply Hu, Ht.
  - destruct (mt_live t) as [fetched|] eqn:Elive.
    + destruct (Quarantine.observe _ _ _ _ _ _) as [trip d']. simpl.
      split; [intros h [? ?]%Hl; eauto|]. split; [|split; [exact Hs'|]].
      * intros h c. destruct (0 <? mt_progress_bytes t) eqn:Epos; [|by intros ?%Hp%Hv].
        intros [?%Hp%Hv|Hh]%elem_of_app; [done|]. apply list_elem_of_singleton in Hh as [= -> ->].
        simpl_bool. exists t. by rewrite Elive.
      * intros h tr. destruct trip as [tr'|]; [|intros ?%Ht; by apply Hu].
        intros [?%Ht|Hh]%elem_of_app; [by apply Hu|].
        apply list_elem_of_singleton in Hh as [= -> ->]. by exists t.
    + simpl. split; [intros h [? ?]%Hl; eauto|]. split; [intros h c ?%Hp%Hv; done|].
      split; [exact Hs'|]. intros h tr ?%Ht. by apply Hu.
Qed.

(** At most one trip per managed torrent. *)
Lemma sweep_trips_sub d keys threshold mw ts :
  sublist (sw_trips (sweep d keys threshold mw ts)).*1 ((fun t => hex_encode (mt_info_hash t)) <$> ts).
Proof.
  unfold sweep. induction ts as [|t ts IH] using rev_ind; [apply sublist_nil|].
  rewrite foldl_app, fmap_app. cbn [foldl]. set (sw := foldl _ _ ts) in *.
  unfold sweep_one. destruct (mt_finished t); [simpl; by apply sublist_inserts_r|].
  destruct (mt_live t) as [fetched|]; [|simpl; by apply sublist_inserts_r].
  destruct (Quarantine.observe _ _ _ _ _ _) as [[trip|] d']; simpl; [|by apply sublist_inserts_r].
  rewrite fmap_app. by apply sublist_app.
Qed.

Lemma completed_lifts_spec st progress h :
  h ∈ completed_lifts st progress -> exists checked t, (h, checked) ∈ progress /\
    torrents st !! h = Some t /\ completion_lifts checked (t_size_bytes t) = true.
Proof.
  unfold completed_lifts. intros ([h' c] & Hin & Hs)%list_elem_of_omap.
  destruct (_ && _) eqn:E; [|done]. injection Hs as ->. apply andb_true_iff in E as [_ E].
  exists c. unfold State.get in E. destruct (torrents st !! h) as [t|]; simpl in E; [by exists t|].
  unfold completion_lifts in E. apply andb_true_iff in E as [E _]. simpl_bool. lia.
Qed.

Lemma gc_list_spec st seen listed now h :
  h ∈ gc_list st seen listed now -> h ∉ seen /\ torrents st !! h = None /\
    (exists c, listed = Some c /\ h ∉ c) /\
    exists q, quarantined st !! h = Some q /\ q_cooldown_until q <= now.
Proof.
  unfold gc_list. rewrite elem_of_sort_by, list_elem_of_filter. intros [Ho _]. unfold orphaned in Ho.
  rewrite !andb_true_iff in Ho. destruct Ho as [[[Hs Hg] Hl] Hq].
  apply negb_true_iff, bool_decide_eq_false in Hs. apply negb_true_iff, bool_decide_eq_false in Hg.
  split; [done|]. split; [by apply eq_None_not_Some|]. split.
  - destruct listed as [c|]; [|done]. apply negb_true_iff, bool_decide_eq_false in Hl. by exists c.
  - unfold State.quarantine_get in Hq. destruct (quarantined st !! h) as [q|]; [|done]. simpl_bool.
    by exists q.
Qed.
End SweepFacts.

(** ** The pass *)

Section Pass.
Context {W : Type} `{World W} `{Decoders} `{Chrono} `{HexCrate} `{UrlCrate} `{HashIter} `{Libm}.
Context `{StateCodec} `{EventCodec} `{StatsCodec}.

Abbreviation Sys := (Engine * Node W)%type.

(** The core together with the remembered catalog. *)
Definition sits (k : Core) (lc : option (gset string)) (s : Sys) : Prop :=
  at_core k s /\ e_last_catalog s.1 = lc.

Lemma outside_sits {A} k lc (m : M (Node W) A) : hoare (sits k lc) (on_outside m) (fun _ => sits k lc).
Proof. intros [e n] [Hs Hl]. unfold on_outside, on_snd. by destruct (m n). Qed.

Lemma engine_sits {A B} k lc (g : Engine -> A) (f : A -> M Sys B) Q :
  (forall e, core e = k -> e_last_catalog e = lc -> hoare (sits k lc) (f (g e)) Q) ->
  hoare (sits k lc) (bind (engine g) f) Q.
Proof. intros Hf [e n] [Hs Hl]. exact (Hf e Hs Hl (e, n) (conj Hs Hl)). Qed.

Lemma with_state_sits {A} k lc (m : M (State * Fs) A) (P : State -> Prop) :
  (forall fs, P (m (k_state k, fs)).2.1) ->
  hoare (sits k lc) (with_state m) (fun _ s => exists st, P st /\ sits (core_state st k) lc s).
Proof.
  intros Hm [e n] [Hs Hl]. destruct (with_state_core k m P Hm (e, n) Hs) as (st & Hp & Hst).
  exists st. split; [done|]. split; [exact Hst|]. unfold with_state.
  by destruct (m _) as [a [st' fs']].
Qed.

(** The held set and the registry once a sweep is booked: progress only, and
    entries leave that completed or that nothing can re-probe. *)
Definition booked (sw : Sweep) (lc : option (gset string)) (at_ : instant) (k0 k : Core) : Prop :=
  exists st, k = core_state st k0 /\
    shrunk (torrents (k_state k0)) (torrents st) /\
    dom (torrents st) = dom (torrents (k_state k0)) /\
    quarantined st ⊆ drop_keys (quarantined (k_state k0))
                       (sw_lifts sw ++ completed_lifts (k_state k0) (sw_progress sw)) /\
    forall h q, quarantined (k_state k0) !! h = Some q -> quarantined st !! h = None ->
      h ∈ sw_lifts sw ++ completed_lifts (k_state k0) (sw_progress sw) \/
      (h ∉ sw_seen sw /\ torrents (k_state k0) !! h = None /\
       (exists c, lc = Some c /\ h ∉ c) /\ q_cooldown_until q <= at_).

Lemma lift_many_sits k lc hs :
  hoare (sits k lc) (lift_many (W:=W) hs) (fun _ =>
    sits (set_registry (drop_keys (quarantined (k_state k)) hs) k) lc).
Proof.
  unfold lift_many. eapply hoare_bind.
  - apply (with_state_sits k lc _ (eq (set_quarantined (drop_keys (quarantined (k_state k)) hs) (k_state k)))).
    intros fs. by rewrite remove_many_memory.
  - intros r. apply hoare_ret. by intros s (st & <- & Hs).
Qed.

Lemma drop_keys_sub q hs : drop_keys q hs ⊆ q.
Proof. apply map_subseteq_spec. intros h x. rewrite drop_keys_lookup. by case_decide. Qed.

(** Entries the garbage collection drops after the lifts leave a booked core. *)
Lemma gc_booked sw lc at_ k st q2 :
  shrunk (torrents (k_state k)) (torrents st) -> dom (torrents st) = dom (torrents (k_state k)) ->
  let q1 := drop_keys (quarantined (k_state k)) (sw_lifts sw ++ completed_lifts (k_state k) (sw_progress sw)) in
  q2 ⊆ q1 ->
  (forall h, h ∈ dom q1 -> h ∉ dom q2 -> h ∈ gc_list (set_quarantined q1 st) (sw_seen sw) lc at_) ->
  booked sw lc at_ k (core_state (set_quarantined q2 st) k).
Proof.
  intros Hsh Hdom q1 Hq2 Hgc. exists (set_quarantined q2 st). split; [done|]. split; [done|].
  split; [done|]. split; [exact Hq2|]. intros h q Hh Hn.
  destruct (decide (h ∈ sw_lifts sw ++ completed_lifts (k_state k) (sw_progress sw))) as [Hin|Hin];
    [by left|right].
  assert (q1 !! h = Some q) as Hq1h by (unfold q1; by rewrite drop_keys_lookup, decide_False).
  assert (h ∈ gc_list (set_quarantined q1 st) (sw_seen sw) lc at_) as Hg.
  { apply Hgc; [by eapply elem_of_dom_2|by apply not_elem_of_dom]. }
  apply gc_list_spec in Hg as (Hns & Hnt & Hcat & q' & Hq' & Hcool). simpl in Hnt, Hq'.
  assert (q' = q) as -> by congruence. split; [done|]. split; [|done].
  apply not_elem_of_dom. rewrite <- Hdom. by apply not_elem_of_dom.
Qed.

Lemma sweep_books_spec sw k lc at_ :
  hoare (fun s => sits k lc s /\ (now s).1 = at_) (sweep_books (W:=W) sw)
    (fun _ s => booked sw lc at_ k (core s.1)).
Proof.
  intros s [Hs Hat]. unfold sweep_books, bind at 1.
  pose proof (outside_sits k lc (on_world utc_now) s Hs) as Hs1. fold (now (W:=W)) in Hs1.
  destruct (now s) as [t s1]. simpl in Hat, Hs1. subst t.
  revert s1 Hs1. match goal with |- forall s1, sits k lc s1 -> booked _ _ _ _ (core (?m s1).2.1) =>
    change (hoare (sits k lc) m (fun _ s => booked sw lc at_ k (core s.1))) end.
  apply engine_sits. intros e He Hlc. assert (e_state e = k_state k) as -> by (by rewrite <- He).
  set (lifts := sw_lifts sw ++ _).
  eapply hoare_bind; [apply (with_state_sits k lc _ (fun st' =>
    quarantined st' = quarantined (k_state k) /\ state_path st' = state_path (k_state k) /\
    shrunk (torrents (k_state k)) (torrents st') /\ dom (torrents st') = dom (torrents (k_state k))));
    intros fs; apply progress_memory|].
  intros r. apply (hoare_weaken (S := Sys) (fun s => exists st, (quarantined st = quarantined (k_state k) /\
    state_path st = state_path (k_state k) /\
    shrunk (torrents (k_state k)) (torrents st) /\ dom (torrents st) = dom (torrents (k_state k))) /\
    sits (core_state st k) lc s) _ _ (fun _ s => booked sw lc at_ k (core s.1)) _); [|done|done].
  intros s1 (st & (Hq & Hp & Hsh & Hdom) & Hs1). revert s1 Hs1.
  match goal with |- forall s1, sits _ _ s1 -> booked _ _ _ _ (core (?m s1).2.1) =>
    change (hoare (sits (core_state st k) lc) m (fun _ s => booked sw lc at_ k (core s.1))) end.
  eapply hoare_bind; [apply lift_many_sits|]. intros lifted.
  apply engine_sits. intros e2 He2 Hlc2.
  set (q1 := drop_keys (quarantined (k_state (core_state st k))) lifts) in *.
  assert (e_state e2 = set_quarantined q1 st) as He2' by (change (e_state e2) with (k_state (core e2)); by rewrite He2).
  assert (forall q2, q2 ⊆ q1 -> (forall h, h ∈ dom q1 -> h ∉ dom q2 ->
      h ∈ gc_list (set_quarantined q1 st) (sw_seen sw) lc at_) ->
    booked sw lc at_ k (core_state (set_quarantined q2 st) k)) as Hbooked.
  { intros q2. subst q1. cbn [k_state core_state]. rewrite Hq. by apply gc_booked. }
  unfold id. rewrite He2', Hlc2. set (gc := gc_list _ _ _ _) in *.
  eapply hoare_bind with (R := fun _ s => booked sw lc at_ k (core s.1)); [|intros; by apply hoare_ret].
  case_bool_decide as Hgc.
  - apply hoare_ret. intros s2 [Hs2 _]. unfold at_core in Hs2. rewrite Hs2. apply (Hbooked q1); [done|].
    intros h Hx Hy. done.
  - eapply hoare_weaken; [apply lift_many_sits|done|]. intros r2 s2 [Hs2 _]. unfold at_core in Hs2.
    rewrite Hs2. apply (Hbooked (drop_keys q1 gc)); [apply drop_keys_sub|].
    intros h Hx Hy. apply not_elem_of_dom in Hy. rewrite drop_keys_lookup in Hy.
    case_decide; [done|]. apply elem_of_dom in Hx as [? Hx]. congruence.
Qed.
(** An entry made by a trip at [now]. *)
Definition trip_entry (k : Core) (now : instant) (prev : option Quarantine) (trip : Trip)
    (q : Quarantine) : Prop :=
  exists title suffix, q = next_quarantine_entry prev title (trip_reason trip suffix) trip now
    (default (weeks 520) (duration_from_std (quarantine_cooldown (scan (k_cfg k)))))
    (quarantine_max_retries (scan (k_cfg k))).

Definition set_maps (m : gmap string Torrent) (q : gmap string Quarantine) (k : Core) : Core :=
  core_state (set_torrents m (set_quarantined q (k_state k))) k.

Lemma steady_forget hex : steady (forget_hash (W:=W) hex).
Proof. apply steady_change. done. Qed.

Lemma enforce_core k now hex trip :
  hoare (at_core k) (enforce_trip (W:=W) now (hex, trip)) (fun _ s => exists q,
    trip_entry k now (quarantined (k_state k) !! hex) trip q /\
    at_core (set_maps (delete hex (torrents (k_state k))) (<[hex := q]> (quarantined (k_state k))) k) s).
Proof.
  unfold enforce_trip. simpl fst. simpl snd. apply after_engine. intros e He.
  unfold State.get. change (e_state e) with (k_state (core e)). rewrite He.
  destruct (torrents (k_state k) !! hex) as [held|] eqn:Et.
  - unfold enforce_held. apply after_engine. intros e2 He2. unfold id.
    change (e_state e2) with (k_state (core e2)). change (e_cfg e2) with (k_cfg (core e2)).
    rewrite He2. set (q := next_quarantine_entry _ _ _ _ _ _ _).
    apply after_steady; [auto with keepat|]. intros _.
    apply after_steady; [auto with keepat|]. intros _.
    eapply hoare_bind.
    { apply (with_state_to k _ (set_torrents (delete hex (torrents (k_state k)))
        (set_quarantined (<[hex := q]> (quarantined (k_state k))) (k_state k)))).
      intros fs. apply quarantine_and_remove_memory. }
    intros r. eapply hoare_weaken with (Q := fun _ => at_core (set_maps (delete hex (torrents (k_state k)))
      (<[hex := q]> (quarantined (k_state k))) k)); [|intros s' Hs'; exact Hs'|].
    + destruct r as [u|er]; [|apply steady_forget].
      apply after_steady; [auto with keepat|]. intros ts.
      apply after_steady; [auto with keepat|]. intros _. apply steady_forget.
    + intros u s' Hs'. exists q. split; [by eexists _, _|exact Hs'].
  - unfold enforce_untracked. apply after_engine. intros e2 He2. unfold id.
    change (e_state e2) with (k_state (core e2)). change (e_cfg e2) with (k_cfg (core e2)).
    rewrite He2. set (q := next_quarantine_entry _ _ _ _ _ _ _).
    apply after_steady; [auto with keepat|]. intros _.
    apply after_steady; [auto with keepat|]. intros _.
    eapply hoare_bind; [apply put_registry_core|]. intros r.
    eapply hoare_weaken; [apply steady_forget|intros s' Hs'; exact Hs'|].
    intros u s' Hs'. exists q. split; [by eexists _, _|].
    unfold set_maps. rewrite delete_id by done. unfold at_core in *. rewrite Hs'.
    unfold set_registry. by destruct k as [? [] ? ? ?].
Qed.

(** After enforcing a list of trips of distinct hashes. *)
Definition enforced (now : instant) (trips : list (string * Trip)) (k0 k : Core) : Prop :=
  exists m q, k = set_maps m q k0 /\ m ⊆ torrents (k_state k0) /\
    (forall h, h ∉ trips.*1 -> m !! h = torrents (k_state k0) !! h /\
                              q !! h = quarantined (k_state k0) !! h) /\
    forall h tr, (h, tr) ∈ trips -> m !! h = None /\
      exists x, q !! h = Some x /\ trip_entry k0 now (quarantined (k_state k0) !! h) tr x.

Lemma enforce_all now trips : NoDup (trips.*1) -> forall k,
  hoare (at_core k) (forM trips (enforce_trip (W:=W) now))
    (fun _ s => enforced now trips k (core s.1)).
Proof.
  induction trips as [|[h tr] trips IH]; intros Hnd k; cbn [forM].
  - apply hoare_ret. intros s Hs. unfold at_core in Hs. rewrite Hs.
    exists (torrents (k_state k)), (quarantined (k_state k)).
    split; [by destruct k as [? [] ? ? ?]|]. split; [done|]. split; [done|].
    by intros h tr []%elem_of_nil.
  - cbn [fmap list_fmap fst] in Hnd. apply NoDup_cons in Hnd as [Hh Hnd].
    eapply hoare_bind; [apply enforce_core|]. intros u s (x & Hx & Hs).
    destruct (IH Hnd _ s Hs) as (m & q & Hk & Hm & Hout & Hin). rewrite Hk. simpl in Hm, Hout, Hin.
    exists m, q. split; [done|]. split; [etransitivity; [exact Hm|apply delete_subseteq]|]. split.
    + intros h' Hh'. rewrite fmap_cons, not_elem_of_cons in Hh'. destruct Hh' as [Hne Hh']. simpl in Hne.
      destruct (Hout h' Hh') as [-> ->]. by rewrite lookup_delete_ne, lookup_insert_ne by done.
    + intros h' tr' [[= -> ->]|Hin']%elem_of_cons.
      * destruct (Hout h Hh) as [-> ->]. rewrite lookup_delete_eq, lookup_insert_eq. split; [done|].
        by exists x.
      * destruct (Hin h' tr' Hin') as [Hn (y & Hy & Ht)]. split; [done|]. exists y. split; [done|].
        assert (h' <> h) as Hne by (intros ->; apply Hh; by apply (list_elem_of_fmap_2 fst) in Hin').
        rewrite lookup_insert_ne in Ht by done. exact Ht.
Qed.

Lemma enforced_safe now trips k0 k : enforced now trips k0 k -> safe k0 k.
Proof.
  intros (m & q & -> & Hm & _). apply shrunk_safe. simpl. intros h t Ht. exists t.
  split; [by eapply lookup_weaken|done].
Qed.
(** The sweep a pass makes from a state. *)
Definition sweep_from (s : Sys) : Sweep :=
  let e := s.1 in
  let sc := scan (e_cfg e) in
  sweep (e_detector e) (State.quarantined_keys (e_state e)) (broken_piece_discard_bytes sc)
    (broken_piece_min_windows sc) (session_torrents (world s.2)).1.

Lemma sweep_from_trips s : NoDup ((sw_trips (sweep_from s)).*1).
Proof.
  eapply sublist_NoDup; [|apply sweep_trips_sub].
  change ((fun t => hex_encode (mt_info_hash t)) <$> ?l) with ((hex_encode ∘ mt_info_hash) <$> l).
  rewrite list_fmap_compose. apply NoDup_fmap_2; [|apply session_distinct]. intros a b. apply hex_encode_inj.
Qed.

Lemma booked_safe sw lc at_ k0 k : booked sw lc at_ k0 k -> safe k0 k.
Proof. intros (st & -> & Hsh & _). by apply shrunk_safe. Qed.

Lemma booked_canonical sw lc at_ k0 k :
  booked sw lc at_ k0 k -> canonical (quarantined (k_state k0)) -> canonical (quarantined (k_state k)).
Proof.
  intros (st & -> & _ & _ & Hsub & _) Hc h q Hq. apply (Hc h q). eapply lookup_weaken; [|apply drop_keys_sub].
  by eapply lookup_weaken.
Qed.

Lemma booked_within sw lc at_ k0 k :
  booked sw lc at_ k0 k -> books k0 -> settings_ok k0 -> books k /\ settings_ok k.
Proof.
  intros Hbk Hb Hs. destruct (booked_safe _ _ _ _ _ Hbk Hb Hs) as [Hw Hb2].
  split; [done|by eapply settings_within].
Qed.

(** The states between the phases of a pass: after the session has been swept,
    after the sweep is booked, after the re-probe; and what the clock shows to
    the booking and to the trips. *)
Definition swept (s : Sys) : Sys :=
  let sw := sweep_from s in
  (change (set_detector (retain_only (sw_seen sw) (sw_detector sw)).2)
     (on_outside (on_world session_torrents) s).2).2.
Definition booked_state (s : Sys) : Sys := (sweep_books (sweep_from s) (swept s)).2.
Definition reprobed_state (s : Sys) : Sys := (quarantine_reprobe (booked_state s)).2.
Definition sweep_clock (s : Sys) : instant := (now (swept s)).1.
Definition trip_clock (s : Sys) : instant := (now (reprobed_state s)).1.

(** What one pass amounts to. *)
Definition passed (s : Sys) (k : Core) : Prop :=
  let b := booked_state s in
  let r := core (reprobed_state s).1 in
  booked (sweep_from s) (e_last_catalog s.1) (sweep_clock s) (core s.1) (core b.1) /\
  reprobed (now b).1 (core b.1) (reprobed_hashes (now b).1 (now b).2) r /\
  enforced (trip_clock s) (sw_trips (sweep_from s)) r k.

(** The clock the booking reads is the one after the session has answered. *)
Lemma sweep_clock_eq (s : Sys) : sweep_clock s = (utc_now (session_torrents (world s.2)).2).1.
Proof.
  unfold sweep_clock, swept, now. destruct s as [e n]. unfold on_outside, on_snd, on_world. simpl.
  destruct (session_torrents (world n)) as [ts w]. simpl. by destruct (utc_now w).
Qed.

Lemma swept_sits s : sits (core s.1) (e_last_catalog s.1) (swept s).
Proof.
  destruct (outside_sits (core s.1) (e_last_catalog s.1) (on_world session_torrents) s (conj eq_refl eq_refl))
    as [Hs Hl]. unfold swept. destruct (on_outside _ s) as [ts [e n]]. split; [exact Hs|exact Hl].
Qed.

Lemma quarantine_pass_eq (s : Sys) :
  0 < quarantine_check_interval (scan (k_cfg (core s.1))) ->
  let bk := (sweep_books (W:=W) (sweep_from s) (swept s)).1 in
  quarantine_pass (W:=W) s =
  match sw_trips (sweep_from s) with
  | [] => whenM (bk.2 || bk.1) push_live (reprobed_state s)
  | trips => bind now (fun at_ => forM trips (enforce_trip at_) ;;; push_live) (reprobed_state s)
  end.
Proof.
  intros Hon bk. unfold quarantine_pass, bind at 1, engine, gets, id.
  change (e_cfg s.1) with (k_cfg (core s.1)).
  destruct (quarantine_check_interval _ <=? 0) eqn:E; [simpl_bool; lia|]. clear E.
  assert ((on_outside (on_world session_torrents) s).1 = (session_torrents (world s.2)).1) as Hts.
  { destruct s as [e n]. unfold on_outside, on_snd, on_world. simpl. by destruct (session_torrents _). }
  subst bk. unfold reprobed_state, booked_state, swept. unfold bind at 1.
  destruct (on_outside _ s) as [ts s1]. cbn [fst snd] in Hts |- *. subst ts.
  change (sweep (e_detector s.1) _ _ _ _) with (sweep_from s).
  unfold bind at 1. destruct (change _ s1) as [u s2]. cbn [snd].
  unfold bind at 1. destruct (sweep_books _ s2) as [b s3]. cbn [fst snd].
  unfold bind at 1. destruct (quarantine_reprobe s3) as [u' s4]. by destruct (sw_trips _).
Qed.

Lemma reprobe_spec (s : Sys) :
  canonical (quarantined (k_state (core s.1))) -> books (core s.1) -> settings_ok (core s.1) ->
  reprobed (now s).1 (core s.1) (reprobed_hashes (now s).1 (now s).2) (core (quarantine_reprobe (W:=W) s).2.1).
Proof.
  intros Hc Hb Hs. unfold quarantine_reprobe, bind.
  pose proof (steady_now (W:=W) (core s.1) s eq_refl) as Hs1.
  destruct (now s) as [at_ s1]. simpl in Hs1. cbn [fst snd]. unfold at_core in Hs1. rewrite <- Hs1 in *.
  by apply reprobe_at_reprobed.
Qed.

Lemma enforced_none now k : enforced now [] k k.
Proof.
  exists (torrents (k_state k)), (quarantined (k_state k)).
  split; [by destruct k as [? [] ? ? ?]|]. split; [done|]. split; [done|]. by intros h t []%elem_of_nil.
Qed.

Lemma pass_spec (s : Sys) :
  let k := core s.1 in
  canonical (quarantined (k_state k)) -> books k -> settings_ok k ->
  0 < quarantine_check_interval (scan (k_cfg k)) ->
  passed s (core (quarantine_pass (W:=W) s).2.1).
Proof.
  intros k Hcan Hb Hset Hon.
  assert (booked (sweep_from s) (e_last_catalog s.1) (sweep_clock s) k (core (booked_state s).1)) as Hbk.
  { apply (sweep_books_spec (sweep_from s) k _ (sweep_clock s)). split; [apply swept_sits|done]. }
  destruct (booked_within _ _ _ _ _ Hbk Hb Hset) as [Hb1 Hset1].
  split; [exact Hbk|]. split; [apply reprobe_spec; [by eapply booked_canonical|done|done]|].
  rewrite (quarantine_pass_eq s Hon). set (r := reprobed_state s). fold (trip_clock s).
  pose proof (sweep_from_trips s) as Hnd. unfold trip_clock. fold r.
  destruct (sw_trips (sweep_from s)) as [|tr trips].
  - assert (at_core (core r.1) (whenM ((sweep_books (sweep_from s) (swept s)).1.2 ||
      (sweep_books (sweep_from s) (swept s)).1.1) push_live r).2) as Hs2
      by (by apply steady_when; [apply steady_push_live|]).
    unfold at_core in Hs2. rewrite Hs2. apply enforced_none.
  - unfold bind at 1. pose proof (steady_now (W:=W) (core r.1) r eq_refl) as Hs1.
    destruct (now r) as [at3 s1]. cbn [fst snd] in *.
    assert (hoare (at_core (core r.1)) (forM (tr :: trips) (enforce_trip (W:=W) at3) ;;; push_live)
      (fun _ s => enforced at3 (tr :: trips) (core r.1) (core s.1))) as Hh.
    { eapply hoare_bind; [by apply enforce_all|]. intros u2 s3 Hs3.
      assert (at_core (core s3.1) (push_live s3).2) as Hs4 by (by apply steady_push_live).
      unfold at_core in Hs4. by rewrite Hs4. }
    exact (Hh s1 Hs1).
Qed.

Lemma passed_safe (s : Sys) k : passed s k -> safe (core s.1) k.
Proof.
  intros (Hbk & [[Hw _ _ _] Hb2 _ _ _] & Hen).
  transitivity (core (booked_state s).1); [by eapply booked_safe|].
  transitivity (core (reprobed_state s).1); [by intros _ _|by eapply enforced_safe].
Qed.

Lemma canonical_hash b : String.length b = 20%nat -> hex_encode (hash_or_zero (hex_encode b)) = hex_encode b.
Proof.
  intros Hb. unfold hash_or_zero, decode_hash. rewrite hex_encode_trim, hex_decode_encode.
  by rewrite (proj2 (Nat.eqb_eq _ _) Hb).
Qed.

(** The registry stays spelled as the engine spells it. *)
Lemma passed_canonical (s : Sys) k :
  passed s k -> canonical (quarantined (k_state (core s.1))) -> canonical (quarantined (k_state k)).
Proof.
  intros (Hbk & [[_ _ Hdom _] _ _ _ _] & m & q & -> & _ & Hout & Hin) Hc.
  pose proof (booked_canonical _ _ _ _ _ Hbk Hc) as Hc1.
  intros h x Hx. simpl in Hx. destruct (decide (h ∈ (sw_trips (sweep_from s)).*1)) as [Ht|Ht].
  - apply list_elem_of_fmap in Ht as ([h' tr] & -> & Ht). simpl in *.
    destruct (sweep_facts (e_detector s.1) (State.quarantined_keys (e_state s.1))
      (broken_piece_discard_bytes (scan (e_cfg s.1))) (broken_piece_min_windows (scan (e_cfg s.1)))
      (session_torrents (world s.2)).1) as (_ & _ & Hseen & Htr).
    apply Htr in Ht as (t & Hin' & <- & _). apply canonical_hash.
    pose proof (session_hashes (world s.2)) as Hlen. rewrite Forall_forall in Hlen. by apply Hlen.
  - destruct (Hout h Ht) as [_ Hq]. rewrite Hq in Hx. apply elem_of_dom_2 in Hx as Hd.
    rewrite Hdom in Hd. apply elem_of_dom in Hd as [y Hy]. by apply (Hc1 h y).
Qed.

(** The entry of a hash that a pass still counts when it comes to the trips: the
    one it had, unless the same pass lifted it because the torrent is held and
    verified to its last byte. *)
Definition standing (s : Sys) (h : string) : option Quarantine :=
  if bool_decide (h ∈ completed_lifts (e_state s.1) (sw_progress (sweep_from s))) then None
  else quarantined (e_state s.1) !! h.

(** A torrent that trips is not among those the sweep lifts as finished. *)
Lemma trip_not_lifted (s : Sys) h tr :
  (h, tr) ∈ sw_trips (sweep_from s) -> h ∉ sw_lifts (sweep_from s) /\ h ∈ sw_seen (sweep_from s).
Proof.
  intros Ht. destruct (sweep_facts (e_detector s.1) (State.quarantined_keys (e_state s.1))
    (broken_piece_discard_bytes (scan (e_cfg s.1))) (broken_piece_min_windows (scan (e_cfg s.1)))
    (session_torrents (world s.2)).1) as (Hl & _ & Hseen & Htr).
  destruct (Htr h tr Ht) as (t & Hin & He & Hf). split; [|by apply Hseen; exists t].
  intros [_ (t' & Hin' & He' & Hf')]%Hl. rewrite <- He' in He. apply hex_encode_inj in He.
  apply list_elem_of_lookup in Hin as [i Hi]. apply list_elem_of_lookup in Hin' as [j Hj].
  assert (i = j) as ->.
  { eapply (NoDup_lookup _ i j (mt_info_hash t) (session_distinct (world s.2))); rewrite list_lookup_fmap.
    - by rewrite Hi.
    - by rewrite Hj, He. }
  congruence.
Qed.

(** The re-probe keeps the attempts, and the booking the entry, of a hash that
    tripped. *)
Lemma standing_attempts (s : Sys) k h tr :
  passed s k -> (h, tr) ∈ sw_trips (sweep_from s) ->
  q_attempts <$> quarantined (k_state (core (reprobed_state s).1)) !! h = q_attempts <$> standing s h.
Proof.
  intros (Hbk & [Hp _ _ _ _] & _) Ht. destruct (trip_not_lifted s h tr Ht) as [Hnl Hseen].
  assert (quarantined (k_state (core (booked_state s).1)) !! h = standing s h) as <-.
  { destruct Hbk as (st & -> & _ & _ & Hsub & Hgone). cbn [k_state core_state core] in *. unfold standing.
    rewrite map_subseteq_spec in Hsub. case_bool_decide as Hc.
    - destruct (quarantined st !! h) as [q|] eqn:E; [|done]. apply Hsub in E.
      rewrite drop_keys_lookup, decide_True in E; [done|]. apply elem_of_app. by right.
    - destruct (quarantined st !! h) as [q|] eqn:E.
      + apply Hsub in E. rewrite drop_keys_lookup in E. by case_decide.
      + destruct (quarantined (e_state s.1) !! h) as [q|] eqn:E2; [|done].
        destruct (Hgone h q E2 E) as [[?|?]%elem_of_app|[? _]]; done. }
  destruct (quarantined (k_state (core (reprobed_state s).1)) !! h) as [q2|] eqn:E.
  - destruct (probed_entries _ _ _ Hp h q2 E) as (q & -> & [->|[_ ->]]); done.
  - apply not_elem_of_dom in E. rewrite (probed_dom _ _ _ Hp) in E. apply not_elem_of_dom in E. by rewrite E.
Qed.

Lemma next_entry_attempts prev prev' title reason trip at_ cooldown retries :
  q_attempts <$> prev = q_attempts <$> prev' ->
  next_quarantine_entry prev title reason trip at_ cooldown retries =
  next_quarantine_entry prev' title reason trip at_ cooldown retries.
Proof. unfold next_quarantine_entry. by intros ->. Qed.
End Pass.

(** An instant far enough ahead to be represented, for the re-arming. *)
Definition cooldown_fits `{Chrono} (now : instant) (s : ScanConfig) : Prop :=
  let d := Z.max (quarantine_check_interval s) (quarantine_cooldown s) in
  duration_from_std (quarantine_cooldown s) = Some (quarantine_cooldown s) /\
  duration_from_std d = Some d /\ MIN_UTC <= now + d <= MAX_UTC.

Lemma rearm_until_exact `{Chrono} now s :
  cooldown_fits now s ->
  rearm_until now (quarantine_cooldown s) (quarantine_check_interval s) =
  now + Z.max (quarantine_check_interval s) (quarantine_cooldown s).
Proof.
  intros (Hc & Hd & Hr). unfold rearm_until. rewrite Hc, Hd. simpl.
  rewrite Z.max_r by lia. rewrite checked_add_spec, bool_decide_true by done. done.
Qed.

(** C16: the re-probe of lapsed quarantines is bounded.  It costs no held torrent
    its place, and every registry entry stays, exactly as it was, except those it
    probed, that is, those whose metadata was had and whose swarm answered when
    their turn came ([reprobed_hashes]): each of these had lapsed and was not
    held, and is closed again for the longer of the cooldown and the watchdog's
    own interval, so no hash is probed twice in that time.  No other torrent
    joins, and the budgets hold as after any other acting. *)
Theorem reprobe_bounded {W : Type} `{World W} `{Decoders} `{Chrono} `{HexCrate} `{UrlCrate}
    `{HashIter} `{Libm} `{StateCodec} `{EventCodec} `{StatsCodec} (s : Engine * Node W) :
  let k := core s.1 in
  let sc := scan (k_cfg k) in
  let at_ := (now s).1 in
  canonical (quarantined (k_state k)) -> books k -> settings_ok k -> cooldown_fits at_ sc ->
  let k' := core (quarantine_reprobe s).2.1 in
  let probed := reprobed_hashes at_ (now s).2 in
  torrents (k_state k) ⊆ torrents (k_state k') /\ within k k' /\ books k' /\
  (forall h, torrents (k_state k) !! h = None -> torrents (k_state k') !! h <> None -> h ∈ probed) /\
  (forall h, h ∉ probed -> quarantined (k_state k') !! h = quarantined (k_state k) !! h) /\
  forall h, h ∈ probed -> exists q, quarantined (k_state k) !! h = Some q /\
    q_cooldown_until q <= at_ /\ torrents (k_state k) !! h = None /\
    quarantined (k_state k') !! h =
      Some (rearm (at_ + Z.max (quarantine_check_interval sc) (quarantine_cooldown sc)) q).
Proof.
  intros k sc at_ Hcan Hb Hset Hfit k' probed. subst k' probed at_. unfold quarantine_reprobe, bind.
  pose proof (steady_now (W:=W) k s eq_refl) as Hs1.
  destruct (now s) as [at_ s1]. simpl in Hs1, Hfit. cbn [fst snd] in *. unfold at_core in Hs1.
  pose proof (reprobe_at_reprobed at_ s1) as Hr. cbv zeta in Hr. rewrite Hs1 in Hr.
  destruct (Hr Hcan Hb Hset) as [[Hw Hk _ _] Hb' Hout Hdone Hj]. clear Hr.
  split; [exact Hk|]. split; [exact Hw|]. split; [exact Hb'|]. split; [|split; [exact Hout|]].
  { intros h Hn Hh. apply not_eq_None_Some in Hh. destruct (Hj h Hh) as [[x Hx]|]; [|done].
    rewrite Hn in Hx. done. }
  intros h Hh. destruct (Hdone h Hh) as (q & Hq & ->). exists q. unfold lapsed_list in Hq.
  rewrite elem_of_sort_by, list_elem_of_filter, elem_of_map_to_list in Hq. destruct Hq as [Hl Hq].
  unfold is_lapsed in Hl. apply andb_true_iff in Hl as [Hl Hn]. simpl in Hl, Hn. apply Z.leb_le in Hl.
  split; [done|]. split; [done|]. split.
  - apply negb_true_iff, bool_decide_eq_false in Hn. by apply eq_None_not_Some.
  - unfold until_of. by rewrite rearm_until_exact.
Qed.

(** C5: a trip is always enforced.  Whatever the sweep of a pass found tripped is
    not held after the pass and stands in the registry, closed by
    [next_quarantine_entry] as of the clock when the trips are taken up: with one
    attempt more than its entry had, or the first attempt when it had none.  The
    count starts over only when the same pass lifted the entry because the
    torrent is held and verified to its last byte ([standing]).  This is so even
    when the session refuses the deletion, the save fails, or the torrent was in
    the session without being held. *)
Theorem trips_enforced {W : Type} `{World W} `{Decoders} `{Chrono} `{HexCrate} `{UrlCrate}
    `{HashIter} `{Libm} `{StateCodec} `{EventCodec} `{StatsCodec} (s : Engine * Node W) h tr :
  let k := core s.1 in
  let sc := scan (k_cfg k) in
  canonical (quarantined (k_state k)) -> books k -> settings_ok k ->
  0 < quarantine_check_interval sc ->
  (h, tr) ∈ sw_trips (sweep_from s) ->
  let k' := core (quarantine_pass s).2.1 in
  torrents (k_state k') !! h = None /\
  exists q, quarantined (k_state k') !! h = Some q /\
    q_attempts q = match standing s h with Some q0 => wrap32 (q_attempts q0 + 1) | None => 1 end /\
    exists title suffix,
      q = next_quarantine_entry (standing s h) title (trip_reason tr suffix) tr (trip_clock s)
            (default (weeks 520) (duration_from_std (quarantine_cooldown sc))) (quarantine_max_retries sc).
Proof.
  intros k sc Hcan Hb Hset Hon Hin k'. subst k'.
  pose proof (pass_spec s Hcan Hb Hset Hon) as Hpass. pose proof (standing_attempts s _ h tr Hpass Hin) as Hst.
  destruct Hpass as (Hbk & [Hp _ _ _ _] & m & q & Hk' & _ & _ & Htr).
  assert (k_cfg (core (reprobed_state s).1) = k_cfg k) as Hcfg.
  { rewrite (same_cfg _ _ _ Hp). by destruct Hbk as (st & -> & _). }
  rewrite Hk'. simpl. destruct (Htr h tr Hin) as (Hm & x & Hx & title & suffix & He). split; [done|].
  exists x. split; [done|]. rewrite Hcfg in He. rewrite (next_entry_attempts _ _ _ _ _ _ _ _ Hst) in He.
  split; [|by exists title, suffix]. rewrite He. simpl. by destruct (standing s h).
Qed.

(** C17: a quarantine is lifted only for a reason.  An entry that a pass takes out
    of the registry either belongs to a torrent the session showed finished, or
    verified to its last byte, or it is an orphan: not in the session, not held,
    not in the catalog (which has been read) and, by the clock the booking of
    the sweep reads, past its cooldown. *)
Theorem lifts_justified {W : Type} `{World W} `{Decoders} `{Chrono} `{HexCrate} `{UrlCrate}
    `{HashIter} `{Libm} `{StateCodec} `{EventCodec} `{StatsCodec} (s : Engine * Node W) h q :
  let k := core s.1 in
  let ts := (session_torrents (world s.2)).1 in
  canonical (quarantined (k_state k)) -> books k -> settings_ok k ->
  0 < quarantine_check_interval (scan (k_cfg k)) ->
  quarantined (k_state k) !! h = Some q ->
  quarantined (k_state (core (quarantine_pass s).2.1)) !! h = None ->
  finished_in ts h \/
  (exists checked t, live_in ts h checked /\ torrents (k_state k) !! h = Some t /\
     completion_lifts checked (t_size_bytes t) = true) \/
  ((forall t, t ∈ ts -> hex_encode (mt_info_hash t) <> h) /\ torrents (k_state k) !! h = None /\
   (exists c, e_last_catalog s.1 = Some c /\ h ∉ c) /\
   q_cooldown_until q <= (utc_now (session_torrents (world s.2)).2).1).
Proof.
  intros k ts Hcan Hb Hset Hon Hq Hn.
  destruct (pass_spec s Hcan Hb Hset Hon) as (Hbk & [Hp _ _ _ _] & m & qs & Hk' & _ & Hout & Htr).
  fold k in Hbk. rewrite Hk' in Hn. simpl in Hn.
  destruct (decide (h ∈ (sw_trips (sweep_from s)).*1)) as [Ht|Ht].
  { apply list_elem_of_fmap in Ht as ([h' tr] & -> & Ht).
    destruct (Htr _ _ Ht) as (_ & x & Hx & _). simpl in *. congruence. }
  destruct (Hout h Ht) as [_ Hq2]. rewrite Hq2 in Hn. apply not_elem_of_dom in Hn.
  rewrite (probed_dom _ _ _ Hp) in Hn. apply not_elem_of_dom in Hn.
  destruct Hbk as (st & Hst & _ & _ & _ & Hgone). rewrite Hst in Hn.
  destruct (sweep_facts (e_detector s.1) (State.quarantined_keys (e_state s.1))
    (broken_piece_discard_bytes (scan (e_cfg s.1))) (broken_piece_min_windows (scan (e_cfg s.1))) ts)
    as (Hl & Hpr & Hseen & _).
  destruct (Hgone h q Hq Hn) as [[Hlift|Hlift]%elem_of_app|(Hns & Hnt & Hcat & Hcool)].
  - left. by apply Hl.
  - right. left. apply completed_lifts_spec in Hlift as (c & t & Hc & Hh & Hcl). exists c, t. split; [|done].
    by apply Hpr.
  - right. right. split; [|split; [done|]; split; [done|]].
    + intros t Hin He. apply Hns, Hseen. by exists t.
    + by rewrite <- sweep_clock_eq.
Qed.

(** ** Witnesses *)

(** The watchdog's node: the session holds [ts], the detector [d], and the
    catalog lists the hash of the registry entry. *)
Definition watch_sys (entry : option Quarantine) (d : Detector) (ts : list Managed) : Engine * Node Toy :=
  let '(e, n) := witness_sys (10 ^ 9) 5 entry in
  (set_last_catalog (Some {[ @hex_encode witness_hex witness_hash ]}) (set_detector d e),
   {| node_fs := node_fs n; registry := registry n;
      world := {| toy_clock := toy_clock (world n);
                  toy_replies := toy_replies (world n) ++
                    [Ok {| status := "200 OK"; is_success := true; body := Ok witness_hash |}];
                  toy_rolls := []; toy_torrents := ts; toy_free := toy_free (world n) |} |}).

Abbreviation reprobe_there :=
  (@quarantine_reprobe Toy witness_world witness_decoders witness_chrono witness_hex witness_urls
     hash_iter_sorted witness_libm witness_codec witness_events witness_stats).
Abbreviation pass_there :=
  (@quarantine_pass Toy witness_world witness_decoders witness_chrono witness_hex witness_urls
     hash_iter_sorted witness_libm witness_codec witness_events witness_stats).

Abbreviation standing_there := (@standing Toy witness_world witness_hex).
Abbreviation trip_clock_there :=
  (@trip_clock Toy witness_world witness_decoders witness_chrono witness_hex witness_urls
     hash_iter_sorted witness_libm witness_codec witness_events witness_stats).
Abbreviation hashes_there :=
  (@reprobed_hashes Toy witness_world witness_decoders witness_chrono witness_hex witness_urls
     hash_iter_sorted witness_libm witness_codec witness_events witness_stats).

(** A lapsed entry is probed: its torrent joins, and its cooldown runs again. *)
Example reprobe_joins :
  let st := e_state (reprobe_there (watch_sys (Some (witness_broken 0)) ∅ [])).2.1 in
  (map_to_list (torrents st)).*1 = [@hex_encode witness_hex witness_hash; "bb"] /\
  q_cooldown_until <$> quarantined st !! @hex_encode witness_hex witness_hash =
    Some (secs 1000000 + DEFAULT_QUARANTINE_COOLDOWN).
Proof. split; vm_compute; reflexivity. Qed.

Lemma watch_canonical entry d ts :
  @canonical witness_hex (quarantined (k_state (core (watch_sys entry d ts).1))).
Proof. destruct entry; [apply map_Forall_singleton; vm_compute; reflexivity|apply map_Forall_empty]. Qed.

Lemma watch_settings entry d ts : settings_ok (core (watch_sys entry d ts).1).
Proof. split; [repeat constructor|vm_compute; split; discriminate]. Qed.

Lemma reprobe_bounded_witness :
  let s := watch_sys (Some (witness_broken 0)) ∅ [] in
  let k := core s.1 in
  let sc := scan (k_cfg k) in
  let at_ := (@now Toy witness_world s).1 in
  let k' := core (reprobe_there s).2.1 in
  let probed := hashes_there at_ (@now Toy witness_world s).2 in
  probed = [@hex_encode witness_hex witness_hash] /\
  torrents (k_state k) ⊆ torrents (k_state k') /\ within k k' /\ books k' /\
  (forall h, torrents (k_state k) !! h = None -> torrents (k_state k') !! h <> None -> h ∈ probed) /\
  (forall h, h ∉ probed -> quarantined (k_state k') !! h = quarantined (k_state k) !! h) /\
  forall h, h ∈ probed -> exists q, quarantined (k_state k) !! h = Some q /\
    q_cooldown_until q <= at_ /\ torrents (k_state k) !! h = None /\
    quarantined (k_state k') !! h =
      Some (rearm (at_ + Z.max (quarantine_check_interval sc) (quarantine_cooldown sc)) q).
Proof.
  split; [vm_compute; reflexivity|].
  apply (@reprobe_bounded Toy witness_world witness_decoders witness_chrono witness_hex
           witness_urls hash_iter_sorted witness_libm witness_codec witness_events witness_stats
           (watch_sys (Some (witness_broken 0)) ∅ [])).
  - apply watch_canonical.
  - apply (witness_books (10 ^ 9) 5 (Some (witness_broken 0))).
  - apply watch_settings.
  - vm_compute. repeat split; discriminate.
Defined.

(** A torrent of the session that fetched without a verified byte. *)
Definition watch_live (fetched : Z) : Managed :=
  {| mt_info_hash := witness_hash; mt_finished := false; mt_progress_bytes := 0;
     mt_live := Some fetched; mt_initializing := false |}.

Definition watch_detector : Detector :=
  {[ @hex_encode witness_hex witness_hash :=
       {| last_checked := 0; last_fetched := 0; wasted_since_progress := 10 ^ 12;
          windows_without_progress := 9 |} ]}.

(** The second trip of a hash with an entry of one attempt. *)
Lemma trips_enforced_witness :
  let s := watch_sys (Some (witness_broken (secs 2000000))) watch_detector [watch_live 5] in
  let h := @hex_encode witness_hex witness_hash in
  let tr := {| wasted_bytes := 10 ^ 12 + 5; windows := 10 |} in
  let k := core s.1 in
  let sc := scan (k_cfg k) in
  let k' := core (pass_there s).2.1 in
  standing_there s h = Some (witness_broken (secs 2000000)) /\
  torrents (k_state k') !! h = None /\
  exists q, quarantined (k_state k') !! h = Some q /\
    q_attempts q = match standing_there s h with Some q0 => wrap32 (q_attempts q0 + 1) | None => 1 end /\
    exists title suffix,
      q = @next_quarantine_entry witness_chrono (standing_there s h) title (trip_reason tr suffix) tr
            (trip_clock_there s)
            (default (weeks 520) (@duration_from_std witness_chrono (quarantine_cooldown sc))) (quarantine_max_retries sc).
Proof.
  split; [vm_compute; reflexivity|].
  apply (@trips_enforced Toy witness_world witness_decoders witness_chrono witness_hex
           witness_urls hash_iter_sorted witness_libm witness_codec witness_events witness_stats
           (watch_sys (Some (witness_broken (secs 2000000))) watch_detector [watch_live 5])).
  - apply watch_canonical.
  - apply (witness_books (10 ^ 9) 5 (Some (witness_broken (secs 2000000)))).
  - apply watch_settings.
  - vm_compute. reflexivity.
  - vm_compute. left.
Defined.

(** An orphan past its cooldown: the catalog lists another hash. *)
Lemma lifts_justified_witness :
  let q := witness_broken 0 in
  let s0 := watch_sys (Some q) ∅ [] in
  let s := (set_last_catalog (Some {[ "aa" ]}) s0.1, s0.2) in
  let ts := (@session_torrents Toy witness_world (world s.2)).1 in
  let h := @hex_encode witness_hex witness_hash in
  let k := core s.1 in
  @finished_in witness_hex ts h \/
  (exists checked t, @live_in witness_hex ts h checked /\ torrents (k_state k) !! h = Some t /\
     completion_lifts checked (t_size_bytes t) = true) \/
  ((forall t, t ∈ ts -> @hex_encode witness_hex (mt_info_hash t) <> h) /\
   torrents (k_state k) !! h = None /\
   (exists c, e_last_catalog s.1 = Some c /\ h ∉ c) /\
   q_cooldown_until q <=
     (@utc_now Toy witness_world (@session_torrents Toy witness_world (world s.2)).2).1).
Proof.
  intros q s0 s ts h k.
  apply (@lifts_justified Toy witness_world witness_decoders witness_chrono witness_hex
           witness_urls hash_iter_sorted witness_libm witness_codec witness_events witness_stats
           s h q).
  - apply (watch_canonical (Some q) ∅ []).
  - apply (witness_books (10 ^ 9) 5 (Some q)).
  - apply (watch_settings (Some q) ∅ []).
  - vm_compute. reflexivity.
  - vm_compute. reflexivity.
  - vm_compute. reflexivity.
Defined.
