(* ===== verification/Scan.v ===== *)
(** One scan, [engine/scan.rs]: the catalog and its collapse guard, the
    maintenance of what is held, and the walk over the candidates.  The walk is
    concurrent: workers evaluate items and send what is eligible, while the
    engine receives and acts; it is a step function on labels ([walk_step]), so
    that an order of the steps is a list of labels. *)

From S2P Require Import Prelude Text Float64 Fs Persist Time Ram Selector Net Quarantine State.
From S2P Require Import AtKey AtTorrent Filter FdLimit Catalog World Config Storage NetStats Torrents.
From S2P Require Import Pool History Humanize Swap Swarm Engine EngineCore Acting Books Budget.
From S2P Require Import Maintain Watchdog.

Definition EVALUATE_CONCURRENCY : nat := 16.

(** [EvaluationDispatch]: the fixed inputs of one walk; the caches, the limiter
    and the counters the workers share with the engine are the engine's. *)
Record Dispatch := {
  d_ctx : EvalCtx;
  d_items : list Item;
  d_held_hashes : gset string;
  d_scan_started_at : instant;
  d_total_candidates : Z;
  d_max_fittable : Z;
  d_blocklist : KeywordBlocklist;
  d_network_stats_path : path;
  (** the floor the walk's own progress snapshots repeat *)
  d_seeder_floor : Z;
}.

(** A walk under way: what is dispatched but not evaluated, the prefilter's own
    counters, the [processed] of the workers, whether the dispatch has returned,
    what was sent and not received, and the variables of the receiving loop. *)
Record Walk := {
  w_pending : list Item;
  w_prefilter : ScanStats;
  w_evaluated : Z;
  w_joined : bool;
  w_queue : list Evaluated;
  w_counts : list Z;
  w_batch : list Evaluated;
  w_acted : gset string;
  w_held : Z;
  w_processed : Z;
  w_outcome : option (result error unit);
}.

Definition INTERRUPTED : error := "scan interrupted by shutdown".

(** The steps of a walk: a worker evaluates the [i]th item still pending, the
    progress is saved, the dispatch returns, one evaluation is received, the
    loop is left. *)
Inductive Label := Evaluate (i : nat) | SaveProgress | Join | Receive | Finish.

#[export] Instance label_eq_dec : EqDecision Label.
Proof. solve_decision. Defined.

(** *** Updates of a walk *)

Definition evaluated_item (i : nat) (r : option Evaluated) (w : Walk) : Walk :=
  {| w_pending := delete i (w_pending w); w_prefilter := w_prefilter w;
     w_evaluated := wrap64 (w_evaluated w + 1); w_joined := w_joined w;
     w_queue := w_queue w ++ from_option (fun e => [e]) [] r; w_counts := w_counts w;
     w_batch := w_batch w; w_acted := w_acted w; w_held := w_held w;
     w_processed := w_processed w; w_outcome := w_outcome w |}.

Definition joined (w : Walk) : Walk :=
  {| w_pending := w_pending w; w_prefilter := w_prefilter w; w_evaluated := w_evaluated w;
     w_joined := true; w_queue := w_queue w; w_counts := w_counts w; w_batch := w_batch w;
     w_acted := w_acted w; w_held := w_held w; w_processed := w_processed w;
     w_outcome := w_outcome w |}.

(** [emit_rx.recv()] and the floor accumulator. *)
Definition popped (ev : Evaluated) (queue : list Evaluated) (w : Walk) : Walk :=
  {| w_pending := w_pending w; w_prefilter := w_prefilter w; w_evaluated := w_evaluated w;
     w_joined := w_joined w; w_queue := queue; w_counts := w_counts w ++ [ev_seeders ev];
     w_batch := w_batch w; w_acted := w_acted w; w_held := w_held w;
     w_processed := w_processed w; w_outcome := w_outcome w |}.

Definition pushed (ev : Evaluated) (w : Walk) : Walk :=
  {| w_pending := w_pending w; w_prefilter := w_prefilter w; w_evaluated := w_evaluated w;
     w_joined := w_joined w; w_queue := w_queue w; w_counts := w_counts w;
     w_batch := w_batch w ++ [ev]; w_acted := w_acted w; w_held := w_held w;
     w_processed := w_processed w + 1; w_outcome := w_outcome w |}.

Definition acted_on (r : gset string * Z) (w : Walk) : Walk :=
  {| w_pending := w_pending w; w_prefilter := w_prefilter w; w_evaluated := w_evaluated w;
     w_joined := w_joined w; w_queue := w_queue w; w_counts := w_counts w;
     w_batch := w_batch w; w_acted := r.1; w_held := r.2;
     w_processed := w_processed w; w_outcome := w_outcome w |}.

Definition ended (r : result error unit) (w : Walk) : Walk :=
  {| w_pending := w_pending w; w_prefilter := w_prefilter w; w_evaluated := w_evaluated w;
     w_joined := w_joined w; w_queue := w_queue w; w_counts := w_counts w;
     w_batch := w_batch w; w_acted := w_acted w; w_held := w_held w;
     w_processed := w_processed w; w_outcome := Some r |}.

Section Scan.
Context {W : Type} `{World W} `{Decoders} `{Chrono} `{HexCrate} `{UrlCrate} `{HashIter} `{Libm}.
Context `{StateCodec} `{EventCodec} `{StatsCodec} `{CacheCodec}.
(** [str::to_lowercase]. *)
Context (to_lowercase : string -> string).

Abbreviation Sys := (Engine * Node W)%type.

Definition shutdown_now : M Sys bool := on_outside (on_world shutdown_signalled).

Definition save_network_stats (s : Snapshot) : M Sys (result error unit) :=
  let* p := engine network_stats_path in
  on_outside (on_fs (save_snapshot p s)).

(** *** Starting the evaluation *)

Definition prefilter_of (d : Dispatch) (i : Item) : Prefilter :=
  prefilter_reason to_lowercase i (d_held_hashes d) (d_blocklist d) (d_max_fittable d).

(** The prefilter of [run_evaluation]: what it counts and what is left. *)
Fixpoint prefilter_items (d : Dispatch) (items : list Item) (stats : ScanStats) (pending : list Item)
    : M Sys (ScanStats * list Item) :=
  match items with
  | [] => ret (stats, pending)
  | item :: items =>
      let* stop := shutdown_now in
      if (stop : bool) then ret (stats, pending)
      else
        match prefilter_of d item with
        | PreHeld => prefilter_items d items (fetch_add SkippedHeld 1 stats) pending
        | PreBlocked => prefilter_items d items (fetch_add SkippedBlocked 1 stats) pending
        | PreTooBig => prefilter_items d items (fetch_add SkippedTooBig 1 stats) pending
        | PrePending => prefilter_items d items stats (pending ++ [item])
        end
  end.

(** Handing the pending items out, chunk by chunk. *)
Fixpoint dispatch_chunks (fuel : nat) (pending dispatched : list Item) : M Sys (list Item) :=
  match fuel, pending with
  | S fuel, _ :: _ =>
      let* stop := shutdown_now in
      if (stop : bool) then ret dispatched
      else dispatch_chunks fuel (drop (EVALUATE_CONCURRENCY * 4) pending)
             (dispatched ++ take (EVALUATE_CONCURRENCY * 4) pending)
  | _, _ => ret dispatched
  end.

Definition start_walk (d : Dispatch) (held_count : Z) : M Sys Walk :=
  let* '(stats, pending) := prefilter_items d (d_items d) stats_zero [] in
  let* dispatched := dispatch_chunks (length pending) pending [] in
  ret {| w_pending := dispatched; w_prefilter := stats; w_evaluated := 0; w_joined := false;
         w_queue := []; w_counts := []; w_batch := []; w_acted := ∅; w_held := held_count;
         w_processed := 0; w_outcome := None |}.

(** *** The steps *)

(** The progress snapshot the walk saves every two seconds. *)
Definition save_walk_progress (d : Dispatch) (w : Walk) : M Sys unit :=
  let* _ := on_outside (on_fs (save_snapshot (d_network_stats_path d)
    {| scan_started_at := Some (d_scan_started_at d); scan_completed_at := None;
       total_candidates := d_total_candidates d; processed_candidates := w_evaluated w;
       snap_seeder_floor := d_seeder_floor d |})) in
  ret tt.

Definition merge_prefilter (w : Walk) : M Sys unit :=
  change (fun e => set_shared
    {| sh_rate := sh_rate (e_shared e); sh_cache := sh_cache (e_shared e);
       sh_stats := add_into (sh_stats (e_shared e)) (w_prefilter w) |} e).

Definition act_on_batch (floor : Z) (w : Walk) : M Sys Walk :=
  let* r := act_on_windowed (w_batch w) (w_acted w) (w_held w) floor in
  ret (acted_on r w).

(** [batch.push(ev)], and acting on every sixteenth arrival. *)
Definition take_in (floor : Z) (ev : Evaluated) (w : Walk) : M Sys Walk :=
  let w := pushed ev w in
  if (length (w_batch w) mod EVALUATE_CONCURRENCY =? 0)%nat then act_on_batch floor w else ret w.

(** One received evaluation; once the dispatch has returned, the rest is drained
    without another look at the shutdown signal. *)
Definition receive (floor : Z) (ev : Evaluated) (queue : list Evaluated) (w : Walk) : M Sys Walk :=
  let w := popped ev queue w in
  if w_joined w then take_in floor ev w
  else
    let* stop := shutdown_now in
    if (stop : bool) then ret (ended (Err INTERRUPTED) w) else take_in floor ev w.

(** After the loop: the batch's tail is acted on. *)
Definition leave (floor : Z) (w : Walk) : M Sys Walk :=
  let* stop := shutdown_now in
  if (stop : bool) then ret (ended (Err INTERRUPTED) w)
  else
    let* w := (if w_processed w mod Z.of_nat EVALUATE_CONCURRENCY =? 0 then ret w
               else act_on_batch floor w) in
    ret (ended (Ok tt) w).

(** One step, [None] when it cannot happen.  Each worker's evaluation and each
    acting is one step; a worker runs when it holds a permit, which any of the
    pending items may. *)
Definition walk_step (d : Dispatch) (floor : Z) (l : Label) (c : Walk * Sys) : option (Walk * Sys) :=
  let '(w, s) := c in
  match w_outcome w with
  | Some _ => None
  | None =>
      match l with
      | Evaluate i =>
          match w_pending w !! i with
          | Some item =>
              let '(r, s) := with_shared (evaluate_one_item (d_ctx d) item) s in
              Some (evaluated_item i r w, s)
          | None => None
          end
      | SaveProgress => if w_joined w then None else Some (w, (save_walk_progress d w s).2)
      | Join =>
          if w_joined w then None
          else if bool_decide (w_pending w = []) || (shutdown_now s).1 then
            Some (joined w, (merge_prefilter w s).2)
          else None
      | Receive =>
          match w_queue w with
          | ev :: queue => Some (receive floor ev queue w s)
          | [] => None
          end
      | Finish =>
          if w_joined w && bool_decide (w_queue w = []) then Some (leave floor w s) else None
      end
  end.

Fixpoint walk_run (d : Dispatch) (floor : Z) (ls : list Label) (c : Walk * Sys)
    : option (Walk * Sys) :=
  match ls with
  | [] => Some c
  | l :: ls => walk_step d floor l c ≫= walk_run d floor ls
  end.

(** *** The scan around the walk *)

Definition hashes_held (held : list Torrent) : gset string := list_to_set (t_info_hash <$> held).

(** The catalog lists too few of the held torrents to be believed about the
    others. *)
Definition collapsed (percent : Z) (held : list Torrent) (catalog : gset string) : bool :=
  catalog_collapsed (hashes_held held) catalog (length held) percent.

Definition item_hashes (items : list Item) : gset string :=
  list_to_set ((fun i => hex_encode (item_info_hash i)) <$> items).

(** [evaluation_dispatch], and the floor the walk loads for itself. *)
Definition evaluation_dispatch (items : list Item) (held_hashes : gset string) (started : instant)
    (total max_fittable : Z) : M Sys Dispatch :=
  let* e := engine id in
  let* floor := snapshot_floor in
  ret {| d_ctx := {| ctx_data_dir := data_dir (e_cfg e);
                     ctx_moderation_bypass := moderation_delay (scan (e_cfg e));
                     ctx_torrent_base_url := e_base_url e;
                     ctx_scrape_backoff := e_scrape_backoff e |};
         d_items := items; d_held_hashes := held_hashes; d_scan_started_at := started;
         d_total_candidates := total; d_max_fittable := max_fittable;
         d_blocklist := e_blocklist e; d_network_stats_path := network_stats_path e;
         d_seeder_floor := floor |}.

(** Fresh counters, with the size of the whole library. *)
Definition reset_stats (items : list Item) (e : Engine) : Engine :=
  set_shared {| sh_rate := sh_rate (e_shared e); sh_cache := sh_cache (e_shared e);
                sh_stats := fun k => if decide (k = LibraryBytes)
                                     then wrap64 (sumZ item_size_bytes items) else 0 |} e.

(** What a scan does to the held set before it looks for candidates. *)
Definition maintain_held (held : list Torrent) (catalog : gset string) : M Sys (result error unit) :=
  let* percent := engine (fun e => catalog_collapse_percent (e_cfg e)) in
  whenM (negb (collapsed percent held catalog)) (remove_deleted_torrents held catalog) ;;;
  confirm_listed catalog ;;;
  refresh_held_seeder_counts ;;;
  let* stop := shutdown_now in
  if (stop : bool) then ret (Err INTERRUPTED)
  else evict_stalled_torrents catalog ;;; ret (Ok tt).

Definition in_progress_snapshot (started : instant) (total floor : Z) : Snapshot :=
  {| scan_started_at := Some started; scan_completed_at := None; total_candidates := total;
     processed_candidates := 0; snap_seeder_floor := floor |}.

(** Up to the start of the walk: its inputs, and the floor in force. *)
Definition begin_scan : M Sys (result error (Dispatch * Z)) :=
  let* started := now in
  let* floor := snapshot_floor in
  let? _ := save_network_stats (in_progress_snapshot started 0 floor) in
  let? loaded := load_catalog in
  let* items := on_outside (on_world (shuffle_items (items loaded.1))) in
  let catalog := item_hashes items in
  change (set_last_catalog (Some catalog)) ;;;
  let* held := engine (fun e => State.all (e_state e)) in
  let held_hashes := hashes_held held in
  let? _ := maintain_held held catalog in
  let* e := engine id in
  let max_fittable := max_fittable_size e in
  let total := count_pending to_lowercase items held_hashes (e_blocklist e) max_fittable in
  let? _ := save_network_stats (in_progress_snapshot started total floor) in
  change (reset_stats items) ;;;
  change (set_counts []) ;;;
  let* d := evaluation_dispatch items held_hashes started total max_fittable in
  ret (Ok (d, floor)).

(** The floor the next scan starts from: this one's, unless nothing was
    evaluated. *)
Definition next_floor (floor : Z) (counts : list Z) : Z :=
  match counts with [] => floor | _ => seeder_floor counts end.

(** [cache.save()]. *)
Definition save_scrape_cache : M Sys (result error unit) :=
  let* sh := engine e_shared in
  on_outside (on_fs (swarm_save (sh_cache sh))).

Definition end_scan (d : Dispatch) (floor : Z) (w : Walk) : M Sys (result error unit) :=
  change (set_counts (w_counts w)) ;;;
  let* completed := now in
  let? _ := save_network_stats
    {| scan_started_at := Some (d_scan_started_at d); scan_completed_at := Some completed;
       total_candidates := d_total_candidates d; processed_candidates := w_processed w;
       snap_seeder_floor := next_floor floor (w_counts w) |} in
  change (fun e => set_last_scan (Some
    {| ls_eligible := sh_stats (e_shared e) Eligible;
       ls_scrape_requests := sh_stats (e_shared e) ScrapeRequests;
       ls_scrape_cached := sh_stats (e_shared e) ScrapeCached;
       ls_processed := w_processed w; ls_total := d_total_candidates d |}) e) ;;;
  save_scrape_cache.

(** A scan whose walk takes the steps [ls]; [None] when they do not end it. *)
Definition scan_once_shutdown (ls : list Label) : M Sys (option (result error unit)) :=
  let* r := begin_scan in
  match r with
  | Err e => ret (Some (Err e))
  | Ok (d, floor) =>
      let* held_count := engine (fun e => Z.of_nat (length (State.all (e_state e)))) in
      let* w := start_walk d held_count in
      fun s =>
        match walk_run d floor ls (w, s) with
        | Some (w, s) =>
            match w_outcome w with
            | Some (Ok _) => let '(r, s) := end_scan d floor w s in (Some r, s)
            | Some (Err e) => (Some (Err e), s)
            | None => (None, s)
            end
        | None => (None, s)
        end
  end.
End Scan.

(** ** The maintenance of a scan *)

Section Maintenance.
Context {W : Type} `{World W} `{Decoders} `{Chrono} `{HexCrate} `{UrlCrate} `{HashIter} `{Libm}.
Context `{StateCodec} `{EventCodec} `{StatsCodec} `{CacheCodec}.

Abbreviation Sys := (Engine * Node W)%type.

Lemma shrinks_any (P : string -> Prop) k (s : Sys) : shrinks P k s -> shrinks (fun _ => False) k s.
Proof. by apply shrinks_weaken. Qed.

Lemma shrinks_all (P : string -> Prop) k (s : Sys) : shrinks (fun _ => True) k s -> shrinks P k s.
Proof. by apply shrinks_weaken. Qed.

(** What leaves by the maintenance: with a collapsed catalog, only what it
    lists. *)
Lemma maintain_shrinks k held catalog :
  hoare (at_core k) (maintain_held (W:=W) held catalog) (fun _ =>
    shrinks (fun h => collapsed (catalog_collapse_percent (k_cfg k)) held catalog = true /\
                      h ∉ catalog) k).
Proof.
  unfold maintain_held. apply after_engine. intros e He.
  assert (e_cfg e = k_cfg k) as -> by (by rewrite <- He).
  set (P := fun h => collapsed _ held catalog = true /\ h ∉ catalog).
  apply hoare_bind with (R := fun _ => shrinks P k).
  { unfold P. destruct (collapsed _ held catalog); simpl; [apply hoare_ret, shrinks_id|].
    eapply hoare_weaken; [apply remove_deleted_shrinks|done|]. intros u s.
    apply shrinks_weaken. by intros h [? _]. }
  intros _. apply hoare_bind with (R := fun _ => shrinks P k).
  { apply shrinks_seq. intros k'. eapply hoare_weaken; [apply confirm_listed_shrinks|done|].
    intros u s. apply shrinks_all. }
  intros _. apply hoare_bind with (R := fun _ => shrinks P k).
  { apply shrinks_seq. intros k'. eapply hoare_weaken; [apply refresh_shrinks|done|].
    intros u s. apply shrinks_all. }
  intros _. apply hoare_bind with (R := fun _ => shrinks P k).
  { apply shrinks_steady. unfold shutdown_now. auto with keepat. }
  intros [|]; [by apply hoare_ret|]. eapply hoare_bind with (R := fun _ => shrinks P k).
  { apply shrinks_seq. intros k'. eapply hoare_weaken; [apply evict_stalled_shrinks|done|].
    intros u s. apply shrinks_weaken. unfold P. tauto. }
  intros _. by apply hoare_ret.
Qed.
End Maintenance.

(** C6: the collapse guard protects the data.  When the catalog lists fewer of the
    held torrents than the configured share, the maintenance of the scan takes
    no torrent out that the catalog does not list: each is still held, at the
    same place and size, whatever its age and whatever the session answers. *)
Theorem collapse_guard_protects {W : Type} `{World W} `{Decoders} `{Chrono} `{HexCrate} `{UrlCrate}
    `{HashIter} `{Libm} `{StateCodec} `{EventCodec} catalog (s : Engine * Node W) h t :
  let k := core s.1 in
  collapsed (catalog_collapse_percent (k_cfg k)) (State.all (k_state k)) catalog = true ->
  torrents (k_state k) !! h = Some t -> h ∉ catalog ->
  exists t', torrents (k_state (core (maintain_held (State.all (k_state k)) catalog s).2.1)) !! h = Some t' /\
    charged_as t t'.
Proof.
  intros k Hcol Ht Hh.
  destruct (maintain_shrinks k (State.all (k_state k)) catalog s eq_refl) as (m & Hm & Hk & Hs).
  unfold at_core in Hs. rewrite Hs. simpl. destruct (Hk h) as [t' Ht']; [done|by exists t|].
  exists t'. split; [done|]. destruct (Hm h t' Ht') as (t0 & Ht0 & Hc). by simplify_eq.
Qed.

(** ** Steps of a walk *)

Section Walks.
Context {W : Type} `{World W} `{Decoders} `{Chrono} `{HexCrate} `{UrlCrate} `{HashIter} `{Libm}.
Context `{StateCodec} `{EventCodec} `{StatsCodec} `{CacheCodec}.

Abbreviation Sys := (Engine * Node W)%type.

(** *** What a step does to the walk *)

(** A receiving step, as far as the queue goes. *)
Record received (queue : list Evaluated) (w w' : Walk) : Prop := {
  rc_pending : w_pending w' = w_pending w;
  rc_joined : w_joined w' = w_joined w;
  rc_queue : w_queue w' = queue;
  rc_evaluated : w_evaluated w' = w_evaluated w;
  rc_outcome : w_outcome w' = w_outcome w \/ w_outcome w' = Some (Err INTERRUPTED);
}.

Lemma take_in_shape floor ev w (s : Sys) :
  w_pending (take_in floor ev w s).1 = w_pending w /\
  w_joined (take_in floor ev w s).1 = w_joined w /\
  w_queue (take_in floor ev w s).1 = w_queue w /\
  w_evaluated (take_in floor ev w s).1 = w_evaluated w /\
  w_outcome (take_in floor ev w s).1 = w_outcome w.
Proof.
  unfold take_in. destruct (_ =? 0)%nat; [|done]. unfold act_on_batch, bind.
  by destruct (act_on_windowed _ _ _ _ s).
Qed.

Lemma receive_shape floor ev queue w (s : Sys) : received queue w (receive floor ev queue w s).1.
Proof.
  unfold receive. destruct (w_joined _) eqn:Ej.
  - destruct (take_in_shape floor ev (popped ev queue w) s) as (Hp & Hj & Hq & He & Ho).
    split; [done|done|done|done|by left].
  - unfold bind. destruct (shutdown_now s) as [[|] s1]; [split; [done..|by right]|].
    destruct (take_in_shape floor ev (popped ev queue w) s1) as (Hp & Hj & Hq & He & Ho).
    split; [done|done|done|done|by left].
Qed.

Lemma leave_ends floor w (s : Sys) : is_Some (w_outcome (leave floor w s).1).
Proof.
  unfold leave, bind. destruct (shutdown_now s) as [[|] s1]; [by eexists|].
  destruct (_ =? 0); [by eexists|]. unfold act_on_batch, bind.
  destruct (act_on_windowed _ _ _ _ s1). by eexists.
Qed.

(** *** How much is left to do *)

(** The steps, saves apart, that a walk has left. *)
Definition left_to_do (w : Walk) : nat :=
  match w_outcome w with
  | Some _ => 0
  | None => 2 * length (w_pending w) + length (w_queue w) + (if w_joined w then 1 else 2)
  end.

Definition working (l : Label) : nat := if decide (l = SaveProgress) then 0 else 1.

Lemma step_works d floor l w w' (s s' : Sys) :
  walk_step d floor l (w, s) = Some (w', s') -> (left_to_do w' + working l <= left_to_do w)%nat.
Proof.
  unfold walk_step. destruct (w_outcome w) as [r|] eqn:Eo; [done|]. destruct l as [i| | | |]; simpl.
  - destruct (w_pending w !! i) as [item|] eqn:Ei; [|done].
    destruct (with_shared _ s) as [r s1]. intros [= <- _].
    unfold left_to_do. simpl. rewrite Eo, length_app.
    apply lookup_lt_Some in Ei as Hlt. rewrite (length_delete _ i) by (by eexists).
    assert (length (from_option (fun e : Evaluated => [e]) [] r) <= 1)%nat by (destruct r; simpl; lia).
    unfold working. simpl. lia.
  - destruct (w_joined w) eqn:Ej; [done|]. intros [= <- _]. unfold working. simpl. lia.
  - destruct (w_joined w) eqn:Ej; [done|]. destruct (_ || _); [|done]. intros [= <- _].
    unfold left_to_do, working. simpl. rewrite Eo, Ej. simpl. lia.
  - destruct (w_queue w) as [|ev queue] eqn:Eq; [done|]. intros [= Hw].
    destruct (receive_shape floor ev queue w s) as [Hp Hj Hq _ Ho]. rewrite Hw in *. simpl in *.
    unfold left_to_do, working. simpl. rewrite Eo, Hp, Hj, Hq, Eq.
    destruct Ho as [->| ->]; [rewrite Eo|]; simpl; destruct (w_joined w); lia.
  - destruct (w_joined w) eqn:Ej; [|done]. destruct (bool_decide _); [|done]. intros [= Hw].
    pose proof (leave_ends floor w s) as [r Hr]. rewrite Hw in Hr. simpl in Hr.
    unfold left_to_do, working. simpl. rewrite Eo, Hr, Ej. simpl. lia.
Qed.

Lemma run_works d floor ls : forall w (s : Sys) w' s',
  walk_run d floor ls (w, s) = Some (w', s') ->
  (left_to_do w' + length (filter (fun l => l <> SaveProgress) ls) <= left_to_do w)%nat.
Proof.
  induction ls as [|l ls IH]; intros w s w' s'; cbn [walk_run].
  - intros [= <- <-]. simpl. lia.
  - destruct (walk_step d floor l (w, s)) as [[w1 s1]|] eqn:E; [|done]. cbn [mbind option_bind].
    intros Hr. apply IH in Hr. apply step_works in E. rewrite filter_cons. unfold working in E.
    destruct (decide (l = SaveProgress)) as [->|Hne].
    + rewrite decide_False by tauto. lia.
    + rewrite decide_True by done. simpl. lia.
Qed.

(** A walk that has not ended can take a step other than a save. *)
Lemma step_exists d floor w (s : Sys) :
  w_outcome w = None -> exists l c', l <> SaveProgress /\ walk_step d floor l (w, s) = Some c'.
Proof.
  intros Ho. unfold walk_step. rewrite Ho.
  destruct (w_queue w) as [|ev queue] eqn:Eq; [|exists Receive; by eexists].
  destruct (w_joined w) eqn:Ej; [exists Finish; by eexists|].
  destruct (w_pending w) as [|item pending] eqn:Ep.
  - exists Join. by eexists.
  - exists (Evaluate 0). cbn [lookup list_lookup]. destruct (with_shared _ s) as [r s1]. by eexists.
Qed.

Lemma run_app d floor ls ls' (c : Walk * Sys) :
  walk_run d floor (ls ++ ls') c = walk_run d floor ls c ≫= walk_run d floor ls'.
Proof.
  revert c. induction ls as [|l ls IH]; intros c; [done|]. cbn [walk_run app].
  destruct (walk_step d floor l c) as [c'|]; [|done]. apply IH.
Qed.

Lemma run_finishes d floor n : forall w (s : Sys), (left_to_do w <= n)%nat ->
  exists ls w' s', walk_run d floor ls (w, s) = Some (w', s') /\ is_Some (w_outcome w') /\
    Forall (fun l => l <> SaveProgress) ls.
Proof.
  induction n as [|n IH]; intros w s Hn; destruct (w_outcome w) as [r|] eqn:Eo;
    try (exists [], w, s; split; [done|]; split; [by eexists|constructor]).
  - unfold left_to_do in Hn. rewrite Eo in Hn. destruct (w_joined w); lia.
  - destruct (step_exists d floor w s Eo) as (l & [w1 s1] & Hl & Hstep).
    pose proof (step_works _ _ _ _ _ _ _ Hstep) as Hw. unfold working in Hw.
    rewrite decide_False in Hw by done.
    destruct (IH w1 s1) as (ls & w' & s' & Hr & Ho & Hls); [lia|].
    exists (l :: ls), w', s'. split; [cbn [walk_run]; by rewrite Hstep|]. split; [done|]. by constructor.
Qed.
End Walks.

(** ** The start of a walk *)

Section Starting.
Context {W : Type} `{World W} `{Decoders} `{Chrono} `{HexCrate} `{UrlCrate} `{HashIter} `{Libm}.
Context `{StateCodec} `{EventCodec} `{StatsCodec} `{CacheCodec}.
Context (to_lowercase : string -> string).

Abbreviation Sys := (Engine * Node W)%type.

(** No shutdown is ever signalled. *)
Definition undisturbed : Prop := forall w : W, (shutdown_signalled w).1 = false.

Lemma shutdown_false (s : Sys) : undisturbed -> (shutdown_now s).1 = false.
Proof.
  intros Hu. destruct s as [e n]. unfold shutdown_now, on_outside, on_snd, on_world.
  pose proof (Hu (world n)) as Hw. by destruct (shutdown_signalled (world n)).
Qed.

Lemma steady_shutdown : steady (shutdown_now (W:=W)).
Proof. unfold shutdown_now. auto with keepat. Qed.
#[local] Hint Resolve steady_shutdown : keepat.

(** The items a scan announces: [count_pending] counts them. *)
Definition announced (d : Dispatch) (items : list Item) : list Item :=
  filter (fun i => prefilter_of to_lowercase d i = PrePending) items.

Lemma prefilter_shape d items : forall stats pending (s : Sys),
  exists more, (prefilter_items to_lowercase d items stats pending s).1.2 = pending ++ more /\
    sublist more (announced d items) /\ (undisturbed -> more = announced d items).
Proof.
  induction items as [|i items IH]; intros stats pending s.
  { exists []. by rewrite app_nil_r. }
  cbn [prefilter_items]. unfold announced. rewrite filter_cons. unfold bind at 1.
  pose proof (shutdown_false s) as Hsd. destruct (shutdown_now s) as [stop s1]. simpl in Hsd.
  destruct stop.
  { exists []. simpl. rewrite app_nil_r. split; [done|]. split; [apply sublist_nil_l|].
    intros Hu. by specialize (Hsd Hu). }
  destruct (prefilter_of to_lowercase d i) eqn:Ep;
    try (rewrite decide_False by done; apply IH).
  rewrite decide_True by done. destruct (IH stats (pending ++ [i]) s1) as (more & Hm & Hsub & Hu).
  exists (i :: more). rewrite Hm, <- app_assoc. split; [done|]. split; [by constructor|].
  intros Hun. by rewrite (Hu Hun).
Qed.

Lemma dispatch_shape fuel : forall pending dispatched (s : Sys),
  exists more, (dispatch_chunks fuel pending dispatched s).1 = dispatched ++ more /\
    sublist more pending /\ (undisturbed -> (length pending <= fuel)%nat -> more = pending).
Proof.
  induction fuel as [|fuel IH]; intros pending dispatched s.
  { exists []. simpl. rewrite app_nil_r. split; [done|]. split; [apply sublist_nil_l|].
    intros _ Hl. by destruct pending; [|simpl in Hl; lia]. }
  cbn [dispatch_chunks]. destruct pending as [|i pending].
  { exists []. simpl. by rewrite app_nil_r. }
  set (p := i :: pending). unfold bind at 1.
  pose proof (shutdown_false s) as Hsd. destruct (shutdown_now s) as [stop s1]. simpl in Hsd.
  destruct stop.
  { exists []. simpl. rewrite app_nil_r. split; [done|]. split; [apply sublist_nil_l|].
    intros Hu. by specialize (Hsd Hu). }
  set (n := (EVALUATE_CONCURRENCY * 4)%nat).
  destruct (IH (drop n p) (dispatched ++ take n p) s1) as (more & Hm & Hsub & Hu).
  exists (take n p ++ more). rewrite Hm, <- app_assoc. split; [done|]. split.
  - etransitivity; [by apply sublist_app; [reflexivity|exact Hsub]|]. by rewrite take_drop.
  - intros Hun Hl. rewrite Hu; [apply take_drop|done|]. rewrite length_drop.
    unfold n, EVALUATE_CONCURRENCY. lia.
Qed.

(** A walk that starts. *)
Record starting (d : Dispatch) (held : Z) (w : Walk) : Prop := {
  st_pending : sublist (w_pending w) (announced d (d_items d));
  st_all : undisturbed -> w_pending w = announced d (d_items d);
  st_fresh : w_joined w = false /\ w_queue w = [] /\ w_counts w = [] /\ w_batch w = [] /\
             w_processed w = 0 /\ w_evaluated w = 0 /\ w_outcome w = None;
  st_held : w_held w = held;
  st_acted : w_acted w = ∅;
}.

Lemma start_shape d held (s : Sys) : starting d held (start_walk to_lowercase d held s).1.
Proof.
  unfold start_walk, bind.
  destruct (prefilter_shape d (d_items d) stats_zero [] s) as (pending & Hp & Hsub & Hu).
  destruct (prefilter_items _ _ _ _ _ s) as [[stats p] s1]. simpl in Hp. subst p.
  destruct (dispatch_shape (length pending) pending [] s1) as (more & Hm & Hsub2 & Hu2).
  destruct (dispatch_chunks _ _ _ s1) as [dispatched s2]. simpl in Hm. subst dispatched.
  split; simpl; [by etransitivity| |done|done|done].
  intros Hun. rewrite Hu2, Hu; [done..|reflexivity].
Qed.

Lemma steady_start d held : steady (start_walk (W:=W) to_lowercase d held).
Proof.
  unfold start_walk. apply steady_bind.
  - generalize stats_zero, ([] : list Item). induction (d_items d) as [|i items IH]; intros stats p;
      cbn [prefilter_items]; [auto with keepat|].
    apply steady_bind; [auto with keepat|]. intros [|]; [auto with keepat|].
    destruct (prefilter_of _ _ _); apply IH.
  - intros [stats pending]. apply steady_bind; [|auto with keepat].
    generalize (length pending), ([] : list Item). intros fuel. revert pending.
    induction fuel as [|fuel IH]; intros [|i pending] p; cbn [dispatch_chunks]; auto with keepat.
    apply steady_bind; [auto with keepat|]. intros [|]; [auto with keepat|]. apply IH.
Qed.
End Starting.

(** C10: every walk ends.  Whatever the order of its steps, a walk over a catalog
    takes at most two steps for an item that is announced, and two to be left;
    only the periodic saves of the progress are not bounded by that. *)
Theorem walk_terminates {W : Type} `{World W} `{Decoders} `{Chrono} `{HexCrate} `{UrlCrate}
    `{HashIter} `{Libm} `{StateCodec} `{EventCodec} `{StatsCodec} to_lowercase d held floor ls
    (s0 s : Engine * Node W) w s' :
  walk_run d floor ls ((start_walk to_lowercase d held s0).1, s) = Some (w, s') ->
  (length (filter (fun l => l <> SaveProgress) ls) <= 2 * length (announced to_lowercase d (d_items d)) + 2)%nat.
Proof.
  intros Hr. apply run_works in Hr.
  destruct (start_shape to_lowercase d held s0) as [Hp _ (Hj & Hq & _ & _ & _ & _ & Ho) _ _].
  apply sublist_length in Hp. unfold left_to_do at 2 in Hr. rewrite Hj, Hq, Ho in Hr. simpl in Hr. lia.
Qed.

(** C11: no order of the steps gets a walk stuck: a walk that has not ended can
    always take a step that is not a save of the progress, and any steps taken
    so far can be continued to its end. *)
Theorem walk_never_stuck {W : Type} `{World W} `{Decoders} `{Chrono} `{HexCrate} `{UrlCrate}
    `{HashIter} `{Libm} `{StateCodec} `{EventCodec} `{StatsCodec} d floor ls c0 w
    (s : Engine * Node W) :
  walk_run d floor ls c0 = Some (w, s) -> w_outcome w = None ->
  (exists l c, l <> SaveProgress /\ walk_step d floor l (w, s) = Some c) /\
  exists ls' w' s', Forall (fun l => l <> SaveProgress) ls' /\
    walk_run d floor (ls ++ ls') c0 = Some (w', s') /\ is_Some (w_outcome w').
Proof.
  intros Hr Ho. split; [by apply step_exists|].
  destruct (run_finishes d floor (left_to_do w) w s) as (ls' & w' & s' & Hr' & Ho' & Hls); [done|].
  exists ls', w', s'. split; [done|]. split; [|done]. rewrite run_app, Hr. exact Hr'.
Qed.

(** ** What a walk keeps *)

Section Keeping.
Context {W : Type} `{World W} `{Decoders} `{Chrono} `{HexCrate} `{UrlCrate} `{HashIter} `{Libm}.
Context `{StateCodec} `{EventCodec} `{StatsCodec} `{CacheCodec}.

Abbreviation Sys := (Engine * Node W)%type.

(** The ranked window, by the core alone. *)
Definition window_of (k : Core) (evaluated : list Evaluated) (floor : Z) : list Candidate :=
  let sel := rank_candidates (as_ranked floor <$> evaluated) (k_bias k)
               (peer_limit_for_budget (k_budget k)) in
  take (Z.to_nat (Z.min (k_max k) (Z.of_nat (length sel)))) sel.

Lemma window_core e evaluated floor : ranked_window e evaluated floor = window_of (core e) evaluated floor.
Proof. done. Qed.

Lemma window_moved k k' evaluated floor :
  moved k k' -> window_of k' evaluated floor = window_of k evaluated floor.
Proof. by intros [m ->]. Qed.

Definition key_of (c : Candidate) : string := hex_encode (cand_info_hash c).

Lemma fold_keys floor cs : forall st (s : Sys),
  st.1 ⊆ (foldM (act_once (W:=W) floor) st cs s).1.1 /\
  forall c, c ∈ cs -> key_of c ∈ (foldM (act_once (W:=W) floor) st cs s).1.1.
Proof.
  induction cs as [|c cs IH]; intros st s; cbn [foldM].
  { split; [done|]. by intros c []%elem_of_nil. }
  unfold bind. assert (st.1 ⊆ (act_once floor st c s).1.1 /\ key_of c ∈ (act_once floor st c s).1.1) as [Hsub Hc].
  { destruct st as [acted held]. unfold act_once. destruct (decide _); [done|]. unfold bind.
    destruct (act_on_candidate c held floor s). simpl. unfold key_of. set_solver. }
  destruct (act_once floor st c s) as [st' s']. destruct (IH st' s') as [Hsub' Hcs]. simpl in Hsub, Hc.
  split; [by etransitivity|]. intros c' [->|Hc']%elem_of_cons; [by apply Hsub'|by apply Hcs].
Qed.

(** Every candidate of the window of the batch has been acted on. *)
Definition settled (k : Core) (floor : Z) (w : Walk) : Prop :=
  forall c, c ∈ window_of k (w_batch w) floor -> key_of c ∈ w_acted w.

Lemma act_on_batch_spec k floor w :
  counted k (w_held w) ->
  hoare (at_core k) (act_on_batch (W:=W) floor w) (fun w' s =>
    (exists r, w' = acted_on r w) /\ within k (core s.1) /\ counted (core s.1) (w_held w') /\
    moved k (core s.1) /\ settled k floor w').
Proof.
  intros Hc s Hs. unfold act_on_batch, bind.
  pose proof (window_within k (w_batch w) (w_acted w) (w_held w) floor Hc s Hs) as (Hw & Hcnt & Hm).
  assert (forall c, c ∈ window_of k (w_batch w) floor ->
    key_of c ∈ (act_on_windowed (W:=W) (w_batch w) (w_acted w) (w_held w) floor s).1.1) as Hkeys.
  { unfold act_on_windowed, bind, engine, gets. cbn [fst snd]. rewrite window_core.
    unfold at_core in Hs. rewrite Hs. apply fold_keys. }
  destruct (act_on_windowed _ _ _ _ s) as [r s']. simpl in *.
  split; [by exists r|]. split; [done|]. split; [done|]. split; [done|]. exact Hkeys.
Qed.

Definition with_eval (d : Dispatch) (item : Item) : M (Shared * Node W) (option Evaluated) :=
  evaluate_one_item (d_ctx d) item.

Lemma steady_save d w : steady (save_walk_progress (W:=W) d w).
Proof. unfold save_walk_progress. auto with keepat. Qed.

(** What holds of a walk and the node at every point. *)
Record walk_inv (k0 : Core) (floor : Z) (w : Walk) (s : Sys) : Prop := {
  wi_moved : moved k0 (core s.1);
  wi_within : within k0 (core s.1);
  wi_counted : counted (core s.1) (w_held w);
  wi_processed : w_processed w = Z.of_nat (length (w_batch w));
  wi_counts : w_outcome w <> Some (Err INTERRUPTED) -> w_counts w = ev_seeders <$> w_batch w;
  wi_acted : w_outcome w = None -> (length (w_batch w) mod EVALUATE_CONCURRENCY = 0)%nat ->
    settled k0 floor w;
  wi_ended : w_outcome w = Some (Ok tt) -> settled k0 floor w /\ w_joined w = true /\ w_queue w = [];
}.

(** Nothing of the loop's own variables has changed. *)
Lemma walk_inv_frame k0 floor w w' (s s' : Sys) :
  walk_inv k0 floor w s -> core s'.1 = core s.1 ->
  w_counts w' = w_counts w -> w_batch w' = w_batch w -> w_acted w' = w_acted w ->
  w_held w' = w_held w -> w_processed w' = w_processed w -> w_outcome w' = None -> w_outcome w = None ->
  walk_inv k0 floor w' s'.
Proof.
  intros [Hm Hw Hc Hp Hn Ha He] Hs Ec Eb Ea Eh Ep Eo Eo'. split; rewrite ?Hs; try done.
  - by rewrite Eh.
  - by rewrite Ep, Eb.
  - intros _. rewrite Ec, Eb. apply Hn. by rewrite Eo'.
  - intros _. rewrite Eb. unfold settled. rewrite Ea, Eb. by apply Ha.
  - by rewrite Eo.
Qed.

Lemma settled_moved k0 k floor w : moved k0 k -> settled k floor w -> settled k0 floor w.
Proof. intros Hm Hs c. rewrite <- (window_moved k0 k) by done. apply Hs. Qed.

Lemma walk_inv_act k0 floor w (s : Sys) :
  walk_inv k0 floor w s -> w_outcome w = None ->
  walk_inv k0 floor (act_on_batch floor w s).1 (act_on_batch floor w s).2 /\
  settled k0 floor (act_on_batch floor w s).1 /\
  exists r, (act_on_batch floor w s).1 = acted_on r w.
Proof.
  intros [Hm Hw Hc Hp Hn Ha He] Ho.
  destruct (act_on_batch_spec (core s.1) floor w Hc s eq_refl) as ([r Er] & Hw' & Hc' & Hm' & Hset).
  assert (settled k0 floor (act_on_batch floor w s).1) as Hset' by (by eapply settled_moved).
  split; [|split; [done|by exists r]]. rewrite Er in *. split; simpl in *.
  - by etransitivity.
  - by eapply within_trans.
  - done.
  - done.
  - done.
  - done.
  - by rewrite Ho.
Qed.

Lemma take_in_inv k0 floor ev queue w (s : Sys) :
  walk_inv k0 floor w s -> w_outcome w = None ->
  walk_inv k0 floor (take_in floor ev (popped ev queue w) s).1 (take_in floor ev (popped ev queue w) s).2.
Proof.
  intros [Hm Hw Hc Hp Hn Ha He] Ho. unfold take_in. set (w1 := pushed ev (popped ev queue w)).
  assert (w_processed w1 = Z.of_nat (length (w_batch w1))) as Hp1.
  { simpl. rewrite Hp, length_app. simpl. lia. }
  assert (w_counts w1 = ev_seeders <$> w_batch w1) as Hn1.
  { simpl. rewrite fmap_app. by rewrite Hn by (by rewrite Ho). }
  destruct (_ =? 0)%nat eqn:E.
  - destruct (act_on_batch_spec (core s.1) floor w1 Hc s eq_refl) as ([r Er] & Hw' & Hc' & Hm' & Hset).
    rewrite Er in *. split; simpl in *; [by etransitivity|by eapply within_trans|done..| |by rewrite Ho].
    intros _ _. by eapply settled_moved.
  - apply Nat.eqb_neq in E. split; [done..| |]; simpl; [done|by rewrite Ho].
Qed.

Lemma interrupted_inv k0 floor w w' (s s' : Sys) :
  walk_inv k0 floor w s -> core s'.1 = core s.1 -> w_batch w' = w_batch w -> w_held w' = w_held w ->
  w_processed w' = w_processed w -> w_outcome w' = Some (Err INTERRUPTED) -> walk_inv k0 floor w' s'.
Proof.
  intros [Hm Hw Hc Hp _ _ _] Hs Eb Eh Ep Eo.
  split; rewrite ?Hs, ?Eb, ?Eh, ?Ep, ?Eo; done.
Qed.

Lemma receive_inv k0 floor ev queue w (s : Sys) :
  walk_inv k0 floor w s -> w_outcome w = None ->
  walk_inv k0 floor (receive floor ev queue w s).1 (receive floor ev queue w s).2.
Proof.
  intros Hi Ho. unfold receive. destruct (w_joined _); [by apply take_in_inv|]. unfold bind.
  pose proof (steady_shutdown (W:=W) (core s.1) s eq_refl) as Hs.
  destruct (shutdown_now s) as [stop s1]. simpl in Hs. destruct stop.
  - by eapply interrupted_inv.
  - apply take_in_inv; [|done]. by eapply walk_inv_frame.
Qed.

Lemma leave_inv k0 floor w (s : Sys) :
  walk_inv k0 floor w s -> w_outcome w = None -> w_joined w = true -> w_queue w = [] ->
  walk_inv k0 floor (leave floor w s).1 (leave floor w s).2.
Proof.
  intros Hi Ho Hj Hq. unfold leave, bind.
  pose proof (steady_shutdown (W:=W) (core s.1) s eq_refl) as Hs.
  destruct (shutdown_now s) as [stop s1]. simpl in Hs. destruct stop.
  { eapply interrupted_inv; [exact Hi|exact Hs|done..]. }
  assert (walk_inv k0 floor w s1) as Hi1 by (by eapply walk_inv_frame).
  assert (forall w2 (s2 : Sys), walk_inv k0 floor w2 s2 -> settled k0 floor w2 -> w_joined w2 = true ->
    w_queue w2 = [] -> w_outcome w2 = None -> walk_inv k0 floor (ended (Ok tt) w2) s2) as Hend.
  { intros w2 s2 [Hm Hw Hc Hp Hn Ha He] Hset Hj2 Hq2 Ho2. split; simpl; try done.
    intros _. apply Hn. by rewrite Ho2. }
  destruct (_ =? 0) eqn:E.
  - apply Hend; try done. apply (wi_acted _ _ _ _ Hi1 Ho). apply Z.eqb_eq in E.
    rewrite (wi_processed _ _ _ _ Hi1), <- Nat2Z.inj_mod in E. lia.
  - destruct (walk_inv_act k0 floor w s1 Hi1 Ho) as (Hi2 & Hset & r & Er).
    destruct (act_on_batch floor w s1) as [w2 s2]. simpl in *. subst w2. by apply Hend.
Qed.

Lemma step_inv k0 d floor l w (s : Sys) w' s' :
  walk_inv k0 floor w s -> walk_step d floor l (w, s) = Some (w', s') -> walk_inv k0 floor w' s'.
Proof.
  intros Hi. unfold walk_step. destruct (w_outcome w) eqn:Ho; [done|]. destruct l as [i| | | |].
  - destruct (w_pending w !! i) as [item|]; [|done].
    pose proof (steady_shared (with_eval d item) (core s.1) s eq_refl) as Hs. unfold with_eval in Hs.
    destruct (with_shared _ s) as [r s1]. simpl in Hs. intros [= <- <-].
    eapply walk_inv_frame; [exact Hi|exact Hs|done..].
  - destruct (w_joined w); [done|]. intros [= <- <-].
    eapply walk_inv_frame; [exact Hi| |done..]. apply (steady_save d w (core s.1) s eq_refl).
  - destruct (w_joined w); [done|]. destruct (_ || _); [|done]. intros [= <- <-].
    eapply walk_inv_frame; [exact Hi|by destruct s|done..].
  - destruct (w_queue w) as [|ev queue]; [done|]. intros [= Hw]. 
    pose proof (receive_inv k0 floor ev queue w s Hi Ho) as Hr. by rewrite Hw in Hr.
  - destruct (w_joined w) eqn:Hj; [|done]. destruct (bool_decide _) eqn:Hq; [|done].
    apply bool_decide_eq_true in Hq. intros [= Hw].
    pose proof (leave_inv k0 floor w s Hi Ho Hj Hq) as Hr. by rewrite Hw in Hr.
Qed.

Lemma run_inv k0 d floor ls : forall w (s : Sys) w' s',
  walk_inv k0 floor w s -> walk_run d floor ls (w, s) = Some (w', s') -> walk_inv k0 floor w' s'.
Proof.
  induction ls as [|l ls IH]; intros w s w' s' Hi; cbn [walk_run]; [by intros [= <- <-]|].
  destruct (walk_step d floor l (w, s)) as [[w1 s1]|] eqn:E; [|done]. apply IH. by eapply step_inv.
Qed.

Lemma window_nil k floor : window_of k [] floor = [].
Proof. unfold window_of, rank_candidates. simpl. by rewrite take_nil. Qed.

Lemma starting_inv to_lowercase d floor w (s : Sys) :
  starting to_lowercase d (held_size (core s.1)) w -> books (core s.1) -> settings_ok (core s.1) ->
  walk_inv (core s.1) floor w s.
Proof.
  intros [_ _ (Hj & Hq & Hc & Hb & Hp & He & Ho) Hh _] Hbk Hset. split.
  - reflexivity.
  - apply within_refl.
  - split; [done|]. split; [done|]. by rewrite Hh.
  - by rewrite Hp, Hb.
  - by rewrite Hc, Hb.
  - intros _ _ c. rewrite Hb, window_nil. by intros []%elem_of_nil.
  - by rewrite Ho.
Qed.
End Keeping.

(** ** What a walk acts on *)

Section Tracing.
Context {W : Type} `{World W} `{Decoders} `{Chrono} `{HexCrate} `{UrlCrate} `{HashIter} `{Libm}.
Context `{StateCodec} `{EventCodec} `{StatsCodec} `{CacheCodec}.

Abbreviation Sys := (Engine * Node W)%type.

(** The results the workers of a run send, in the order they send them. *)
Fixpoint sent (d : Dispatch) (floor : Z) (ls : list Label) (c : Walk * Sys) : list Evaluated :=
  match ls with
  | [] => []
  | l :: ls =>
      (match l with
       | Evaluate i =>
           match w_pending c.1 !! i with
           | Some item =>
               from_option (fun e => [e]) [] (with_shared (evaluate_one_item (d_ctx d) item) c.2).1
           | None => []
           end
       | _ => []
       end) ++ from_option (sent d floor ls) [] (walk_step d floor l c)
  end.

(** What happens to the node in a walk besides acting: an item is evaluated, the
    progress is saved, the prefilter's counters are merged, the shutdown signal
    is looked at. *)
Inductive aside (d : Dispatch) (s : Sys) : Sys -> Prop :=
  | aside_evaluate item : aside d s (with_shared (evaluate_one_item (d_ctx d) item) s).2
  | aside_save w : aside d s (save_walk_progress d w s).2
  | aside_merge w : aside d s (merge_prefilter w s).2
  | aside_look : aside d s (shutdown_now s).2.

(** From a count of held torrents and a node, acting on the candidates [cs], one
    after the other, gives another count and node. *)
Inductive acts (d : Dispatch) (floor : Z) : Z * Sys -> list Candidate -> Z * Sys -> Prop :=
  | acts_nil x : acts d floor x [] x
  | acts_aside held s s' cs x :
      aside d s s' -> acts d floor (held, s') cs x -> acts d floor (held, s) cs x
  | acts_on c held s cs x :
      acts d floor (act_on_candidate c held floor s) cs x -> acts d floor (held, s) (c :: cs) x.

Lemma acts_app d floor x cs y cs' z :
  acts d floor x cs y -> acts d floor y cs' z -> acts d floor x (cs ++ cs') z.
Proof.
  induction 1 as [x|held s s' cs x Ha _ IH|c held s cs x _ IH]; intros Hz; [done| |].
  - eapply acts_aside; [exact Ha|by apply IH].
  - apply acts_on. by apply IH.
Qed.

Lemma acts_beside d floor x cs held s s' :
  acts d floor x cs (held, s) -> aside d s s' -> acts d floor x cs (held, s').
Proof.
  intros Ha Hs. rewrite <- (app_nil_r cs). eapply acts_app; [exact Ha|].
  eapply acts_aside; [exact Hs|constructor].
Qed.

(** The pass over a window acts once on every key that is not acted on yet. *)
Lemma fold_acts d floor window : forall acted held (s : Sys),
  let '((acted', held'), s') := foldM (act_once floor) (acted, held) window s in
  exists cs, acts d floor (held, s) cs (held', s') /\ cs ⊆ window /\
    NoDup (key_of <$> cs) /\ (forall key, key ∈ key_of <$> cs -> key ∉ acted) /\
    forall key, key ∈ acted' <-> key ∈ acted \/ key ∈ key_of <$> cs.
Proof.
  induction window as [|c window IH]; intros acted held s; cbn [foldM].
  { exists []. split; [constructor|]. split; [done|]. split; [constructor|].
    split; [by intros key []%elem_of_nil|]. intros key. rewrite elem_of_nil. tauto. }
  unfold bind, act_once at 1. fold (key_of c). destruct (decide _) as [Hin|Hin].
  - unfold ret. specialize (IH acted held s). destruct (foldM _ _ window s) as [[acted' held'] s'].
    destruct IH as (cs & Ha & Hsub & Hnd & Hnew & Hkeys). exists cs. split; [done|]. split; [set_solver|done].
  - unfold bind, ret. pose proof (acts_on d floor c held s) as Hon.
    destruct (act_on_candidate c held floor s) as [held1 s1]. specialize (IH ({[key_of c]} ∪ acted) held1 s1).
    destruct (foldM _ _ window s1) as [[acted' held'] s'].
    destruct IH as (cs & Ha & Hsub & Hnd & Hnew & Hkeys). exists (c :: cs).
    split; [by apply Hon|]. split; [set_solver|]. split; [|split].
    + cbn [fmap list_fmap]. constructor; [|done]. intros Hc. apply (Hnew _ Hc). set_solver.
    + intros key [->|Hk]%elem_of_cons; [done|]. apply Hnew in Hk. set_solver.
    + intros key. rewrite (Hkeys key). cbn [fmap list_fmap].
      rewrite elem_of_union, elem_of_singleton, elem_of_cons. tauto.
Qed.

(** What holds of a walk that began at [x0], has sent [out] and acted on [cs]. *)
Record traced (d : Dispatch) (floor : Z) (k0 : Core) (x0 : Z * Sys) (out : list Evaluated)
    (cs : list Candidate) (w : Walk) (s : Sys) : Prop := {
  tr_acts : acts d floor x0 cs (w_held w, s);
  tr_keys key : key ∈ w_acted w <-> key ∈ key_of <$> cs;
  tr_once : NoDup (key_of <$> cs);
  tr_windows c : c ∈ cs -> exists b, b `prefix_of` w_batch w /\ c ∈ window_of k0 b floor;
  tr_sent : w_outcome w <> Some (Err INTERRUPTED) -> w_batch w ++ w_queue w = out;
}.

(** Nothing is acted on or received. *)
Lemma traced_aside d floor k0 x0 out r cs w w' (s s' : Sys) :
  traced d floor k0 x0 out cs w s -> aside d s s' ->
  w_held w' = w_held w -> w_acted w' = w_acted w -> w_batch w' = w_batch w ->
  (w_outcome w' <> Some (Err INTERRUPTED) ->
     w_outcome w <> Some (Err INTERRUPTED) /\ w_queue w' = w_queue w ++ r) ->
  traced d floor k0 x0 (out ++ r) cs w' s'.
Proof.
  intros [Ha Hk Ho Hw Hs] Hb Eh Ea Eb Eq. split; rewrite ?Eh, ?Ea, ?Eb; try done.
  - by eapply acts_beside.
  - intros Hout. destruct (Eq Hout) as [Hi ->]. by rewrite app_assoc, (Hs Hi).
Qed.

Lemma traced_act d floor k0 x0 out cs w (s : Sys) :
  traced d floor k0 x0 out cs w s -> moved k0 (core s.1) ->
  exists cs', traced d floor k0 x0 out cs' (act_on_batch floor w s).1 (act_on_batch floor w s).2.
Proof.
  intros [Ha Hk Ho Hw Hs] Hm. unfold act_on_batch, act_on_windowed, bind, engine, gets, ret.
  cbn [fst snd]. rewrite window_core, (window_moved k0) by done.
  pose proof (fold_acts d floor (window_of k0 (w_batch w) floor) (w_acted w) (w_held w) s) as Hf.
  destruct (foldM _ _ _ s) as [[acted' held'] s']. destruct Hf as (cs' & Ha' & Hsub & Hnd & Hnew & Hkeys).
  exists (cs ++ cs'). cbn [fst snd]. split; cbn [acted_on fst snd w_held w_acted w_batch w_queue w_outcome].
  - by eapply acts_app.
  - intros key. by rewrite Hkeys, fmap_app, elem_of_app, Hk.
  - rewrite fmap_app. apply NoDup_app. split; [done|]. split; [|done].
    intros key Hc Hc'. by apply (Hnew key Hc'), Hk.
  - intros c [Hc|Hc]%elem_of_app; [by apply Hw|]. exists (w_batch w). split; [done|by apply Hsub].
  - exact Hs.
Qed.

Lemma traced_take_in d floor k0 x0 out cs ev queue w (s : Sys) :
  traced d floor k0 x0 out cs w s -> w_outcome w = None -> w_queue w = ev :: queue ->
  moved k0 (core s.1) ->
  exists cs', traced d floor k0 x0 out cs' (take_in floor ev (popped ev queue w) s).1
                (take_in floor ev (popped ev queue w) s).2.
Proof.
  intros [Ha Hk Ho Hw Hs] Eo Eq Hm. unfold take_in. set (w1 := pushed ev (popped ev queue w)).
  assert (traced d floor k0 x0 out cs w1 s) as Ht.
  { split; cbn; try done.
    - intros c Hc. destruct (Hw c Hc) as (b & Hb & Hin). exists b. split; [|done]. by apply prefix_app_r.
    - intros _. rewrite <- app_assoc. cbn [app]. rewrite <- Eq. apply Hs. by rewrite Eo. }
  destruct (_ =? 0)%nat; [by eapply traced_act|by exists cs].
Qed.

Lemma traced_receive d floor k0 x0 out cs ev queue w (s : Sys) :
  traced d floor k0 x0 out cs w s -> w_outcome w = None -> w_queue w = ev :: queue ->
  moved k0 (core s.1) ->
  exists cs', traced d floor k0 x0 out cs' (receive floor ev queue w s).1 (receive floor ev queue w s).2.
Proof.
  intros Ht Eo Eq Hm. unfold receive. destruct (w_joined _); [by eapply traced_take_in|]. unfold bind.
  pose proof (aside_look d s) as Hl. pose proof (steady_shutdown (W:=W) (core s.1) s eq_refl) as Hs.
  destruct (shutdown_now s) as [stop s1]. cbn [fst snd] in Hl, Hs. unfold at_core in Hs. destruct stop.
  - exists cs. cbn [fst snd ret]. rewrite <- (app_nil_r out). by eapply traced_aside.
  - eapply traced_take_in; try done; [|by rewrite Hs]. rewrite <- (app_nil_r out).
    eapply traced_aside; try done. by rewrite app_nil_r.
Qed.

Lemma traced_leave d floor k0 x0 out cs w (s : Sys) :
  traced d floor k0 x0 out cs w s -> w_outcome w = None -> moved k0 (core s.1) ->
  exists cs', traced d floor k0 x0 out cs' (leave floor w s).1 (leave floor w s).2.
Proof.
  intros Ht Eo Hm. unfold leave, bind.
  pose proof (aside_look d s) as Hl. pose proof (steady_shutdown (W:=W) (core s.1) s eq_refl) as Hs.
  destruct (shutdown_now s) as [stop s1]. cbn [fst snd] in Hl, Hs. unfold at_core in Hs. destruct stop.
  { exists cs. cbn [fst snd ret]. rewrite <- (app_nil_r out). by eapply traced_aside. }
  assert (traced d floor k0 x0 out cs w s1) as Ht1.
  { rewrite <- (app_nil_r out). eapply traced_aside; try done. by rewrite app_nil_r. }
  assert (forall cs w (s : Sys), traced d floor k0 x0 out cs w s -> w_outcome w = None ->
    traced d floor k0 x0 out cs (ended (Ok tt) w) s) as Hend.
  { intros cs2 w2 s2 [Ha Hk Ho Hw Hq] Eo2. split; cbn; try done. intros _. apply Hq. by rewrite Eo2. }
  destruct (_ =? 0); [exists cs; by apply Hend|]. rewrite <- Hs in Hm.
  destruct (traced_act d floor k0 x0 out cs w s1 Ht1 Hm) as [cs' Ht'].
  assert (w_outcome (act_on_batch floor w s1).1 = None) as Eo'.
  { unfold act_on_batch, bind. by destruct (act_on_windowed _ _ _ _ s1). }
  destruct (act_on_batch floor w s1) as [w2 s2]. exists cs'. by apply Hend.
Qed.

Lemma traced_step d floor k0 x0 out cs l ls w (s : Sys) c :
  traced d floor k0 x0 out cs w s -> moved k0 (core s.1) -> walk_step d floor l (w, s) = Some c ->
  exists cs' out', traced d floor k0 x0 (out ++ out') cs' c.1 c.2 /\
    sent d floor (l :: ls) (w, s) = out' ++ sent d floor ls c.
Proof.
  intros Ht Hm Hstep. cbn [sent]. rewrite Hstep. cbn [from_option fst snd]. revert Hstep. unfold walk_step.
  destruct (w_outcome w) as [r|] eqn:Eo; [done|]. destruct l as [i| | | |].
  - destruct (w_pending w !! i) as [item|]; [|done].
    pose proof (aside_evaluate d s item) as Hs. destruct (with_shared _ s) as [r s1]. intros [= <-].
    exists cs, (from_option (fun e => [e]) [] r). split; [|done].
    eapply traced_aside; [done|exact Hs|done..|]. by rewrite Eo.
  - destruct (w_joined w); [done|]. intros [= <-]. exists cs, []. split; [|done].
    eapply traced_aside; [done|apply aside_save|done..|].
    by rewrite Eo, app_nil_r.
  - destruct (w_joined w); [done|]. destruct (_ || _); [|done]. intros [= <-]. exists cs, [].
    split; [|done]. eapply traced_aside; [done|apply aside_merge|done..|]. cbn. by rewrite Eo, app_nil_r.
  - destruct (w_queue w) as [|ev queue] eqn:Eq; [done|]. intros [= <-].
    destruct (traced_receive d floor k0 x0 out cs ev queue w s) as [cs' Ht']; try done.
    exists cs', []. by rewrite app_nil_r.
  - destruct (w_joined w); [|done]. destruct (bool_decide _); [|done]. intros [= <-].
    destruct (traced_leave d floor k0 x0 out cs w s) as [cs' Ht']; try done.
    exists cs', []. by rewrite app_nil_r.
Qed.

Lemma run_traced d floor k0 x0 ls : forall out cs w (s : Sys) w' s',
  traced d floor k0 x0 out cs w s -> walk_inv k0 floor w s ->
  walk_run d floor ls (w, s) = Some (w', s') ->
  exists cs', traced d floor k0 x0 (out ++ sent d floor ls (w, s)) cs' w' s'.
Proof.
  induction ls as [|l ls IH]; intros out cs w s w' s' Ht Hi; cbn [walk_run].
  { intros [= <- <-]. exists cs. by rewrite app_nil_r. }
  destruct (walk_step d floor l (w, s)) as [[w1 s1]|] eqn:E; [|done]. intros Hr.
  destruct (traced_step d floor k0 x0 out cs l ls w s _ Ht (wi_moved _ _ _ _ Hi) E)
    as (cs1 & out1 & Ht1 & ->). rewrite app_assoc.
  eapply IH; [exact Ht1|by eapply step_inv|exact Hr].
Qed.

Lemma starting_traced to_lowercase d floor k0 held w (s : Sys) :
  starting to_lowercase d held w -> traced d floor k0 (held, s) [] [] w s.
Proof.
  intros [_ _ (Hj & Hq & Hc & Hb & Hp & He & Ho) Hh Ha]. rewrite <- Hh. split.
  - constructor.
  - intros key. rewrite Ha. set_solver.
  - constructor.
  - by intros c []%elem_of_nil.
  - intros _. by rewrite Hb, Hq.
Qed.
End Tracing.

(** C12: acting leaves no one out.  A walk that ends without an interruption has
    received everything that its workers sent, its floor is made of exactly
    those evaluations, and from its start to its end it made calls of
    [act_on_candidate], each with the count of held torrents the one before
    left, on candidates [cs] ([acts]): on none twice, on none that was not in
    the ranked window of what had arrived by then, and on every candidate of the
    ranked window of all that arrived, whatever the order of arrival.  Between
    the calls only evaluations, saves of the progress, the merge of the counters
    and looks at the shutdown signal touch the node. *)
Theorem walk_acts_on_window {W : Type} `{World W} `{Decoders} `{Chrono} `{HexCrate} `{UrlCrate}
    `{HashIter} `{Libm} `{StateCodec} `{EventCodec} `{StatsCodec} to_lowercase d floor ls
    (s0 : Engine * Node W) w s :
  let k := core s0.1 in
  let '(w0, s1) := start_walk to_lowercase d (held_size k) s0 in
  let out := sent d floor ls (w0, s1) in
  books k -> settings_ok k ->
  walk_run d floor ls (w0, s1) = Some (w, s) -> w_outcome w = Some (Ok tt) ->
  w_counts w = ev_seeders <$> out /\ w_processed w = Z.of_nat (length out) /\
  exists cs, acts d floor (held_size k, s1) cs (w_held w, s) /\ NoDup (key_of <$> cs) /\
    (forall c, c ∈ cs -> exists b, b `prefix_of` out /\ c ∈ window_of k b floor) /\
    forall c, c ∈ window_of k out floor -> key_of c ∈ key_of <$> cs.
Proof.
  intros k. pose proof (start_shape to_lowercase d (held_size k) s0) as Hst.
  pose proof (steady_start to_lowercase d (held_size k) k s0 eq_refl) as Hs.
  destruct (start_walk _ _ _ s0) as [w0 s1]. intros out Hb Hset Hr Ho. simpl in Hst, Hs.
  assert (walk_inv k floor w0 s1) as Hi.
  { unfold at_core in Hs. rewrite <- Hs. eapply starting_inv; rewrite Hs; done. }
  destruct (run_traced d floor k (held_size k, s1) ls [] [] w0 s1 w s (starting_traced _ _ _ _ _ _ _ Hst) Hi Hr)
    as [cs [Ha Hkeys Hnd Hwin Hsent]].
  destruct (run_inv k d floor ls w0 s1 w s Hi Hr) as [_ _ _ Hp Hc _ He].
  destruct (He Ho) as (Hsettled & _ & Hq). rewrite Ho in Hsent, Hc. specialize (Hsent ltac:(done)).
  rewrite Hq, app_nil_r in Hsent. cbn [app] in Hsent. fold out in Hsent. rewrite Hsent in *.
  split; [by apply Hc|]. split; [done|]. exists cs. split; [done|]. split; [done|]. split; [done|].
  intros c Hin. apply Hkeys, Hsettled. by rewrite Hsent.
Qed.

Section Undisturbed.
Context {W : Type} `{World W} `{Decoders} `{Chrono} `{HexCrate} `{UrlCrate} `{HashIter} `{Libm}.
Context `{StateCodec} `{EventCodec} `{StatsCodec} `{CacheCodec}.

Abbreviation Sys := (Engine * Node W)%type.

(** What holds of a walk of [n] items that no shutdown disturbs. *)
Record steady_walk (n : nat) (w : Walk) : Prop := {
  sw_evaluated : w_evaluated w = wrap64 (Z.of_nat n - Z.of_nat (length (w_pending w)));
  sw_joined : w_joined w = true -> w_pending w = [];
  sw_outcome : w_outcome w = None \/ (w_outcome w = Some (Ok tt) /\ w_joined w = true);
}.

Lemma receive_undisturbed floor ev queue w (s : Sys) :
  undisturbed (W:=W) -> w_outcome (receive floor ev queue w s).1 = w_outcome w.
Proof.
  intros Hu. unfold receive. destruct (w_joined _).
  - by destruct (take_in_shape floor ev (popped ev queue w) s) as (_ & _ & _ & _ & ->).
  - unfold bind. pose proof (shutdown_false s Hu) as Hs. destruct (shutdown_now s) as [stop s1].
    simpl in Hs. subst stop.
    by destruct (take_in_shape floor ev (popped ev queue w) s1) as (_ & _ & _ & _ & ->).
Qed.

Lemma leave_undisturbed floor w (s : Sys) :
  undisturbed (W:=W) -> exists w2, (leave floor w s).1 = ended (Ok tt) w2 /\
    w_pending w2 = w_pending w /\ w_evaluated w2 = w_evaluated w /\ w_joined w2 = w_joined w.
Proof.
  intros Hu. unfold leave, bind. pose proof (shutdown_false s Hu) as Hs.
  destruct (shutdown_now s) as [stop s1]. simpl in Hs. subst stop.
  destruct (_ =? 0); [by exists w|]. unfold act_on_batch, bind.
  destruct (act_on_windowed _ _ _ _ s1) as [r s2]. by exists (acted_on r w).
Qed.

Lemma step_steady_walk n d floor l w (s : Sys) w' s' :
  undisturbed (W:=W) -> steady_walk n w -> walk_step d floor l (w, s) = Some (w', s') -> steady_walk n w'.
Proof.
  intros Hu [He Hj Ho]. unfold walk_step. destruct (w_outcome w) eqn:Eo; [done|]. clear Ho.
  destruct l as [i| | | |].
  - destruct (w_pending w !! i) as [item|] eqn:Ei; [|done].
    destruct (with_shared _ s) as [r s1]. intros [= <- _]. split; simpl.
    + apply lookup_lt_Some in Ei as Hlt. rewrite (length_delete _ i) by (by eexists). rewrite He.
      unfold wrap64. rewrite Zplus_mod_idemp_l. f_equal. lia.
    + intros Hjt. rewrite Hj in Ei by done. done.
    + by left.
  - destruct (w_joined w) eqn:Ej; [done|]. intros [= <- _]. split; [done|by rewrite Ej|by left].
  - destruct (w_joined w); [done|]. rewrite (shutdown_false s Hu), orb_false_r.
    destruct (bool_decide _) eqn:Ep; [|done]. apply bool_decide_eq_true in Ep.
    intros [= <- _]. split; [done|done|by left].
  - destruct (w_queue w) as [|ev queue]; [done|]. intros [= Hw].
    pose proof (receive_shape floor ev queue w s) as [Hp Hj' _ He' _].
    pose proof (receive_undisturbed floor ev queue w s Hu) as Ho.
    rewrite Hw in *. simpl in *. split; [by rewrite He', Hp|by rewrite Hj', Hp|left; by rewrite Ho].
  - destruct (w_joined w) eqn:Ej; [|done]. destruct (bool_decide _); [|done]. intros [= Hw].
    destruct (leave_undisturbed floor w s Hu) as (w2 & Hl & Hp & He' & Hj').
    rewrite Hw in Hl. simpl in Hl. subst w'. split; simpl.
    + by rewrite He', Hp.
    + intros _. rewrite Hp. by apply Hj.
    + right. by rewrite Hj', Ej.
Qed.

Lemma run_steady_walk n d floor ls : forall w (s : Sys) w' s',
  undisturbed (W:=W) -> steady_walk n w -> walk_run d floor ls (w, s) = Some (w', s') -> steady_walk n w'.
Proof.
  induction ls as [|l ls IH]; intros w s w' s' Hu Hi; cbn [walk_run]; [by intros [= <- _]|].
  destruct (walk_step d floor l (w, s)) as [[w1 s1]|] eqn:E; [|done]. apply IH; [done|].
  by eapply step_steady_walk.
Qed.
End Undisturbed.

(** C13: an undisturbed walk is complete.  When no shutdown is signalled, a walk
    that ended did so without an error and evaluated every announced item: as
    many as the snapshot of the scan counts, none of them twice. *)
Theorem undisturbed_walk_complete {W : Type} `{World W} `{Decoders} `{Chrono} `{HexCrate} `{UrlCrate}
    `{HashIter} `{Libm} `{StateCodec} `{EventCodec} `{StatsCodec} to_lowercase d held floor ls
    (s0 s s' : Engine * Node W) w r :
  undisturbed (W:=W) ->
  walk_run d floor ls ((start_walk to_lowercase d held s0).1, s) = Some (w, s') ->
  w_outcome w = Some r ->
  r = Ok tt /\ w_pending w = [] /\
  w_evaluated w = wrap64 (count_pending to_lowercase (d_items d) (d_held_hashes d) (d_blocklist d)
                            (d_max_fittable d)).
Proof.
  intros Hu Hr Ho. destruct (start_shape to_lowercase d held s0) as [_ Hall (Hj & _ & _ & _ & _ & He & Hn) _ _].
  specialize (Hall Hu). set (n := length (announced to_lowercase d (d_items d))).
  assert (steady_walk n w) as [He' Hj' Ho'].
  { eapply run_steady_walk; [exact Hu| |exact Hr]. split; [|by rewrite Hj|by left].
    rewrite He, Hall, Z.sub_diag. done. }
  destruct Ho' as [Ho'|[Ho' Hjt]]; [congruence|]. assert (r = Ok tt) as -> by congruence.
  split; [done|]. rewrite (Hj' Hjt) in *. split; [done|]. rewrite He'. simpl. by rewrite Z.sub_0_r.
Qed.

(** ** The whole scan *)

Section Whole.
Context {W : Type} `{World W} `{Decoders} `{Chrono} `{HexCrate} `{UrlCrate} `{HashIter} `{Libm}.
Context `{StateCodec} `{EventCodec} `{StatsCodec} `{CacheCodec}.
Context (to_lowercase : string -> string).

Abbreviation Sys := (Engine * Node W)%type.

Lemma steady_load : steady (load_catalog (W:=W)).
Proof. unfold load_catalog. repeat (apply steady_bind; [auto with keepat|]; intros). auto with keepat. Qed.

Lemma steady_save_stats snap : steady (save_network_stats (W:=W) snap).
Proof. unfold save_network_stats. apply steady_bind; auto with keepat. Qed.

Lemma steady_bindR {E A B} (m : M Sys (result E A)) (f : A -> M Sys (result E B)) :
  steady m -> (forall a, steady (f a)) -> steady (bindR m f).
Proof. intros Hm Hf. apply steady_bind; [exact Hm|]. intros [a|e]; [apply Hf|auto with keepat]. Qed.

Lemma steady_end d floor w : steady (end_scan (W:=W) d floor w).
Proof.
  unfold end_scan. apply steady_bind; [by apply steady_change|]. intros _.
  apply steady_bind; [auto with keepat|]. intros at_. apply steady_bindR; [apply steady_save_stats|].
  intros _. apply steady_bind; [by apply steady_change|]. intros _. unfold save_scrape_cache.
  apply steady_bind; auto with keepat.
Qed.

(** After a step that is steady, what follows may shrink the held set. *)
Lemma begin_shrinks k :
  hoare (at_core k) (begin_scan (W:=W) to_lowercase) (fun _ => shrinks (fun _ => False) k).
Proof.
  assert (forall s : Sys, at_core k s -> shrinks (fun _ => False) k s) as Hid
    by (intros; by apply shrinks_id).
  unfold begin_scan. apply after_steady; [auto with keepat|]. intros started.
  apply after_steady; [apply steady_floor|]. intros floor.
  apply after_steady; [apply steady_save_stats|]. intros [[]|er]; [|apply hoare_ret; exact Hid].
  apply after_steady; [apply steady_load|]. intros [loaded|er]; [|apply hoare_ret; exact Hid].
  apply after_steady; [auto with keepat|]. intros items.
  apply after_steady; [by apply steady_change|]. intros _.
  apply after_engine. intros e _.
  eapply hoare_bind.
  { eapply hoare_weaken; [apply maintain_shrinks|done|]. intros r s. apply shrinks_any. }
  intros [[]|er]; [|by apply hoare_ret].
  apply shrinks_steady. apply steady_bind; [auto with keepat|]. intros e'.
  apply steady_bindR; [apply steady_save_stats|]. intros _.
  apply steady_bind; [by apply steady_change|]. intros _.
  apply steady_bind; [by apply steady_change|]. intros _.
  apply steady_bind; [|auto with keepat]. unfold evaluation_dispatch.
  apply steady_bind; [auto with keepat|]. intros e2. apply steady_bind; [apply steady_floor|]. auto with keepat.
Qed.

(** What a scan does to the node: the budgets and the books are kept, and only
    the held set changes. *)
Definition scanned (k k' : Core) : Prop :=
  books k -> settings_ok k -> within k k' /\ books k' /\ moved k k'.

#[export] Instance scanned_preorder : PreOrder scanned.
Proof.
  split; [intros k Hb _; split; [apply within_refl|done]|].
  intros k1 k2 k3 H12 H23 Hb Hs. destruct (H12 Hb Hs) as (Hw & Hb2 & Hm).
  destruct (H23 Hb2 (settings_within _ _ Hs Hw)) as (Hw2 & Hb3 & Hm2).
  split; [by eapply within_trans|]. split; [done|by etransitivity].
Qed.

Lemma shrinks_scanned P k (s : Sys) : shrinks P k s -> scanned k (core s.1).
Proof.
  intros Hs Hb Hset. destruct (shrinks_safe _ _ _ Hs Hb Hset) as [Hw Hb']. split; [done|].
  split; [done|]. destruct Hs as (m & _ & _ & Hs). by exists m.
Qed.

Lemma walk_scanned d floor ls held (s : Sys) w' s' :
  Z.of_nat (length (State.all (e_state s.1))) = held ->
  walk_run d floor ls (start_walk to_lowercase d held s) = Some (w', s') ->
  scanned (core s.1) (core s'.1).
Proof.
  intros Hh Hr Hb Hset. change (e_state s.1) with (k_state (core s.1)) in Hh.
  rewrite <- held_size_length in Hh.
  pose proof (start_shape to_lowercase d held s) as Hst.
  pose proof (steady_start to_lowercase d held (core s.1) s eq_refl) as Hs.
  destruct (start_walk _ _ _ s) as [w0 s1]. simpl in Hst, Hs. unfold at_core in Hs.
  assert (walk_inv (core s.1) floor w' s') as [Hm Hw [Hb' _] _ _ _ _]; [|done].
  eapply run_inv; [|exact Hr]. rewrite <- Hs. eapply starting_inv; rewrite Hs; subst; done.
Qed.
End Whole.

Lemma scan_scanned {W : Type} `{World W} `{Decoders} `{Chrono} `{HexCrate} `{UrlCrate} `{HashIter}
    `{Libm} `{StateCodec} `{EventCodec} `{StatsCodec} `{CacheCodec} to_lowercase ls (s : Engine * Node W) :
  scanned (core s.1) (core (scan_once_shutdown to_lowercase ls s).2.1).
Proof.
  unfold scan_once_shutdown, bind at 1.
  pose proof (begin_shrinks to_lowercase (core s.1) s eq_refl) as Hb.
  destruct (begin_scan to_lowercase s) as [r s1]. simpl in Hb.
  apply shrinks_scanned in Hb. etransitivity; [exact Hb|]. clear Hb.
  destruct r as [[d floor]|er]; [|reflexivity].
  unfold bind, engine, gets. cbn [fst snd].
  pose proof (fun w' s' => walk_scanned to_lowercase d floor ls _ s1 w' s' eq_refl) as Hw.
  pose proof (steady_start to_lowercase d (Z.of_nat (length (State.all (e_state s1.1)))) (core s1.1) s1 eq_refl)
    as Hst. unfold at_core in Hst.
  destruct (start_walk _ _ _ s1) as [w0 s2]. simpl in Hst.
  destruct (walk_run d floor ls (w0, s2)) as [[w3 s3]|] eqn:Er; [|simpl; rewrite Hst; reflexivity].
  specialize (Hw w3 s3 eq_refl). destruct (w_outcome w3) as [[u|er]|]; [|exact Hw|exact Hw].
  pose proof (steady_end d floor w3 (core s3.1) s3 eq_refl) as He. unfold at_core in He.
  destruct (end_scan d floor w3 s3) as [r4 s4]. simpl in *. by rewrite He.
Qed.

(** C2: a scan keeps every budget, in any order of its steps.  Whatever the
    catalog lists, the workers find, the trackers answer and the disk refuses,
    whenever a shutdown comes and however evaluations and acting interleave: no
    storage location ends up charged more than before unless it is within its
    limit, the RAM price and the size of the held set stay within their caps,
    the books stay in order, and neither the settings nor the registry of broken
    torrents are touched. *)
Theorem scan_keeps_budgets {W : Type} `{World W} `{Decoders} `{Chrono} `{HexCrate} `{UrlCrate}
    `{HashIter} `{Libm} `{StateCodec} `{EventCodec} `{StatsCodec} `{CacheCodec} to_lowercase ls
    (s : Engine * Node W) :
  let k := core s.1 in
  books k -> settings_ok k ->
  let k' := core (scan_once_shutdown to_lowercase ls s).2.1 in
  within k k' /\ books k' /\ settings_ok k' /\
  quarantined (k_state k') = quarantined (k_state k).
Proof.
  intros k Hb Hset k'. destruct (scan_scanned to_lowercase ls s Hb Hset) as (Hw & Hb' & m & Hm).
  fold k k' in Hm, Hw, Hb'. split; [done|]. split; [done|]. split; [by eapply settings_within|].
  by rewrite Hm.
Qed.

(** ** Witnesses *)

(** A feed of one torrent. *)
Definition witness_feed : Decoders :=
  {| torrent_from_bytes := fun b => Some (toy_meta b);
     bencode_from_bytes := @bencode_from_bytes witness_decoders;
     rss_from_reader := fun _ => Some
       [{| rss_title := "t"; rss_category := "Dataset";
           rss_infohash := @hex_encode witness_hex witness_hash; rss_guid := ""; rss_link := "";
           rss_description := ""; rss_size := 1000000 |}];
     torrent_sizes := toy_sizes |}.

(** A node that holds "bb", a network that serves the hash of the feed, and a
    session that knows no torrent. *)
Definition scan_sys : Engine * Node Toy :=
  let '(e, n) := witness_sys (10 ^ 9) 5 None in
  (e, {| node_fs := node_fs n; registry := registry n;
         world := {| toy_clock := toy_clock (world n);
                     toy_replies := replicate 9 (Ok {| status := "200 OK"; is_success := true;
                                                       body := Ok witness_hash |});
                     toy_rolls := []; toy_torrents := []; toy_free := toy_free (world n) |} |}).

Abbreviation scan_there :=
  (@scan_once_shutdown Toy witness_world witness_feed witness_chrono witness_hex witness_urls
     hash_iter_sorted witness_libm witness_codec witness_events witness_stats witness_cache_codec
     (fun x => x)).

(** The torrent of the feed is found and joins; "bb" left the catalog, but one
    torrent of the held set is too few to believe it. *)
Example scan_fills :
  let '(r, s') := scan_there [Evaluate 0; Receive; SaveProgress; Join; Finish] scan_sys in
  r = Some (Ok tt) /\
  (map_to_list (torrents (e_state s'.1))).*1 = [@hex_encode witness_hex witness_hash; "bb"].
Proof. vm_compute. split; reflexivity. Qed.

Lemma scan_keeps_budgets_witness :
  let k := core scan_sys.1 in
  let k' := core (scan_there [Evaluate 0; Receive; Join; Finish] scan_sys).2.1 in
  within k k' /\ books k' /\ settings_ok k' /\
  quarantined (k_state k') = quarantined (k_state k).
Proof.
  apply (@scan_keeps_budgets Toy witness_world witness_feed witness_chrono witness_hex witness_urls
           hash_iter_sorted witness_libm witness_codec witness_events witness_stats
           witness_cache_codec (fun x => x) [Evaluate 0; Receive; Join; Finish] scan_sys).
  - apply (witness_books (10 ^ 9) 5 None).
  - split; [repeat constructor|vm_compute; split; discriminate].
Defined.

Lemma collapse_guard_protects_witness :
  exists t', torrents (k_state (core (@maintain_held Toy witness_world witness_feed witness_chrono
      witness_hex witness_urls hash_iter_sorted witness_codec witness_events
      (@State.all hash_iter_sorted (k_state (core scan_sys.1))) {["aa"]} scan_sys).2.1)) !! "bb" = Some t' /\
    charged_as witness_held t'.
Proof.
  apply (@collapse_guard_protects Toy witness_world witness_feed witness_chrono witness_hex
           witness_urls hash_iter_sorted witness_libm witness_codec witness_events {["aa"]} scan_sys
           "bb" witness_held).
  - vm_compute. reflexivity.
  - vm_compute. reflexivity.
  - apply (bool_decide_eq_true_1 _). vm_compute. reflexivity.
Defined.

(** The walk of that scan. *)
Definition witness_dispatch : Dispatch :=
  {| d_ctx := {| ctx_data_dir := "/d"; ctx_moderation_bypass := 0; ctx_torrent_base_url := "https://at";
                 ctx_scrape_backoff := secs 60 |};
     d_items := [{| item_title := "t"; item_category := "Dataset"; item_info_hash := witness_hash;
                    item_guid := ""; item_link := ""; item_description := "";
                    item_size_bytes := 1000000 |}];
     d_held_hashes := {["bb"]}; d_scan_started_at := 0; d_total_candidates := 1; d_max_fittable := 0;
     d_blocklist := {| keywords := [] |}; d_network_stats_path := "/d/network-stats.json";
     d_seeder_floor := 0 |}.

Abbreviation start_there :=
  (@start_walk Toy witness_world witness_hex (fun x => x) witness_dispatch 1 scan_sys).
Abbreviation run_there :=
  (@walk_run Toy witness_world witness_feed witness_chrono witness_hex witness_urls hash_iter_sorted
     witness_libm witness_codec witness_events witness_stats witness_dispatch 3).

Definition witness_order : list Label := [SaveProgress; Evaluate 0; Join; Receive; Finish].

Lemma walk_terminates_witness :
  is_Some (run_there witness_order (start_there.1, scan_sys)) /\
  (length (filter (fun l => l <> SaveProgress) witness_order) <=
     2 * length (@announced witness_hex (fun x => x) witness_dispatch (d_items witness_dispatch)) + 2)%nat.
Proof.
  assert (is_Some (run_there witness_order (start_there.1, scan_sys))) as Hr
    by (apply (bool_decide_eq_true_1 _); vm_compute; reflexivity).
  split; [exact Hr|]. destruct Hr as [[w s'] Hr].
  exact (@walk_terminates Toy witness_world witness_feed witness_chrono witness_hex witness_urls
           hash_iter_sorted witness_libm witness_codec witness_events witness_stats (fun x => x)
           witness_dispatch 1 3 witness_order scan_sys scan_sys w s' Hr).
Defined.

Lemma walk_never_stuck_witness :
  exists w s, run_there [Evaluate 0] start_there = Some (w, s) /\ w_outcome w = None /\
  exists ls' w' s', Forall (fun l => l <> SaveProgress) ls' /\
    run_there ([Evaluate 0] ++ ls') start_there = Some (w', s') /\ is_Some (w_outcome w').
Proof.
  destruct (run_there [Evaluate 0] start_there) as [[w s]|] eqn:Hr; [|vm_compute in Hr; discriminate].
  assert (w_outcome w = None) as Ho.
  { assert (fmap (fun c => w_outcome c.1) (run_there [Evaluate 0] start_there) = Some None) as He
      by (vm_compute; reflexivity). rewrite Hr in He. by injection He. }
  exists w, s. split; [done|]. split; [done|].
  exact (proj2 (@walk_never_stuck Toy witness_world witness_feed witness_chrono witness_hex
                  witness_urls hash_iter_sorted witness_libm witness_codec witness_events
                  witness_stats witness_dispatch 3 [Evaluate 0] start_there w s Hr Ho)).
Defined.

Lemma witness_walk_ends c :
  fmap (fun c => w_outcome c.1) (run_there witness_order c) = Some (Some (Ok tt)) ->
  exists w s, run_there witness_order c = Some (w, s) /\ w_outcome w = Some (Ok tt).
Proof. destruct (run_there witness_order c) as [[w s]|]; [|done]. intros [= Ho]. by exists w, s. Defined.

Abbreviation sent_there :=
  (@sent Toy witness_world witness_feed witness_chrono witness_hex witness_urls hash_iter_sorted
     witness_libm witness_codec witness_events witness_stats witness_dispatch 3).
Abbreviation acts_there :=
  (@acts Toy witness_world witness_feed witness_chrono witness_hex witness_urls hash_iter_sorted
     witness_libm witness_codec witness_events witness_stats witness_dispatch 3).

(** One item is evaluated, sent and acted on. *)
Lemma walk_acts_on_window_witness :
  let out := sent_there witness_order start_there in
  let k := core scan_sys.1 in
  length out = 1%nat /\ length (@window_of witness_libm k out 3) = 1%nat /\
  exists w s, run_there witness_order start_there = Some (w, s) /\
  w_counts w = ev_seeders <$> out /\ w_processed w = Z.of_nat (length out) /\
  exists cs, acts_there (held_size k, start_there.2) cs (w_held w, s) /\
    NoDup (@key_of witness_hex <$> cs) /\
    (forall c, c ∈ cs -> exists b, b `prefix_of` out /\ c ∈ @window_of witness_libm k b 3) /\
    forall c, c ∈ @window_of witness_libm k out 3 -> @key_of witness_hex c ∈ @key_of witness_hex <$> cs.
Proof.
  intros out k. split; [vm_compute; reflexivity|]. split; [vm_compute; reflexivity|].
  destruct (witness_walk_ends start_there) as (w & s & Hr & Ho); [vm_compute; reflexivity|].
  exists w, s. split; [exact Hr|].
  pose proof (@walk_acts_on_window Toy witness_world witness_feed witness_chrono witness_hex
                witness_urls hash_iter_sorted witness_libm witness_codec witness_events
                witness_stats (fun x => x) witness_dispatch 3 witness_order scan_sys w s) as Hact.
  cbv zeta in Hact. change (held_size (core scan_sys.1)) with 1 in Hact. subst out.
  destruct start_there as [w0 s1]. apply Hact; [| |exact Hr|exact Ho].
  - apply (witness_books (10 ^ 9) 5 None).
  - split; [repeat constructor|vm_compute; split; discriminate].
Defined.

Lemma undisturbed_walk_complete_witness :
  exists w s, run_there witness_order (start_there.1, scan_sys) = Some (w, s) /\
  w_pending w = [] /\
  w_evaluated w = wrap64 (@count_pending witness_hex (fun x => x) (d_items witness_dispatch)
                            (d_held_hashes witness_dispatch) (d_blocklist witness_dispatch)
                            (d_max_fittable witness_dispatch)).
Proof.
  destruct (witness_walk_ends (start_there.1, scan_sys)) as (w & s & Hr & Ho);
    [vm_compute; reflexivity|]. exists w, s. split; [exact Hr|].
  exact (proj2 (@undisturbed_walk_complete Toy witness_world witness_feed witness_chrono witness_hex
                  witness_urls hash_iter_sorted witness_libm witness_codec witness_events
                  witness_stats (fun x => x) witness_dispatch 1 3 witness_order scan_sys scan_sys s w
                  (Ok tt) (fun w => eq_refl) Hr Ho)).
Defined.
