(* ===== verification/Boot.v ===== *)
(** Building the engine, [Engine::new_with_options] of [engine/scan.rs]: the
    configuration is checked and its limits made concrete, the directories, the
    state, the scrape cache and the ledger are opened, the keys and the RAM
    budget resolved, the session is started and what is held is resumed. *)

From S2P Require Import Prelude Text Float64 Fs Persist Time Ram Selector Net Quarantine State.
From S2P Require Import AtKey AtTorrent Filter FdLimit Catalog World Config Storage NetStats Torrents.
From S2P Require Import Pool History Humanize Session Swap Swarm Engine EngineCore Acting Books Budget.
From S2P Require Import Maintain.

Definition DEFAULT_CATALOG_URL : string := "https://academictorrents.com/database.xml".
Definition DEFAULT_BASE_URL : string := "https://academictorrents.com".
Definition USER_ANNOUNCE_ENDPOINT : string := "https://academictorrents.com/apiv2/userannounce".

(** [Options]: the overrides of the tests. *)
Record Options := {
  catalog_url : option string;
  at_base_url : option string;
  scrape_backoff : option duration;
}.

Section Boot.
Context {W : Type} `{World W} `{Decoders} `{Chrono} `{HexCrate} `{UrlCrate} `{HashIter} `{Libm}.
Context `{StateCodec} `{CacheCodec}.
(** [fs::canonicalize], [str::to_lowercase], and serde_json on the reply of the
    announce endpoint. *)
Context (canonicalize : path -> option path) (to_lowercase : string -> string).
Context (announce_from_slice : string -> option string).

(** [ensure_shared_dirs] of the data directory. *)
Definition repair_mode (dir : path) : M W unit :=
  let* mode := dir_mode dir in
  match ensure_shared_dirs mode with Some fixed => set_dir_mode dir fixed | None => ret tt end.

Fixpoint create_locations (ls : list StorageLocation) : M W (result error unit) :=
  match ls with
  | [] => ret (Ok tt)
  | l :: ls =>
      let? _ := with_context ("creating storage " +:+ location_path l)
                  (create_data_dir (location_path l)) in
      create_locations ls
  end.

(** The per-user announce URLs; without them torrents are not attributed. *)
Definition user_announces (c : Config) : M W (string * string) :=
  if String.eqb (api_key c) "" then ret ("", "")
  else
    let* reply := http_get_cookie USER_ANNOUNCE_ENDPOINT (api_key c) in
    ret (default ("", "") (result_ok (resolve_user_announce announce_from_slice reply))).

(** The budget and the cap on torrents, unless [max_ram] asks for more than the
    host has to give. *)
Definition ram_caps (system_total : Z) (c : Config) : result error (Z * Z) :=
  let '(budget, hard_cap, max_torrents) := max_torrents_for_budget system_total (max_ram c) in
  if (0 <? system_total) && (0 <? max_ram c) && (hard_cap <? max_ram c) then
    Err ("max_ram " +:+ shown_bytes (max_ram c) +:+ " exceeds the 80%-of-system hard cap of " +:+
         shown_bytes hard_cap +:+ " (system total " +:+ shown_bytes system_total +:+ ")")
  else Ok (budget, max_torrents).

(** The loaded state, with the configured spellings of its locations. *)
Definition load_state (c : Config) : M Fs (result error State) :=
  let? st := State.load (path_join (data_dir c) "state.json") in
  fun fs =>
    let '(_, (st, fs)) :=
      State.rekey_storage_locations canonicalize (location_path <$> storage c) (st, fs) in
    (Ok st, fs).

(** The value before anything is resumed. *)
Definition fresh_engine (c : Config) (opts : Options) (st : State) (cache : SwarmCache)
    (announces : string * string) (budget max_torrents : Z) (history : Writer)
    (started_at next_allowed : instant) : Engine :=
  {| e_cfg := c; e_state := st;
     e_shared := {| sh_rate := {| per_second := rate_limit_per_second (scan c);
                                  next_allowed := next_allowed |};
                    sh_cache := cache; sh_stats := stats_zero |};
     e_blocklist := new_blocklist to_lowercase (keyword_blocklist c);
     e_base_url := default DEFAULT_BASE_URL (at_base_url opts);
     e_catalog_url := default DEFAULT_CATALOG_URL (catalog_url opts);
     e_user_announce := announces.1; e_user_announce_ipv6 := announces.2;
     e_max_torrents := max_torrents; e_ram_budget := budget;
     e_size_bias := size_bias_for_ratio budget (disk_limit_total c);
     e_scrape_backoff := default (secs 60) (scrape_backoff opts);
     e_started_at := started_at; e_evaluated_counts := []; e_last_scan := None;
     e_completed_seen := ∅; e_live := false; e_history := history; e_detector := ∅;
     e_last_catalog := None |}.

(** Everything up to the value. *)
Definition build_engine (c : Config) (opts : Options) : M (Node W) (result error Engine) :=
  let? _ := ret (validate canonicalize c) in
  let? c := resolve_all_limits canonicalize c in
  let? _ := with_context ("creating data dir " +:+ data_dir c) (on_world (create_data_dir (data_dir c))) in
  on_world (repair_mode (data_dir c)) ;;;
  let? _ := on_world (create_locations (storage c)) in
  let? st := on_fs (load_state c) in
  let* cache := on_fs (swarm_load (path_join (data_dir c) "scrape-cache.json") (interval (scan c))) in
  let? _ := with_context "building HTTP client" (on_world http_client) in
  let* announces := on_world (user_announces c) in
  let* system_total := on_world system_total_ram in
  let? caps := ret (ram_caps system_total c) in
  let? _ := on_world (new_seeder_session c caps.1) in
  let* history := on_fs (new_writer (path_join (data_dir c) "history.jsonl")) in
  let* started_at := on_world mono_now in
  let* next_allowed := on_world mono_now in
  ret (Ok (fresh_engine c opts st cache announces caps.1 caps.2 history started_at next_allowed)).

Definition new_with_options (c : Config) (opts : Options) : M (Node W) (result error Engine) :=
  let? e := build_engine c opts in
  fun n =>
    let '(r, (e, n)) := resume_held (e, n) in
    (match r with Ok _ => Ok e | Err er => Err er end, n).

(** [Engine::new]. *)
Definition new (c : Config) : M (Node W) (result error Engine) :=
  new_with_options c {| catalog_url := None; at_base_url := None; scrape_backoff := None |}.
End Boot.

(** ** A built engine is ready *)

Section Ready.
Context {W : Type} `{World W} `{Decoders} `{Chrono} `{HexCrate} `{UrlCrate} `{HashIter} `{Libm}.
Context `{StateCodec} `{CacheCodec}.
Context (canonicalize : path -> option path) (to_lowercase : string -> string).
Context (announce_from_slice : string -> option string).

(** Resuming changes nothing of the engine itself. *)
Lemma resume_same (e : Engine) (n : Node W) : (resume_held (e, n)).2.1 = e.
Proof.
  unfold resume_held, bind, engine, gets. cbn [fst snd].
  assert (forall hs n, (forM hs (resume_one (W:=W)) (e, n)).2.1 = e) as Hloop.
  { clear n. induction hs as [|h hs IH]; intros n; [done|]. cbn [forM]. unfold bind at 1.
    assert (forall r, resume_one h (e, n) = r -> r.2.1 = e) as Hone.
    { intros r <-. unfold resume_one, cache_path_of, bind, engine, gets, on_outside, on_snd. cbn [fst snd].
      destruct (read_metadata _ n) as [[md|] n1]; [|done]. cbn [fst snd].
      by destruct (add_torrent_bytes _ _ _ _ _ n1). }
    destruct (resume_one h (e, n)) as [u [e' n']] eqn:E. specialize (Hone _ eq_refl). simpl in Hone.
    subst e'. apply IH. }
  specialize (Hloop (State.all (e_state e)) n). by destruct (forM _ _ (e, n)) as [u s].
Qed.

Lemma load_state_ok c fs st :
  (load_state canonicalize c fs).1 = Ok st ->
  exists st0, (State.load (path_join (data_dir c) "state.json") fs).1 = Ok st0 /\
    torrents st = rekey canonicalize (location_path <$> storage c) <$> torrents st0 /\
    quarantined st = quarantined st0.
Proof.
  unfold load_state. intros (st0 & Hl & Hk)%bindR_ok. exists st0. split; [exact Hl|].
  set (fs1 := (State.load _ fs).2) in *. clearbody fs1. revert Hk.
  unfold State.rekey_storage_locations, bind, State.with_state, State.on_state, gets, modify, on_fst. simpl.
  destruct (existsb _ _).
  - pose proof (save_memory (set_torrents (rekey canonicalize (location_path <$> storage c) <$> torrents st0) st0, fs1))
      as Hm. destruct (State.save _) as [r [st1 fs2]]. simpl in Hm. subst st1. by intros [= <-].
  - by intros [= <-].
Qed.

(** What a value built from a configuration is, when the files are [fs] as the
    building begins and the host shows [total] bytes of memory. *)
Record ready (c : Config) (fs : Fs) (total : Z) (e : Engine) : Prop := {
  ready_valid : valid canonicalize c;
  ready_cfg : e_cfg e = set_storage (storage (e_cfg e)) c;
  ready_limits : Forall2 (resolved canonicalize) (storage c) (storage (e_cfg e));
  ready_distinct : NoDup (location_path <$> storage (e_cfg e));
  ready_caps : exists cap,
    max_torrents_for_budget total (max_ram c) = (e_ram_budget e, cap, e_max_torrents e) /\
    (0 < total -> 0 < max_ram c -> max_ram c <= cap);
  ready_bias : e_size_bias e = size_bias_for_ratio (e_ram_budget e) (disk_limit_total (e_cfg e));
  ready_state : exists st0,
    (State.load (path_join (data_dir c) "state.json") fs).1 = Ok st0 /\
    torrents (e_state e) = rekey canonicalize (location_path <$> storage (e_cfg e)) <$> torrents st0 /\
    quarantined (e_state e) = quarantined st0;
  ready_detector : e_detector e = ∅ /\ e_last_catalog e = None /\ e_completed_seen e = ∅;
}.

Lemma ram_caps_ok total c caps :
  ram_caps total c = Ok caps -> exists cap,
    max_torrents_for_budget total (max_ram c) = (caps.1, cap, caps.2) /\
    (0 < total -> 0 < max_ram c -> max_ram c <= cap).
Proof.
  unfold ram_caps. destruct (max_torrents_for_budget _ _) as [[budget cap] max].
  destruct (_ && _) eqn:E; [done|]. intros [= <-]. exists cap. split; [done|]. intros Ht Hm.
  rewrite !andb_false_iff, !Z.ltb_ge in E. lia.
Qed.

Lemma bind_value {S A B} (m : M S A) (f : A -> M S B) s : (bind m f s).1 = (f (m s).1 (m s).2).1.
Proof. unfold bind. by destruct (m s). Qed.

Lemma on_fs_value {A} (m : M Fs A) (n : Node W) : (on_fs m n).1 = (m (node_fs n)).1.
Proof. unfold on_fs. by destruct (m (node_fs n)). Qed.

(** *** The node in between *)

Lemma on_world_fs {A} (m : M W A) (n : Node W) : node_fs (on_world m n).2 = node_fs n.
Proof. unfold on_world. by destruct (m (world n)). Qed.

Lemma with_context_state {S E A} msg (m : M S (result E A)) s : (with_context msg m s).2 = (m s).2.
Proof. unfold with_context, bind, ret. by destruct (m s) as [[a|er] s']. Qed.

Lemma statvfs_fs p (n : Node W) : node_fs (device_total_bytes p n).2 = node_fs n.
Proof.
  unfold device_total_bytes, statvfs_of, bindR, bind, ret.
  pose proof (on_world_fs (create_data_dir p) n) as Hfs1. rewrite <- (with_context_state ("creating " +:+ p)) in Hfs1.
  destruct (with_context _ _ n) as [[u|er] n1]; [|exact Hfs1]. cbn [snd] in Hfs1.
  pose proof (on_world_fs (statvfs p) n1) as Hfs2. destruct (on_world (statvfs p) n1) as [[st|] n2]; cbn in *; congruence.
Qed.

Lemma resolve_location_fs l (n : Node W) : node_fs (resolve_location canonicalize l n).2 = node_fs n.
Proof.
  unfold resolve_location. destruct (limit l); [done|done|]. unfold bindR, bind at 1. cbv zeta.
  set (p := default _ _). pose proof (statvfs_fs p n) as Hfs1.
  rewrite <- (with_context_state ("resolving `limit: max` for " +:+ p +:+ ": cannot stat device")) in Hfs1.
  by destruct (with_context _ _ n) as [[t|er] n1].
Qed.

Lemma resolve_locations_fs ls : forall n : Node W, node_fs (resolve_locations canonicalize ls n).2 = node_fs n.
Proof.
  induction ls as [|l ls IH]; intros n; [done|]. cbn [resolve_locations]. unfold bindR, bind, ret.
  pose proof (resolve_location_fs l n) as Hfs1.
  destruct (resolve_location canonicalize l n) as [[l'|er] n1]; [|exact Hfs1]. cbn [snd] in Hfs1.
  specialize (IH n1). destruct (resolve_locations canonicalize ls n1) as [[ls'|er] n2]; cbn in *; congruence.
Qed.

Lemma resolve_all_fs c (n : Node W) : node_fs (resolve_all_limits canonicalize c n).2 = node_fs n.
Proof.
  unfold resolve_all_limits, bindR, bind, ret. pose proof (resolve_locations_fs (storage c) n) as Hfs1.
  by destruct (resolve_locations _ _ n) as [[ls|er] n1].
Qed.

(** What is opened before the host's memory is read. *)
Definition opened (c : Config)
    : M (Node W) (result error (Config * State * SwarmCache * (string * string))) :=
  let? _ := ret (validate canonicalize c) in
  let? c := resolve_all_limits canonicalize c in
  let? _ := with_context ("creating data dir " +:+ data_dir c) (on_world (create_data_dir (data_dir c))) in
  on_world (repair_mode (data_dir c)) ;;;
  let? _ := on_world (create_locations (storage c)) in
  let? st := on_fs (load_state canonicalize c) in
  let* cache := on_fs (swarm_load (path_join (data_dir c) "scrape-cache.json") (interval (scan c))) in
  let? _ := with_context "building HTTP client" (on_world http_client) in
  let* announces := on_world (user_announces announce_from_slice c) in
  ret (Ok (c, st, cache, announces)).

(** The memory the host shows when the building comes to it. *)
Definition host_ram (c : Config) (n : Node W) : Z := (system_total_ram (world (opened c n).2)).1.

Lemma build_engine_eq c opts n :
  build_engine canonicalize to_lowercase announce_from_slice c opts n =
  bindR (opened c) (fun '(c, st, cache, announces) =>
    let* system_total := on_world system_total_ram in
    let? caps := ret (ram_caps system_total c) in
    let? _ := on_world (new_seeder_session c caps.1) in
    let* history := on_fs (new_writer (path_join (data_dir c) "history.jsonl")) in
    let* started_at := on_world mono_now in
    let* next_allowed := on_world mono_now in
    ret (Ok (fresh_engine to_lowercase c opts st cache announces caps.1 caps.2 history started_at next_allowed))) n.
Proof.
  unfold build_engine, opened, bindR, bind, ret. destruct (validate _ c) as [[]|er]; [|done].
  destruct (resolve_all_limits _ c n) as [[c'|er] n1]; [|done].
  destruct (with_context _ _ n1) as [[u|er] n2]; [|done]. destruct (on_world (repair_mode _) n2) as [u' n3].
  destruct (on_world (create_locations _) n3) as [[u1|er] n4]; [|done].
  destruct (on_fs (load_state _ _) n4) as [[st|er] n5]; [|done].
  destruct (on_fs (swarm_load _ _) n5) as [cache n6]. destruct (with_context _ _ n6) as [[u2|er] n7]; [|done].
  by destruct (on_world (user_announces _ _) n7) as [ann n8].
Qed.

(** What was opened: the resolved configuration, and the state of the file that
    was there to begin with. *)
Lemma opened_ok c (n : Node W) c' st cache announces :
  (opened c n).1 = Ok (c', st, cache, announces) ->
  valid canonicalize c /\ c' = set_storage (storage c') c /\
  Forall2 (resolved canonicalize) (storage c) (storage c') /\ NoDup (location_path <$> storage c') /\
  (load_state canonicalize c' (node_fs n)).1 = Ok st.
Proof.
  unfold opened. intros ([] & Hv & Hr)%bindR_ok. apply validate_valid in Hv.
  apply bindR_ok in Hr as (c1 & Hc & ([] & _ & Hr)%bindR_ok).
  apply resolve_all_limits_ok in Hc as (Hc' & Hlim & Hd).
  rewrite bind_value in Hr. apply bindR_ok in Hr as ([] & _ & (st1 & Hst & Hr)%bindR_ok).
  rewrite on_fs_value, !on_world_fs, with_context_state, on_world_fs, resolve_all_fs in Hst.
  rewrite bind_value in Hr. apply bindR_ok in Hr as ([] & _ & Hr). rewrite bind_value in Hr.
  by injection Hr as -> -> _ _.
Qed.

Lemma build_ready c opts (n : Node W) e :
  (build_engine canonicalize to_lowercase announce_from_slice c opts n).1 = Ok e ->
  ready c (node_fs n) (host_ram c n) e.
Proof.
  rewrite build_engine_eq. intros ([[[c' st] cache] announces] & Ho & Hr)%bindR_ok. unfold host_ram.
  set (n1 := (opened c n).2) in *. clearbody n1. apply opened_ok in Ho as (Hv & Hc' & Hlim & Hd & Hst).
  apply load_state_ok in Hst as (st0 & Hload & Ht & Hq).
  rewrite bind_value in Hr. apply bindR_ok in Hr as (caps & Hcaps & ([] & _ & Hr)%bindR_ok).
  assert ((on_world system_total_ram n1).1 = (system_total_ram (world n1)).1) as Htot.
  { unfold on_world. by destruct (system_total_ram (world n1)). }
  rewrite Htot in Hcaps. apply ram_caps_ok in Hcaps as (cap & Hcaps & Hcap).
  rewrite !bind_value in Hr. injection Hr as <-.
  assert (data_dir c' = data_dir c /\ max_ram c' = max_ram c) as [Hdir Hmax] by (by rewrite Hc').
  rewrite Hdir in Hload. rewrite Hmax in Hcaps, Hcap.
  split; [done|done|done|done| |done| |done].
  - by exists cap.
  - by exists st0.
Qed.
End Ready.

(** Whatever is built is ready. *)
Lemma new_ready {W : Type} `{World W} `{Decoders} `{Chrono} `{HexCrate} `{UrlCrate}
    `{HashIter} `{Libm} `{StateCodec} `{CacheCodec} canonicalize to_lowercase
    announce_from_slice c opts (n : Node W) e :
  (new_with_options canonicalize to_lowercase announce_from_slice c opts n).1 = Ok e ->
  ready canonicalize c (node_fs n) (host_ram canonicalize announce_from_slice c n) e.
Proof.
  unfold new_with_options. intros (e0 & Hb & Hr)%bindR_ok. apply build_ready in Hb.
  set (n1 := (build_engine _ _ _ _ _ n).2) in Hr. pose proof (resume_same e0 n1) as Hs.
  destruct (resume_held (e0, n1)) as [[u|er] [e1 n2]]; [|done]. simpl in Hs, Hr. subst e1.
  by injection Hr as <-.
Qed.

(** C26: an engine that is built is ready.  Its configuration is the valid one it
    was given, with canonical, distinct locations and concrete limits; its RAM
    budget and its cap on torrents are those of the budget rule for the memory
    the host shows, a [max_ram] past the host's hard cap is refused; its held
    set is the one that [state.json] of its data directory holds when the
    building begins, under the configured spellings, and its registry the one
    saved there; it has judged nothing yet; and resuming what is held leaves all
    of it alone. *)
Theorem built_engine_ready {W : Type} `{World W} `{Decoders} `{Chrono} `{HexCrate} `{UrlCrate}
    `{HashIter} `{Libm} `{StateCodec} `{CacheCodec} canonicalize to_lowercase
    announce_from_slice c opts (n : Node W) e :
  (new_with_options canonicalize to_lowercase announce_from_slice c opts n).1 = Ok e ->
  ready canonicalize c (node_fs n) (host_ram canonicalize announce_from_slice c n) e.
Proof. apply new_ready. Qed.

(** ** Witness *)

Definition boot_fs : Fs :=
  fresh_fs [("/d/state.json", default "" (@to_string_pretty witness_codec (of_state witness_state)))] [].

Definition boot_node : Node Toy :=
  {| node_fs := boot_fs; registry := registry witness_node; world := world witness_node |}.

Abbreviation boot_there :=
  (@new_with_options Toy witness_world witness_decoders witness_chrono witness_hex witness_urls
     hash_iter_sorted witness_libm witness_codec witness_cache_codec (fun _ => None)
     (fun x => x) (fun _ => None)).

Definition witness_options : Options :=
  {| catalog_url := None; at_base_url := None; scrape_backoff := None |}.

(** The node's file holds one torrent, and so does the engine. *)
Lemma built_engine_ready_witness :
  exists e, (boot_there witness_config witness_options boot_node).1 = Ok e /\
    (map_to_list (torrents (e_state e))).*1 = ["aa"] /\
    @ready witness_libm witness_codec (fun _ => None) witness_config boot_fs (2 ^ 33) e.
Proof.
  assert (is_ok (boot_there witness_config witness_options boot_node).1 = true) as Hok by (vm_compute; reflexivity).
  assert ((fun e => (map_to_list (torrents (e_state e))).*1) <$>
    result_ok (boot_there witness_config witness_options boot_node).1 = Some ["aa"]) as Hl
    by (vm_compute; reflexivity).
  destruct (boot_there witness_config witness_options boot_node).1 as [e|er] eqn:Er in Hok, Hl |- *; [|discriminate].
  exists e. split; [done|]. split; [by injection Hl|].
  exact (@built_engine_ready Toy witness_world witness_decoders witness_chrono witness_hex witness_urls
           hash_iter_sorted witness_libm witness_codec witness_cache_codec (fun _ => None)
           (fun x => x) (fun _ => None) witness_config witness_options boot_node e Er).
Defined.
