(* ===== verification/Census.v ===== *)
(** The census of the keep-at network, [census.rs]: every item of the catalog is
    scraped, and its swarm joined for a moment by a disposable session to count
    the other nodes; and what it prints. *)

From S2P Require Import Prelude Text Float64 Fs Persist Time Ram Selector Net Quarantine State.
From S2P Require Import AtKey AtTorrent Filter FdLimit Humanize Catalog World Config Cli NetStats Torrents Session.
From S2P Require Import Swap Swarm Scan Boot BuildInfo.

Definition DEFAULT_PROBE_TIMEOUT : duration := secs 10.
Definition PROBE_POLL_INTERVAL : duration := 500000000.
Definition PROBE_MAX_PEERS : nat := 8.

Record CensusResult := {
  catalog_size : nat;
  scraped : nat;
  probed : nat;
  failed : nat;
  cr_node_count : nat;
  cr_seeding_bytes : Z;
  cr_leeching_bytes : Z;
  cr_seeder_floor : Z;
  elapsed : duration;
}.

(** The disposable session, of which there is one at a time: opening it in a data
    directory, with its options, the name and the peer id it goes by; adding a torrent file with its folder and trackers ([None] when
    the add is list-only); the addresses of its peers with what they call
    themselves; whether the torrent is complete; deleting it, and stopping.
    [socket_addr_ip] is the address of a [SocketAddr] that parses. *)
Class Probing (W : Type) := {
  random_bytes : nat -> M W bytes;
  probe_open : SessionOptions -> string -> bytes -> M W (result error unit);
  probe_add : bytes -> path -> list string -> M W (result error (option string));
  probe_peers : string -> M W (option (list (string * option string)));
  probe_finished : string -> M W bool;
  probe_delete : string -> M W unit;
  probe_stop : duration -> M W unit;
  socket_addr_ip : string -> option string;
}.

(** ** Peers *)

Fixpoint rsplit_colon (s : string) : option string :=
  match s with
  | EmptyString => None
  | String a s =>
      match rsplit_colon s with
      | Some host => Some (String a host)
      | None => if Ascii.eqb a ":" then Some EmptyString else None
      end
  end.

Section Census.
Context {W : Type} `{World W} `{Probing W} `{Decoders} `{Chrono} `{HexCrate} `{UrlCrate} `{Yaml}.
(** [fs::canonicalize], [HOME], serde_json on the reply of the announce
    endpoint, the version, and the process id. *)
Context (canonicalize : path -> option path) (home : option string).
Context (announce_from_slice : string -> option string) (VERSION : string) (pid : Z).

(** [new_probe_session] of [engine/session.rs]: an ephemeral port, no limits of
    its own, and the name of a scraper. *)
Definition probe_opts (data_dir : path) : SessionOptions :=
  {| so_data_dir := data_dir; so_listen := listener_options 0 false; so_ipv4_only := false;
     so_upload_bps := None; so_download_bps := None; so_peer_limit := 8;
     so_enable_tcp := None; so_dht := false; so_disable_local_discovery := true;
     so_pooled_storage := false |}.

Definition new_probe_session (data_dir : path) : M W (result error unit) :=
  let* random := random_bytes 12 in
  with_context "creating probe session"
    (probe_open (probe_opts data_dir) (scraper_user_agent VERSION) (make_peer_id random)).

Definition peer_host_key (addr : string) : string :=
  match socket_addr_ip addr with
  | Some ip => ip
  | None =>
      match rsplit_colon addr with
      | Some host => trim_by (fun a => Ascii.eqb a "[" || Ascii.eqb a "]") host
      | None => addr
      end
  end.

Definition peer_count (h : string) : M W nat :=
  let* snap := probe_peers h in ret match snap with Some peers => length peers | None => 0%nat end.

Definition keep_at_peers (h : string) : M W (list (string * bool)) :=
  let* snap := probe_peers h in
  match snap with
  | None => ret []
  | Some peers =>
      let* we_complete := probe_finished h in
      ret (omap (fun '(addr, name) =>
        match name with
        | Some name => if is_keep_at_seeder name then Some (peer_host_key addr, we_complete) else None
        | None => None
        end) peers)
  end.

(** The poll for peers; [None] when the fuel runs out. *)
Fixpoint probe_loop (fuel : nat) (h : string) (deadline : instant) : M W (option (list (string * bool))) :=
  match fuel with
  | O => ret None
  | S fuel =>
      let* out := keep_at_peers h in
      let* n := peer_count h in
      if negb (bool_decide (out = [])) || (PROBE_MAX_PEERS <=? n)%nat then ret (Some out)
      else
        let* t := mono_now in
        if deadline <=? t then ret (Some out)
        else sleep PROBE_POLL_INTERVAL ;;; probe_loop fuel h deadline
  end.

(** Polls that fit the timeout, and the one that ends the loop. *)
Definition probe_polls (timeout : duration) : nat := Z.to_nat (Z.max timeout 0 / PROBE_POLL_INTERVAL + 2).

Definition probe_dir (data_dir : path) : path :=
  path_join (path_join data_dir "probe-scratch") ("p" +:+ pretty pid).

(** [probe_swarm]; [None] when the loop would not end. *)
Definition probe_swarm (data_dir : path) (info_hash_hex : string) (trackers : list string)
    (user_announce user_announce_ipv6 : string) (timeout : duration)
    : M (Node W) (option (result error (list (string * bool)))) :=
  let* opened := on_world (new_probe_session data_dir) in
  match opened with
  | Err e => ret (Some (Err e))
  | Ok _ =>
      let keyed := at_trackers_only (map (fun t => [t]) trackers) user_announce user_announce_ipv6 in
      let* _ := on_world (create_data_dir (probe_dir data_dir)) in
      let* raw := on_fs (fs_read (torrent_cache_path data_dir info_hash_hex)) in
      match raw with
      | Err _ => ret (Some (Err ("loading cached .torrent for " +:+ info_hash_hex)))
      | Ok raw =>
          let* added := on_world (probe_add raw (probe_dir data_dir) (concat keyed)) in
          match added with
          | Err e => ret (Some (Err e))
          | Ok None => ret (Some (Err "probe torrent added list-only"))
          | Ok (Some h) =>
              let* start := on_world mono_now in
              let* out := on_world (probe_loop (probe_polls timeout) h (start + timeout)) in
              match out with
              | None => ret None
              | Some out =>
                  on_world (probe_delete h) ;;;
                  on_world (probe_stop (secs 5)) ;;;
                  let* _ := on_world (remove_dir_all (probe_dir data_dir)) in
                  ret (Some (Ok out))
              end
          end
      end
  end.

(** ** Metadata and scrapes, at the census's own rate *)

Abbreviation CensusState := (RateLimiter * Node W)%type.

(** [RateState::wait], which is the engine's limiter. *)
Definition rate_wait : M CensusState unit := fun '(rl, n) =>
  let '(u, (rl, w)) := wait (rl, world n) in
  (u, (rl, {| node_fs := node_fs n; registry := registry n; world := w |})).

Definition cached_or_fetch (data_dir : path) (hex : string) : M CensusState (result error TorrentMeta) :=
  let p := torrent_cache_path data_dir hex in
  let* cached := on_snd (read_metadata p) in
  match cached with
  | Some md => ret (Ok md)
  | None =>
      rate_wait ;;;
      let? mr := on_snd (on_net (fetch_torrent torrent_from_bytes DEFAULT_BASE_URL hex (Some p))) in
      ret (Ok mr.1)
  end.

Fixpoint scrape_one (trackers : list string) (info_hash : string) (last_err : option error)
    : M CensusState (result error SwarmCounts) :=
  match trackers with
  | [] => ret (Err (default "no tracker returned scrape data" last_err))
  | tracker :: trackers =>
      whenM (is_at_tracker_url tracker) rate_wait ;;;
      if negb (starts_with "http://" tracker) && negb (starts_with "https://" tracker)
      then scrape_one trackers info_hash last_err
      else
        let* late := on_snd (on_world (request_times_out SCRAPE_TIMEOUT)) in
        if (late : bool) then scrape_one trackers info_hash (Some "scrape timed out")
        else
          let* r := on_snd (on_world (scrape_http bencode_from_bytes tracker info_hash)) in
          match r with
          | Ok c => ret (Ok c)
          | Err e =>
              if is_rate_limited e then ret (Err ("tracker rate-limited during census: " +:+ e))
              else scrape_one trackers info_hash (Some e)
          end
  end.

(** ** The walk over the catalog *)

(** What the loop accumulates. *)
Record Tally := {
  ta_scraped : nat;
  ta_probed : nat;
  ta_failed : nat;
  ta_tracker : Tracker;
  ta_counts : list Z;
}.

Definition tally_zero : Tally :=
  {| ta_scraped := 0; ta_probed := 0; ta_failed := 0;
     ta_tracker := {| nodes := ∅; seeding_bytes := 0; leeching_bytes := 0 |}; ta_counts := [] |}.

Definition one_failed (t : Tally) : Tally :=
  {| ta_scraped := ta_scraped t; ta_probed := ta_probed t; ta_failed := S (ta_failed t);
     ta_tracker := ta_tracker t; ta_counts := ta_counts t |}.

Definition one_scraped (seeders : Z) (t : Tally) : Tally :=
  {| ta_scraped := S (ta_scraped t); ta_probed := ta_probed t; ta_failed := ta_failed t;
     ta_tracker := ta_tracker t; ta_counts := ta_counts t ++ [seeders] |}.

Definition one_probed (total_length : Z) (obs : list (string * bool)) (t : Tally) : Tally :=
  {| ta_scraped := ta_scraped t; ta_probed := S (ta_probed t); ta_failed := ta_failed t;
     ta_tracker := foldl (fun tr '(key, complete) => observe key total_length complete tr)
                         (ta_tracker t) obs;
     ta_counts := ta_counts t |}.

Definition census_item (data_dir : path) (announces : string * string) (timeout : duration)
    (item : Item) (t : Tally) : M CensusState (option Tally) :=
  let hex := hex_encode (item_info_hash item) in
  let* md := cached_or_fetch data_dir hex in
  match md with
  | Err _ => ret (Some (one_failed t))
  | Ok md =>
      let* swarm := scrape_one (tm_trackers md) (tm_info_hash md) None in
      match swarm with
      | Err _ => ret (Some (one_failed t))
      | Ok swarm =>
          let t := one_scraped (seeders swarm) t in
          let* obs := on_snd (probe_swarm data_dir hex (tm_trackers md) announces.1 announces.2 timeout) in
          ret match obs with
              | None => None
              | Some (Ok obs) => Some (one_probed (tm_total_length md) obs t)
              | Some (Err _) => Some (one_failed t)
              end
      end
  end.

Fixpoint census_loop (data_dir : path) (announces : string * string) (timeout : duration)
    (items : list Item) (t : Tally) : M CensusState (option Tally) :=
  match items with
  | [] => ret (Some t)
  | item :: items =>
      let* t := census_item data_dir announces timeout item t in
      match t with
      | None => ret None
      | Some t => census_loop data_dir announces timeout items t
      end
  end.

Definition result_of (n : nat) (took : duration) (t : Tally) : CensusResult :=
  {| catalog_size := n; scraped := ta_scraped t; probed := ta_probed t; failed := ta_failed t;
     cr_node_count := node_count (ta_tracker t);
     cr_seeding_bytes := seeding_bytes (ta_tracker t);
     cr_leeching_bytes := leeching_bytes (ta_tracker t);
     cr_seeder_floor := seeder_floor (ta_counts t); elapsed := took |}.

(** The census of a resolved configuration. *)
Definition census (c : Config) (timeout : duration) : M (Node W) (option (result error CensusResult)) :=
  let* client := on_world http_client in
  match client with
  | Err e => ret (Some (Err e))
  | Ok _ =>
      let* announces := on_world (user_announces announce_from_slice c) in
      let p := path_join (data_dir c) "database.xml" in
      let* at_ := on_world utc_now in
      let* age := on_world (file_age p) in
      let* cat := on_net (Catalog.load rss_from_reader at_ p DEFAULT_CATALOG_URL age (interval (scan c))) in
      match cat with
      | Err e => ret (Some (Err e))
      | Ok (cat, _) =>
          let* items := on_world (shuffle_items (items cat)) in
          let* started := on_world mono_now in
          let* first := on_world mono_now in
          fun n =>
            let rl := {| per_second := rate_limit_per_second (scan c); next_allowed := first |} in
            let '(t, (_, n)) := census_loop (data_dir c) announces timeout items tally_zero (rl, n) in
            match t with
            | None => (None, n)
            | Some t =>
                let '(ended, n) := on_world mono_now n in
                (Some (Ok (result_of (length items) (ended - started) t)), n)
            end
      end
  end.

Definition cmd_network_status (args : NetworkStatusArgs)
    : M (Node W) (option (result error CensusResult)) :=
  let* c := on_fs (resolve_census canonicalize home args) in
  match c with
  | Err e => ret (Some (Err e))
  | Ok c => census c (default DEFAULT_PROBE_TIMEOUT (ns_probe_timeout args))
  end.
End Census.

(** ** What the command prints *)

Definition PROGRESS_EVERY : nat := 25.

(** [report]: the progress, where it is to be printed at all. *)
Definition report (processed total : nat) (t : Tracker) (took : duration) (print : bool) : list string :=
  if negb print then []
  else
    let pct := if (0 <? total)%nat
               then fmul (fdiv (f64_of_Z (Z.of_nat processed)) (f64_of_Z (Z.of_nat total))) (f64_of_Z 100)
               else fzero in
    ["  census in progress: " +:+ pretty processed +:+ "/" +:+ pretty total +:+ " torrents (" +:+ fmt1 pct +:+
     "%), keep-at nodes observed so far: " +:+ pretty (node_count t) +:+ ", elapsed " +:+ human_duration took].

(** The lines at the end; [None] where formatting a size does not return. *)
Definition final_lines (r : CensusResult) : list (option string) :=
  [Some "";
   Some ("census complete: " +:+ pretty (scraped r) +:+ "/" +:+ pretty (catalog_size r) +:+
         " torrents scraped and probed (" +:+ pretty (failed r) +:+ " failed) in " +:+ human_duration (elapsed r));
   Some ("keep-at nodes observed: " +:+ pretty (cr_node_count r));
   (fun b => "data being seeded by keep-at nodes: " +:+ b) <$> human_bytes (as_i64 (cr_seeding_bytes r));
   (fun b => "data being downloaded by keep-at nodes: " +:+ b) <$> human_bytes (as_i64 (cr_leeching_bytes r));
   Some ("p10 seeder floor (anchor for the seed-scarcity gate): " +:+ pretty (cr_seeder_floor r))].

(** ** The census ends, and its numbers add up *)

Section Ends.
Context {W : Type} `{World W} `{Probing W} (time : W -> instant).

(** Looking at the peers does not turn back time. *)
Definition probe_forward : Prop :=
  (forall h w, time w <= time ((probe_peers h w).2)) /\
  (forall h w, time w <= time ((probe_finished h w).2)).

Lemma peers_forward h w : probe_forward -> time w <= time ((keep_at_peers h w).2).
Proof.
  intros [Hp Hf]. unfold keep_at_peers, bind, ret. specialize (Hp h w).
  destruct (probe_peers h w) as [[peers|] w1]; [|done]. specialize (Hf h w1).
  destruct (probe_finished h w1) as [b w2]. simpl in *. lia.
Qed.

Lemma count_forward h w : probe_forward -> time w <= time ((peer_count h w).2).
Proof.
  intros [Hp _]. unfold peer_count, bind, ret. specialize (Hp h w). by destruct (probe_peers h w).
Qed.

Lemma probe_loop_ends fuel : forall h deadline w,
  clock_ok time -> probe_forward ->
  deadline - time w <= (Z.of_nat fuel - 1) * PROBE_POLL_INTERVAL -> (0 < fuel)%nat ->
  is_Some (probe_loop fuel h deadline w).1.
Proof.
  induction fuel as [|fuel IH]; intros h deadline w Hc Hf Hfuel Hpos; [lia|]. cbn [probe_loop].
  unfold bind at 1. pose proof (peers_forward h w Hf) as H1.
  destruct (keep_at_peers h w) as [out w1]. cbn [snd] in H1. unfold bind at 1.
  pose proof (count_forward h w1 Hf) as H2. destruct (peer_count h w1) as [n w2]. cbn [snd] in H2.
  destruct (_ || _); [by eexists|]. unfold bind at 1.
  pose proof (proj1 Hc w2) as H3. destruct (mono_now w2) as [t w3]. cbn [fst snd] in H3.
  destruct (Z.leb_spec deadline t) as [Ht|Ht]; [by eexists|]. unfold bind at 1.
  pose proof (proj2 Hc PROBE_POLL_INTERVAL w3) as H4.
  destruct (sleep PROBE_POLL_INTERVAL w3) as [u w4]. cbn [snd] in H4.
  assert (0 < PROBE_POLL_INTERVAL) as Hi by (unfold PROBE_POLL_INTERVAL; lia).
  apply (IH h deadline w4 Hc Hf); nia.
Qed.

Lemma probe_polls_enough timeout : timeout <= (Z.of_nat (probe_polls timeout) - 1) * PROBE_POLL_INTERVAL.
Proof.
  unfold probe_polls. assert (0 < PROBE_POLL_INTERVAL) as Hi by (unfold PROBE_POLL_INTERVAL; lia).
  pose proof (Z.div_pos (Z.max timeout 0) PROBE_POLL_INTERVAL ltac:(lia) Hi) as Hq.
  pose proof (Z.mul_succ_div_gt (Z.max timeout 0) PROBE_POLL_INTERVAL Hi) as Hd.
  rewrite Z2Nat.id by lia. nia.
Qed.

Lemma probe_swarm_ends `{UrlCrate} version pid dir hex trackers ua ua6 timeout (n : Node W) :
  clock_ok time -> probe_forward -> is_Some (probe_swarm version pid dir hex trackers ua ua6 timeout n).1.
Proof.
  intros Hc Hf. unfold probe_swarm, bind, ret.
  destruct (on_world (new_probe_session version dir) n) as [[u|e] n1]; [|by eexists].
  destruct (on_world (create_data_dir _) n1) as [u' n2].
  destruct (on_fs (fs_read _) n2) as [[raw|e] n3]; [|by eexists].
  destruct (on_world (probe_add _ _ _) n3) as [[[h|]|e] n4]; [|by eexists..].
  pose proof (proj1 Hc (world n4)) as Ht.
  unfold on_world at 1. destruct (mono_now (world n4)) as [start w5]. cbn [fst snd] in Ht.
  set (n5 := {| node_fs := node_fs n4; registry := registry n4; world := w5 |}).
  pose proof (probe_loop_ends (probe_polls timeout) h (start + timeout) w5 Hc Hf) as [out Ho].
  { pose proof (probe_polls_enough timeout). lia. }
  { unfold probe_polls. assert (0 < PROBE_POLL_INTERVAL) by (unfold PROBE_POLL_INTERVAL; lia).
    pose proof (Z.div_pos (Z.max timeout 0) PROBE_POLL_INTERVAL ltac:(lia) ltac:(done)). lia. }
  unfold on_world at 1. cbn [n5 world]. destruct (probe_loop _ h _ w5) as [o w6]. cbn [fst] in Ho. subst o.
  destruct (on_world (probe_delete h) _) as [u1 n7]. destruct (on_world (probe_stop _) n7) as [u2 n8].
  destruct (on_world (remove_dir_all _) n8) as [u3 n9]. by eexists.
Qed.
End Ends.

(** After [n] items. *)
Record tallied (n : nat) (t : Tally) : Prop := {
  tallied_all : (ta_failed t + ta_probed t = n)%nat;
  tallied_probed : (ta_probed t <= ta_scraped t <= n)%nat;
  tallied_counts : length (ta_counts t) = ta_scraped t;
}.

Section Accounts.
Context {W : Type} `{World W} `{Probing W} `{Decoders} `{Chrono} `{HexCrate} `{UrlCrate}.
Context (time : W -> instant) (version : string) (pid : Z).

Abbreviation CensusState := (RateLimiter * Node W)%type.

(** The seeders of an item's swarm, when its metadata and a scrape are had. *)
Definition item_swarm (dir : path) (item : Item) : M CensusState (option Z) :=
  let hex := hex_encode (item_info_hash item) in
  let* md := cached_or_fetch dir hex in
  match md with
  | Err _ => ret None
  | Ok md =>
      let* swarm := scrape_one (tm_trackers md) (tm_info_hash md) None in
      ret match swarm with Ok swarm => Some (seeders swarm) | Err _ => None end
  end.

(** The seeders of every swarm of a list of items that answers, each asked in the
    state in which the census comes to it. *)
Fixpoint swarms (dir : path) (announces : string * string) (timeout : duration) (items : list Item)
    (t : Tally) (s : CensusState) : list Z :=
  match items with
  | [] => []
  | item :: items =>
      from_option (fun z => [z]) [] (item_swarm dir item s).1 ++
      match census_item version pid dir announces timeout item t s with
      | (Some t, s) => swarms dir announces timeout items t s
      | (None, _) => []
      end
  end.

Lemma census_item_tallied dir announces timeout item n t s :
  clock_ok time -> probe_forward time -> tallied n t ->
  exists t', (census_item version pid dir announces timeout item t s).1 = Some t' /\ tallied (S n) t' /\
    ta_counts t' = ta_counts t ++ from_option (fun z => [z]) [] (item_swarm dir item s).1.
Proof.
  intros Hc Hf [Hall Hp Hl]. unfold census_item, item_swarm, bind, ret.
  destruct (cached_or_fetch _ _ s) as [[md|e] s1].
  2:{ eexists. split; [done|]. split; [split; simpl; lia|]. simpl. by rewrite app_nil_r. }
  destruct (scrape_one _ _ _ s1) as [[c|e] s2].
  2:{ eexists. split; [done|]. split; [split; simpl; lia|]. simpl. by rewrite app_nil_r. }
  unfold on_snd. destruct s2 as [rl n2].
  destruct (probe_swarm_ends time version pid dir (hex_encode (item_info_hash item)) (tm_trackers md)
              announces.1 announces.2 timeout n2 Hc Hf) as [obs Ho].
  destruct (probe_swarm _ _ _ _ _ _ _ _ n2) as [o n3]. cbn [fst] in Ho. subst o.
  destruct obs as [obs|e]; eexists; (split; [done|]); (split; [|done]); split; simpl; rewrite ?length_app; simpl; lia.
Qed.

Lemma census_loop_tallied dir announces timeout items : forall n t s,
  clock_ok time -> probe_forward time -> tallied n t ->
  exists t', (census_loop version pid dir announces timeout items t s).1 = Some t' /\
    tallied (n + length items) t' /\ ta_counts t' = ta_counts t ++ swarms dir announces timeout items t s.
Proof.
  induction items as [|item items IH]; intros n t s Hc Hf Ht; cbn [census_loop length swarms].
  { exists t. by rewrite Nat.add_0_r, app_nil_r. }
  unfold bind, ret. destruct (census_item_tallied dir announces timeout item n t s Hc Hf Ht) as (t1 & Hi & Ht1 & Hn1).
  destruct (census_item _ _ _ _ _ _ _ s) as [o s1]. cbn [fst] in Hi. subst o.
  destruct (IH (S n) t1 s1 Hc Hf Ht1) as (t2 & Hl & Ht2 & Hn2). exists t2.
  rewrite <- Nat.add_succ_comm. split; [done|]. split; [done|]. by rewrite Hn2, Hn1, app_assoc.
Qed.

(** Up to the first item: the announces, the items in the order they are taken,
    and the state then. *)
Definition census_start from_slice (c : Config) (n : Node W)
    : option ((string * string) * list Item * CensusState) :=
  match on_world http_client n with
  | (Err _, _) => None
  | (Ok _, n) =>
      let '(announces, n) := on_world (user_announces from_slice c) n in
      let p := path_join (data_dir c) "database.xml" in
      let '(at_, n) := on_world utc_now n in
      let '(age, n) := on_world (file_age p) n in
      match on_net (Catalog.load rss_from_reader at_ p DEFAULT_CATALOG_URL age (interval (scan c))) n with
      | (Err _, _) => None
      | (Ok (cat, _), n) =>
          let '(its, n) := on_world (shuffle_items (items cat)) n in
          let '(_, n) := on_world mono_now n in
          let '(first, n) := on_world mono_now n in
          Some (announces, its, ({| per_second := rate_limit_per_second (scan c); next_allowed := first |}, n))
      end
  end.

Lemma census_spec from_slice c timeout (n : Node W) :
  clock_ok time -> probe_forward time ->
  exists r, (census from_slice version pid c timeout n).1 = Some r /\
    forall cr, r = Ok cr -> exists announces its s0 took t,
      census_start from_slice c n = Some (announces, its, s0) /\
      cr = result_of (length its) took t /\ tallied (length its) t /\
      ta_counts t = swarms (data_dir c) announces timeout its tally_zero s0.
Proof.
  intros Hc Hf. unfold census, census_start, bind, ret.
  destruct (on_world http_client n) as [[u|e] n1]; [|by eexists].
  destruct (on_world (user_announces _ c) n1) as [announces n2].
  destruct (on_world utc_now n2) as [at_ n3]. destruct (on_world (file_age _) n3) as [age n4].
  destruct (on_net _ n4) as [[[cat live]|e] n5]; [|by eexists].
  destruct (on_world (shuffle_items _) n5) as [its n6].
  destruct (on_world mono_now n6) as [started n7]. destruct (on_world mono_now n7) as [first n8].
  destruct (census_loop_tallied (data_dir c) announces timeout its 0 tally_zero
    ({| per_second := rate_limit_per_second (scan c); next_allowed := first |}, n8) Hc Hf)
    as (t & Hl & Ht & Hn); [by split; simpl; lia|].
  destruct (census_loop _ _ _ _ _ _ _ _) as [o [rl n9]]. cbn [fst] in Hl. subst o.
  destruct (on_world mono_now n9) as [ended n10]. eexists. split; [done|].
  intros cr [= <-]. by eexists announces, its, _, _, t.
Qed.
End Accounts.

(** C39: the census ends and its numbers add up.  Whatever the network, the peers
    and the disk answer, it comes to a result, however long the catalog; and in
    that result every item of the catalog has either been probed or is counted
    as failed, the probed ones are among the scraped ones, and the floor is the
    percentile over exactly the seeders that the scraped swarms reported
    ([swarms]), one for each. *)
Theorem census_accounts {W} `{World W} `{Probing W} `{Decoders} `{Chrono} `{HexCrate} `{UrlCrate} `{Yaml}
    time canonicalize home from_slice version pid args (n : Node W) :
  clock_ok time -> probe_forward time ->
  let timeout := default DEFAULT_PROBE_TIMEOUT (ns_probe_timeout args) in
  exists r, (cmd_network_status canonicalize home from_slice version pid args n).1 = Some r /\
    forall cr, r = Ok cr ->
      (failed cr + probed cr = catalog_size cr)%nat /\
      (probed cr <= scraped cr <= catalog_size cr)%nat /\
      exists c n1 announces its s0, on_fs (resolve_census canonicalize home args) n = (Ok c, n1) /\
        census_start from_slice c n1 = Some (announces, its, s0) /\ catalog_size cr = length its /\
        let counts := swarms version pid (data_dir c) announces timeout its tally_zero s0 in
        scraped cr = length counts /\ cr_seeder_floor cr = seeder_floor counts.
Proof.
  intros Hc Hf timeout. unfold cmd_network_status, bind, ret.
  destruct (on_fs (resolve_census _ _ args) n) as [[c|e] n1]; [|by eexists].
  destruct (census_spec time version pid from_slice c timeout n1 Hc Hf) as (r & Hr & Hcr).
  exists r. split; [exact Hr|]. intros cr Hok.
  destruct (Hcr cr Hok) as (announces & its & s0 & took & t & Hs & -> & [Hall Hp Hl] & Hn). cbn.
  split; [done|]. split; [done|]. exists c, n1, announces, its, s0. split; [done|]. split; [done|].
  split; [done|]. rewrite <- Hn. by split.
Qed.

(** ** Witness *)

(** A swarm of a seeding node, a probing one and a stranger. *)
Definition witness_probing : Probing Toy :=
  {| random_bytes := fun _ => ret "abcdefghijkl"; probe_open := fun _ _ _ => ret (Ok tt);
     probe_add := fun b _ _ => ret (Ok (Some b));
     probe_peers := fun _ => ret (Some
       [("[2001:db8::1]:51413", Some (seeder_user_agent "0.8.25"));
        ("10.0.0.2:6881", Some (scraper_user_agent "0.8.25"));
        ("10.0.0.3:6881", Some "rqbit 9.0.1"); ("10.0.0.4:6881", None)]);
     probe_finished := fun _ => ret false;
     probe_delete := fun _ => ret tt; probe_stop := fun _ => ret tt;
     socket_addr_ip := fun _ => None |}.

Definition census_args : NetworkStatusArgs :=
  {| ns_common := {| arg_config := None; arg_data_dir := Some "/d" |}; ns_probe_timeout := None;
     ns_api_key := None; ns_rate_limit := None |}.

Definition census_node : Node Toy :=
  {| node_fs := fresh_fs [] []; registry := registry scan_sys.2; world := world scan_sys.2 |}.

Definition census_there : option (result error CensusResult) :=
  (@cmd_network_status Toy witness_world witness_probing witness_feed witness_chrono witness_hex
     witness_urls witness_yaml (fun _ => None) None (fun _ => None) "0.8.25" 7 census_args census_node).1.

Example census_counts :
  match census_there with
  | Some (Ok cr) =>
      (catalog_size cr, probed cr, failed cr, cr_node_count cr) = (1, 1, 0, 1)%nat /\
      cr_leeching_bytes cr = 1000000 /\ cr_seeder_floor cr = 1
  | _ => False
  end.
Proof. vm_compute. by split. Qed.

Lemma census_accounts_witness :
  exists r, census_there = Some r /\
    forall cr, r = Ok cr ->
      (failed cr + probed cr = catalog_size cr)%nat /\
      (probed cr <= scraped cr <= catalog_size cr)%nat /\
      exists c n1 announces its s0,
        on_fs (@resolve_census witness_yaml (fun _ => None) None census_args) census_node = (Ok c, n1) /\
        @census_start Toy witness_world witness_feed witness_hex witness_urls
          (fun _ => None) c n1 = Some (announces, its, s0) /\
        catalog_size cr = length its /\
        let counts := @swarms Toy witness_world witness_probing witness_feed witness_chrono witness_hex
          witness_urls "0.8.25" 7 (data_dir c) announces DEFAULT_PROBE_TIMEOUT its tally_zero s0 in
        scraped cr = length counts /\ cr_seeder_floor cr = seeder_floor counts.
Proof.
  apply (@census_accounts Toy witness_world witness_probing witness_feed witness_chrono witness_hex
           witness_urls witness_yaml toy_clock (fun _ => None) None (fun _ => None) "0.8.25" 7 census_args
           census_node toy_clock_ok).
  split; intros; simpl; lia.
Defined.
