(* ===== verification/SelfUpdate.v ===== *)
(** The self-update command, [updater.rs] and [bin/keep-at.rs]: the choice of a
    release, the snapshot of the state, the elevation, and the replacement of the
    binary.  Unpacking the archive is an argument. *)

From S2P Require Import Prelude Text Net Fs Persist Config Updater Service World Cli Torrents Time.

Definition RELEASES_LIST_URL : string := "https://api.github.com/repos/tweedge/keep-at/releases".

(** ** Installing a release *)

(** [asset_arch]; [arch] is [std::env::consts::ARCH]. *)
Definition asset_arch (arch : string) : string :=
  if String.eqb arch "x86_64" then "amd64"
  else if String.eqb arch "aarch64" then "arm64"
  else if String.eqb arch "arm" then "arm"
  else if String.eqb arch "x86" then "386"
  else arch.

Definition asset_name (arch : string) : string := "keep-at_linux_" +:+ asset_arch arch +:+ ".tar.gz".

(** [Path::file_name]: the last component that is neither empty nor [.]; there is
    none when it is [..]. *)
Definition file_name (p : path) : option string :=
  match last (filter (fun s => s <> "" /\ s <> ".") (split_on "/" p)) with
  | Some s => if String.eqb s ".." then None else Some s
  | None => None
  end.

(** The entries of an archive as they are read: each its path and its contents,
    either of which may fail. *)
Definition TarEntry : Type := result error (path * result error bytes).

Fixpoint find_binary (entries : list TarEntry) : result error bytes :=
  match entries with
  | [] => Err "archive did not contain a keep-at binary"
  | Err e :: _ => Err e
  | Ok (p, data) :: entries =>
      if bool_decide (file_name p = Some "keep-at") then data else find_binary entries
  end.

Section Update.
(** gzip and tar; [serde_json] on the list of releases. *)
Context (untar : bytes -> result error (list TarEntry)).
Context (parse_releases : string -> option (list Release)).
(** The address of that list ([KEEPAT_RELEASES_LIST_URL] or the default), the
    architecture, and the process id. *)
Context (releases_list_url arch : string) (pid : Z).

Definition extract_binary (tar_gz : bytes) : result error bytes :=
  try? entries := context "reading tar archive" (untar tar_gz) in find_binary entries.

Definition update_tmp (dir : path) : path := path_join dir (".keep-at-update-" +:+ pretty pid).

(** [fs::metadata(p)?.permissions().mode()], with the set-uid bits. *)
Definition fs_metadata_mode (p : path) : M Fs (result io_error Z) :=
  io io_fails (gets (fun fs =>
    match inode_at (disk fs) p with Some ino => Ok (ino_mode ino) | None => Err NotFound end)).

Definition replace_executable (target : path) (new_binary : bytes) : M Fs (result error unit) :=
  let* m := fs_metadata_mode target in
  let mode := match m with Ok mode => mode | Err _ => 493 end in
  match path_parent target with
  | None => ret (Err "executable has no parent dir")
  | Some dir =>
      let tmp := update_tmp dir in
      let? _ := with_context ("writing " +:+ tmp) (fs_write tmp new_binary) in
      let? _ := with_context "set_permissions" (fs_chmod tmp mode) in
      with_context ("replacing " +:+ target) (fs_rename tmp target)
  end.

Context {W : Type} `{World W} `{Programs W}.

(** [apply], which asks for the newest release again. *)
Definition apply (exe : path) (include_beta : bool) : M (W * Fs) (result error string) :=
  let? rel := on_fst (fetch_latest parse_releases releases_list_url include_beta) in
  let want := asset_name arch in
  match List.find (fun a => String.eqb (asset_name_of a) want) (assets rel) with
  | None => ret (Err ("no release asset named " +:+ want +:+ " in " +:+ tag_name rel))
  | Some a =>
      let url := browser_download_url a in
      let? resp := with_cause ("downloading " +:+ url) (on_fst (http_get url)) in
      let? body := ret (reply_bytes ("downloading " +:+ url) "reading download" resp) in
      let? binary := ret (context ("extracting keep-at binary from " +:+ url) (extract_binary body)) in
      let? _ := on_snd (replace_executable exe binary) in
      ret (Ok (tag_name rel))
  end.

(** ** The command *)

Inductive Outcome :=
  | UpToDate
  | NothingToDo (latest : string)
  | Updated (version : string)
  | Left (code : Z).

Definition can_replace_file (exe : path) : M Fs (result error unit) :=
  match path_parent exe with
  | None => ret (Err "executable has no parent dir")
  | Some dir =>
      let probe := path_join dir (".keep-at-writable-" +:+ pretty pid) in
      let* w := fs_write probe "" in
      match w with
      | Ok _ => let* _ := fs_remove probe in ret (Ok tt)
      | Err _ => ret (Err (dir +:+ " is not writable"))
      end
  end.

Context `{Yaml} (canonicalize : path -> option path) (home : option string) (VERSION : string).

(** The state file is copied before the binary changes, as well as that goes. *)
Definition snapshot_state (common : CommonArgs) (latest : string) : M Fs unit :=
  let* dir := resolve_data_dir canonicalize home common in
  match dir with
  | Err _ => ret tt
  | Ok dir =>
      let from := path_join dir "state.json" in
      let* there := fs_metadata_mode from in
      match there with
      | Ok mode =>
          let to := path_join dir ("state.json.pre-" +:+ latest) in
          let* b := fs_read from in
          match b with
          | Ok b =>
              let* w := fs_write to b in
              if is_ok w then let* _ := fs_chmod to mode in ret tt else ret tt
          | Err _ => ret tt
          end
      | Err _ => ret tt
      end
  end.

(** Elevate when the binary cannot be replaced in place; [Some code]: the process
    ends, another one having done the work. *)
Definition ensure_replaceable (exe : path) : M (W * Fs) (result error (option Z)) :=
  let* able := on_snd (can_replace_file exe) in
  match able with
  | Ok _ => ret (Ok None)
  | Err _ =>
      let* e := on_fst (elevate "replace the keep-at binary for self-update") in
      match e with
      | Exits code => ret (Ok (Some code))
      | GoOn (Err e) => ret (Err e)
      | GoOn (Ok _) =>
          let* again := on_snd (can_replace_file exe) in
          ret match again with
              | Ok _ => Ok None
              | Err _ => Err ("binary " +:+ exe +:+ " still not replaceable after elevation")
              end
      end
  end.

Definition cmd_self_update (beta : bool) (common : CommonArgs) : M (W * Fs) (result error Outcome) :=
  let? _ := on_fst http_client in
  let? rel := on_fst (fetch_latest parse_releases releases_list_url beta) in
  let latest := tag_name rel in
  match decide_update latest VERSION with
  | AlreadyCurrent => ret (Ok UpToDate)
  | NotNewer => ret (Ok (NothingToDo latest))
  | Upgrade =>
      on_snd (snapshot_state common latest) ;;;
      let? exe := with_context "locating keep-at executable" (on_fst current_exe) in
      let? gone := ensure_replaceable exe in
      match gone with
      | Some code => ret (Ok (Left code))
      | None => let? v := apply exe beta in ret (Ok (Updated v))
      end
  end.
End Update.

(** ** The binary is replaced whole or not at all *)

Section Replace.
Context (target tmp : path) (x : option Inode) (data : bytes).
Hypothesis Htmp : apart target tmp.

(** [data] waits beside the target. *)
Definition waiting (fs : Fs) : Prop := framed target x fs /\ content (disk fs) tmp = Some data.

Lemma write_waits :
  hoare (framed target x) (fs_write tmp data)
    (fun r fs => match r with Ok _ => waiting fs | Err _ => framed target x fs end).
Proof.
  intros fs Hf. pose proof (framed_write target x tmp data Htmp fs Hf) as Hfr. revert Hfr.
  unfold fs_write, io, bind, next_fault. destruct (mjoin (head (faults fs))); simpl; [done|].
  intros Hfr. split; [exact Hfr|]. apply content_write_disk.
Qed.

Lemma chmod_waits mode :
  hoare waiting (fs_chmod tmp mode)
    (fun r fs => match r with Ok _ => waiting fs | Err _ => framed target x fs end).
Proof.
  intros fs [Hf Hc].
  pose proof (framed_on_inode target x tmp
    (fun ino => {| ino_data := ino_data ino; ino_mode := mode; ino_synced := ino_synced ino |})
    (proj1 Htmp) fs Hf) as Hfr.
  revert Hfr. unfold fs_chmod, on_inode, io, bind, next_fault.
  destruct (mjoin (head (faults fs))); simpl; [done|].
  apply content_Some in Hc as (i & ino & Hi & Hino & Hd). rewrite Hi, Hino. simpl. intros Hfr.
  split; [exact Hfr|]. apply content_Some. exists i. eexists. simpl. rewrite lookup_insert_eq. by split.
Qed.

Lemma rename_replaces :
  hoare waiting (fs_rename tmp target)
    (fun r fs => match r with
                 | Ok _ => content (disk fs) target = Some data
                 | Err _ => framed target x fs end).
Proof.
  intros fs [Hf Hc]. apply content_Some in Hc as (i & ino & Hi & Hino & Hd).
  unfold fs_rename, io, bind, next_fault. destruct (mjoin (head (faults fs))); simpl; [done|].
  rewrite Hi. simpl. apply content_Some. exists i, ino. simpl. by rewrite lookup_insert_eq.
Qed.
End Replace.

(** Whatever fails on the way, the executable reads as before or as the whole new
    binary; the latter exactly on success. *)
Theorem replace_executable_whole pid target new_binary fs :
  disk_wf (disk fs) -> unlinked_names (disk fs) -> no_alias (disk fs) (tmp_path target) target ->
  (forall dir, path_parent target = Some dir -> apart target (update_tmp pid dir)) ->
  let '(r, fs') := replace_executable pid target new_binary fs in
  content (disk fs') target = match r with Ok _ => Some new_binary | Err _ => content (disk fs) target end.
Proof.
  intros Hw Hu Hn Hdir. set (x := inode_at (disk fs) target).
  assert (framed target x fs) as Hf by done.
  assert (hoare (framed target x) (replace_executable pid target new_binary)
            (fun r fs' => match r with
                          | Ok _ => content (disk fs') target = Some new_binary
                          | Err _ => framed target x fs' end)) as Hh.
  { unfold replace_executable. eapply hoare_bind with (R := fun _ => framed target x).
    { apply hoare_io; [done|by intros junk fs0 H|by intros fs0 H]. }
    intros m. destruct (path_parent target) as [dir|]; [|by apply hoare_ret].
    pose proof (Hdir dir eq_refl) as Ha.
    eapply hoare_bindR; [apply hoare_with_context, (write_waits target _ x new_binary Ha)| |done].
    intros []. eapply hoare_bindR with (R := fun r fs0 => match r with
      | Ok _ => waiting target (update_tmp pid dir) x new_binary fs0
      | Err _ => framed target x fs0 end); [apply (hoare_with_context _ _ _ (fun _ => _)), chmod_waits; done| |done].
    intros []. apply (hoare_with_context _ _ _ (fun _ => _)), rename_replaces. }
  specialize (Hh fs Hf). destruct (replace_executable pid target new_binary fs) as [[u|e] fs']; [exact Hh|].
  destruct Hh as (_ & _ & Hx & _). cbn [snd] in Hx. unfold content. by rewrite Hx.
Qed.

(** ** The release that was judged need not be the one installed

    [apply] asks for the list again: here the second answer leads with an older
    release, re-published in between, which then replaces a newer binary. *)
Definition root_programs : Programs Toy :=
  {| geteuid := ret 0; isatty := fun _ => ret false; var_os := fun _ => ret None;
     current_exe := ret (Ok "/bin/keep-at"); own_args := ret ["self-update"];
     files_there := ret (fun _ => false); run_program := fun _ _ _ => ret (Err "not found");
     config_dir_exists := ret true |}.

Definition toy_release (tag : string) : Release :=
  {| tag_name := tag; draft := false;
     assets := [{| asset_name_of := asset_name "x86_64"; browser_download_url := "https://host/" +:+ tag |}] |}.

Definition ok_reply (b : string) : result error HttpReply :=
  Ok {| status := "200 OK"; is_success := true; body := Ok b |}.

Definition update_toy (replies : list string) : Toy :=
  {| toy_clock := 0; toy_replies := ok_reply <$> replies; toy_rolls := []; toy_torrents := [];
     toy_free := 0 |}.

Definition update_disk : Fs :=
  {| disk := write_disk 493 "/bin/keep-at" "running 0.9"
       {| inodes := empty; dir := empty; old_dirs := []; next_ino := 0 |};
     faults := []; umask_mode := 420; trace := [] |}.

(** The replies are the tag of the only release listed, and a binary. *)
Definition run_update (replies : list string) : result error Outcome * option bytes :=
  let r := @cmd_self_update (fun b => Ok [Ok ("./keep-at", Ok b)]) (fun b => Some [toy_release b])
    RELEASES_LIST_URL "x86_64" 7 Toy witness_world root_programs witness_yaml Some None "0.9" false
    {| arg_config := None; arg_data_dir := Some "/d" |} (update_toy replies, update_disk) in
  (r.1, content (disk r.2.2) "/bin/keep-at").

Example update_installs :
  run_update ["v1.0"; "v1.0"; "the 1.0 binary"] = (Ok (Updated "v1.0"), Some "the 1.0 binary").
Proof. vm_compute. reflexivity. Qed.

Example older_release_refused :
  run_update ["v0.8"] = (Ok (NothingToDo "v0.8"), Some "running 0.9").
Proof. vm_compute. reflexivity. Qed.

Example second_list_unguarded :
  run_update ["v1.0"; "v0.8"; "the 0.8 binary"] = (Ok (Updated "v0.8"), Some "the 0.8 binary").
Proof. vm_compute. reflexivity. Qed.
