(* ===== verification/Daemon.v ===== *)
(** The running daemon, [Engine::run] of [engine/scan.rs] and
    [engine/stats.rs]: saving the runtime statistics, when the next scan is due, and the
    loop that waits for a shutdown, a scan, the statistics or the watchdog.  The
    loop is a step function on what woke it, so that a life of the daemon is a
    list of wake-ups. *)

From S2P Require Import Prelude Text Float64 Fs Persist Time Ram Selector Net Quarantine State.
From S2P Require Import AtKey AtTorrent Filter FdLimit Catalog World Config Storage NetStats Stats Torrents.
From S2P Require Import Pool History Humanize Session Swap Swarm Engine EngineCore Acting Books Budget.
From S2P Require Import Maintain Watchdog Scan.

Definition set_live (live : bool) (e : Engine) : Engine :=
  {| e_cfg := e_cfg e; e_state := e_state e; e_shared := e_shared e; e_blocklist := e_blocklist e;
     e_base_url := e_base_url e; e_catalog_url := e_catalog_url e;
     e_user_announce := e_user_announce e; e_user_announce_ipv6 := e_user_announce_ipv6 e;
     e_max_torrents := e_max_torrents e; e_ram_budget := e_ram_budget e;
     e_size_bias := e_size_bias e; e_scrape_backoff := e_scrape_backoff e;
     e_started_at := e_started_at e; e_evaluated_counts := e_evaluated_counts e;
     e_last_scan := e_last_scan e; e_completed_seen := e_completed_seen e; e_live := live;
     e_history := e_history e; e_detector := e_detector e; e_last_catalog := e_last_catalog e |}.

(** The loop's own variables. *)
Record Loop := {
  l_deadline : instant;
  l_first_scan : bool;
  l_running : bool;
  (** when [stats_tick] and [quarantine_tick] tick next *)
  l_stats_tick : instant;
  l_watchdog_tick : instant;
}.

Definition set_deadline (t : instant) (l : Loop) : Loop :=
  {| l_deadline := t; l_first_scan := false; l_running := l_running l;
     l_stats_tick := l_stats_tick l; l_watchdog_tick := l_watchdog_tick l |}.
Definition set_stopped (l : Loop) : Loop :=
  {| l_deadline := l_deadline l; l_first_scan := l_first_scan l; l_running := false;
     l_stats_tick := l_stats_tick l; l_watchdog_tick := l_watchdog_tick l |}.
Definition set_stats_tick (t : instant) (l : Loop) : Loop :=
  {| l_deadline := l_deadline l; l_first_scan := l_first_scan l; l_running := l_running l;
     l_stats_tick := t; l_watchdog_tick := l_watchdog_tick l |}.
Definition set_watchdog_tick (t : instant) (l : Loop) : Loop :=
  {| l_deadline := l_deadline l; l_first_scan := l_first_scan l; l_running := l_running l;
     l_stats_tick := l_stats_tick l; l_watchdog_tick := t |}.

(** What happens to the loop: time passes, a shutdown, a scan that is due (with
    the order of its steps), the statistics' tick, the watchdog's tick. *)
Inductive Wake := Passes (d : duration) | ShutdownWake | ScanWake (ls : list Label) | StatsWake | WatchdogWake.

(** [Duration::from_secs(60)]: the least wait between scans, and the least period
    of the ticks. *)
Definition SCAN_FLOOR : duration := secs 60.
Definition TICK_FLOOR : duration := secs 60.

Definition period_of (every : duration) : duration := Z.max every TICK_FLOOR.

Section Daemon.
Context {W : Type} `{World W} `{Decoders} `{Chrono} `{HexCrate} `{UrlCrate} `{HashIter} `{Libm}.
Context `{StateCodec} `{EventCodec} `{StatsCodec} `{CacheCodec}.
Context (to_lowercase : string -> string).

Abbreviation Sys := (Engine * Node W)%type.

(** [log_and_save_runtime]: the log file is capped, the bandwidth history ticked,
    the completions seen so far are those of the session, and the numbers are
    saved. *)
Definition log_and_save_runtime : M Sys unit :=
  let* e := engine id in
  (match log_file (e_cfg e) with
   | Some p => let* _ := on_outside (on_fs (cap_text_file p MAX_LOG_BYTES)) in ret tt
   | None => ret tt
   end) ;;;
  whenM (e_live e) (on_outside (on_world live_tick_tracker)) ;;;
  let held := State.all (e_state e) in
  let* ts := on_outside (on_world session_torrents) in
  let finished := (fun t => hex_encode (mt_info_hash t)) <$> filter (fun t => mt_finished t = true) ts in
  change (fun e => set_completed_seen
    (filter (fun h => h ∈ (list_to_set finished : gset string))
       (e_completed_seen e ∪ list_to_set finished)) e) ;;;
  let* usage := on_outside (on_world (disk_usage
    ((fun l => (location_path l, limit_bytes l)) <$> storage (e_cfg e)))) in
  let held_count := Z.of_nat (length held) in
  let* s := on_outside (on_world (collect (e_started_at e) held_count
    (Z.min (Z.of_nat (length finished)) held_count) (Z.of_nat (State.quarantine_count (e_state e)))
    usage.1 usage.2 (wrap64 (sumZ t_size_bytes held)))) in
  let* _ := on_outside (on_fs (save_runtime (runtime_stats_path (data_dir (e_cfg e))) s)) in
  ret tt.

(** *** When to scan *)

Definition delay_until_next_scan : M Sys duration :=
  let* e := engine id in
  let every := interval (scan (e_cfg e)) in
  if every <=? 0 then ret 0
  else
    let* r := on_outside (on_fs (load_snapshot (network_stats_path e))) in
    match scan_completed_at (default snapshot_default (result_ok r)) with
    | Some done =>
        let* at_ := now in
        ret (Z.max (every - default 0 (to_std (since at_ done))) 0)
    | None => ret 0
    end.

(** [run_scan_logged]; [None] when the steps do not end the walk. *)
Definition run_scan_logged (ls : list Label) : M Sys (option bool) :=
  set_activity Scanning ;;;
  let* r := scan_once_shutdown to_lowercase ls in
  set_activity Seeding ;;;
  ret (is_ok <$> r).

(** *** The loop *)

(** [ensure_live_server]. *)
Definition ensure_live_server : M Sys unit :=
  change (fun e => if e_live e then e else set_live true e).

Definition mono : M Sys instant := on_outside (on_world mono_now).

(** An interval whose first tick, which is immediate, is consumed; one that is
    switched off is made and never asked. *)
Definition armed (b : MissedTickBehavior) (every : duration) : M Sys instant :=
  let* made := mono in
  if 0 <? every then let* t := mono in ret (next_tick b made t (period_of every)) else ret made.

Definition run_start : M Sys Loop :=
  ensure_live_server ;;;
  log_and_save_runtime ;;;
  let* c := engine e_cfg in
  let* stats := armed Burst (stats_interval c) in
  let* watchdog := armed Delay (quarantine_check_interval (scan c)) in
  let* first_wait := delay_until_next_scan in
  let* t := mono in
  ret {| l_deadline := t + first_wait; l_first_scan := true; l_running := true;
         l_stats_tick := stats; l_watchdog_tick := watchdog |}.

(** A due scan, and when the next one is: a failed one is retried after the
    whole interval, and nothing sooner than the floor. *)
Definition scan_turn (ls : list Label) (l : Loop) : M Sys (option Loop) :=
  let* completed := run_scan_logged ls in
  match completed with
  | None => ret None
  | Some completed_ok =>
      log_and_save_runtime ;;;
      let* wait := (if (completed_ok : bool) then delay_until_next_scan
                    else engine (fun e => interval (scan (e_cfg e)))) in
      let* t := mono in
      ret (Some (set_deadline (t + Z.max wait SCAN_FLOOR) l))
  end.

(** A tick that is due once the clock reads at least its time. *)
Definition tick_turn (b : MissedTickBehavior) (every : duration) (due : instant)
    (next : instant -> Loop) (body : M Sys unit) : Sys -> option (Loop * Sys) := fun s =>
  if 0 <? every then
    let '(t, s) := mono s in
    if t <? due then None else Some (next (next_tick b due t (period_of every)), (body s).2)
  else None.

(** One turn of the loop, [None] when the wake-up cannot happen.  A scan wakes
    the loop once the clock reads at least its deadline, a tick that is switched
    on once it reads at least its time. *)
Definition turn (w : Wake) (c : Loop * Sys) : option (Loop * Sys) :=
  let '(l, s) := c in
  if negb (l_running l) then None
  else
    match w with
    | Passes d => Some (l, (on_outside (on_world (sleep d)) s).2)
    | ShutdownWake => if (shutdown_now s).1 then Some (set_stopped l, s) else None
    | ScanWake ls =>
        let '(t, s) := mono s in
        if t <? l_deadline l then None
        else match scan_turn ls l s with (Some l, s) => Some (l, s) | (None, _) => None end
    | StatsWake =>
        tick_turn Burst (stats_interval (e_cfg s.1)) (l_stats_tick l)
          (fun t => set_stats_tick t l) log_and_save_runtime s
    | WatchdogWake =>
        tick_turn Delay (quarantine_check_interval (scan (e_cfg s.1))) (l_watchdog_tick l)
          (fun t => set_watchdog_tick t l) quarantine_pass s
    end.

Fixpoint turns (ws : list Wake) (c : Loop * Sys) : option (Loop * Sys) :=
  match ws with
  | [] => Some c
  | w :: ws => turn w c ≫= turns ws
  end.

(** [Engine::run]: what is reached after the wake-ups [ws]. *)
Definition run (ws : list Wake) : M Sys (option Loop) := fun s =>
  let '(l, s) := run_start s in
  match turns ws (l, s) with Some (l, s) => (Some l, s) | None => (None, s) end.

(** [Engine::close]. *)
Definition close : M Sys unit := on_outside (on_world (Session.stop_session (secs 10))).
End Daemon.

(** ** What the loop keeps *)

Section Keeping.
Context {W : Type} `{World W} `{Decoders} `{Chrono} `{HexCrate} `{UrlCrate} `{HashIter} `{Libm}.
Context `{StateCodec} `{EventCodec} `{StatsCodec} `{CacheCodec}.
Context (to_lowercase : string -> string).

Abbreviation Sys := (Engine * Node W)%type.

Lemma steady_log : steady (log_and_save_runtime (W:=W)).
Proof.
  unfold log_and_save_runtime. apply steady_bind; [auto with keepat|]. intros e.
  apply steady_bind.
  { destruct (log_file (e_cfg e)); [|auto with keepat]. apply steady_bind; auto with keepat. }
  intros _. apply steady_bind; [auto with keepat|]. intros _.
  apply steady_bind; [auto with keepat|]. intros ts.
  apply steady_bind; [by apply steady_change|]. intros _.
  repeat (apply steady_bind; [auto with keepat|]; intros). auto with keepat.
Qed.

Lemma steady_delay : steady (delay_until_next_scan (W:=W)).
Proof.
  unfold delay_until_next_scan. apply steady_bind; [auto with keepat|]. intros e.
  destruct (_ <=? 0); [auto with keepat|]. apply steady_bind; [auto with keepat|]. intros r.
  destruct (scan_completed_at _); [|auto with keepat]. apply steady_bind; auto with keepat.
Qed.

Lemma steady_mono : steady (mono (W:=W)).
Proof. unfold mono. auto with keepat. Qed.

Lemma steady_activity a : steady (set_activity (W:=W) a).
Proof. unfold set_activity. apply steady_bind; auto with keepat. Qed.

#[local] Hint Resolve steady_log steady_delay steady_mono steady_activity : keepat.

Lemma steady_armed b every : steady (armed (W:=W) b every).
Proof. unfold armed. apply steady_bind; [auto with keepat|]. intros t. destruct (0 <? every); auto with keepat. Qed.

#[local] Hint Resolve steady_armed : keepat.

Lemma steady_start_run : steady (run_start (W:=W)).
Proof.
  unfold run_start, ensure_live_server. apply steady_bind.
  { apply steady_change. intros e. by destruct (e_live e). }
  intros _. repeat (apply steady_bind; [auto with keepat|]; intros). auto with keepat.
Qed.

(** A scan step after steady ones, and before steady ones. *)
Lemma run_scan_scanned ls (s : Sys) : scanned (core s.1) (core (run_scan_logged to_lowercase ls s).2.1).
Proof.
  unfold run_scan_logged, bind at 1. pose proof (steady_activity Scanning (core s.1) s eq_refl) as Hs1.
  destruct (set_activity Scanning s) as [u s1]. simpl in Hs1. unfold at_core in Hs1. rewrite <- Hs1.
  unfold bind. pose proof (scan_scanned to_lowercase ls s1) as Hsc.
  destruct (scan_once_shutdown to_lowercase ls s1) as [r s2]. simpl in Hsc.
  pose proof (steady_activity Seeding (core s2.1) s2 eq_refl) as Hs3.
  destruct (set_activity Seeding s2) as [u' s3]. simpl in *. unfold at_core in Hs3. by rewrite Hs3.
Qed.

Lemma scan_turn_scanned ls l (s : Sys) :
  scanned (core s.1) (core (scan_turn to_lowercase ls l s).2.1).
Proof.
  unfold scan_turn, bind at 1. pose proof (run_scan_scanned ls s) as Hsc.
  destruct (run_scan_logged to_lowercase ls s) as [[ok|] s1]; [|exact Hsc]. simpl in Hsc.
  etransitivity; [exact Hsc|].
  match goal with |- scanned _ (core (?m s1).2.1) => assert (steady m) as Hm end.
  { apply steady_bind; [auto with keepat|]. intros _. apply steady_bind; [destruct ok; auto with keepat|].
    intros wait. apply steady_bind; auto with keepat. }
  specialize (Hm (core s1.1) s1 eq_refl). unfold at_core in Hm. by rewrite Hm.
Qed.

(** What every turn keeps: the budgets against where the daemon started, the
    books, and the spelling of the registry. *)
Record kept (k0 k : Core) : Prop := {
  kept_within : within k0 k;
  kept_books : books k;
  kept_settings : settings_ok k;
  kept_canonical : canonical (quarantined (k_state k));
}.

Lemma kept_refl k : books k -> settings_ok k -> canonical (quarantined (k_state k)) -> kept k k.
Proof. intros Hb Hs Hc. split; [apply within_refl|done..]. Qed.

Lemma kept_scanned k0 k k' : kept k0 k -> scanned k k' -> kept k0 k'.
Proof.
  intros [Hw Hb Hs Hc] Hsc. destruct (Hsc Hb Hs) as (Hw' & Hb' & m & Hm). split.
  - by eapply within_trans.
  - done.
  - by eapply settings_within.
  - by rewrite Hm.
Qed.

Lemma kept_pass k0 (s : Sys) :
  kept k0 (core s.1) -> 0 < quarantine_check_interval (scan (e_cfg s.1)) ->
  kept k0 (core (quarantine_pass s).2.1).
Proof.
  intros [Hw Hb Hs Hc] Hon. pose proof (pass_spec s Hc Hb Hs Hon) as Hp.
  destruct (passed_safe _ _ Hp Hb Hs) as [Hw' Hb']. split.
  - by eapply within_trans.
  - done.
  - by eapply settings_within.
  - by eapply passed_canonical.
Qed.

Lemma turn_kept k0 w l (s : Sys) l' s' :
  kept k0 (core s.1) -> turn to_lowercase w (l, s) = Some (l', s') -> kept k0 (core s'.1).
Proof.
  intros Hk. unfold turn. destruct (negb _); [done|]. destruct w as [d| |ls| |].
  - intros [= _ <-]. pose proof (steady_outside (on_world (sleep d)) (core s.1) s eq_refl) as Hs.
    unfold at_core in Hs. by rewrite Hs.
  - destruct (shutdown_now s) as [[|] s1]; simpl; [|done]. by intros [= _ <-].
  - pose proof (steady_mono (core s.1) s eq_refl) as Hs1. destruct (mono s) as [t s1]. simpl in Hs1.
    unfold at_core in Hs1. destruct (t <? _); [done|].
    pose proof (scan_turn_scanned ls l s1) as Hsc.
    destruct (scan_turn to_lowercase ls l s1) as [[l1|] s2]; [|done]. intros [= _ <-].
    rewrite Hs1 in Hsc. by eapply kept_scanned.
  - unfold tick_turn. destruct (0 <? _); [|done].
    pose proof (steady_mono (core s.1) s eq_refl) as Hs1. destruct (mono s) as [t s1].
    destruct (t <? _); [done|]. intros [= _ <-].
    pose proof (steady_log (core s.1) s1 Hs1) as Hs2. unfold at_core in Hs2. by rewrite Hs2.
  - unfold tick_turn. destruct (0 <? quarantine_check_interval _) eqn:E; [|done].
    pose proof (steady_mono (core s.1) s eq_refl) as Hs1. destruct (mono s) as [t s1].
    destruct (t <? _); [done|]. intros [= _ <-]. simpl_bool. unfold at_core in Hs1. cbn [snd] in Hs1.
    apply kept_pass; [by rewrite Hs1|]. assert (e_cfg s1.1 = e_cfg s.1) as ->; [|done].
    change (k_cfg (core s1.1) = k_cfg (core s.1)). by rewrite Hs1.
Qed.

Lemma turns_kept k0 ws : forall l (s : Sys) l' s',
  kept k0 (core s.1) -> turns to_lowercase ws (l, s) = Some (l', s') -> kept k0 (core s'.1).
Proof.
  induction ws as [|w ws IH]; intros l s l' s' Hk; cbn [turns]; [by intros [= _ <-]|].
  destruct (turn to_lowercase w (l, s)) as [[l1 s1]|] eqn:E; [|done]. apply IH. by eapply turn_kept.
Qed.
End Keeping.

(** The life of a daemon keeps what its turns keep. *)
Lemma run_kept {W : Type} `{World W} `{Decoders} `{Chrono} `{HexCrate} `{UrlCrate} `{HashIter} `{Libm}
    `{StateCodec} `{EventCodec} `{StatsCodec} `{CacheCodec} to_lowercase ws (s : Engine * Node W) l :
  kept (core s.1) (core s.1) -> (run to_lowercase ws s).1 = Some l ->
  kept (core s.1) (core (run to_lowercase ws s).2.1).
Proof.
  intros Hk. unfold run. pose proof (steady_start_run (core s.1) s eq_refl) as Hs.
  destruct (run_start s) as [l0 s0]. simpl in Hs.
  destruct (turns to_lowercase ws (l0, s0)) as [[l1 s1]|] eqn:E; [|done]. intros _.
  eapply turns_kept; [|exact E]. unfold at_core in Hs. by rewrite Hs.
Qed.

(** The daemon keeps its budgets for life.  From a node whose books are in
    order, whatever wakes the loop and in whatever order (scans with any
    interleaving of their steps, watchdog passes, statistics, a shutdown), at
    every point reached no storage location is charged past its limit unless it
    was already and has not grown, the RAM price and the number of held torrents
    are within their caps, the settings are those of the start, and the books
    are in order. *)
Theorem daemon_keeps_budgets {W : Type} `{World W} `{Decoders} `{Chrono} `{HexCrate} `{UrlCrate}
    `{HashIter} `{Libm} `{StateCodec} `{EventCodec} `{StatsCodec} `{CacheCodec} to_lowercase ws
    (s : Engine * Node W) l :
  let k := core s.1 in
  books k -> settings_ok k -> canonical (quarantined (k_state k)) ->
  (run to_lowercase ws s).1 = Some l ->
  let k' := core (run to_lowercase ws s).2.1 in
  within k k' /\ books k' /\ canonical (quarantined (k_state k')).
Proof.
  intros k Hb Hset Hcan Hrun.
  destruct (run_kept to_lowercase ws s l (kept_refl k Hb Hset Hcan) Hrun) as [Hw Hb' _ Hc']. done.
Qed.

(** ** Scans are paced *)

Section Pacing.
Context {W : Type} `{World W} `{Decoders} `{Chrono} `{HexCrate} `{UrlCrate} `{HashIter} `{Libm}.
Context `{StateCodec} `{EventCodec} `{StatsCodec} `{CacheCodec}.
Context (to_lowercase : string -> string).

Abbreviation Sys := (Engine * Node W)%type.

Definition scans (w : Wake) : bool := match w with ScanWake _ => true | _ => false end.
Definition watches (w : Wake) : bool := match w with WatchdogWake => true | _ => false end.

(** A turn of one arm leaves the times of the others. *)
Lemma turn_times w l (s : Sys) l' s' :
  turn to_lowercase w (l, s) = Some (l', s') ->
  (scans w = false -> l_deadline l' = l_deadline l) /\
  (watches w = false -> l_watchdog_tick l' = l_watchdog_tick l).
Proof.
  unfold turn. destruct (negb _); [done|]. destruct w; simpl.
  - by intros [= <- _].
  - destruct (shutdown_now s) as [[|] s1]; [|done]. by intros [= <- _].
  - destruct (mono s) as [t s1]. destruct (t <? _); [done|]. unfold scan_turn, bind.
    destruct (run_scan_logged to_lowercase ls s1) as [[ok|] s2]; [|done].
    destruct (log_and_save_runtime s2) as [u s3].
    match goal with |- context [(if ok then ?a else ?b) s3] =>
      destruct ((if ok then a else b) s3) as [wait s4] end.
    destruct (mono s4) as [t' s5]. by intros [= <- _].
  - unfold tick_turn. destruct (0 <? _); [|done]. destruct (mono s) as [t s1].
    destruct (t <? _); [done|]. by intros [= <- _].
  - unfold tick_turn. destruct (0 <? _); [|done]. destruct (mono s) as [t s1].
    destruct (t <? _); [done|]. by intros [= <- _].
Qed.

Lemma turns_times ws : forall l (s : Sys) l' s',
  turns to_lowercase ws (l, s) = Some (l', s') ->
  (Forall (fun w => scans w = false) ws -> l_deadline l' = l_deadline l) /\
  (Forall (fun w => watches w = false) ws -> l_watchdog_tick l' = l_watchdog_tick l).
Proof.
  induction ws as [|w ws IH]; intros l s l' s'; cbn [turns]; [by intros [= <- _]|].
  destruct (turn to_lowercase w (l, s)) as [[l1 s1]|] eqn:E; [|done]. intros Hr.
  destruct (IH l1 s1 l' s' Hr) as [Hd Hw]. destruct (turn_times w l s l1 s1 E) as [Hd1 Hw1].
  split; intros [Hws1 Hws]%Forall_cons.
  - by rewrite (Hd Hws), (Hd1 Hws1).
  - by rewrite (Hw Hws), (Hw1 Hws1).
Qed.
End Pacing.

(** C32: scans are paced.  After a scan, whatever else wakes the loop, the next
    scan starts at least a minute after the clock reading that ended the last
    one, and a whole interval after it when the scan failed, so that a scan that
    keeps failing never loops. *)
Theorem scans_paced {W : Type} `{World W} `{Decoders} `{Chrono} `{HexCrate} `{UrlCrate} `{HashIter}
    `{Libm} `{StateCodec} `{EventCodec} `{StatsCodec} `{CacheCodec} to_lowercase ls l
    (s : Engine * Node W) l1 s1 ws l2 s2 ls' c :
  turn to_lowercase (ScanWake ls) (l, s) = Some (l1, s1) ->
  Forall (fun w => scans w = false) ws -> turns to_lowercase ws (l1, s1) = Some (l2, s2) ->
  turn to_lowercase (ScanWake ls') (l2, s2) = Some c ->
  l_deadline l <= (mono s).1 /\
  exists s', (mono s').2 = s1 /\
    let finished := (mono s').1 in
    finished + SCAN_FLOOR <= (mono s2).1 /\
    ((run_scan_logged to_lowercase ls (mono s).2).1 = Some false ->
     finished + interval (scan (e_cfg s1.1)) <= (mono s2).1).
Proof.
  intros Hscan Hws Hturns Hnext.
  assert (l_deadline l2 <= (mono s2).1) as Hdue.
  { unfold turn in Hnext. destruct (negb _); [done|]. destruct (mono s2) as [t s3].
    destruct (t <? _) eqn:E; [done|]. simpl. simpl_bool. lia. }
  rewrite (proj1 (turns_times to_lowercase ws l1 s1 l2 s2 Hturns) Hws) in Hdue.
  unfold turn in Hscan. destruct (negb _); [done|]. destruct (mono s) as [t0 s0]. cbn [fst snd].
  destruct (t0 <? _) eqn:E; [done|]. simpl_bool. split; [lia|]. clear E.
  unfold scan_turn, bind in Hscan.
  destruct (run_scan_logged to_lowercase ls s0) as [[ok|] sa]; [|done].
  destruct (log_and_save_runtime sa) as [u sb].
  assert (exists wait sc, (if ok then delay_until_next_scan
     else engine (fun e => interval (scan (e_cfg e)))) sb = (wait, sc) /\
     (ok = false -> wait = interval (scan (e_cfg sc.1)))) as (wait & sc & Ew & Hwait).
  { destruct ok; [destruct (delay_until_next_scan sb) as [w sc]; by exists w, sc|].
    exists (interval (scan (e_cfg sb.1))), sb. done. }
  rewrite Ew in Hscan. destruct (mono sc) as [t sd] eqn:Em. simpl in Hscan. injection Hscan as <- <-.
  simpl in Hdue. exists sc. rewrite Em. split; [done|]. simpl.
  split; [lia|]. intros [= ->]. rewrite (Hwait eq_refl) in Hdue.
  pose proof (steady_mono (core sc.1) sc eq_refl) as Hs. rewrite Em in Hs. unfold at_core in Hs. simpl in Hs.
  assert (e_cfg sd.1 = e_cfg sc.1) as ->; [|lia].
  change (k_cfg (core sd.1) = k_cfg (core sc.1)). by rewrite Hs.
Qed.

(** C33: watchdog passes are paced.  Whatever happens in between - scans, however
    long, statistics, time - the next pass of the watchdog starts a whole
    interval (or the least period, where the interval is shorter) after the
    last one started, up to what the timer takes for punctual; so the passes that
    the detector counts are never a burst. *)
Theorem watchdog_paced {W : Type} `{World W} `{Decoders} `{Chrono} `{HexCrate} `{UrlCrate} `{HashIter}
    `{Libm} `{StateCodec} `{EventCodec} `{StatsCodec} `{CacheCodec} to_lowercase l
    (s : Engine * Node W) l1 s1 ws l2 s2 c :
  turn to_lowercase WatchdogWake (l, s) = Some (l1, s1) ->
  Forall (fun w => watches w = false) ws -> turns to_lowercase ws (l1, s1) = Some (l2, s2) ->
  turn to_lowercase WatchdogWake (l2, s2) = Some c ->
  l_watchdog_tick l <= (mono s).1 /\
  (mono s).1 + period_of (quarantine_check_interval (scan (e_cfg s.1))) - TICK_SLACK <= (mono s2).1.
Proof.
  intros Hfirst Hws Hturns Hnext.
  assert (l_watchdog_tick l2 <= (mono s2).1) as Hdue.
  { revert Hnext. unfold turn. destruct (negb _); [done|]. unfold tick_turn.
    destruct (0 <? _); [|done]. destruct (mono s2) as [t s3]. destruct (t <? _) eqn:E; [done|].
    intros _. simpl_bool. simpl. lia. }
  rewrite (proj2 (turns_times to_lowercase ws l1 s1 l2 s2 Hturns) Hws) in Hdue.
  revert Hfirst. unfold turn. destruct (negb _); [done|]. unfold tick_turn.
  destruct (0 <? _); [|done]. destruct (mono s) as [t s0]. destruct (t <? _) eqn:E; [done|].
  intros [= <- _]. simpl_bool. cbn [fst]. split; [lia|].
  pose proof (next_tick_delay (l_watchdog_tick l) t
                (period_of (quarantine_check_interval (scan (e_cfg s.1)))) ltac:(lia)) as Hd.
  simpl in Hdue. lia.
Qed.

(** ** Witnesses *)

Abbreviation run_daemon :=
  (@run Toy witness_world witness_feed witness_chrono witness_hex witness_urls hash_iter_sorted
     witness_libm witness_codec witness_events witness_stats witness_cache_codec (fun x => x)).
Abbreviation turn_there :=
  (@turn Toy witness_world witness_feed witness_chrono witness_hex witness_urls hash_iter_sorted
     witness_libm witness_codec witness_events witness_stats witness_cache_codec (fun x => x)).
Abbreviation turns_there :=
  (@turns Toy witness_world witness_feed witness_chrono witness_hex witness_urls hash_iter_sorted
     witness_libm witness_codec witness_events witness_stats witness_cache_codec (fun x => x)).

(** The daemon scans, looks after the session and reports. *)
Definition witness_life : list Wake :=
  [ScanWake [Evaluate 0; Receive; Join; Finish]; Passes (hours 24); WatchdogWake; StatsWake].

Example daemon_finds :
  (map_to_list (torrents (e_state (run_daemon witness_life scan_sys).2.1))).*1 =
    [@hex_encode witness_hex witness_hash; "bb"].
Proof. vm_compute. reflexivity. Qed.

Lemma daemon_keeps_budgets_witness :
  is_Some (run_daemon witness_life scan_sys).1 /\
  let k := core scan_sys.1 in
  let k' := core (run_daemon witness_life scan_sys).2.1 in
  within k k' /\ books k' /\ @canonical witness_hex (quarantined (k_state k')).
Proof.
  assert (is_Some (run_daemon witness_life scan_sys).1) as [l Hl]
    by (apply (bool_decide_eq_true_1 _); vm_compute; reflexivity).
  split; [by exists l|].
  apply (@daemon_keeps_budgets Toy witness_world witness_feed witness_chrono witness_hex witness_urls
           hash_iter_sorted witness_libm witness_codec witness_events witness_stats witness_cache_codec
           (fun x => x) witness_life scan_sys l).
  - apply (witness_books (10 ^ 9) 5 None).
  - split; [repeat constructor|vm_compute; split; discriminate].
  - apply map_Forall_empty.
  - exact Hl.
Defined.

(** A daemon whose catalog cannot be fetched, scanning every ninety seconds. *)
Definition pacing_sys : Engine * Node Toy :=
  let '(e, n) := scan_sys in
  let c := e_cfg e in
  ({| e_cfg := {| port := port c; data_dir := data_dir c; storage := storage c;
        Config.scan := {| interval := secs 90; rate_limit_per_second := rate_limit_per_second (Config.scan c);
          min_seed_margin := 4; moderation_delay := 0; stall_eviction_timeout := 0;
          vanished_eviction_timeout := 0; quarantine_check_interval := 0;
          broken_piece_discard_bytes := 1; broken_piece_min_windows := 1; quarantine_cooldown := 0;
          quarantine_max_retries := 0 |};
        aggressiveness := aggressiveness c; keyword_blocklist := []; preserve_deleted_torrents := false;
        catalog_collapse_percent := 30; max_ram := 0; api_key := ""; upload_rate_limit := 0;
        download_rate_limit := 0; stats_interval := secs 60; debug := false; log_file := None |};
      e_state := e_state e; e_shared := e_shared e; e_blocklist := e_blocklist e;
      e_base_url := e_base_url e; e_catalog_url := e_catalog_url e; e_user_announce := "";
      e_user_announce_ipv6 := ""; e_max_torrents := 5; e_ram_budget := e_ram_budget e;
      e_size_bias := fzero; e_scrape_backoff := secs 60; e_started_at := 0; e_evaluated_counts := [];
      e_last_scan := None; e_completed_seen := ∅; e_live := true; e_history := e_history e;
      e_detector := ∅; e_last_catalog := None |},
   {| node_fs := node_fs n; registry := registry n;
      world := {| toy_clock := 0; toy_replies := []; toy_rolls := []; toy_torrents := [];
                  toy_free := 10 ^ 12 |} |}).

Definition witness_loop : Loop :=
  {| l_deadline := 0; l_first_scan := true; l_running := true; l_stats_tick := 0; l_watchdog_tick := 0 |}.
Definition between : list Wake := [StatsWake; Passes (secs 60); StatsWake; Passes (secs 60)].

Lemma scans_paced_witness :
  exists l1 s1 l2 s2 c,
  turn_there (ScanWake []) (witness_loop, pacing_sys) = Some (l1, s1) /\
  turns_there between (l1, s1) = Some (l2, s2) /\ turn_there (ScanWake []) (l2, s2) = Some c /\
  exists s', (@mono Toy witness_world s').2 = s1 /\
    (@mono Toy witness_world s').1 + interval (Config.scan (e_cfg s1.1)) <= (@mono Toy witness_world s2).1.
Proof.
  assert (is_Some ((turn_there (ScanWake []) (witness_loop, pacing_sys) ≫= turns_there between)
                     ≫= turn_there (ScanWake []))) as [c Hall]
    by (apply (bool_decide_eq_true_1 _); vm_compute; reflexivity).
  apply bind_Some in Hall as ([l2 s2] & ([l1 s1] & E1 & E2)%bind_Some & E3).
  exists l1, s1, l2, s2, c. split; [exact E1|]. split; [exact E2|]. split; [exact E3|].
  assert (Forall (fun w => scans w = false) between) as Hb by (vm_compute; repeat constructor).
  pose proof (@scans_paced Toy witness_world witness_feed witness_chrono witness_hex witness_urls
                hash_iter_sorted witness_libm witness_codec witness_events witness_stats
                witness_cache_codec (fun x => x) [] witness_loop pacing_sys l1 s1 between l2 s2 [] c
                E1 Hb E2 E3) as [_ (s' & Hs' & _ & Hfail)].
  exists s'. split; [exact Hs'|]. apply Hfail. vm_compute. reflexivity.
Defined.

(** A scan and some time between two passes. *)
Definition between_passes : list Wake :=
  [ScanWake [Evaluate 0; Receive; Join; Finish]; StatsWake; Passes (hours 24)].

Lemma watchdog_paced_witness :
  exists l1 s1 l2 s2 c,
  turn_there WatchdogWake (witness_loop, scan_sys) = Some (l1, s1) /\
  turns_there between_passes (l1, s1) = Some (l2, s2) /\ turn_there WatchdogWake (l2, s2) = Some c /\
  (@mono Toy witness_world scan_sys).1 +
    period_of (quarantine_check_interval (Config.scan (e_cfg scan_sys.1))) - TICK_SLACK <=
    (@mono Toy witness_world s2).1.
Proof.
  assert (is_Some ((turn_there WatchdogWake (witness_loop, scan_sys) ≫= turns_there between_passes)
                     ≫= turn_there WatchdogWake)) as [c Hall]
    by (apply (bool_decide_eq_true_1 _); vm_compute; reflexivity).
  apply bind_Some in Hall as ([l2 s2] & ([l1 s1] & E1 & E2)%bind_Some & E3).
  exists l1, s1, l2, s2, c. split; [exact E1|]. split; [exact E2|]. split; [exact E3|].
  assert (Forall (fun w => watches w = false) between_passes) as Hb by (vm_compute; repeat constructor).
  exact (proj2 (@watchdog_paced Toy witness_world witness_feed witness_chrono witness_hex witness_urls
                  hash_iter_sorted witness_libm witness_codec witness_events witness_stats
                  witness_cache_codec (fun x => x) witness_loop scan_sys l1 s1 between_passes l2 s2 c
                  E1 Hb E2 E3)).
Defined.
