(* ===== verification/Serving.v ===== *)
(** The engine with its live handle, [live.rs] and [engine/scan.rs]: the outside
    world extended by the handle, so that what the engine publishes reaches the
    views the socket answers with.  [live_world] discharges the interface that
    [World] states for the handle by the operations of [Live]; everything proved
    of the engine for every [World] holds with the real handle in it. *)

From S2P Require Import Prelude Text Float64 Fs Persist Time Ram Selector Net Quarantine State.
From S2P Require Import AtKey AtTorrent Filter FdLimit Catalog World Config Storage NetStats Stats Torrents.
From S2P Require Import History Bandwidth Swap Swarm Live Engine Budget Scan Daemon.

Section LiveWorld.
Context {W : Type} `{World W} (tracker_free : M W bool).

Abbreviation Outside := (LiveHandle * W)%type.

Lemma beside_hashes (s : Outside) :
  Forall (fun t => String.length (mt_info_hash t) = 20%nat) (on_snd session_torrents s).1.
Proof.
  unfold on_snd. pose proof (session_hashes s.2) as Hw. destruct s as [h w]. simpl in *.
  by destruct (session_torrents w).
Qed.

Lemma beside_distinct (s : Outside) : NoDup (mt_info_hash <$> (on_snd session_torrents s).1).
Proof.
  unfold on_snd. pose proof (session_distinct s.2) as Hw. destruct s as [h w]. simpl in *.
  by destruct (session_torrents w).
Qed.

(** The world with the handle beside it. *)
#[local] Instance live_world : World Outside :=
  {| world_http := {| http_get := fun u => on_snd (http_get u) |};
     utc_now := on_snd utc_now; mono_now := on_snd mono_now;
     sleep := fun d => on_snd (sleep d);
     next_tick := next_tick; next_tick_burst := next_tick_burst; next_tick_delay := next_tick_delay;
     sleep_or_shutdown := fun d => on_snd (sleep_or_shutdown d);
     shutdown_signalled := on_snd shutdown_signalled;
     gen_range_01 := on_snd gen_range_01;
     request_times_out := fun d => on_snd (request_times_out d);
     statvfs := fun p => on_snd (statvfs p);
     read_dir_tree := fun p => on_snd (read_dir_tree p);
     path_exists := fun p => on_snd (path_exists p);
     create_data_dir := fun p => on_snd (create_data_dir p);
     remove_dir_all := fun p => on_snd (remove_dir_all p);
     remove_dir := fun p => on_snd (remove_dir p);
     fd_limits := on_snd fd_limits;
     session_open := fun o => on_snd (session_open o);
     session_stop := fun d => on_snd (session_stop d);
     session_add := fun b o => on_snd (session_add b o);
     session_wait_initialized := fun h => on_snd (session_wait_initialized h);
     session_delete := fun h d => on_snd (session_delete h d);
     session_torrents := on_snd session_torrents;
     session_hashes := beside_hashes; session_distinct := beside_distinct;
     session_counters := on_snd session_counters;
     file_age := fun p => on_snd (file_age p);
     shuffle_items := fun l => on_snd (shuffle_items l);
     live_refresh := fun q ts => update_handle (refresh q ts);
     live_set_activity := fun a => update_handle (Live.set_activity a);
     live_tick_tracker := tick_tracker tracker_free;
     http_client := on_snd http_client;
     http_get_cookie := fun u k => on_snd (http_get_cookie u k);
     dir_mode := fun p => on_snd (dir_mode p);
     set_dir_mode := fun p m => on_snd (set_dir_mode p m);
     system_total_ram := on_snd system_total_ram;
     read_statm := on_snd read_statm |}.
End LiveWorld.

(** [Engine::attach_live]. *)
Definition attach_live {W} `{World W} `{HashIter} : M (Engine * Node (LiveHandle * W)) unit :=
  let* e := gets fst in
  on_snd (on_world (activate (State.quarantine_count (e_state e)) (snapshot_entries (e_state e)))) ;;;
  on_fst (modify (set_live true)).

(** ** What is published is what is held *)

Section Published.
Context {W : Type} `{World W} `{HexCrate}.

Lemma live_map_snoc ts t :
  live_map (ts ++ [t]) = <[hex_encode (mt_info_hash t) := progress_of t]> (live_map ts).
Proof. unfold live_map. by rewrite foldl_app. Qed.

(** The map holds the progress of the session's torrents, each under its own
    hash. *)
Lemma live_map_spec ts k p :
  NoDup (mt_info_hash <$> ts) ->
  live_map ts !! k = Some p <->
  exists t, t ∈ ts /\ hex_encode (mt_info_hash t) = k /\ progress_of t = p.
Proof.
  induction ts as [|t ts IH] using rev_ind; intros Hd.
  - split; [done|]. intros (t & Ht & _). by apply elem_of_nil in Ht.
  - rewrite fmap_app in Hd. apply NoDup_app in Hd as (Hd & Hne & _).
    rewrite live_map_snoc, lookup_insert_Some, (IH Hd). split.
    + intros [[<- <-]|[_ (t' & Ht' & Hk & Hp)]].
      * exists t. split; [|done]. apply elem_of_app. right. by left.
      * exists t'. split; [|done]. apply elem_of_app. by left.
    + intros (t' & [Ht'| ->%list_elem_of_singleton]%elem_of_app & <- & <-); [right|by left].
      split; [|by exists t']. intros Heq%hex_encode_inj. apply (Hne (mt_info_hash t')).
      * by apply list_elem_of_fmap_2.
      * rewrite <- Heq. by left.
Qed.

(** What a view shows of a torrent besides its progress. *)
Definition shown (v : HeldTorrentView) : string * string * Z * Z :=
  (hv_title v, hv_info_hash v, hv_size_bytes v, hv_last_known_seeders v).

Definition shown_progress (v : HeldTorrentView) : Progress :=
  {| pr_bytes := hv_progress_bytes v; pr_finished := hv_finished v;
     pr_verifying := hv_verifying v |}.

Definition title_le (a b : HeldTorrentView) : Prop := String.compare (hv_title a) (hv_title b) <> Gt.

Lemma shown_verifying (ts : list StateEntry) : shown <$> (verifying_view <$> ts) =
  (fun t => (se_title t, se_info_hash t, se_size_bytes t, se_last_known_seeders t)) <$> ts.
Proof. rewrite <- list_fmap_compose. by apply list_fmap_ext. Qed.

Lemma shown_live m (ts : list StateEntry) : shown <$> (live_view m <$> ts) =
  (fun t => (se_title t, se_info_hash t, se_size_bytes t, se_last_known_seeders t)) <$> ts.
Proof. rewrite <- list_fmap_compose. by apply list_fmap_ext. Qed.

(** The answer to a query for what is held, from the phase the handle is in. *)
Definition is_booting (h : LiveHandle) : bool :=
  match h_inner h with BootingPhase _ _ _ => true | LivePhase _ => false end.

Definition knows (ts : list Managed) (v : HeldTorrentView) : Prop :=
  (exists t, t ∈ ts /\ hex_encode (mt_info_hash t) = hv_info_hash v /\
             progress_of t = shown_progress v) \/
  ((forall t, t ∈ ts -> hex_encode (mt_info_hash t) <> hv_info_hash v) /\
   shown_progress v = {| pr_bytes := 0; pr_finished := false; pr_verifying := false |}).

Lemma live_view_knows ts t :
  NoDup (mt_info_hash <$> ts) -> knows ts (live_view (live_map ts) t).
Proof.
  intros Hd. unfold knows, live_view, shown_progress. simpl.
  destruct (live_map ts !! se_info_hash t) as [p|] eqn:E; simpl.
  - apply live_map_spec in E as (t' & Hin & Hk & Hp); [|done]. left. exists t'.
    split; [done|]. split; [done|]. rewrite Hp. by destruct p.
  - right. split; [|done]. intros t' Hin Hk.
    assert (live_map ts !! se_info_hash t = Some (progress_of t')) as Hs
      by (apply live_map_spec; [done|by exists t']). by rewrite E in Hs.
Qed.

(** What a query for the held torrents sees right after a refresh. *)
Lemma held_view_refreshed q entries h w :
  let '(v, _) := held_view (refresh q entries h, w) in
  held_booting v = is_booting h /\
  shown <$> held_list v ≡ₚ
    (fun t => (se_title t, se_info_hash t, se_size_bytes t, se_last_known_seeders t)) <$> entries /\
  if is_booting h then
    Forall (fun v => shown_progress v =
              {| pr_bytes := 0; pr_finished := false; pr_verifying := true |}) (held_list v)
  else StronglySorted title_le (held_list v) /\ Forall (knows (session_torrents w).1) (held_list v).
Proof.
  unfold held_view, handle, bind, gets, refresh, is_booting. destruct (h_inner h) as [at_ st held|l]; cbn.
  - split; [done|]. split; [by rewrite shown_verifying|].
    apply Forall_forall. by intros v (t & -> & _)%list_elem_of_fmap.
  - unfold on_snd. cbn [snd]. pose proof (session_distinct w) as Hd.
    destruct (session_torrents w) as [ts w']. cbn in *. split; [done|]. split; [|split].
    + rewrite (fmap_Permutation shown _ _ (sort_by_perm _ _)). by rewrite shown_live.
    + apply (sort_by_sorted _ (fun _ => True)).
      * intros x y z. apply string_compare_trans.
      * intros x y _ _. apply string_compare_gt.
      * by intros x y _ _.
      * by apply Forall_true.
    + apply Forall_forall. intros v (t & -> & _)%elem_of_sort_by%list_elem_of_fmap.
      by apply live_view_knows.
Qed.

(** The counts of a runtime view are those of the handle. *)
Lemma runtime_view_published tracker_free h w :
  let '(v, _) := runtime_view (W:=W) tracker_free (h, w) in
  rv_booting v = is_booting h /\ rv_activity v = h_activity h /\
  (rv_held_torrents v, rv_disk_committed_bytes v, rv_quarantined_torrents v) = published h.
Proof.
  unfold runtime_view, bind at 1, handle at 1, gets, id. cbn [fst].
  destruct (published h) as [[held committed] q]. unfold bind at 1.
  match goal with |- context [let '(x, y) := ?m (h, w) in _] => destruct (m (h, w)) as [sess s1] end.
  destruct sess as [[[[seeding downloading] checks] totals] peers].
  unfold bind at 1. destruct (tick_tracker tracker_free s1) as [u s2].
  unfold bind at 1. destruct (read_rates tracker_free s2) as [[[[uh dh] ud] dd] s3].
  unfold bind at 1. destruct (disk_get (h_storage h) s3) as [usage s4].
  unfold bind at 1. destruct (on_snd mono_now s4) as [t s5].
  unfold bind at 1. by destruct (on_snd process_rss_bytes s5) as [rss s6].
Qed.
End Published.

(** A node with the handle beside its world. *)
Definition beside {W} (h : LiveHandle) (n : Node W) : Node (LiveHandle * W) :=
  {| node_fs := node_fs n; registry := registry n; world := (h, world n) |}.

Lemma push_live_refresh {W} `{World W} `{HashIter} tracker_free (e : Engine) h (n : Node W) :
  e_live e = true ->
  (push_live (H := live_world tracker_free) (e, beside h n)).2 =
    (e, beside (refresh (State.quarantine_count (e_state e)) (snapshot_entries (e_state e)) h) n).
Proof. intros Hlive. unfold push_live, bind, engine, gets. cbn [fst snd]. by rewrite Hlive. Qed.

(** C27: the socket answers with what is held.  Right after the engine publishes
    its state, a query for the held torrents lists exactly the torrents of the
    state: in live service sorted by title, each with the progress that the
    session reports under its hash, and while booting all as being verified; and
    the runtime counters are the number of held torrents, the bytes they
    reserve, and (in live service) the size of the quarantine. *)
Theorem views_match_state {W} `{World W} `{HexCrate} `{HashIter} tracker_free (e : Engine) h (n : Node W) :
  e_live e = true ->
  let s := (push_live (H := live_world tracker_free) (e, beside h n)).2 in
  let '(v, _) := held_view (world s.2) in
  let '(r, _) := runtime_view tracker_free (world s.2) in
  let held := State.all (e_state e) in
  shown <$> held_list v ≡ₚ
    (fun t => (t_title t, t_info_hash t, t_size_bytes t, t_last_known_seeders t)) <$> held /\
  rv_held_torrents r = Z.of_nat (length held) /\
  rv_disk_committed_bytes r = wrap64 (sumZ t_size_bytes held) /\
  held_booting v = is_booting h /\ rv_booting r = is_booting h /\
  if is_booting h then
    Forall (fun v => shown_progress v =
              {| pr_bytes := 0; pr_finished := false; pr_verifying := true |}) (held_list v)
  else
    StronglySorted title_le (held_list v) /\
    Forall (knows (session_torrents (world n)).1) (held_list v) /\
    rv_quarantined_torrents r = Z.of_nat (size (quarantined (e_state e))).
Proof.
  intros Hlive. rewrite (push_live_refresh tracker_free e h n Hlive). cbv zeta. cbn [snd world beside].
  set (st := e_state e). set (h' := refresh (State.quarantine_count st) (snapshot_entries st) h).
  pose proof (held_view_refreshed (State.quarantine_count st) (snapshot_entries st) h (world n)) as Hv.
  fold h' in Hv. destruct (held_view (h', world n)) as [v s1]. destruct Hv as (Hb & Hp & Hphase).
  pose proof (runtime_view_published tracker_free h' (world n)) as Hr.
  destruct (runtime_view tracker_free (h', world n)) as [r s2]. destruct Hr as (Hrb & _ & Hpub).
  assert (is_booting h' = is_booting h) as Hsame
    by (unfold h', refresh, is_booting; simpl; by destruct (h_inner h)).
  split; [rewrite Hp; unfold snapshot_entries; by rewrite <- list_fmap_compose|].
  assert (sumZ se_size_bytes (snapshot_entries st) = sumZ t_size_bytes (State.all st)) as Hsum. by (unfold snapshot_entries; by rewrite sumZ_fmap).
  assert (sumZ hv_size_bytes (verifying_view <$> snapshot_entries st) = sumZ t_size_bytes (State.all st)) as Hsum'.
    by (by rewrite sumZ_fmap, <- Hsum).
  assert (published h' = (Z.of_nat (length (State.all st)), wrap64 (sumZ t_size_bytes (State.all st)),
            if is_booting h then 0 else Z.of_nat (State.quarantine_count st))) as Hpub'.
  { unfold published, h', refresh, is_booting. simpl. unfold set_inner. cbn [h_inner].
    assert (length (snapshot_entries st) = length (State.all st)) as Hlen by apply length_fmap.
    destruct (h_inner h); cbn [lv_held lv_quarantined].
    - by rewrite Hsum', length_fmap, Hlen.
    - by rewrite Hsum, Hlen. }
  rewrite Hpub' in Hpub. injection Hpub as -> -> Hq. split; [done|]. split; [done|].
  split; [done|]. split; [congruence|]. destruct (is_booting h); [done|].
  destruct Hphase as [Hs Hk]. split; [done|]. split; [done|]. done.
Qed.

(** ** The bind gives up, and not early *)

Section Binding.
Context {W : Type} `{World W} `{UnixSocket W} (time : W -> instant).

(** The system calls do not turn back time. *)
Definition socket_forward : Prop :=
  (forall p w, time w <= time ((listener_bind p w).2)) /\
  (forall p w, time w <= time ((connect p w).2)) /\
  (forall p w, time w <= time ((socket_unlink p w).2)) /\
  (forall p m w, time w <= time ((socket_chmod p m w).2)) /\
  (forall p w, time w <= time ((path_exists p w).2)).

Lemma unlink_forward p w : socket_forward -> time w <= time ((unlink_if_dead p w).2).
Proof.
  intros (_ & Hc & Hu & _). unfold unlink_if_dead, bind, ret. specialize (Hc p w).
  destruct (connect p w) as [[u|er] w1]; [done|]. specialize (Hu p w1). simpl in *. lia.
Qed.

(** With a turn for every interval the window still has, the loop ends; when it
    gives up the window is over. *)
Lemma bind_loop_ends fuel : forall p deadline w,
  clock_ok time -> socket_forward ->
  deadline - time w <= (Z.of_nat fuel - 1) * BIND_RETRY_INTERVAL -> (0 < fuel)%nat ->
  let '(r, w') := bind_loop fuel p deadline w in
  is_Some r /\ time w <= time w' /\ (r = Some false -> deadline <= time w').
Proof.
  induction fuel as [|fuel IH]; intros p deadline w Hc Hf Hfuel Hpos; [lia|]. cbn [bind_loop].
  unfold bind at 1. pose proof (proj1 Hf p w) as H1.
  destruct (listener_bind p w) as [[u|er] w1]; cbn [snd] in H1; [by split; [eauto|]|].
  unfold bind at 1. pose proof (proj1 Hc w1) as H2. destruct (mono_now w1) as [t w2]. cbn [fst snd] in H2.
  destruct (Z.ltb_spec t deadline) as [Ht|Ht].
  - unfold bind at 1. pose proof (unlink_forward p w2 Hf) as H3.
    destruct (unlink_if_dead p w2) as [u w3]. cbn [snd] in H3. unfold bind at 1.
    pose proof (proj2 Hc BIND_RETRY_INTERVAL w3) as H4.
    destruct (sleep BIND_RETRY_INTERVAL w3) as [u' w4]. cbn [snd] in H4.
    assert (0 < BIND_RETRY_INTERVAL) as Hi by (unfold BIND_RETRY_INTERVAL; lia).
    specialize (IH p deadline w4 Hc Hf). destruct (bind_loop fuel p deadline w4) as [r w5].
    destruct IH as (Hr & Hle & Hend); [nia|nia|]. split; [done|]. split; [lia|done].
  - split; [by eauto|]. cbn [snd]. split; [lia|]. intros _. lia.
Qed.
End Binding.

(** Opening the socket always comes to an end: whatever the system calls
    answer, within 61 attempts the listener is bound or the server gives up,
    and it gives up only once it has tried for the whole 30 seconds. *)
Theorem open_listener_terminates {W} `{World W} `{UnixSocket W} time data_dir w :
  clock_ok time -> socket_forward time ->
  let '(r, w') := open_listener data_dir w in
  is_Some r /\ (r = Some false -> time w + secs 30 <= time w').
Proof.
  intros Hc Hf. unfold open_listener.
  pose proof Hf as (_ & _ & _ & Hch & Hp). unfold bind at 1.
  specialize (Hp (socket_path data_dir) w).
  destruct (path_exists (socket_path data_dir) w) as [there w1]. cbn [snd] in Hp.
  unfold bind at 1.
  assert (time w1 <= time ((whenM there (unlink_if_dead (socket_path data_dir)) w1).2)) as Hu
    by (destruct there; [by apply unlink_forward|done]).
  destruct (whenM there _ w1) as [u w2]. cbn [snd] in Hu. unfold bind at 1.
  pose proof (proj1 Hc w2) as Ht. destruct (mono_now w2) as [t w3]. cbn [fst snd] in Ht.
  unfold bind at 1.
  pose proof (bind_loop_ends time BIND_ATTEMPTS (socket_path data_dir) (t + BIND_RETRY_WINDOW) w3 Hc Hf) as Hl.
  destruct (bind_loop BIND_ATTEMPTS _ _ w3) as [r w4].
  destruct Hl as ([b ->] & Hle & Hend).
  { unfold BIND_ATTEMPTS, BIND_RETRY_WINDOW, BIND_RETRY_INTERVAL, secs, NANOS. lia. }
  { unfold BIND_ATTEMPTS. lia. }
  destruct b.
  - unfold bind, ret. specialize (Hch (socket_path data_dir) 438 w4).
    destruct (socket_chmod _ 438 w4) as [u' w5]. split; [by eauto|done].
  - unfold ret. split; [by eauto|]. intros _. specialize (Hend eq_refl).
    unfold BIND_RETRY_WINDOW in Hend. lia.
Qed.

(** ** Witnesses *)

Lemma views_match_state_witness :
  let e := set_live true scan_sys.1 in
  let n := scan_sys.2 in
  let s := (@push_live _ (@live_world Toy witness_world free_always) hash_iter_sorted
              (e, beside live_handle n)).2 in
  let v := (@held_view Toy witness_world witness_hex (world s.2)).1 in
  let r := (@runtime_view Toy witness_world free_always (world s.2)).1 in
  let held := @State.all hash_iter_sorted (e_state e) in
  shown <$> held_list v ≡ₚ
    (fun t => (t_title t, t_info_hash t, t_size_bytes t, t_last_known_seeders t)) <$> held /\
  rv_held_torrents r = Z.of_nat (length held) /\
  rv_disk_committed_bytes r = wrap64 (sumZ t_size_bytes held) /\
  held_booting v = false /\ rv_booting r = false /\
  StronglySorted title_le (held_list v) /\
  Forall (@knows witness_hex (@session_torrents Toy witness_world (world n)).1) (held_list v) /\
  rv_quarantined_torrents r = Z.of_nat (size (quarantined (e_state e))).
Proof.
  pose proof (@views_match_state Toy witness_world witness_hex hash_iter_sorted free_always
                (set_live true scan_sys.1) live_handle scan_sys.2 eq_refl) as Hv.
  cbv zeta in Hv |- *. destruct (held_view _) as [v s1]. destruct (runtime_view _ _) as [r s2].
  exact Hv.
Defined.

(** A socket that cannot be bound. *)
Definition deaf : UnixSocket Toy :=
  {| connect := fun _ => ret (Err ConnectRefused); set_timeouts := ret true;
     stream_send := fun _ => ret false; stream_read_line := ret None;
     accept_write := fun _ => ret (Err "closed"); listener_bind := fun _ => ret (Err "in use");
     socket_unlink := fun _ => ret tt; socket_chmod := fun _ _ => ret tt |}.

Example deaf_gives_up :
  (@open_listener Toy deaf witness_world "/d" live_toy).1 = Some false.
Proof. vm_compute. reflexivity. Qed.

Lemma open_listener_terminates_witness :
  let r := @open_listener Toy deaf witness_world "/d" live_toy in
  is_Some r.1 /\ (r.1 = Some false -> toy_clock live_toy + secs 30 <= toy_clock r.2).
Proof.
  pose proof (@open_listener_terminates Toy witness_world deaf toy_clock "/d" live_toy toy_clock_ok) as Ho.
  cbv zeta. destruct (open_listener "/d" live_toy) as [r w]. apply Ho.
  repeat split; intros; simpl; lia.
Defined.
