(* ===== verification/Main.v ===== *)
(** The process of the daemon, [cmd_run] of [bin/keep-at.rs]: from a resolved
    configuration to its end.  The pid file, the key file and the pointer are
    written, the live handle is built from what is on disk, the engine is built
    beside it and runs, and the pid file is removed.  Signals reach the engine
    as the wake-ups of [Daemon]; the socket's server runs beside it ([Live]), and so
    does the heartbeat ([Forensics]); raising the descriptor limit, redirecting
    the standard streams and the forensic marks concern the process alone
    ([FdLimit], [Signals]). *)

From S2P Require Import Prelude Text Float64 Fs Persist Time Ram Selector Net Quarantine State.
From S2P Require Import AtKey AtTorrent Filter FdLimit Catalog World Config Storage NetStats Stats Torrents.
From S2P Require Import History Humanize Session Swap Swarm Live Engine EngineCore Acting Books Budget.
From S2P Require Import Maintain Watchdog Scan Boot Daemon Serving Service Cli Process.

Section Main.
Context {W : Type} `{World W} `{Decoders} `{Chrono} `{HexCrate} `{UrlCrate} `{HashIter} `{Libm}.
Context `{StateCodec} `{EventCodec} `{StatsCodec} `{CacheCodec} `{Yaml}.
Context (canonicalize : path -> option path) (to_lowercase : string -> string).
Context (announce_from_slice : string -> option string) (tracker_free : M W bool).

(** The torrents of the last state, all still to be verified. *)
Definition held_at_boot (c : Config) : M Fs (list HeldTorrentView) :=
  let* r := State.load (path_join (data_dir c) "state.json") in
  ret match r with
      | Ok st => verifying_view <$> snapshot_entries st
      | Err _ => []
      end.

(** The configuration with its limits made concrete, and the handle that serves
    while the engine is being built. *)
Definition boot_handle (c : Config) : M (Node W) (result error (Config * LiveHandle)) :=
  let? c := resolve_all_limits canonicalize c in
  let* started_at := on_world mono_now in
  let* held := on_fs (held_at_boot c) in
  let* h := booting_with_snapshot started_at
              ((fun l => (location_path l, limit_bytes l)) <$> storage c) held (data_dir c) in
  ret (Ok (c, h)).

(** Everything before the engine; [None]: formatting a size never returns. *)
Definition prepare (pid : Z) (c : Config) (config_path : option path)
    : M (Node W) (option (result error (Config * LiveHandle))) :=
  let* made := with_context ("creating data dir " +:+ data_dir c) (on_world (create_data_dir (data_dir c))) in
  match made with
  | Err e => ret (Some (Err e))
  | Ok _ =>
      let* recorded := on_fs (write_pid pid (data_dir c)) in
      match recorded with
      | Err e => ret (Some (Err e))
      | Ok _ =>
          let* split := match config_path with
                        | Some p => on_fs (split_inline_secret p c)
                        | None => ret (Some (Ok tt))
                        end in
          match split with
          | None => ret None
          | Some _ =>
              whenM (negb (String.eqb (api_key c) ""))
                (let* _ := on_fs (write_api_key_file c) in ret tt) ;;;
              let* there := on_world (path_exists CONFIG_DIR) in
              on_fs (write_data_dir_pointer there (data_dir c)) ;;;
              let* r := boot_handle c in
              ret (Some r)
          end
      end
  end.

#[local] Existing Instance live_world.

(** The engine from its construction to its end. *)
Definition serve_life (c : Config) (ws : list Wake)
    : M (Node (LiveHandle * W)) (result error (Engine * option Loop)) :=
  let? e := @Boot.new _ (live_world tracker_free) _ _ _ _ _ _ _ _ canonicalize to_lowercase
              announce_from_slice c in
  fun n =>
    let '(_, s) := attach_live (e, n) in
    let '(l, s) := @Daemon.run _ (live_world tracker_free) _ _ _ _ _ _ _ _ _ _ to_lowercase ws s in
    let '(_, (e, n)) := @close _ (live_world tracker_free) s in
    (Ok (e, l), n).

(** [cmd_run]; the pid file stays when building the engine fails. *)
Definition cmd_run (pid : Z) (c : Config) (config_path : option path) (ws : list Wake) (n : Node W)
    : option (result error (Engine * option Loop)) * Node (LiveHandle * W) :=
  let '(ready, n) := prepare pid c config_path n in
  match ready with
  | None => (None, beside (booting 0 [] []) n)
  | Some (Err e) => (Some (Err e), beside (booting 0 [] []) n)
  | Some (Ok (c', h)) =>
      let '(r, n) := serve_life c' ws (beside h n) in
      match r with
      | Err e => (Some (Err e), n)
      | Ok lived => let '(_, n) := on_fs (remove_pid (data_dir c')) n in (Some (Ok lived), n)
      end
  end.
End Main.

(** ** The whole life of the process *)

(** The engine that a run starts with, once everything before it succeeded. *)
Definition engine_at_start {W : Type} `{World W} `{Decoders} `{Chrono} `{HexCrate} `{UrlCrate}
    `{HashIter} `{Libm} `{StateCodec} `{EventCodec} `{StatsCodec} `{CacheCodec} `{Yaml}
    canonicalize to_lowercase announce_from_slice (tracker_free : M W bool) pid c config_path
    (n : Node W) : option Engine :=
  match prepare canonicalize pid c config_path n with
  | (Some (Ok (c', h)), n) =>
      result_ok (@Boot.new _ (live_world tracker_free) _ _ _ _ _ _ _ _ canonicalize to_lowercase
                   announce_from_slice c' (beside h n)).1
  | _ => None
  end.

Section Life.
Context {W : Type} `{World W} `{Decoders} `{Chrono} `{HexCrate} `{UrlCrate} `{HashIter} `{Libm}.
Context `{StateCodec} `{EventCodec} `{StatsCodec} `{CacheCodec} `{Yaml}.
Context (canonicalize : path -> option path) (to_lowercase : string -> string).
Context (announce_from_slice : string -> option string) (tracker_free : M W bool).

Lemma attach_core (e : Engine) (n : Node (LiveHandle * W)) : core (attach_live (e, n)).2.1 = core e.
Proof.
  unfold attach_live, bind at 1, gets. cbn [fst snd]. unfold bind, on_snd, on_fst, modify.
  by destruct (on_world _ n) as [u n1].
Qed.

Lemma close_core (s : Engine * Node (LiveHandle * W)) :
  core (@close _ (live_world tracker_free) s).2.1 = core s.1.
Proof.
  unfold close, on_outside, on_snd. destruct s as [e n]. by destruct (on_world _ n) as [u n1].
Qed.

Lemma serve_life_spec c ws n e l n' :
  serve_life canonicalize to_lowercase announce_from_slice tracker_free c ws n = (Ok (e, Some l), n') ->
  exists e0, (@Boot.new _ (live_world tracker_free) _ _ _ _ _ _ _ _ canonicalize to_lowercase
                announce_from_slice c n).1 = Ok e0 /\
    ready canonicalize c (node_fs n)
      (@host_ram _ (live_world tracker_free) _ _ _ _ _ canonicalize announce_from_slice c n) e0 /\
    (kept (core e0) (core e0) -> kept (core e0) (core e)).
Proof.
  unfold serve_life, bindR, bind at 1.
  destruct (@Boot.new _ (live_world tracker_free) _ _ _ _ _ _ _ _ canonicalize to_lowercase announce_from_slice c n)
    as [[e0|er] n1] eqn:Eb; [|done]. intros Hl.
  exists e0. split; [done|]. split.
  { eapply (@new_ready _ (live_world tracker_free)). unfold Boot.new in Eb. by rewrite Eb. }
  pose proof (attach_core e0 n1) as Ha. destruct (attach_live (e0, n1)) as [u s1]. cbn [snd] in Ha.
  pose proof (@run_kept _ (live_world tracker_free) _ _ _ _ _ _ _ _ _ _ to_lowercase ws s1) as Hrun.
  destruct (@Daemon.run _ (live_world tracker_free) _ _ _ _ _ _ _ _ _ _ to_lowercase ws s1) as [l' s2].
  pose proof (close_core s2) as Hc.
  destruct (@close _ (live_world tracker_free) s2) as [u' [e2 n2]]. cbn [fst snd] in *.
  injection Hl as <- -> <-. rewrite Hc. rewrite Ha in Hrun. intros Hk. by apply (Hrun l).
Qed.

(** What preparation makes of the configuration. *)
Lemma prepare_spec pid c config_path n c' h n' :
  prepare canonicalize pid c config_path n = (Some (Ok (c', h)), n') ->
  c' = set_storage (storage c') c /\ Forall2 (resolved canonicalize) (storage c) (storage c').
Proof.
  unfold prepare, bind at 1.
  destruct (with_context _ _ n) as [[u|er] n1]; [|done]. unfold bind at 1.
  destruct (on_fs (write_pid pid (data_dir c)) n1) as [[u'|er] n2]; [|done]. unfold bind at 1.
  match goal with |- context [match config_path with Some _ => _ | None => _ end n2] =>
    destruct (match config_path with Some p => on_fs (split_inline_secret p c)
              | None => ret (Some (Ok tt)) end n2) as [[sp|] n3]; [|done] end.
  unfold bind at 1. destruct (whenM _ _ n3) as [u2 n4]. unfold bind at 1.
  destruct (on_world (path_exists CONFIG_DIR) n4) as [there n5]. unfold bind at 1.
  destruct (on_fs (write_data_dir_pointer there (data_dir c)) n5) as [u3 n6].
  unfold bind at 1, boot_handle, bindR at 1, bind at 1.
  pose proof (resolve_all_limits_ok canonicalize c n6) as Hr.
  destruct (resolve_all_limits canonicalize c n6) as [[c1|er] n7]; [|done].
  destruct (Hr c1 eq_refl) as (Hc & Hf & _). unfold bind at 1.
  destruct (on_world mono_now n7) as [t n8]. unfold bind at 1.
  destruct (on_fs (held_at_boot c1) n8) as [held n9]. unfold bind at 1.
  destruct (booting_with_snapshot _ _ _ _ n9) as [h' n10]. intros [= <- _ _]. done.
Qed.
End Life.

(** C1: from the start of the process to its end.  The engine that [cmd_run]
    starts with is ready for the given configuration with its limits made
    concrete, holding what the state file had when the preparation was over; and when the run comes to an end of its own, whatever woke the
    daemon meanwhile, whatever the outside answered and whichever save failed,
    what it holds keeps to the disk limits, the RAM budget and the cap on
    torrents, counted from what it started with, under the same settings. *)
Theorem process_keeps_budgets {W : Type} `{World W} `{Decoders} `{Chrono} `{HexCrate} `{UrlCrate}
    `{HashIter} `{Libm} `{StateCodec} `{EventCodec} `{StatsCodec} `{CacheCodec} `{Yaml}
    canonicalize to_lowercase announce_from_slice tracker_free pid c config_path ws (n : Node W) e0 e l n' :
  engine_at_start canonicalize to_lowercase announce_from_slice tracker_free pid c config_path n = Some e0 ->
  books (core e0) -> settings_ok (core e0) -> canonical (quarantined (e_state e0)) ->
  cmd_run canonicalize to_lowercase announce_from_slice tracker_free pid c config_path ws n =
    (Some (Ok (e, Some l)), n') ->
  (exists c0 h n1, prepare canonicalize pid c config_path n = (Some (Ok (c0, h)), n1) /\
     c0 = set_storage (storage c0) c /\ Forall2 (resolved canonicalize) (storage c) (storage c0) /\
     ready canonicalize c0 (node_fs n1)
       (@host_ram _ (live_world tracker_free) _ _ _ _ _ canonicalize announce_from_slice c0 (beside h n1)) e0) /\
  within (core e0) (core e) /\ books (core e) /\ canonical (quarantined (e_state e)).
Proof.
  intros Hstart Hb Hs Hcan. unfold cmd_run. unfold engine_at_start in Hstart.
  destruct (prepare _ _ _ _ n) as [[[[c0 h]|er]|] n1] eqn:Ep; [|done|done].
  pose proof (prepare_spec _ _ _ _ _ _ _ _ Ep) as [Hc Hf].
  destruct (serve_life _ _ _ _ c0 ws (beside h n1)) as [[lived|er] n2] eqn:El; [|done].
  destruct (on_fs (remove_pid (data_dir c0)) n2) as [u n3]. intros [= -> <-].
  apply serve_life_spec in El as (e1 & Hnew & Hr & Hk). rewrite Hnew in Hstart.
  injection Hstart as ->. split; [by exists c0, h, n1|].
  destruct (Hk (kept_refl _ Hb Hs Hcan)) as [Hw Hb' _ Hc']. done.
Qed.

(** ** Witness *)

Definition main_node : Node Toy :=
  {| node_fs := boot_fs; registry := registry boot_node; world := world scan_sys.2 |}.

Abbreviation cmd_run_there ws :=
  (@cmd_run Toy witness_world witness_feed witness_chrono witness_hex witness_urls hash_iter_sorted
     witness_libm witness_codec witness_events witness_stats witness_cache_codec witness_yaml
     (fun _ => None) (fun x => x) (fun _ => None) free_always 77 witness_config None ws main_node).

Definition main_result (r : option (result error (Engine * option Loop)) * Node (LiveHandle * Toy))
    : option (Engine * Loop) :=
  match r.1 with Some (Ok (e, Some l)) => Some (e, l) | _ => None end.

(** The process scans, looks after its torrents and stops: it holds what the scan
    found beside what it held, serves the live view, and its pid file is gone. *)
Example process_runs :
  let r := cmd_run_there witness_life in
  ((fun el => ((map_to_list (torrents (e_state el.1))).*1,
               is_booting (world r.2).1, content (disk (node_fs r.2)) (pid_path "/d")))
     <$> main_result r) =
  Some (["aa"; @hex_encode witness_hex witness_hash], false, None).
Proof. vm_compute. reflexivity. Qed.

Abbreviation start_there :=
  (@engine_at_start Toy witness_world witness_feed witness_chrono witness_hex witness_urls hash_iter_sorted
     witness_libm witness_codec witness_events witness_stats witness_cache_codec witness_yaml
     (fun _ => None) (fun x => x) (fun _ => None) free_always 77 witness_config None main_node).

(** What it starts with is in order. *)
Lemma start_in_order e0 :
  start_there = Some e0 ->
  books (core e0) /\ settings_ok (core e0) /\ @canonical witness_hex (quarantined (e_state e0)).
Proof.
  intros He.
  assert (torrents (e_state e0) = {["aa" := witness_torrent "aa"]} /\ quarantined (e_state e0) = ∅) as [Ht Hq].
  { assert ((fun e => (torrents (e_state e), quarantined (e_state e))) <$> start_there =
            Some ({["aa" := witness_torrent "aa"]}, ∅)) as Hx by (vm_compute; reflexivity).
    rewrite He in Hx. cbn in Hx. split.
    - exact (f_equal (fun o => match o with Some p => p.1 | None => ∅ end) Hx).
    - exact (f_equal (fun o => match o with Some p => p.2 | None => ∅ end) Hx). }
  assert (forallb (fun l => limit_bytes l <? U64_MAX) (storage (e_cfg e0)) = true /\
          0 <= e_ram_budget e0 <= U64_MAX) as [Hl Hbud].
  { assert ((fun e => forallb (fun l => limit_bytes l <? U64_MAX) (storage (e_cfg e)) &&
                      ((0 <=? e_ram_budget e) && (e_ram_budget e <=? U64_MAX))) <$> start_there =
            Some true) as Hx by (vm_compute; reflexivity).
    rewrite He in Hx. cbn [fmap option_fmap option_map] in Hx.
    assert (forall b, Some b = Some true -> b = true) as Hsome by congruence.
    apply Hsome in Hx. apply andb_true_iff in Hx as [Hl Hb]. apply andb_true_iff in Hb as [Hlo Hhi].
    split; [exact Hl|]. split; [apply Z.leb_le; exact Hlo|apply Z.leb_le; exact Hhi]. }
  split; [|split].
  - split; unfold core; cbn [k_state]; rewrite Ht.
    + by apply map_Forall_singleton.
    + apply map_Forall_singleton. vm_compute. split; discriminate.
    + intros loc. unfold disk_at, map_sum. rewrite map_to_list_singleton. simpl.
      unfold at_location. case_decide; vm_compute; discriminate.
  - split; [|done]. unfold core. cbn [k_cfg]. apply Forall_forall. intros x Hx.
    rewrite forallb_forall in Hl. apply Z.ltb_lt, Hl. by apply list_elem_of_In.
  - rewrite Hq. apply map_Forall_empty.
Qed.

Lemma process_keeps_budgets_witness :
  exists e0 e l, start_there = Some e0 /\ main_result (cmd_run_there witness_life) = Some (e, l) /\
    (exists c0 h n1,
       @prepare Toy witness_world hash_iter_sorted witness_codec witness_stats witness_yaml (fun _ => None)
         77 witness_config None main_node = (Some (Ok (c0, h)), n1) /\
       c0 = set_storage (storage c0) witness_config /\
       Forall2 (resolved (fun _ => None)) (storage witness_config) (storage c0) /\
       @ready witness_libm witness_codec (fun _ => None) c0 (node_fs n1)
         (@host_ram _ (@live_world Toy witness_world free_always) witness_hex witness_urls hash_iter_sorted
            witness_codec witness_cache_codec (fun _ => None) (fun _ => None) c0 (beside h n1)) e0) /\
    within (core e0) (core e) /\ books (core e) /\ @canonical witness_hex (quarantined (e_state e)).
Proof.
  assert (is_Some (main_result (cmd_run_there witness_life))) as Hs
    by (apply (bool_decide_eq_true_1 _); vm_compute; reflexivity).
  assert (is_Some start_there) as [e0 He0]
    by (apply (bool_decide_eq_true_1 _); vm_compute; reflexivity).
  destruct (cmd_run_there witness_life) as [r n'] eqn:Er in Hs |- *.
  destruct Hs as [[e l] Hs].
  assert (r = Some (Ok (e, Some l))) as ->.
  { clear -Hs. unfold main_result in Hs. cbn [fst] in Hs.
    destruct r as [[[e' [l'|]]|er]|]; [by injection Hs as -> ->|discriminate Hs..]. }
  exists e0, e, l. split; [exact He0|]. split; [exact Hs|].
  destruct (start_in_order e0 He0) as (Hb & Hset & Hcan).
  exact (@process_keeps_budgets Toy witness_world witness_feed witness_chrono witness_hex witness_urls
           hash_iter_sorted witness_libm witness_codec witness_events witness_stats witness_cache_codec
           witness_yaml (fun _ => None) (fun x => x) (fun _ => None) free_always 77 witness_config None
           witness_life main_node e0 e l n' He0 Hb Hset Hcan Er).
Defined.
