(* ===== verification/Restart.v ===== *)
(** Restarting after a crash: whatever the daemon does, from the start of its
    process to its end and whatever fails on the way, a crash at any point
    leaves a state file the next start can load.  [Durable] says this of single
    calls; here it is carried through every operation of the engine, the run
    loop and the process around it. *)

From S2P Require Import Prelude Text Float64 Fs Persist Durable Time Ram Selector Net Quarantine State.
From S2P Require Import AtKey AtTorrent Filter FdLimit Catalog World Config Storage NetStats Stats Torrents.
From S2P Require Import History Humanize Session Swap Swarm Live Engine EngineCore Acting.
From S2P Require Import Maintain Watchdog Scan Boot Daemon Serving Service Cli Process Main.

(** ** What a start can load *)

(** Every held torrent is saved under its own hash. *)
Definition keyed (s : Stored) : Prop :=
  map_Forall (fun k t => t_info_hash t = k) (stored_torrents s).

(** What a crash shows at the state file: maps that parse, each torrent under
    its hash, or no file where there was none. *)
Definition restorable `{StateCodec} (absent : Prop) (v : option bytes) : Prop :=
  match v with
  | Some b => exists s, from_slice b = Some s /\ keyed s
  | None => absent
  end.

Section Files.
Context `{StateCodec} `{EventCodec} `{StatsCodec} `{CacheCodec}.
(** The data directory, and whether the state file may be missing. *)
Context (d : path) (absent : Prop).

Definition state_file : path := path_join d "state.json".

(** The files are safe, with the handles [hs] open. *)
Definition files_safe (hs : list nat) (fs : Fs) : Prop :=
  guarded state_file (restorable absent) hs fs.

Lemma elsewhere_ends s q :
  ends_in s q -> clash s "state.json" = true -> clash s "state.json.tmp" = true ->
  clash (s +:+ ".tmp") "state.json" = true -> elsewhere state_file q.
Proof.
  intros Hq Ha Hb Hc. unfold elsewhere, state_file, tmp_path.
  pose proof (ends_in_join d "state.json") as Hp. split; [|split].
  - exact (clash_ne _ _ _ _ Ha Hq Hp).
  - exact (clash_ne _ _ _ _ Hb Hq (ends_in_app_r _ _ ".tmp" Hp)).
  - exact (clash_ne _ _ _ _ Hc (ends_in_app_r _ _ ".tmp" Hq) Hp).
Qed.

(** *** Every other file of the program is elsewhere *)

Ltac elsewhere s := by apply (elsewhere_ends s); [eauto using ends_in_join, ends_in_trans, ends_in_app|..].

Lemma torrent_cache_elsewhere hex : elsewhere state_file (torrent_cache_path d hex).
Proof.
  apply (elsewhere_ends ".torrent"); [|done..]. unfold torrent_cache_path.
  eapply ends_in_trans; [apply ends_in_app|apply ends_in_join].
Qed.

Lemma file_elsewhere name :
  clash name "state.json" = true -> clash name "state.json.tmp" = true ->
  clash (name +:+ ".tmp") "state.json" = true -> elsewhere state_file (path_join d name).
Proof. apply elsewhere_ends, ends_in_join. Qed.

(** *** Calls on files *)

Lemma safe_read q : stable files_safe (fs_read q).
Proof. apply harmless_read. Qed.
Lemma safe_remove q : elsewhere state_file q -> stable files_safe (fs_remove q).
Proof. intros (? & _). by apply harmless_remove. Qed.
Lemma safe_atomic_write q b : elsewhere state_file q -> stable files_safe (atomic_write q b).
Proof. apply harmless_atomic_write. Qed.
Lemma safe_atomic_write_mode q b m : elsewhere state_file q -> stable files_safe (atomic_write_mode q b m).
Proof. apply harmless_atomic_write. Qed.
Lemma safe_write q b : elsewhere state_file q -> stable files_safe (fs_write q b).
Proof. intros (? & _). by apply harmless_write. Qed.
Lemma safe_mode q : stable files_safe (fs_mode q).
Proof. apply harmless_mode. Qed.
Lemma safe_len q : stable files_safe (fs_len q).
Proof. apply harmless_len. Qed.
Lemma safe_chmod q m : stable files_safe (fs_chmod q m).
Proof. apply harmless_chmod. Qed.
Lemma safe_sync q : stable files_safe (fs_sync q).
Proof. apply harmless_sync. Qed.
Lemma safe_create_dir q : stable files_safe (fs_create_dir q).
Proof. apply harmless_create_dir. Qed.
Lemma safe_write_front q b : elsewhere state_file q -> stable files_safe (fs_write_front q b).
Proof. intros (? & _). by apply harmless_on_inode. Qed.
Lemma safe_truncate q n : elsewhere state_file q -> stable files_safe (fs_truncate q n).
Proof. intros (? & _). by apply harmless_on_inode. Qed.

#[local] Hint Resolve safe_read safe_remove safe_atomic_write safe_atomic_write_mode safe_write safe_mode
  safe_len safe_chmod safe_sync safe_create_dir safe_write_front safe_truncate
  torrent_cache_elsewhere : durable.

Lemma safe_cap_text_file q n : elsewhere state_file q -> stable files_safe (cap_text_file q n).
Proof. intros Hq. unfold cap_text_file. stable. Qed.

Lemma safe_load_snapshot q : stable files_safe (load_snapshot q).
Proof. unfold load_snapshot. stable. Qed.
Lemma safe_save_snapshot q s : elsewhere state_file q -> stable files_safe (save_snapshot q s).
Proof. intros Hq. unfold save_snapshot. stable. Qed.
Lemma safe_load_runtime q : stable files_safe (load_runtime q).
Proof. unfold load_runtime. stable. Qed.
Lemma safe_save_runtime q s : elsewhere state_file q -> stable files_safe (save_runtime q s).
Proof. intros Hq. unfold save_runtime. stable. Qed.
Lemma safe_swarm_save `{HexCrate} `{HashIter} c :
  elsewhere state_file (cache_path c) -> stable files_safe (swarm_save c).
Proof. intros Hq. unfold swarm_save. stable. Qed.
Lemma safe_swarm_load `{HexCrate} `{HashIter} q ttl : stable files_safe (swarm_load q ttl).
Proof. unfold swarm_load. stable. Qed.

(** *** The ledger *)

Definition handles (w : Writer) : list nat := from_option (fun i => [i]) [] (w_file w).

Lemma drop_handles w hs fs : files_safe (handles w ++ hs) fs -> files_safe hs fs.
Proof. unfold handles. destruct (w_file w); [apply guarded_drop|done]. Qed.

Definition ledger_path (q : path) : Prop := elsewhere state_file q /\ elsewhere state_file (old_path q).

(** The writer's own handle comes and goes. *)
Definition writes (w : Writer) (m : M Fs Writer) : Prop :=
  forall hs, hoare (files_safe (handles w ++ hs)) m
    (fun w' fs => w_path w' = w_path w /\ files_safe (handles w' ++ hs) fs).

Lemma open_append_safe q hs :
  elsewhere state_file q ->
  hoare (files_safe hs) (open_append q) (fun f fs => files_safe (from_option (fun i => [i]) [] f ++ hs) fs).
Proof.
  intros (Hq & Ht & _). unfold open_append.
  eapply hoare_bind; [by apply open_append_guarded|]. intros [i|e]; by apply hoare_ret.
Qed.

Lemma write_attempts_safe n line w : ledger_path (w_path w) -> writes w (write_attempts n line w).
Proof.
  revert w. induction n as [|n IH]; intros w Hw hs; cbn [write_attempts]; [by apply hoare_ret|].
  apply hoare_bind with (R := fun f fs => files_safe (from_option (fun i => [i]) [] f ++ hs) fs).
  { unfold handles. destruct (w_file w) as [i|]; [by apply hoare_ret|]. by apply open_append_safe, Hw. }
  intros [i|]; [|by apply hoare_ret]. simpl.
  eapply hoare_bind; [apply write_handle_guarded; left|]. intros [u|e]; [by apply hoare_ret|].
  eapply hoare_weaken; [apply (IH (set_file None w) Hw hs)| |done].
  intros fs. apply guarded_drop.
Qed.

Lemma safe_rename q r :
  elsewhere state_file q -> elsewhere state_file r -> q <> r -> stable files_safe (fs_rename q r).
Proof. intros (? & ? & _) (? & ? & _) ?. by apply harmless_rename. Qed.

Lemma rotate_safe w : ledger_path (w_path w) -> writes w (rotate w).
Proof.
  intros [Hq Ho] hs. unfold rotate.
  eapply hoare_bind; [apply safe_rename; [done|done|]; apply not_eq_sym, old_path_ne|]. intros r.
  eapply hoare_bind with (R := fun f fs => files_safe (from_option (fun i => [i]) [] f ++ hs) fs).
  { eapply hoare_weaken; [by apply (open_append_safe (w_path w) hs)|apply drop_handles|done]. }
  intros f. by apply hoare_ret.
Qed.

Lemma record_safe ev w : ledger_path (w_path w) -> writes w (History.record ev w).
Proof.
  intros Hw hs. unfold History.record. destruct (event_to_string ev) as [l|]; [|by apply hoare_ret].
  eapply hoare_bind; [apply harmless_len|]. intros md.
  apply hoare_bind with (R := fun w' fs => w_path w' = w_path w /\ files_safe (handles w' ++ hs) fs).
  { destruct md as [len|e]; [|by apply hoare_ret]. destruct (_ <? _); [by apply rotate_safe|by apply hoare_ret]. }
  intros w'. intros fs [Hw' Hfs].
  destruct (write_attempts_safe 2 (l +:+ String newline "") w' ltac:(by rewrite Hw') hs fs Hfs) as [E Hs].
  split; [etransitivity; [exact E|exact Hw']|exact Hs].
Qed.

(** *** The maps and their file *)

Definition state_safe (hs : list nat) (s : State * Fs) : Prop :=
  state_path s.1 = state_file /\ keyed (of_state s.1) /\ files_safe hs s.2.

(** A change of the maps that keeps torrents under their hashes. *)
Definition keying (f : State -> State) : Prop :=
  forall st, state_path (f st) = state_path st /\ (keyed (of_state st) -> keyed (of_state (f st))).

Lemma safe_on_state f : keying f -> stable state_safe (on_state f).
Proof. intros Hf hs [st fs] (Hp & Hk & Hs). destruct (Hf st) as [Hp' Hk']. split; [by rewrite <- Hp|auto]. Qed.

Lemma safe_with_state {A} (f : State -> A) : stable state_safe (State.with_state f).
Proof. apply stable_gets. Qed.

Lemma safe_save : stable state_safe State.save.
Proof.
  intros hs [st fs] (Hp & Hk & Hs). simpl in Hp. unfold State.save.
  destruct (to_string_pretty (of_state st)) as [data|] eqn:E; [|done].
  rewrite Hp. unfold atomic_write.
  assert (restorable absent (Some data)) as Hgood by (exists (of_state st); split; [by apply from_to|done]).
  pose proof (own_atomic_write state_file _ data hs 420 Hgood fs Hs) as Hw.
  by destruct (atomic_write_mode _ _ _ fs).
Qed.

Lemma keying_insert t : keying (fun st => set_torrents (<[t_info_hash t := t]> (torrents st)) st).
Proof. intros st. split; [done|]. intros Hk. by apply map_Forall_insert_2. Qed.

Lemma keying_delete hex : keying (fun st => set_torrents (delete hex (torrents st)) st).
Proof. intros st. split; [done|]. intros Hk. by apply map_Forall_delete. Qed.

Lemma keying_registry g : keying (fun st => set_quarantined (g st) st).
Proof. intros st. by split. Qed.

#[local] Hint Resolve safe_on_state safe_with_state safe_save keying_insert keying_delete : durable.

Lemma safe_put t : stable state_safe (State.put t).
Proof. unfold State.put. stable. Qed.

Lemma safe_state_remove hex : stable state_safe (State.remove hex).
Proof. unfold State.remove. stable. Qed.

Lemma safe_quarantine_put hex q : stable state_safe (State.quarantine_put hex q).
Proof. unfold State.quarantine_put. stable. apply safe_on_state, keying_registry. Qed.

Lemma safe_quarantine_and_remove hex q : stable state_safe (State.quarantine_and_remove hex q).
Proof. unfold State.quarantine_and_remove. stable. apply safe_on_state, keying_registry. Qed.

Lemma safe_quarantine_remove_many hs : stable state_safe (State.quarantine_remove_many hs).
Proof. unfold State.quarantine_remove_many. stable. apply safe_on_state, keying_registry. Qed.

(** An update of a torrent that is there. *)
Lemma safe_update_one {A} hex (f : Torrent -> Torrent) (dirty : Torrent -> bool) (yes no : A) :
  (forall t, t_info_hash (f t) = t_info_hash t) ->
  stable state_safe
    (let* t := State.with_state (fun st => torrents st !! hex) in
     match t with
     | Some t => if dirty t then on_state (fun st => set_torrents (<[hex := f t]> (torrents st)) st) ;;; ret yes
                 else ret no
     | None => ret no
     end).
Proof.
  intros Hf hs [st fs] Hs. unfold bind at 1. cbn [State.with_state gets].
  destruct (torrents st !! hex) as [t|] eqn:Et; [|done]. destruct (dirty t); [|done].
  destruct Hs as (Hp & Hk & Hs). split; [done|]. split; [|done]. apply map_Forall_insert_2; [|done].
  rewrite Hf. by apply (Hk hex).
Qed.

Lemma safe_update_each us :
  Forall (fun u => forall t, t_info_hash (u.2 t) = t_info_hash t) us ->
  stable state_safe (State.update_each us).
Proof.
  intros Hus. unfold State.update_each. apply stable_bind; [|intros n; stable]. intros hs.
  apply (hoare_foldM (fun _ => state_safe hs)). intros changed [hex f] Hin.
  rewrite Forall_forall in Hus. apply (safe_update_one hex f (fun _ => true)). by apply (Hus (hex, f)).
Qed.

Lemma safe_update_progress_many progress now : stable state_safe (State.update_progress_many progress now).
Proof.
  unfold State.update_progress_many. apply stable_bind; [|intros changed; stable].
  apply stable_foldM. intros changed [hex checked] hs [st fs] Hs.
  pose proof (safe_update_one hex (bump_progress checked now) (progressed checked) true changed
                (fun _ => eq_refl) hs (st, fs) Hs) as Hone.
  revert Hone. unfold bind at 1 2. cbn [State.with_state gets]. by destruct (torrents st !! hex).
Qed.
End Files.

#[export] Hint Resolve safe_read safe_remove safe_atomic_write safe_atomic_write_mode safe_write safe_mode
  safe_len safe_chmod safe_sync safe_create_dir safe_cap_text_file safe_load_snapshot safe_save_snapshot
  safe_load_runtime safe_save_runtime safe_swarm_save safe_swarm_load torrent_cache_elsewhere
  safe_put safe_state_remove safe_quarantine_put safe_quarantine_and_remove
  safe_quarantine_remove_many safe_update_progress_many : durable.

(** ** The steps of the engine *)

Section Steps.
Context {W : Type} `{World W} `{Decoders} `{Chrono} `{HexCrate} `{UrlCrate} `{HashIter} `{Libm}.
Context `{StateCodec} `{EventCodec} `{StatsCodec} `{CacheCodec}.
Context (d : path) (absent : Prop).

Abbreviation Sys := (Engine * Node W)%type.
Abbreviation beside_state := (elsewhere (state_file d)).

Definition node_safe (hs : list nat) (n : Node W) : Prop := files_safe d absent hs (node_fs n).
Definition net_safe (hs : list nat) (s : W * Fs) : Prop := files_safe d absent hs s.2.

Definition cache_file : path := path_join d "scrape-cache.json".

Definition shared_safe (hs : list nat) (s : Shared * Node W) : Prop :=
  cache_path (sh_cache s.1) = cache_file /\ node_safe hs s.2.

(** The engine keeps its files where it keeps them. *)
Record engine_ok (e : Engine) : Prop := {
  eo_dir : data_dir (e_cfg e) = d;
  eo_log : forall q, log_file (e_cfg e) = Some q -> beside_state q;
  eo_state : state_path (e_state e) = state_file d;
  eo_keyed : keyed (of_state (e_state e));
  eo_cache : cache_path (sh_cache (e_shared e)) = cache_file;
  eo_history : w_path (e_history e) = path_join d "history.jsonl";
}.

Definition safe (_ : unit) (s : Sys) : Prop :=
  engine_ok s.1 /\ node_safe (handles (e_history s.1)) s.2.

(** *** From the files to the node *)

Lemma safe_on_fs {A} (m : M Fs A) : stable (files_safe d absent) m -> stable node_safe (on_fs m).
Proof. intros Hm hs n Hn. specialize (Hm hs _ Hn). unfold on_fs. by destruct (m (node_fs n)). Qed.

Lemma safe_on_world {A} (m : M W A) : stable node_safe (on_world m).
Proof. intros hs n Hn. unfold on_world. by destruct (m (world n)). Qed.

Lemma safe_on_registry {A} (m : M Pool.Registry A) : stable node_safe (on_registry m).
Proof. intros hs n Hn. unfold on_registry. by destruct (m (registry n)). Qed.

Lemma safe_on_net {A} (m : M (W * Fs) A) : stable net_safe m -> stable node_safe (on_net m).
Proof.
  intros Hm hs n Hn. specialize (Hm hs (world n, node_fs n) Hn). unfold on_net.
  by destruct (m (world n, node_fs n)) as [a [w fs]].
Qed.

Lemma safe_net_world {A} (m : M W A) : stable net_safe (on_fst m).
Proof. intros hs [w fs] Hs. unfold on_fst. by destruct (m w). Qed.

Lemma safe_net_files {A} (m : M Fs A) : stable (files_safe d absent) m -> stable net_safe (on_snd m).
Proof. intros Hm hs [w fs] Hs. specialize (Hm hs fs Hs). unfold on_snd. by destruct (m fs). Qed.

Lemma safe_on_node {A} (m : M (Node W) A) : stable node_safe m -> stable shared_safe (on_node m).
Proof.
  intros Hm hs [sh n] [Hc Hn]. specialize (Hm hs n Hn). unfold on_node, on_snd. by destruct (m n).
Qed.

Lemma safe_count k : stable shared_safe (count (W:=W) k).
Proof. intros hs [sh n] Hs. exact Hs. Qed.

Lemma safe_set_cache f :
  (forall c, cache_path (f c) = cache_path c) -> stable shared_safe (set_cache (W:=W) f).
Proof. intros Hf hs [sh n] [Hc Hn]. split; [|done]. simpl. by rewrite Hf. Qed.

Lemma safe_wait_turn : stable shared_safe (wait_turn (W:=W)).
Proof. intros hs [sh n] [Hc Hn]. unfold wait_turn. by destruct (wait _) as [u [rl w]]. Qed.

#[local] Hint Resolve safe_on_fs safe_on_world safe_on_registry safe_on_net safe_net_world safe_net_files
  safe_on_node safe_count safe_set_cache safe_wait_turn : durable.

(** *** Torrents, metadata and scrapes *)

Lemma safe_parse_read q : stable node_safe (read_metadata q).
Proof. unfold read_metadata. stable. Qed.

Lemma safe_fetch_torrent base hex q :
  beside_state q -> stable net_safe (fetch_torrent torrent_from_bytes base hex (Some q)).
Proof. intros Hq. unfold fetch_torrent, with_cause. stable. Qed.

#[local] Hint Resolve safe_parse_read safe_fetch_torrent : durable.

Lemma safe_fetch_shared base hex : stable shared_safe (Swarm.fetch_metadata d base hex).
Proof. unfold Swarm.fetch_metadata. stable. Qed.

Lemma safe_scrape_trackers backoff trackers h last : stable shared_safe (scrape_trackers backoff trackers h last).
Proof.
  revert last. induction trackers as [|t ts IH]; intros last; cbn [scrape_trackers]; stable; try apply IH.
Qed.

#[local] Hint Resolve safe_fetch_shared safe_scrape_trackers : durable.

Lemma safe_scrape_cached backoff trackers h : stable shared_safe (scrape_swarm_cached backoff trackers h).
Proof. unfold scrape_swarm_cached. stable. Qed.

#[local] Hint Resolve safe_scrape_cached : durable.

Lemma safe_evaluate ctx item : ctx_data_dir ctx = d -> stable shared_safe (evaluate_one_item ctx item).
Proof. intros Hd. unfold evaluate_one_item. rewrite Hd. stable. Qed.

Lemma safe_add_torrent hex dir trackers q wait : stable node_safe (add_torrent_bytes hex dir trackers q wait).
Proof. unfold add_torrent_bytes. stable. Qed.

Lemma safe_remove_torrent hex dir : stable node_safe (remove_torrent hex dir).
Proof. unfold remove_torrent. stable. Qed.

Lemma safe_find_torrent hex : stable node_safe (find_torrent hex).
Proof. unfold find_torrent. stable. Qed.

#[local] Hint Resolve safe_add_torrent safe_remove_torrent safe_find_torrent : durable.

(** *** From the node to the engine *)

Lemma safe_outside {A} (m : M (Node W) A) : stable node_safe m -> stable safe (on_outside m).
Proof.
  intros Hm x [e n] [He Hn]. specialize (Hm _ n Hn). unfold on_outside, on_snd. by destruct (m n).
Qed.

(** What is read of the engine is what it keeps. *)
Lemma safe_read_engine {A B} (f : Engine -> A) (k : A -> M Sys B) :
  (forall e, engine_ok e -> stable safe (k (f e))) -> stable safe (bind (engine f) k).
Proof. intros Hk x [e n] [He Hn]. by apply (Hk e He x (e, n)). Qed.

Lemma safe_shared {A} (m : M (Shared * Node W) A) : stable shared_safe m -> stable safe (with_shared m).
Proof.
  intros Hm x [e n] [[Hd Hl Hs Hk Hc Hh] Hn]. specialize (Hm _ (e_shared e, n) (conj Hc Hn)).
  unfold with_shared. destruct (m (e_shared e, n)) as [a [sh n']]. by destruct Hm.
Qed.

Lemma safe_shared_uncounted {A} (m : M (Shared * Node W) A) :
  stable shared_safe m -> stable safe (with_shared_uncounted m).
Proof.
  intros Hm x [e n] [[Hd Hl Hs Hk Hc Hh] Hn]. unfold with_shared_uncounted.
  match goal with |- context [m ?s] => specialize (Hm (handles (e_history e)) s (conj Hc Hn)); destruct (m s) as [a [sh n']] end.
  by destruct Hm.
Qed.

Lemma safe_state {A} (m : M (State * Fs) A) : stable (state_safe d absent) m -> stable safe (Engine.with_state m).
Proof.
  intros Hm x [e n] [[Hd Hl Hs Hk Hc Hh] Hn]. unfold Engine.with_state.
  specialize (Hm (handles (e_history e)) (e_state e, node_fs n) (conj Hs (conj Hk Hn))).
  destruct (m _) as [a [st fs]]. by destruct Hm as (? & ? & ?).
Qed.

Lemma history_elsewhere : ledger_path d (path_join d "history.jsonl").
Proof.
  split; [by apply file_elsewhere|]. apply (elsewhere_ends d "history.jsonl.1"); [|done..].
  apply (ends_in_app_r _ _ ".1" (ends_in_join d "history.jsonl")).
Qed.

Lemma safe_record ev : stable safe (Engine.record ev).
Proof.
  intros x [e n] [[Hd Hl Hs Hk Hc Hh] Hn]. cbn [fst snd] in *. unfold Engine.record.
  assert (ledger_path d (w_path (e_history e))) as Hw by (rewrite Hh; apply history_elsewhere).
  assert (files_safe d absent (handles (e_history e) ++ []) (node_fs n)) as Hn' by (by rewrite app_nil_r).
  destruct (record_safe d absent ev (e_history e) Hw [] (node_fs n) Hn') as [Hp Hf].
  destruct (History.record ev (e_history e) (node_fs n)) as [w fs]. simpl in Hp, Hf.
  rewrite app_nil_r in Hf. split; [|done]. split; simpl; [done..|congruence].
Qed.

(** A change of what no file depends on. *)
Definition harmless_change (f : Engine -> Engine) : Prop :=
  forall e, e_cfg (f e) = e_cfg e /\ e_state (f e) = e_state e /\
    sh_cache (e_shared (f e)) = sh_cache (e_shared e) /\ e_history (f e) = e_history e.

Lemma safe_change f : harmless_change f -> stable safe (change f).
Proof.
  intros Hf x [e n] [[Hd Hl Hs Hk Hc Hh] Hn]. destruct (Hf e) as (E1 & E2 & E3 & E4).
  split; [|simpl; by rewrite E4].
  split; simpl; rewrite ?E1, ?E2, ?E3, ?E4; done.
Qed.

#[local] Hint Resolve safe_outside safe_shared safe_shared_uncounted safe_state safe_record : durable.

(** Walk through a step of the engine. *)
Ltac safe_step :=
  match goal with
  | |- stable safe (bind (engine _) _) => apply safe_read_engine; intros ? ?
  | |- stable safe (change _) => apply safe_change; done
  | _ => stable_step
  end.
Ltac safe := repeat safe_step.

Lemma safe_now : stable safe Engine.now.
Proof. unfold Engine.now. safe. Qed.

Lemma safe_push_live : stable safe (push_live (W:=W)).
Proof. unfold push_live. safe. Qed.

Lemma safe_set_activity a : stable safe (Engine.set_activity (W:=W) a).
Proof. unfold Engine.set_activity. safe. Qed.

Lemma safe_fetch hex : stable safe (Engine.fetch_metadata (W:=W) hex).
Proof.
  unfold Engine.fetch_metadata. apply safe_read_engine. intros e He. unfold id.
  rewrite (eo_dir _ He). safe.
Qed.

Lemma safe_scrape trackers h : stable safe (scrape_swarm (W:=W) trackers h).
Proof. unfold scrape_swarm. safe. Qed.

Lemma safe_drop_cached hex : stable safe (drop_cached (W:=W) hex).
Proof.
  unfold drop_cached, cache_path_of. apply safe_read_engine. intros e He. rewrite (eo_dir _ He). safe.
Qed.

Lemma safe_cache_path_of hex : stable safe (cache_path_of (W:=W) hex).
Proof. apply stable_gets. Qed.

#[local] Hint Resolve safe_now safe_push_live safe_set_activity safe_fetch safe_scrape safe_drop_cached
  safe_cache_path_of : durable.

(** *** Acting on candidates *)

Lemma safe_device_free q : stable node_safe (device_free_bytes q).
Proof. unfold device_free_bytes, statvfs_of. stable. Qed.

#[local] Hint Resolve safe_device_free : durable.

Lemma safe_free_bytes_all locs : stable safe (free_bytes_all (W:=W) locs).
Proof. induction locs as [|l locs IH]; cbn [free_bytes_all]; unfold free_bytes; safe; done. Qed.

Lemma safe_new_torrent c md size loc : stable safe (new_torrent (W:=W) c md size loc).
Proof. unfold new_torrent. safe. Qed.

#[local] Hint Resolve safe_free_bytes_all safe_new_torrent : durable.

Lemma safe_try_add c md size loc ds floor roll : stable safe (try_add (W:=W) c md size loc ds floor roll).
Proof. unfold try_add. safe. Qed.

Lemma safe_actual_bytes ds : stable safe (actual_bytes (W:=W) ds).
Proof. unfold actual_bytes. safe. Qed.

Lemma safe_swap_out removed h : stable safe (swap_out (W:=W) removed h).
Proof. unfold swap_out. safe. Qed.

#[local] Hint Resolve safe_try_add safe_actual_bytes safe_swap_out : durable.

Lemma safe_swap_locations c md size floor roll held locs last :
  stable safe (swap_locations (W:=W) c md size floor roll held locs last).
Proof.
  revert last. induction locs as [|l locs IH]; intros last; cbn [swap_locations]; safe; apply IH.
Qed.

#[local] Hint Resolve safe_swap_locations : durable.

Lemma safe_try_fill c md size held floor roll : stable safe (try_fill (W:=W) c md size held floor roll).
Proof. unfold try_fill. safe. Qed.

Lemma safe_try_swap c md size floor roll : stable safe (try_swap (W:=W) c md size floor roll).
Proof. unfold try_swap. safe. Qed.

Lemma safe_gate hex : stable safe (quarantine_gate (W:=W) hex).
Proof. unfold quarantine_gate. safe. Qed.

#[local] Hint Resolve safe_try_fill safe_try_swap safe_gate : durable.

Lemma safe_act_on_candidate c held floor : stable safe (act_on_candidate (W:=W) c held floor).
Proof. unfold act_on_candidate. safe. Qed.

#[local] Hint Resolve safe_act_on_candidate : durable.

Lemma safe_act_on_windowed evaluated acted held floor :
  stable safe (act_on_windowed (W:=W) evaluated acted held floor).
Proof. unfold act_on_windowed, act_once. safe. Qed.

#[local] Hint Resolve safe_act_on_windowed : durable.

(** *** Maintenance *)

Lemma safe_drop_held h cause reason any : stable safe (drop_held (W:=W) h cause reason any).
Proof. unfold drop_held. safe. Qed.

#[local] Hint Resolve safe_drop_held : durable.

Lemma safe_remove_deleted held catalog : stable safe (remove_deleted_torrents (W:=W) held catalog).
Proof. unfold remove_deleted_torrents, remove_if_vanished. safe. Qed.

Lemma safe_update_each_state us :
  Forall (fun u => forall t, t_info_hash (u.2 t) = t_info_hash t) us ->
  stable safe (Engine.with_state (W:=W) (State.update_each us)).
Proof. intros Hus. by apply safe_state, safe_update_each. Qed.

Lemma safe_confirm_listed catalog : stable safe (confirm_listed (W:=W) catalog).
Proof.
  unfold confirm_listed. safe. apply safe_update_each_state.
  apply Forall_fmap, Forall_true. by intros h t.
Qed.

Lemma safe_held_progress h : stable safe (held_progress_bytes (W:=W) h).
Proof. unfold held_progress_bytes. safe. Qed.

#[local] Hint Resolve safe_remove_deleted safe_confirm_listed safe_held_progress : durable.

Lemma safe_collect_refresh held : stable safe (collect_refresh (W:=W) held).
Proof. induction held as [|h held IH]; cbn [collect_refresh]; safe; apply IH. Qed.

Lemma safe_stamped us :
  hoare (safe tt) (stamped (W:=W) us)
    (fun us s => safe tt s /\ Forall (fun u => forall t, t_info_hash (u.2 t) = t_info_hash t) us).
Proof.
  induction us as [|[[hex n] progress] us IH]; cbn [stamped]; [by apply hoare_ret|].
  eapply hoare_bind; [apply safe_now|]. intros at_. eapply hoare_bind; [apply IH|].
  intros rest. apply hoare_ret. intros s [Hs Hr]. split; [done|]. constructor; [|done].
  intros t. simpl. unfold refresh. by destruct (progressed _ _).
Qed.

Lemma safe_refresh_held : stable safe (refresh_held_seeder_counts (W:=W)).
Proof.
  unfold refresh_held_seeder_counts. apply safe_read_engine. intros e _.
  apply stable_bind; [apply safe_collect_refresh|]. intros us []. eapply hoare_bind; [apply safe_stamped|].
  intros us'. apply hoare_pull. intros Hus.
  apply stable_bind; [by apply safe_update_each_state|]. intros r. safe.
Qed.

Lemma safe_spared h : stable node_safe (spared (W:=W) h).
Proof. unfold spared. stable. Qed.

#[local] Hint Resolve safe_refresh_held safe_spared : durable.

Lemma safe_evict_stalled catalog : stable safe (evict_stalled_torrents (W:=W) catalog).
Proof. unfold evict_stalled_torrents, evict_if_stalled. safe. Qed.

Lemma safe_resume_held : stable safe (resume_held (W:=W)).
Proof. unfold resume_held, resume_one. safe. Qed.

#[local] Hint Resolve safe_evict_stalled : durable.

(** *** The watchdog *)

Lemma safe_snapshot_floor : stable safe (snapshot_floor (W:=W)).
Proof. unfold snapshot_floor. safe. Qed.

Lemma safe_read_cache t q : stable (files_safe d absent) (read_cache rss_from_reader t q).
Proof. unfold read_cache. stable. Qed.

#[local] Hint Resolve safe_read_cache : durable.

Lemma safe_catalog_load t q url age max :
  beside_state q -> stable net_safe (Catalog.load rss_from_reader t q url age max).
Proof. intros Hq. unfold Catalog.load, refetch. stable. Qed.

Lemma safe_load_catalog : stable safe (load_catalog (W:=W)).
Proof.
  unfold load_catalog. apply safe_read_engine. intros e He. unfold id. rewrite (eo_dir _ He). cbv zeta.
  assert (beside_state (path_join d "database.xml")) by (by apply file_elsewhere).
  safe. apply safe_outside, safe_on_net. by apply safe_catalog_load.
Qed.

#[local] Hint Resolve safe_snapshot_floor safe_load_catalog : durable.

Lemma safe_known_listing : stable safe (known_listing (W:=W)).
Proof. unfold known_listing. safe. Qed.

#[local] Hint Resolve safe_known_listing : durable.

Lemma safe_reprobe_one at_ listed floor held hq : stable safe (reprobe_one (W:=W) at_ listed floor held hq).
Proof. unfold reprobe_one. safe. Qed.

#[local] Hint Resolve safe_reprobe_one : durable.

Lemma safe_reprobe : stable safe (quarantine_reprobe (W:=W)).
Proof. unfold quarantine_reprobe, reprobe_at. safe. Qed.

Lemma safe_enforce_trip at_ ht : stable safe (enforce_trip (W:=W) at_ ht).
Proof. unfold enforce_trip, enforce_untracked, enforce_held, forget_hash. safe. Qed.

Lemma safe_sweep_books sw : stable safe (sweep_books (W:=W) sw).
Proof. unfold sweep_books, lift_many. safe. Qed.

#[local] Hint Resolve safe_reprobe safe_enforce_trip safe_sweep_books : durable.

Lemma safe_quarantine_pass : stable safe (quarantine_pass (W:=W)).
Proof. unfold quarantine_pass. safe. Qed.

(** *** A scan *)

Context (to_lowercase : string -> string).

Lemma snapshot_elsewhere : beside_state (path_join d "network-stats.json").
Proof. by apply file_elsewhere. Qed.

Lemma safe_save_stats s : stable safe (save_network_stats (W:=W) s).
Proof.
  unfold save_network_stats. apply safe_read_engine. intros e He.
  unfold network_stats_path. rewrite (eo_dir _ He). pose proof snapshot_elsewhere. safe.
Qed.

Lemma safe_shutdown : stable safe (shutdown_now (W:=W)).
Proof. unfold shutdown_now. safe. Qed.

#[local] Hint Resolve safe_save_stats safe_shutdown : durable.

Lemma safe_maintain held catalog : stable safe (maintain_held (W:=W) held catalog).
Proof. unfold maintain_held. safe. Qed.

#[local] Hint Resolve safe_maintain : durable.

(** What a walk works with: the engine's own files. *)
Definition dispatch_ok (dp : Dispatch) : Prop :=
  ctx_data_dir (d_ctx dp) = d /\ d_network_stats_path dp = path_join d "network-stats.json".

Lemma safe_dispatch items held started total max :
  hoare (safe tt) (evaluation_dispatch (W:=W) items held started total max)
    (fun dp s => safe tt s /\ dispatch_ok dp).
Proof.
  intros [e n] Hs. pose proof (safe_snapshot_floor tt (e, n) Hs) as Hf. destruct Hs as [He Hn].
  unfold evaluation_dispatch, bind, engine, gets, id. cbn [fst snd].
  destruct (snapshot_floor (e, n)) as [floor s]. split; [exact Hf|].
  unfold dispatch_ok, network_stats_path. simpl. by rewrite (eo_dir e He).
Qed.

Lemma safe_begin_scan :
  hoare (safe tt) (begin_scan (W:=W) to_lowercase)
    (fun r s => safe tt s /\ match r with Ok dp => dispatch_ok dp.1 | Err _ => True end).
Proof.
  assert (forall A (m : M Sys A) (k : A -> M Sys (result error (Dispatch * Z))),
    stable safe m -> (forall a, hoare (safe tt) (k a)
      (fun r s => safe tt s /\ match r with Ok dp => dispatch_ok dp.1 | Err _ => True end)) ->
    hoare (safe tt) (bind m k)
      (fun r s => safe tt s /\ match r with Ok dp => dispatch_ok dp.1 | Err _ => True end)) as Hseq.
  { intros A m k Hm Hk. eapply hoare_bind; [apply Hm|exact Hk]. }
  unfold begin_scan, bindR.
  repeat (apply Hseq; [solve [safe]|]; intros; try (case_match; [|by apply hoare_ret])).
  eapply hoare_bind; [apply safe_dispatch|]. intros dp. by apply hoare_ret.
Qed.

Lemma safe_prefilter dp items stats pending : stable safe (prefilter_items (W:=W) to_lowercase dp items stats pending).
Proof. revert stats pending. induction items as [|i items IH]; intros; cbn [prefilter_items]; safe; apply IH. Qed.

Lemma safe_dispatch_chunks fuel pending dispatched : stable safe (dispatch_chunks (W:=W) fuel pending dispatched).
Proof.
  revert pending dispatched. induction fuel as [|fuel IH]; intros; cbn [dispatch_chunks]; safe; apply IH.
Qed.

#[local] Hint Resolve safe_prefilter safe_dispatch_chunks : durable.

Lemma safe_start_walk dp held : stable safe (start_walk (W:=W) to_lowercase dp held).
Proof. unfold start_walk. safe. Qed.

Lemma safe_act_on_batch floor w : stable safe (act_on_batch (W:=W) floor w).
Proof. unfold act_on_batch. safe. Qed.

#[local] Hint Resolve safe_act_on_batch : durable.

Lemma safe_receive floor ev queue w : stable safe (receive (W:=W) floor ev queue w).
Proof. unfold receive, take_in. safe. Qed.

Lemma safe_leave floor w : stable safe (leave (W:=W) floor w).
Proof. unfold leave. safe. Qed.

Lemma safe_save_progress dp w : dispatch_ok dp -> stable safe (save_walk_progress (W:=W) dp w).
Proof. intros [_ Hp]. unfold save_walk_progress. rewrite Hp. pose proof snapshot_elsewhere. safe. Qed.

Lemma safe_merge_prefilter w : stable safe (merge_prefilter (W:=W) w).
Proof. by apply safe_change. Qed.

Lemma walk_step_safe dp floor l w (s : Sys) w' s' :
  dispatch_ok dp -> safe tt s -> walk_step dp floor l (w, s) = Some (w', s') -> safe tt s'.
Proof.
  intros Hdp Hs. unfold walk_step. destruct (w_outcome w); [done|]. destruct l as [i| | | |].
  - destruct (w_pending w !! i) as [item|]; [|done].
    pose proof (safe_shared _ (safe_evaluate (d_ctx dp) item (proj1 Hdp)) tt s Hs) as He.
    destruct (with_shared _ s) as [r s1]. by intros [= _ <-].
  - destruct (w_joined w); [done|]. intros [= _ <-]. by apply (safe_save_progress dp w Hdp tt s).
  - destruct (w_joined w); [done|]. destruct (_ || _); [|done]. intros [= _ <-].
    by apply (safe_merge_prefilter w tt s).
  - destruct (w_queue w) as [|ev queue]; [done|]. intros [= Hl].
    pose proof (safe_receive floor ev queue w tt s Hs) as Hr. by rewrite Hl in Hr.
  - destruct (_ && _); [|done]. intros [= Hl]. pose proof (safe_leave floor w tt s Hs) as Hr. by rewrite Hl in Hr.
Qed.

Lemma walk_run_safe dp floor ls : forall w (s : Sys) w' s',
  dispatch_ok dp -> safe tt s -> walk_run dp floor ls (w, s) = Some (w', s') -> safe tt s'.
Proof.
  induction ls as [|l ls IH]; intros w s w' s' Hdp Hs; cbn [walk_run]; [by intros [= _ <-]|].
  destruct (walk_step dp floor l (w, s)) as [[w1 s1]|] eqn:E; [|done].
  apply IH; [done|]. by eapply walk_step_safe.
Qed.

Lemma safe_save_cache : stable safe (save_scrape_cache (W:=W)).
Proof.
  unfold save_scrape_cache. apply safe_read_engine. intros e He.
  assert (beside_state (cache_path (sh_cache (e_shared e)))).
  { rewrite (eo_cache _ He). by apply file_elsewhere. }
  safe.
Qed.

#[local] Hint Resolve safe_save_cache : durable.

Lemma safe_end_scan dp floor w : stable safe (end_scan (W:=W) dp floor w).
Proof. unfold end_scan. safe. Qed.

Lemma safe_scan ls : stable safe (scan_once_shutdown (W:=W) to_lowercase ls).
Proof.
  intros []. unfold scan_once_shutdown. eapply hoare_bind; [apply safe_begin_scan|].
  intros [[dp floor]|e]; [|by apply hoare_ret; intros s [? _]].
  eapply hoare_weaken with (P := fun s => safe tt s /\ dispatch_ok dp) (Q := fun _ => safe tt);
    [|done|done].
  apply hoare_pull. intros Hdp.
  eapply hoare_bind; [apply stable_gets|]. intros held.
  eapply hoare_bind; [apply safe_start_walk|]. intros w s Hs.
  destruct (walk_run dp floor ls (w, s)) as [[w1 s1]|] eqn:E; [|done].
  apply walk_run_safe in E; [|done|done]. destruct (w_outcome w1) as [[u|er]|]; [|done|done].
  pose proof (safe_end_scan dp floor w1 tt s1 E) as He. by destruct (end_scan dp floor w1 s1).
Qed.

#[local] Hint Resolve safe_scan : durable.

(** *** The run loop *)

Lemma safe_log_and_save : stable safe (log_and_save_runtime (W:=W)).
Proof.
  unfold log_and_save_runtime. apply safe_read_engine. intros e He. unfold id.
  assert (beside_state (runtime_stats_path (data_dir (e_cfg e)))).
  { unfold runtime_stats_path. rewrite (eo_dir _ He). by apply file_elsewhere. }
  apply stable_bind; [|intros _].
  { destruct (log_file (e_cfg e)) as [q|] eqn:El; [|safe]. pose proof (eo_log _ He q El). safe. }
  safe.
Qed.

Lemma safe_delay : stable safe (delay_until_next_scan (W:=W)).
Proof. unfold delay_until_next_scan. safe. Qed.

Lemma safe_mono : stable safe (mono (W:=W)).
Proof. unfold mono. safe. Qed.

#[local] Hint Resolve safe_log_and_save safe_delay safe_mono : durable.

Lemma safe_run_scan ls : stable safe (run_scan_logged (W:=W) to_lowercase ls).
Proof. unfold run_scan_logged. safe. Qed.

#[local] Hint Resolve safe_run_scan : durable.

Lemma safe_scan_turn ls l : stable safe (scan_turn (W:=W) to_lowercase ls l).
Proof. unfold scan_turn. safe. Qed.

Lemma safe_armed b every : stable safe (armed (W:=W) b every).
Proof. unfold armed. safe. Qed.

#[local] Hint Resolve safe_armed : durable.

Lemma safe_tick_turn b every due next body (s : Sys) l' s' :
  stable safe body -> safe tt s -> tick_turn b every due next body s = Some (l', s') -> safe tt s'.
Proof.
  intros Hb Hs. unfold tick_turn. destruct (0 <? every); [|done].
  pose proof (safe_mono tt s Hs) as Hs1. destruct (mono s) as [t s1]. destruct (t <? due); [done|].
  intros [= _ <-]. by apply Hb.
Qed.

Lemma safe_run_start : stable safe (run_start (W:=W)).
Proof.
  unfold run_start, ensure_live_server. safe.
  apply safe_change. intros e. by destruct (e_live e).
Qed.

Lemma turn_safe w l (s : Sys) l' s' :
  safe tt s -> turn to_lowercase w (l, s) = Some (l', s') -> safe tt s'.
Proof.
  intros Hs. unfold turn. destruct (negb _); [done|]. destruct w as [dur| |ls| |].
  - intros [= _ <-]. assert (stable safe (on_outside (on_world (W:=W) (sleep dur)))) as Hp by safe.
    by apply Hp.
  - destruct (shutdown_now s) as [[|] s1]; simpl; [|done]. by intros [= _ <-].
  - pose proof (safe_mono tt s Hs) as Hs1. destruct (mono s) as [t s1]. destruct (t <? _); [done|].
    pose proof (safe_scan_turn ls l tt s1 Hs1) as Hs2.
    destruct (scan_turn to_lowercase ls l s1) as [[l1|] s2]; [|done]. by intros [= _ <-].
  - apply safe_tick_turn; [apply safe_log_and_save|exact Hs].
  - apply safe_tick_turn; [apply safe_quarantine_pass|exact Hs].
Qed.

Lemma turns_safe ws : forall l (s : Sys) l' s',
  safe tt s -> turns to_lowercase ws (l, s) = Some (l', s') -> safe tt s'.
Proof.
  induction ws as [|w ws IH]; intros l s l' s' Hs; cbn [turns]; [by intros [= _ <-]|].
  destruct (turn to_lowercase w (l, s)) as [[l1 s1]|] eqn:E; [|done]. apply IH. by eapply turn_safe.
Qed.

Lemma safe_run ws : stable safe (Daemon.run (W:=W) to_lowercase ws).
Proof.
  intros [] s Hs. unfold Daemon.run. pose proof (safe_run_start tt s Hs) as Hs0.
  destruct (run_start s) as [l0 s0].
  destruct (turns to_lowercase ws (l0, s0)) as [[l1 s1]|] eqn:E; [|done]. by eapply turns_safe.
Qed.

Lemma safe_close : stable safe (close (W:=W)).
Proof. unfold close. safe. Qed.
End Steps.

#[export] Hint Resolve safe_on_fs safe_on_world safe_on_registry safe_on_net : durable.

(** ** The process *)

Section Process.
Context {W : Type} `{World W} `{Decoders} `{Chrono} `{HexCrate} `{UrlCrate} `{HashIter} `{Libm}.
Context `{StateCodec} `{EventCodec} `{StatsCodec} `{CacheCodec} `{Yaml}.
Context (canonicalize : path -> option path) (to_lowercase : string -> string).
Context (announce_from_slice : string -> option string) (tracker_free : M W bool).
Context (d : path) (absent : Prop).

(** *** Preparation *)

Lemma safe_resolve_locations ls : stable (node_safe (W:=W) d absent) (resolve_locations canonicalize ls).
Proof.
  induction ls as [|l ls IH]; cbn [resolve_locations];
    unfold resolve_location, device_total_bytes, statvfs_of; stable; done.
Qed.

Lemma safe_resolve_limits c : stable (node_safe (W:=W) d absent) (resolve_all_limits canonicalize c).
Proof. unfold resolve_all_limits. pose proof safe_resolve_locations. stable. Qed.

Lemma safe_load q : stable (files_safe d absent) (State.load q).
Proof. unfold State.load. stable. Qed.

#[local] Hint Resolve safe_resolve_limits safe_load : durable.

Lemma safe_write_key c : data_dir c = d -> stable (files_safe d absent) (write_api_key_file c).
Proof.
  intros Hd. unfold write_api_key_file, key_path. rewrite Hd.
  assert (elsewhere (state_file d) (path_join d API_KEY_FILE)) by (by apply file_elsewhere).
  stable.
Qed.

Lemma safe_split c q :
  data_dir c = d -> elsewhere (state_file d) q -> stable (files_safe d absent) (split_inline_secret q c).
Proof.
  intros Hd Hq. pose proof (safe_write_key c Hd) as Hk. unfold split_inline_secret, save, create_parent.
  stable.
Qed.

Lemma safe_pid c pid :
  data_dir c = d -> stable (files_safe d absent) (write_pid pid (data_dir c)) /\
  stable (files_safe d absent) (remove_pid (data_dir c)).
Proof.
  intros ->. unfold write_pid, remove_pid, pid_path.
  assert (elsewhere (state_file d) (path_join d "keep-at.pid")) by (by apply file_elsewhere).
  split; stable.
Qed.

Lemma safe_pointer there q : stable (files_safe d absent) (write_data_dir_pointer there q).
Proof.
  unfold write_data_dir_pointer.
  assert (elsewhere (state_file d) DATA_DIR_POINTER).
  { apply (elsewhere_ends d "data_dir"); [|done..]. by exists "/etc/keep-at/". }
  stable.
Qed.

Lemma safe_booting t st held q : stable (node_safe (W:=W) d absent) (booting_with_snapshot t st held q).
Proof. unfold booting_with_snapshot, from_snapshot. stable. Qed.

#[local] Hint Resolve safe_pointer safe_booting : durable.

Lemma safe_held_at_boot c : stable (files_safe d absent) (held_at_boot c).
Proof. unfold held_at_boot. stable. Qed.

#[local] Hint Resolve safe_held_at_boot : durable.

Lemma safe_boot_handle c : stable (node_safe (W:=W) d absent) (boot_handle canonicalize c).
Proof. unfold boot_handle. stable. Qed.

(** The configuration keeps its files apart from the state file. *)
Record config_apart (c : Config) (config_path : option path) : Prop := {
  ca_dir : data_dir c = d;
  ca_log : forall q, log_file c = Some q -> elsewhere (state_file d) q;
  ca_path : forall q, config_path = Some q -> elsewhere (state_file d) q;
}.

Lemma safe_prepare pid c config_path :
  config_apart c config_path -> stable (node_safe (W:=W) d absent) (prepare canonicalize pid c config_path).
Proof.
  intros [Hd Hl Hp]. destruct (safe_pid c pid Hd) as [Hw Hr]. pose proof (safe_write_key c Hd) as Hk.
  pose proof safe_boot_handle as Hb. unfold prepare. stable.
  apply safe_on_fs, safe_split; [done|by apply Hp].
Qed.

(** *** Building the engine *)

Lemma load_keyed hs :
  hoare (files_safe d absent hs) (State.load (state_file d)) (fun r fs => files_safe d absent hs fs /\
    match r with Ok st => state_path st = state_file d /\ keyed (of_state st) | Err _ => True end).
Proof.
  intros fs Hfs. pose proof (safe_load (state_file d) hs fs Hfs) as Hs. split; [exact Hs|].
  destruct Hfs as [[Hw _ _ _] Hv _]. specialize (Hv _ (current_view _ _ Hw)).
  unfold State.load, bind, fs_read, io, bind, next_fault, gets.
  destruct (mjoin (head (faults fs))); [done|]. cbn [fst snd disk].
  destruct (content (disk fs) (state_file d)) as [b|].
  - destruct Hv as (s & -> & Hk). done.
  - split; [done|]. apply map_Forall_empty.
Qed.

Lemma safe_rekey locs : stable (state_safe d absent) (State.rekey_storage_locations canonicalize locs).
Proof.
  unfold State.rekey_storage_locations. pose proof (safe_save d absent) as Hsave.
  apply stable_bind; [apply safe_with_state|]. intros before. apply stable_bind; [|intros _; stable].
  apply safe_on_state. intros st. split; [done|]. intros Hk h t Ht.
  cbn [of_state stored_torrents torrents set_torrents] in Ht. rewrite lookup_fmap in Ht.
  apply fmap_Some in Ht as (t0 & Ht0 & ->).
  rewrite <- (Hk h t0 Ht0). unfold rekey. by repeat case_match.
Qed.

Lemma load_state_keyed hs c :
  data_dir c = d ->
  hoare (files_safe d absent hs) (load_state canonicalize c) (fun r fs => files_safe d absent hs fs /\
    match r with Ok st => state_path st = state_file d /\ keyed (of_state st) | Err _ => True end).
Proof.
  intros Hd. unfold load_state. rewrite Hd. eapply hoare_bindR; [apply load_keyed| |by intros e s [? _]].
  intros st fs [Hfs [Hp Hk]].
  pose proof (safe_rekey (location_path <$> storage c) hs (st, fs) (conj Hp (conj Hk Hfs))) as Hr.
  destruct (State.rekey_storage_locations _ _ (st, fs)) as [b [st' fs']].
  by destruct Hr as (? & ? & ?).
Qed.

Lemma writer_opens hs q :
  elsewhere (state_file d) q ->
  hoare (files_safe d absent hs) (new_writer q)
    (fun w fs => w_path w = q /\ files_safe d absent (handles w ++ hs) fs).
Proof.
  intros Hq. unfold new_writer, with_cap.
  eapply hoare_bind; [by apply open_append_safe|]. intros f. by apply hoare_ret.
Qed.

(** The files are safe, with whatever is open. *)
Definition at_rest (n : Node W) : Prop := exists hs, node_safe d absent hs n.

Definition built (r : result error Engine) (n : Node W) : Prop :=
  match r with Ok e => safe d absent tt (e, n) | Err _ => node_safe d absent [] n end.

(** A step before what is being built. *)
Lemma then_built {A} (m : M (Node W) A) (k : A -> M (Node W) (result error Engine)) :
  stable (node_safe d absent) m -> (forall a, hoare (node_safe d absent []) (k a) built) ->
  hoare (node_safe d absent []) (bind m k) built.
Proof. intros Hm Hk. eapply hoare_bind; [apply Hm|exact Hk]. Qed.

Lemma then_builtR {A} (m : M (Node W) (result error A)) (k : A -> M (Node W) (result error Engine)) :
  stable (node_safe d absent) m -> (forall a, hoare (node_safe d absent []) (k a) built) ->
  hoare (node_safe d absent []) (bindR m k) built.
Proof. intros Hm Hk. apply then_built; [done|]. intros [a|e]; [apply Hk|by apply hoare_ret]. Qed.

(** A step on the files whose outcome is known. *)
Lemma on_fs_knows {A} hs (m : M Fs A) (Q : A -> Fs -> Prop) :
  hoare (files_safe d absent hs) m Q ->
  hoare (node_safe d absent hs) (on_fs (W:=W) m) (fun a n => Q a (node_fs n)).
Proof. intros Hm n Hn. specialize (Hm _ Hn). unfold on_fs. by destruct (m (node_fs n)). Qed.

Lemma resolve_keeps_files c hs :
  hoare (node_safe d absent hs) (resolve_all_limits (W:=W) canonicalize c) (fun r n => node_safe d absent hs n /\
    match r with Ok c' => data_dir c' = data_dir c /\ log_file c' = log_file c | Err _ => True end).
Proof.
  intros n Hn. split; [by apply (safe_resolve_limits c hs n)|].
  pose proof (resolve_all_limits_ok canonicalize c n) as Hok.
  destruct (resolve_all_limits canonicalize c n) as [[c'|e] n1]; [|done].
  by destruct (Hok c' eq_refl) as (-> & _ & _).
Qed.

Lemma cache_loads t hs :
  hoare (node_safe d absent hs) (on_fs (W:=W) (swarm_load (cache_file d) t))
    (fun cache n => node_safe d absent hs n /\ cache_path cache = cache_file d).
Proof.
  intros n Hn. split; [by apply (safe_on_fs d absent _ (safe_swarm_load d absent _ _) hs n)|].
  unfold on_fs, swarm_load, bind. by destruct (fs_read _ _) as [r fs].
Qed.

Lemma history_opens :
  hoare (node_safe d absent []) (on_fs (W:=W) (new_writer (path_join d "history.jsonl")))
    (fun w n => node_safe d absent (handles w) n /\ w_path w = path_join d "history.jsonl").
Proof.
  intros n Hn. pose proof (on_fs_knows [] _ _ (writer_opens [] _ (proj1 (history_elsewhere d))) n Hn) as Hw.
  cbv beta in Hw. rewrite app_nil_r in Hw. by destruct Hw.
Qed.

Lemma build_safe c opts :
  config_apart c None ->
  hoare (node_safe d absent []) (build_engine canonicalize to_lowercase announce_from_slice c opts) built.
Proof.
  intros [Hd Hl _]. unfold build_engine. apply then_builtR; [stable|]. intros _.
  eapply hoare_bindR; [apply resolve_keeps_files| |by intros e s [? _]].
  intros c1. apply hoare_pull. intros [Hd1 Hl1]. rewrite Hd in Hd1. rewrite Hd1.
  apply then_builtR; [stable|]. intros _.
  apply then_built; [stable|]. intros _. apply then_builtR; [stable|]. intros _.
  eapply hoare_bindR; [by apply on_fs_knows, load_state_keyed| |by intros e s [? _]].
  intros st. apply hoare_pull. intros [Hp Hk].
  eapply hoare_bind; [apply cache_loads|]. intros cache. apply hoare_pull. intros Hc.
  apply then_builtR; [stable|]. intros _. apply then_built; [stable|]. intros ann.
  apply then_built; [stable|]. intros total. apply then_builtR; [stable|]. intros caps.
  apply then_builtR; [stable|]. intros _.
  eapply hoare_bind; [apply history_opens|]. intros w. apply hoare_pull. intros Hw.
  eapply hoare_bind; [apply safe_on_world|]. intros t1. eapply hoare_bind; [apply safe_on_world|]. intros t2.
  apply hoare_ret. intros n Hn. split; [|exact Hn]. split; try done.
  intros q Hq. apply Hl. by rewrite <- Hl1.
Qed.

Lemma new_safe c opts :
  config_apart c None ->
  hoare (node_safe d absent []) (new_with_options (W:=W) canonicalize to_lowercase announce_from_slice c opts) built.
Proof.
  intros Hc. unfold new_with_options. eapply hoare_bindR; [by apply build_safe| |by intros e n].
  intros e n He. pose proof (safe_resume_held d absent tt (e, n) He) as Hr.
  destruct (resume_held (e, n)) as [[u|er] [e' n']] eqn:E; [exact Hr|].
  unfold resume_held, bind in E. destruct (engine _ (e, n)) as [held s1]. by destruct (forM _ _ s1).
Qed.

End Process.

(** *** The whole life *)

Section Life.
Context {W : Type} `{World W} `{Decoders} `{Chrono} `{HexCrate} `{UrlCrate} `{HashIter} `{Libm}.
Context `{StateCodec} `{EventCodec} `{StatsCodec} `{CacheCodec} `{Yaml}.
Context (canonicalize : path -> option path) (to_lowercase : string -> string).
Context (announce_from_slice : string -> option string) (tracker_free : M W bool).
Context (d : path) (absent : Prop).

Lemma safe_attach (s : Engine * Node (LiveHandle * W)) :
  safe d absent tt s -> safe d absent tt (attach_live s).2.
Proof.
  destruct s as [e n]. intros [[Hd Hl Hs Hk Hc Hh] Hn]. unfold attach_live, bind at 1, gets. cbn [fst snd].
  unfold bind, on_snd, on_fst, modify.
  pose proof (safe_on_world d absent (activate (State.quarantine_count (e_state e)) (snapshot_entries (e_state e)))
                (handles (e_history e)) n Hn) as Hn1.
  destruct (on_world _ n) as [u n1]. by split.
Qed.

Lemma serve_life_safe c ws :
  config_apart d c None ->
  hoare (node_safe d absent []) (serve_life canonicalize to_lowercase announce_from_slice tracker_free c ws)
    (fun _ => at_rest d absent).
Proof.
  intros Hc. unfold serve_life. eapply hoare_bindR.
  { by apply (@new_safe _ (live_world tracker_free)). }
  2: { intros e n Hn. by exists []. }
  intros e n He. pose proof (safe_attach (e, n) He) as Ha. destruct (attach_live (e, n)) as [u s1].
  pose proof (@safe_run _ (live_world tracker_free) _ _ _ _ _ _ _ _ _ _ d absent to_lowercase ws tt s1 Ha) as Hr.
  destruct (@Daemon.run _ (live_world tracker_free) _ _ _ _ _ _ _ _ _ _ to_lowercase ws s1) as [l s2].
  assert (safe d absent tt (@close _ (live_world tracker_free) s2).2) as Hc2 by (by apply safe_close).
  destruct (@close _ (live_world tracker_free) s2) as [u' [e2 n2]]. destruct Hc2 as [_ Hn2].
  by exists (handles (e_history e2)).
Qed.

Lemma apart_inside c config_path ls :
  config_apart d c config_path -> config_apart d (set_storage ls c) None.
Proof. by intros [Hd Hl _]. Qed.

Lemma cmd_run_safe pid c config_path ws (n : Node W) :
  config_apart d c config_path -> node_safe d absent [] n ->
  at_rest d absent (cmd_run canonicalize to_lowercase announce_from_slice tracker_free pid c config_path ws n).2.
Proof.
  intros Hc Hn. unfold cmd_run. pose proof (safe_prepare canonicalize d absent pid c config_path Hc [] n Hn) as Hp.
  pose proof (prepare_spec canonicalize pid c config_path n) as Hspec.
  destruct (prepare canonicalize pid c config_path n) as [[[[c1 h]|e]|] n1]; [|by exists []..].
  destruct (Hspec c1 h n1 eq_refl) as [-> _].
  pose proof (serve_life_safe (set_storage (storage c1) c) ws (apart_inside _ _ (storage c1) Hc) (beside h n1) Hp) as Hs.
  destruct (serve_life _ _ _ _ _ ws (beside h n1)) as [[lived|e] n2]; [|exact Hs].
  destruct Hs as [hs Hs].
  pose proof (safe_on_fs d absent _ (proj2 (safe_pid d absent c pid (ca_dir _ _ _ Hc))) hs n2 Hs) as Hr.
  cbn [data_dir set_storage]. destruct (on_fs (remove_pid (data_dir c)) n2) as [u n3]. by exists hs.
Qed.
End Life.

(** The starts of a node, whatever happened before: one with a state file in
    order, and any after a crash of the process that started there, be it on
    its way or after its end, under any configuration that keeps its data at
    [d] and its other files away from the state file. *)
Inductive starts {W : Type} `{World W} `{Decoders} `{Chrono} `{HexCrate} `{UrlCrate}
    `{HashIter} `{Libm} `{StateCodec} `{EventCodec} `{StatsCodec} `{CacheCodec} `{Yaml}
    canonicalize to_lowercase announce_from_slice (tracker_free : M W bool)
    (d : path) (absent : Prop) : Node W -> Prop :=
  | first_start n :
      node_safe d absent [] n ->
      starts canonicalize to_lowercase announce_from_slice tracker_free d absent n
  | next_start n pid c config_path ws dk n' :
      starts canonicalize to_lowercase announce_from_slice tracker_free d absent n ->
      config_apart d c config_path ->
      let fs := node_fs (cmd_run canonicalize to_lowercase announce_from_slice tracker_free
                           pid c config_path ws n).2 in
      dk ∈ disk fs :: trace fs -> rebooted (state_file d) dk (node_fs n') ->
      starts canonicalize to_lowercase announce_from_slice tracker_free d absent n'.

Lemma starts_safe {W : Type} `{World W} `{Decoders} `{Chrono} `{HexCrate} `{UrlCrate}
    `{HashIter} `{Libm} `{StateCodec} `{EventCodec} `{StatsCodec} `{CacheCodec} `{Yaml}
    canonicalize to_lowercase announce_from_slice tracker_free d absent (n : Node W) :
  starts canonicalize to_lowercase announce_from_slice tracker_free d absent n -> node_safe d absent [] n.
Proof.
  induction 1 as [n Hn|n pid c config_path ws dk n' _ IH Hc fs Hdk [Hp Hf Hv]]; [exact Hn|].
  destruct (cmd_run_safe canonicalize to_lowercase announce_from_slice tracker_free d absent
              pid c config_path ws n Hc IH) as [hs [_ Hs Hpast]].
  split; [exact Hp| |by rewrite Hf]. intros v Hcv. apply Hv in Hcv. fold fs in Hs, Hpast.
  apply elem_of_cons in Hdk as [->|Hin]; [by apply Hs|].
  rewrite Forall_forall in Hpast. by apply (Hpast dk).
Qed.

(** C7: no crash costs the node its memory.  After any number of lives of the
    daemon, each cut off by a crash at any point of its disk's history (with
    whatever faults, wake-ups and configurations), the next start loads its
    state: the file parses, every torrent is held under its own hash, and a
    file that was there is there. *)
Theorem every_start_loads {W : Type} `{World W} `{Decoders} `{Chrono} `{HexCrate} `{UrlCrate}
    `{HashIter} `{Libm} `{StateCodec} `{EventCodec} `{StatsCodec} `{CacheCodec} `{Yaml}
    canonicalize to_lowercase announce_from_slice tracker_free d absent (n : Node W) :
  starts canonicalize to_lowercase announce_from_slice tracker_free d absent n ->
  mjoin (head (faults (node_fs n))) = None ->
  exists st, (State.load (state_file d) (node_fs n)).1 = Ok st /\ keyed (of_state st) /\
    (content (disk (node_fs n)) (state_file d) = None -> absent).
Proof.
  intros Hs Hf. apply starts_safe in Hs.
  destruct (load_keyed d absent [] (node_fs n) Hs) as [_ Hk].
  destruct Hs as [[Hw _ _ _] Hv _]. specialize (Hv _ (current_view _ (state_file d) Hw)).
  revert Hk. unfold State.load, bind at 1, fs_read, io, bind, next_fault, gets. rewrite Hf. cbn [fst snd disk].
  destruct (content (disk (node_fs n)) (state_file d)) as [b|]; cbn [fst snd].
  - destruct Hv as (s & -> & Hks). intros [_ Hk]. eexists. done.
  - intros [_ Hk]. eexists. done.
Qed.

(** ** Witness *)

(** The process of [Main] is killed in the middle of its life, right after the
    scan saved what it had found. *)
Definition killed_at : Disk := nth 27 (trace (node_fs (cmd_run_there witness_life).2)) (fresh_disk []).

Example killed_after_scan :
  (fun s => (map_to_list (stored_torrents s)).*1) <$>
    (content killed_at "/d/state.json" ≫= @from_slice witness_codec) =
  Some ["aa"; @hex_encode witness_hex witness_hash].
Proof. vm_compute. reflexivity. Qed.

Definition next_node : Node Toy :=
  {| node_fs := fresh_fs [("/d/state.json", default "" (content killed_at "/d/state.json"))] [];
     registry := registry main_node; world := world main_node |}.

Abbreviation starts_there :=
  (@starts Toy witness_world witness_feed witness_chrono witness_hex witness_urls hash_iter_sorted
     witness_libm witness_codec witness_events witness_stats witness_cache_codec witness_yaml
     (fun _ => None) (fun x => x) (fun _ => None) free_always "/d" False).

Lemma main_node_safe : @node_safe Toy witness_codec "/d" False [] main_node.
Proof.
  split; [apply fresh_private| |constructor].
  intros v Hv%fresh_shows. subst v. exists (of_state witness_state). split; [reflexivity|].
  by apply map_Forall_singleton.
Qed.

Lemma witness_apart : config_apart "/d" witness_config None.
Proof. by split. Qed.

Lemma next_rebooted : rebooted (state_file "/d") killed_at (node_fs next_node).
Proof.
  split; [apply fresh_private|done|]. intros v Hv%fresh_shows. subst v.
  unfold next_node. cbn [node_fs disk fresh_fs].
  assert (is_Some (content killed_at "/d/state.json")) as [b Hb]
    by (apply (bool_decide_eq_true_1 _); vm_compute; reflexivity).
  rewrite Hb. cbn [default id]. exact (shows_content killed_at "/d/state.json" b Hb).
Qed.

Lemma killed_in_life : killed_at ∈ trace (node_fs (cmd_run_there witness_life).2).
Proof.
  apply list_elem_of_In, nth_In, Nat.ltb_lt. vm_compute. reflexivity.
Qed.

Lemma every_start_loads_witness :
  starts_there main_node /\ starts_there next_node /\
  (exists st, (@State.load witness_codec "/d/state.json" (node_fs next_node)).1 = Ok st /\
     keyed (of_state st) /\
     (content (disk (node_fs next_node)) "/d/state.json" = None -> False)).
Proof.
  assert (starts_there main_node) as Hone by (apply first_start, main_node_safe).
  assert (starts_there next_node) as Htwo.
  { apply (next_start _ _ _ _ _ _ main_node 77 witness_config None witness_life killed_at next_node Hone).
    - exact witness_apart.
    - right. exact killed_in_life.
    - exact next_rebooted. }
  split; [exact Hone|]. split; [exact Htwo|].
  exact (@every_start_loads Toy witness_world witness_feed witness_chrono witness_hex witness_urls
           hash_iter_sorted witness_libm witness_codec witness_events witness_stats witness_cache_codec
           witness_yaml (fun _ => None) (fun x => x) (fun _ => None) free_always "/d" False next_node
           Htwo eq_refl).
Defined.
