(* ===== verification/Views.v ===== *)
(** The read-only commands that look at a node, [status.rs], [hosted.rs], [logs.rs]
    and [history.rs]: what each asks the running daemon or reads from the files,
    and the lines it prints.  A line whose formatting does not return is [None]:
    the command prints nothing from there on. *)

From S2P Require Import Prelude Text Float64 Fs Persist Time Ram Selector Net Quarantine State.
From S2P Require Import AtKey Humanize Config Service World Storage Cli Process Follow NetStats Stats.
From S2P Require Import History Torrents Live Boot Serving.

Abbreviation Printed := (list (option string)).

(** A text around numbers of bytes. *)
Definition say (s : string) : Printed := [Some s].
Definition with_bytes (n : Z) (k : string -> string) : Printed := [k <$> human_bytes (as_i64 n)].
Definition with_bytes2 (n m : Z) (k : string -> string -> string) : Printed :=
  [match human_bytes (as_i64 n), human_bytes (as_i64 m) with
   | Some a, Some b => Some (k a b)
   | _, _ => None
   end].

(** ** The numbers of a node *)

Definition plural (n : Z) : string := if n =? 1 then "" else "s".

(** A share of the limit in percent, capped. *)
Definition percent_of (part whole : Z) : f64 :=
  fmin (fmul (fdiv (f64_of_Z part) (f64_of_Z whole)) (f64_of_Z 100)) (f64_of_Z 100).

Definition disk_line (disk_used disk_limit disk_committed : Z) : option string :=
  match human_bytes (as_i64 disk_used), human_bytes (as_i64 disk_committed), human_bytes (as_i64 disk_limit) with
  | Some used, committed, Some limit =>
      let head := "  disk: " +:+ used +:+ " used (" +:+ fmt1 (percent_of disk_used disk_limit) +:+ "%)" in
      let tail := ", " +:+ limit +:+ " configured" in
      if 0 <? disk_committed then
        (fun committed =>
           head +:+ ", " +:+ committed +:+ " committed (" +:+
           fmt1 (percent_of disk_committed disk_limit) +:+ "%)" +:+ tail) <$> committed
      else Some (head +:+ tail)
  | _, _, _ => None
  end.

Definition print_numbers (held seeding downloading quarantined disk_used disk_limit disk_committed
    sent_total recv_total peers rss : Z) : Printed :=
  say ("  torrents: " +:+ pretty held +:+ " held, " +:+ pretty seeding +:+ " seeding, " +:+
       pretty downloading +:+ " downloading") ++
  (if 0 <? quarantined then
     say ("  quarantined: " +:+ pretty quarantined +:+ " broken-swarm torrent" +:+ plural quarantined +:+
          " (removed, re-probed after cooldown)")
   else []) ++
  (if 0 <? disk_limit then [disk_line disk_used disk_limit disk_committed]
   else say "  disk: statistics unavailable — will appear once startup completes") ++
  with_bytes2 sent_total recv_total (fun sent recv =>
    "  bandwidth since boot: sent " +:+ sent +:+ ", received " +:+ recv) ++
  say ("  active peers: " +:+ pretty peers) ++
  (if 0 <? rss then with_bytes rss (fun m => "  memory: " +:+ m +:+ " RSS") else []).

(** What the node is doing. *)
Definition print_state (v : RuntimeView) : Printed :=
  let base :=
    match rv_activity v with
    | Booting =>
        "starting up: resuming " +:+ pretty (rv_held_torrents v) +:+
        " held torrents (existing data being verified, seeding begins as checks complete)"
    | Scanning => "scanning the Academic Torrents catalog (fetch, scrape, evaluate)"
    | Seeding => "seeding normally"
    end in
  say (if 0 <? rv_checks_in_progress v then
         "  state: " +:+ base +:+ " — " +:+ pretty (rv_checks_in_progress v) +:+ " integrity check" +:+
         plural (rv_checks_in_progress v) +:+ " running"
       else "  state: " +:+ base).

Definition rates_line (what : string) (hour day : f64) : option string :=
  match human_bytes_per_sec hour, human_bytes_per_sec day with
  | Some h, Some d => Some ("  " +:+ what +:+ " rate: " +:+ h +:+ " past hour, " +:+ d +:+ " past day")
  | _, _ => None
  end.

Definition print_live (v : RuntimeView) : Printed :=
  let up := human_duration (secs (rv_uptime_seconds v)) in
  say (if rv_booting v then
         "runtime stats (live, booting for " +:+ up +:+
         " — full live counters once startup completes):"
       else "runtime stats (live, uptime " +:+ up +:+ "):") ++
  print_state v ++
  print_numbers (rv_held_torrents v) (rv_seeding_torrents v) (rv_downloading_torrents v)
    (rv_quarantined_torrents v) (rv_disk_used_bytes v) (rv_disk_limit_bytes v)
    (rv_disk_committed_bytes v) (rv_total_bytes_uploaded v) (rv_total_bytes_downloaded v)
    (rv_active_peers v) (rv_process_rss_bytes v) ++
  if rv_booting v then []
  else [rates_line "upload" (rv_upload_bps_hour v) (rv_upload_bps_day v);
        rates_line "download" (rv_download_bps_hour v) (rv_download_bps_day v)].

(** [format_utc] is chrono's [%Y-%m-%d %H:%M:%S UTC]. *)
Definition print_snapshot (format_utc : instant -> string) (rs : RuntimeStats) : Printed :=
  match collected_at rs with
  | None => []
  | Some at_ =>
      say ("runtime stats (snapshot from " +:+ format_utc at_ +:+ ", uptime " +:+
           human_duration (uptime rs) +:+ "):") ++
      print_numbers (held_torrents rs) (seeding_torrents rs) (downloading_torrents rs)
        (quarantined_torrents rs) (disk_used_bytes rs) (disk_limit_bytes rs)
        (disk_committed_bytes rs) (total_bytes_uploaded rs) (total_bytes_downloaded rs)
        (active_peers rs) (stat_rss_bytes rs)
  end.

(** ** The held torrents *)

Definition torrent_lines (title info_hash status_text : string) (present size : Z) (verb : string)
    (seeders : Z) : Printed :=
  say (sanitize_title title) ++
  say ("  link:        https://academictorrents.com/details/" +:+ info_hash) ++
  say ("  status:      " +:+ status_text) ++
  with_bytes2 present size (fun a b =>
    "  space:       " +:+ a +:+ " " +:+ verb +:+ " (torrent is " +:+ b +:+ ")") ++
  say ("  last scrape: " +:+ pretty seeders +:+ " seeders").

Definition NOTHING_HELD : string := "keep-at is not holding any torrents".

Definition live_torrent (t : HeldTorrentView) : Printed :=
  torrent_lines (hv_title t) (hv_info_hash t)
    (if hv_finished t then "seeding"
     else if hv_verifying t then "verifying (integrity check)" else "downloading")
    (Z.min (hv_progress_bytes t) (hv_size_bytes t)) (hv_size_bytes t) "present" (hv_last_known_seeders t).

(** [cmd_hosted] on the daemon's answer. *)
Definition print_held (v : HeldView) : Printed :=
  match held_list v with
  | [] => say NOTHING_HELD
  | held =>
      (if held_booting v then
         say ("starting up: resuming " +:+ pretty (Z.of_nat (length held)) +:+
              " held torrents (integrity checks run before each one seeds)")
       else []) ++
      concat (live_torrent <$> held)
  end.

Section Commands.
Context {W : Type} `{World W} `{Processes W} `{UnixSocket W} `{LiveCodec} `{StatsCodec} `{StateCodec}.
Context `{EventCodec} `{HashIter} `{Yaml}.
Context (canonicalize : path -> option path) (home : option string).
Context (format_utc : instant -> string) (fmt_rfc3339 : string -> option string).

Definition explicit (args : CommonArgs) : bool := given (arg_data_dir args) || given (arg_config args).

(** A bare command looks for any daemon and asks it. *)
Definition discover (req : Request) : M (W * Fs) (option (Z * path * Response)) :=
  let* found := find_any_daemon canonicalize home in
  match found with
  | None => ret None
  | Some (pid, other) =>
      let* up := alive pid in
      if (up : bool) then
        let* answer := on_fst (query other req) in
        ret match answer with Some r => Some (pid, other, r) | None => None end
      else ret None
  end.

(** *** status *)

Definition headline (booting : bool) (st : Status) (foreign_pid : option Z) (answered : bool) : string :=
  if booting then
    match st_pid st, foreign_pid with
    | Some pid, _ | None, Some pid => "keep-at is booting (pid " +:+ pretty pid +:+ ")"
    | None, None => "keep-at is booting (pid file missing or stale; live socket answered)"
    end
  else if st_running st then
    match st_pid st with
    | Some pid => "keep-at is running (pid " +:+ pretty pid +:+ ")"
    | None => "keep-at is running in the foreground, not as a service"
    end
  else
    match foreign_pid with
    | Some pid => "keep-at is running (pid " +:+ pretty pid +:+ ", discovered via /proc)"
    | None => if answered then "keep-at is running (pid file missing or stale; live socket answered)"
              else "keep-at is not running"
    end.

Definition cmd_status (args : CommonArgs) : M (W * Fs) (result error Printed) :=
  let? dir := on_snd (resolve_data_dir canonicalize home args) in
  on_fst (repair_mode dir) ;;;
  let* st := status canonicalize home dir in
  let* live := on_fst (query dir RuntimeQuery) in
  let* found := (if negb (st_running st) && negb (given live) && negb (explicit args)
                 then discover RuntimeQuery else ret None) in
  let '(live, view_dir, foreign_pid) :=
    match found with
    | Some (pid, other, answer) => (Some answer, other, Some pid)
    | None => (live, dir, None)
    end in
  let booting := match live with Some (RuntimeAnswer v) => rv_booting v | _ => false end in
  let head :=
    say (headline booting st foreign_pid (given live)) ++
    if given foreign_pid && negb (String.eqb view_dir dir) then
      say ("note: resolved data dir is " +:+ dir +:+ ", but the running daemon uses " +:+ view_dir +:+
           " — pass --data-dir " +:+ view_dir +:+ " to target it directly")
    else [] in
  match live with
  | Some (RuntimeAnswer v) => ret (Ok (head ++ print_live v))
  | _ =>
      let? rs := on_snd (load_runtime (path_join view_dir "runtime-stats.json")) in
      ret (Ok (head ++ (if st_running st then say "  (live stats unavailable)" else []) ++
               print_snapshot format_utc rs))
  end.

(** *** hosted-torrents *)

Definition offline_torrent (t : Torrent) : M W Printed :=
  let* on_disk := dir_size_bytes (torrent_output_dir (t_storage_location t) (t_info_hash t)) in
  ret (torrent_lines (t_title t) (t_info_hash t)
         (if (t_size_bytes t <=? on_disk) && (0 <? t_size_bytes t) then "seeding" else "downloading")
         on_disk (t_size_bytes t) "on disk" (t_last_known_seeders t)).

Fixpoint offline_torrents (ts : list Torrent) : M W Printed :=
  match ts with
  | [] => ret []
  | t :: ts => let* a := offline_torrent t in let* b := offline_torrents ts in ret (a ++ b)
  end.

Definition cmd_hosted (args : CommonArgs) : M (W * Fs) (result error Printed) :=
  let? dir := on_snd (resolve_data_dir canonicalize home args) in
  on_fst (repair_mode dir) ;;;
  let* live := on_fst (query dir HeldQuery) in
  let* found := (if negb (given live) && negb (explicit args) then discover HeldQuery else ret None) in
  let '(live, view_dir) :=
    match found with
    | Some (_, other, answer) => (Some answer, other)
    | None => (live, dir)
    end in
  match live with
  | Some (HeldAnswer v) => ret (Ok (print_held v))
  | _ =>
      let? st := on_snd (State.load (path_join view_dir "state.json")) in
      match State.all st with
      | [] => ret (Ok (say NOTHING_HELD))
      | held =>
          let* shown := on_fst (offline_torrents
                          (sort_by (fun a b => String.compare (t_title a) (t_title b)) held)) in
          ret (Ok shown)
      end
  end.

(** *** logs *)

Definition configured_log (p : path) : M Fs (option path) :=
  let* c := load_readonly canonicalize home p in
  ret match c with Ok c => log_file c | Err _ => None end.

Definition resolve_log_path (args : CommonArgs) : M (W * Fs) (result error path) :=
  let? dir := on_snd (resolve_data_dir canonicalize home args) in
  on_fst (repair_mode dir) ;;;
  let* named := match arg_config args with
                | Some p => on_snd (configured_log p)
                | None => ret None
                end in
  match named with
  | Some l => ret (Ok l)
  | None =>
      let* service := on_snd service_config_if_present in
      let* l := match service with Some p => on_snd (configured_log p) | None => ret None end in
      ret (Ok (default (path_join dir "keep-at.log") l))
  end.

(** What was printed, and how the command ends; [Ok None]: by itself,
    [Ok (Some _)]: not before it is interrupted. *)
Definition cmd_logs (args : LogsArgs) (sights : list Sight)
    : M (W * Fs) (result error (option Follow) * list Shown) :=
  let* resolved := resolve_log_path (la_common args) in
  match resolved with
  | Err e => ret (Err e, [])
  | Ok p =>
      let* there := on_snd (fs_mode p) in
      if negb (is_ok there) then ret (Err ("no log file at " +:+ p), [])
      else
        let* data := on_snd (fs_read p) in
        match data with
        | Err _ => ret (Err ("reading " +:+ p), [])
        | Ok data =>
            if la_all args then ret (Ok None, [Lines data])
            else
              let '(r, shown) := logs_follow p (la_lines args) data sights in
              ret (try? st := r in Ok (Some st), shown)
        end
  end.

(** *** history *)

(** [color]: the output is a terminal and [NO_COLOR] is not set.  The printed
    lines are [None] when rendering one of them does not return. *)
Definition cmd_history (color : bool) (args : HistoryArgs) (sights : list Sight)
    : M (W * Fs) (result error (option Follow) * option (list string)) :=
  let* resolved := on_snd (resolve_data_dir canonicalize home (ha_common args)) in
  match resolved with
  | Err e => ret (Err e, Some [])
  | Ok dir =>
      on_fst (repair_mode dir) ;;;
      let p := history_path dir in
      let* there := on_snd (fs_mode p) in
      if negb (is_ok there) then ret (Err ("no history at " +:+ p), Some [])
      else
        let* data := on_snd (fs_read p) in
        match data with
        | Err _ => ret (Err ("reading " +:+ p), Some [])
        | Ok data =>
            let events := (parse_lines (str_take (complete_len data) data)).1 in
            if ha_all args then ret (Ok None, render_all fmt_rfc3339 color events)
            else if ha_no_follow args then
              ret (Ok None, render_all fmt_rfc3339 color (last_events (ha_lines args) events))
            else
              let '(r, shown) := history_follow fmt_rfc3339 color p (ha_lines args) data sights in
              ret (try? st := r in Ok (Some st), shown)
        end
  end.
End Commands.

(** ** What is printed is printed whole *)

Lemma human_bytes_some n : in_u64 n -> n <> 2 ^ 63 -> is_Some (human_bytes (as_i64 n)).
Proof.
  intros Hn Hne. unfold human_bytes. destruct (Z.ltb_spec (as_i64 n) 0); [|by eexists].
  destruct (Z.eqb_spec (as_i64 n) (- 2 ^ 63)) as [E|]; [|by eexists].
  exfalso. unfold as_i64 in E. rewrite Z.mod_small in E by ulia.
  destruct (Z.ltb_spec n (2 ^ 63)); ulia.
Qed.

(** A number of bytes that a file system can have. *)
Definition byte_count (n : Z) : Prop := in_u64 n /\ n <> 2 ^ 63.

Lemma with_bytes2_whole n m k : byte_count n -> byte_count m -> Forall is_Some (with_bytes2 n m k).
Proof.
  intros [Hn Hn'] [Hm Hm']. unfold with_bytes2.
  destruct (human_bytes_some n Hn Hn') as [a ->], (human_bytes_some m Hm Hm') as [b ->]. by repeat constructor.
Qed.

Lemma print_numbers_whole held seeding downloading quarantined used limit committed sent recv peers rss :
  Forall byte_count [used; limit; committed; sent; recv; rss] ->
  Forall is_Some (print_numbers held seeding downloading quarantined used limit committed sent recv peers rss).
Proof.
  rewrite !Forall_cons. intros (Hu & Hl & Hc & Hs & Hr & Hm & _). unfold print_numbers.
  destruct (human_bytes_some used) as [a Ha], (human_bytes_some limit) as [b Hb],
    (human_bytes_some committed) as [c Hc'], (human_bytes_some rss) as [m Hm']; try apply Hu; try apply Hl;
    try apply Hc; try apply Hm.
  rewrite !Forall_app. split_and!; try (by repeat constructor).
  - case_match; by repeat constructor.
  - case_match; [|by repeat constructor]. unfold disk_line. rewrite Ha, Hb, Hc'.
    case_match; by repeat constructor.
  - by apply with_bytes2_whole.
  - case_match; [|constructor]. unfold with_bytes. rewrite Hm'. by repeat constructor.
Qed.

(** The block of a held torrent is whole, and its title cannot drive the
    terminal. *)
Lemma live_torrent_whole t :
  byte_count (hv_size_bytes t) -> byte_count (hv_progress_bytes t) -> c2_paired (hv_title t) = true ->
  Forall is_Some (live_torrent t) /\
  exists title rest, live_torrent t = Some title :: rest /\ no_control title = true.
Proof.
  intros Hs Hp Ht. unfold live_torrent, torrent_lines. split.
  - rewrite !Forall_app. split_and!; try (by repeat constructor). apply with_bytes2_whole; [|done].
    destruct (Z.min_spec (hv_progress_bytes t) (hv_size_bytes t)) as [[_ ->]|[_ ->]]; done.
  - eexists _, _. split; [done|]. by apply sanitize_title_safe.
Qed.

(** A live answer makes the command say that a daemon runs. *)
Lemma headline_running booting st foreign answered :
  headline booting st foreign answered = "keep-at is not running" <->
  booting = false /\ st_running st = false /\ foreign = None /\ answered = false.
Proof.
  unfold headline. split.
  - destruct booting, st as [[] [pid|]], foreign as [fp|], answered; cbn; intros E; try discriminate E; done.
  - by intros (-> & -> & -> & ->).
Qed.

(** ** Runs *)

(** A host without a daemon. *)
Definition lonely : Processes Toy :=
  {| own_pid := 7; proc_entries := ret []; kill := fun _ _ => ret (Some ESRCH);
     pause := fun _ => ret tt |}.

Definition in_dir (d : path) : CommonArgs := {| arg_config := None; arg_data_dir := Some d |}.

Example status_of_nothing :
  (@cmd_status Toy witness_world lonely deaf witness_live_codec witness_stats witness_yaml
     (fun _ => None) None (fun _ => "now") (in_dir "/d") (live_toy, fresh_fs [] [])).1 =
    Ok [Some "keep-at is not running"].
Proof. vm_compute. reflexivity. Qed.

(** The block of a torrent, whose title tried to colour the terminal. *)
Example held_lines :
  print_held {| held_booting := false;
                held_list := [{| hv_title := String "027" "[31mx"; hv_info_hash := "aa";
                                 hv_size_bytes := 2048; hv_progress_bytes := 1024; hv_finished := false;
                                 hv_verifying := false; hv_last_known_seeders := 3 |}] |} =
    Some <$> ["[31mx"; "  link:        https://academictorrents.com/details/aa";
              "  status:      downloading"; "  space:       1.0 KiB present (torrent is 2.0 KiB)";
              "  last scrape: 3 seeders"].
Proof. vm_compute. reflexivity. Qed.

Example logs_of_a_directory :
  (@cmd_logs Toy witness_world witness_yaml (fun _ => None) None
     {| la_common := in_dir "/d"; la_all := false; la_lines := 2 |} [at_rest witness_id witness_after]
     (live_toy, fresh_fs [("/d/keep-at.log", witness_before)] [])).1.2 =
    [Lines ("b" +:+ nl); Lines ("c" +:+ nl +:+ "d" +:+ nl)].
Proof. vm_compute. reflexivity. Qed.
