(* ===== verification/Forensics.v ===== *)
(** What is left to read after the daemon died, [forensics.rs] but for its death
    marks ([Signals]): the memory of the process and of its control group, the
    heartbeat, and the triage of a last exit; and what [allocator.rs] reports.
    The files the kernel serves and the heartbeat's timer are the class
    [KernelFiles]. *)

From S2P Require Import Prelude Text Fs Persist Durable Time Config World.

(** [str::lines]. *)
Definition strip_cr (s : string) : string :=
  if ends_with s (String "013" "") then str_take (String.length s - 1) s else s.

Definition lines (s : string) : list string :=
  let pieces := split_on "010" s in
  strip_cr <$> if String.eqb (default "" (last pieces)) "" then take (length pieces - 1) pieces else pieces.

(** [str::split_whitespace]. *)
Fixpoint split_words (word s : string) : list string :=
  match s with
  | EmptyString => if String.eqb word "" then [] else [word]
  | String a s =>
      if is_space a then
        if String.eqb word "" then split_words "" s else word :: split_words "" s
      else split_words (word +:+ String a "") s
  end.

Definition split_whitespace (s : string) : list string := split_words "" s.

Definition slash (a : ascii) : bool := Ascii.eqb a "/".

Class KernelFiles (W : Type) := {
  (** [read_to_string] of a file the kernel serves: [None] when it fails *)
  kernel_read : path -> M W (option bytes);
  (** the entries of [/proc/self/fd] *)
  fd_entries : M W (option Z);
  (** the heartbeat's interval *)
  next_beat : M W unit;
}.

Definition STATM_PATH : path := "/proc/self/statm".

(** A sample, and the control group's part of it. *)
Record CgroupSample := {
  current_bytes : Z;
  max_bytes : Z;
  oom_kill : Z;
  peak_bytes : Z;
}.

Record Heartbeat := {
  hb_at : string;
  hb_uptime_seconds : Z;
  hb_rss_bytes : Z;
  hb_open_fds : Z;
  hb_cgroup : option CgroupSample;
}.

(** [serde_json::to_string_pretty] of a sample. *)
Class HeartbeatCodec := { heartbeat_to_string : Heartbeat -> option bytes }.

Section Forensics.
Context {W : Type} `{World W} `{Chrono} `{KernelFiles W} `{HeartbeatCodec}.

(** ** Reading the kernel's files *)

(** The product of the pages and their size wraps in a release build. *)
Definition parse_statm (data : string) : Z :=
  wrap64 (default 0 (split_whitespace data !! 1%nat ≫= parse_unsigned U64_MAX) * 4096).

Definition rss_bytes : M W Z :=
  let* data := kernel_read STATM_PATH in ret (parse_statm (default "" data)).

(** The line of the unified hierarchy, as a directory below its mount. *)
Definition cgroup_dir (data : string) : option path :=
  match list_find (fun l => starts_with "0::" l = true) (lines data) with
  | Some (_, line) =>
      Some (path_join "/sys/fs/cgroup" (trim_start_by slash (trim (drop_bytes 3 line))))
  | None => None
  end.

Definition cgroup_v2_root : M W (option path) :=
  let* data := kernel_read "/proc/self/cgroup" in ret (data ≫= cgroup_dir).

Definition parse_number (data : option string) : Z :=
  default 0 (data ≫= fun s => parse_unsigned U64_MAX (trim s)).

Definition parse_oom_kill (events : string) : Z :=
  match list_find (fun l => starts_with "oom_kill " l = true) (lines events) with
  | Some (_, line) => default 0 (parse_unsigned U64_MAX (trim (drop_bytes 9 line)))
  | None => 0
  end.

Definition cgroup_memory : M W (option CgroupSample) :=
  let* root := cgroup_v2_root in
  match root with
  | None => ret None
  | Some root =>
      let* events := kernel_read (path_join root "memory.events") in
      let* current := kernel_read (path_join root "memory.current") in
      let* max := kernel_read (path_join root "memory.max") in
      let* peak := kernel_read (path_join root "memory.peak") in
      ret (Some {| current_bytes := parse_number current; max_bytes := parse_number max;
                   oom_kill := parse_oom_kill (default "" events); peak_bytes := parse_number peak |})
  end.

Definition open_fd_count : M W Z := let* n := fd_entries in ret (default 0 n).

(** ** The heartbeat *)

Definition sample (started_at : instant) : M W Heartbeat :=
  let* now := mono_now in
  let* cgroup := cgroup_memory in
  let* at_ := utc_now in
  let* rss := rss_bytes in
  let* fds := open_fd_count in
  ret {| hb_at := to_rfc3339 at_; hb_uptime_seconds := sat_sub now started_at / NANOS;
         hb_rss_bytes := rss; hb_open_fds := fds; hb_cgroup := cgroup |}.

Definition heartbeat_path (data_dir : path) : path := path_join data_dir "heartbeat.json".

Definition mib (n : Z) : string := pretty (n / 1024 / 1024) +:+ "M".

Definition heartbeat_line (hb : Heartbeat) : string :=
  "heartbeat rss=" +:+ mib (hb_rss_bytes hb) +:+ " fds=" +:+ pretty (hb_open_fds hb) +:+
  match hb_cgroup hb with
  | Some cg => " cg.cur=" +:+ mib (current_bytes cg) +:+ " cg.max=" +:+ mib (max_bytes cg) +:+
      " cg.oom_kill=" +:+ pretty (oom_kill cg) +:+ " cg.peak=" +:+ mib (peak_bytes cg)
  | None => ""
  end.

(** One turn of the task: what is logged, once the sample is on disk. *)
Definition beat (p : path) (started_at : instant) : M (W * Fs) string :=
  on_fst next_beat ;;;
  let* hb := on_fst (sample started_at) in
  match heartbeat_to_string hb with
  | Some json => let* _ := on_snd (atomic_write_mode p json 420) in ret (heartbeat_line hb)
  | None => ret (heartbeat_line hb)
  end.

Fixpoint beats (n : nat) (p : path) (started_at : instant) : M (W * Fs) (list string) :=
  match n with
  | O => ret []
  | S n => let* l := beat p started_at in let* ls := beats n p started_at in ret (l :: ls)
  end.

(** [heartbeat_task], for so many beats. *)
Definition heartbeat_task (n : nat) (data_dir : path) (started_at : instant) : M (W * Fs) (list string) :=
  beats n (heartbeat_path data_dir) started_at.

(** ** The triage *)

Definition triage_cgroup (cg : option CgroupSample) : string :=
  match cg with
  | None => ""
  | Some cg =>
      "cgroup: current=" +:+ mib (current_bytes cg) +:+ " max=" +:+ mib (max_bytes cg) +:+
      " oom_kill=" +:+ pretty (oom_kill cg) +:+ " peak=" +:+ mib (peak_bytes cg) +:+ newline +:+
      (if 0 <? oom_kill cg then
         "verdict-hint: oom_kill counter is nonzero - the kernel OOM-killed something in this cgroup" +:+ newline
       else "")
  end.

(** The last heartbeat; a file that is not text shows empty. *)
Definition triage_heartbeat (p : path) : M Fs string :=
  let* r := fs_read p in
  ret match r with
      | Err _ => ""
      | Ok b => "last-heartbeat: " +:+ (if utf8_valid b then b else "") +:+ newline
      end.

Definition print_triage_last_exit (data_dir : path) : M (W * Fs) string :=
  let* at_ := on_fst utc_now in
  let* cg := on_fst cgroup_memory in
  let* hb := on_snd (triage_heartbeat (heartbeat_path data_dir)) in
  ret ("triage-last-exit at=" +:+ to_rfc3339 at_ +:+ newline +:+ triage_cgroup cg +:+ hb).

(** ** What the allocator says of itself *)

(** [allocator::init], from what jemalloc answers: whether the background thread
    could be enabled, whether it runs, and the decay time. *)
Definition allocator_init (enabled : result error unit) (running : option bool) (decay : option Z)
    : list string :=
  match enabled with
  | Ok _ => []
  | Err e => ["allocator: could not enable jemalloc background purging: " +:+ e]
  end ++
  [match default false running, decay with
   | true, Some ms => "allocator: jemalloc (background purging on, dirty decay " +:+ pretty ms +:+ "ms)"
   | true, None => "allocator: jemalloc (background purging on)"
   | false, _ => "allocator: jemalloc background purging NOT running - freed pages return to the OS only lazily"
   end].
End Forensics.

Example statm_parsed : parse_statm ("51234 25617 900 1 0 2 0" +:+ newline) = 25617 * 4096.
Proof. vm_compute. reflexivity. Qed.

Example cgroup_found :
  cgroup_dir ("1:name=systemd:/x" +:+ newline +:+ "0::/tweedge/keep-at.service" +:+ newline) =
    Some "/sys/fs/cgroup/tweedge/keep-at.service".
Proof. vm_compute. reflexivity. Qed.

Example oom_counted :
  parse_oom_kill ("low 0" +:+ newline +:+ "oom 2" +:+ newline +:+ "oom_kill 3" +:+ newline +:+
                  "oom_group_kill 0" +:+ newline) = 3.
Proof. vm_compute. reflexivity. Qed.

(** An unlimited group, whose file says [max], counts as a limit of 0. *)
Example unlimited_reads_zero : parse_number (Some ("max" +:+ newline)) = 0.
Proof. vm_compute. reflexivity. Qed.

(** ** The heartbeat outlives the process *)

Section Survives.
Context {W : Type} `{World W} `{Chrono} `{KernelFiles W} `{HeartbeatCodec}.
Context (data_dir : path) (started_at : instant).
Let p := heartbeat_path data_dir.

(** A sample of this process. *)
Definition sampled (hb : Heartbeat) : Prop := exists w, hb = (sample started_at w).1.

(** What the file may show: what it could before, or a whole sample. *)
Definition heard (before : option bytes -> Prop) (v : option bytes) : Prop :=
  before v \/ exists hb b, sampled hb /\ heartbeat_to_string hb = Some b /\ v = Some b.

Definition recording (before : option bytes -> Prop) (hs : list nat) (s : W * Fs) : Prop :=
  guarded p (heard before) hs s.2.

Lemma beat_recorded before : stable (recording before) (beat p started_at).
Proof.
  intros hs. unfold beat. eapply hoare_bind with (R := fun _ => recording before hs).
  { intros [w fs] Hs. unfold on_fst. by destruct (next_beat w). }
  intros _. eapply hoare_bind with (R := fun hb s => sampled hb /\ recording before hs s).
  { intros [w fs] Hs. unfold on_fst. destruct (sample started_at w) as [hb w'] eqn:E.
    split; [exists w; by rewrite E|done]. }
  intros hb. destruct (heartbeat_to_string hb) as [json|] eqn:Ej.
  - intros [w fs] [Hhb Hs]. unfold bind, on_snd.
    assert (heard before (Some json)) as Hg by (right; by exists hb, json).
    pose proof (own_atomic_write p (heard before) json hs 420 Hg fs Hs) as Hw.
    by destruct (atomic_write_mode p json 420 fs).
  - by apply hoare_ret; intros s [_ Hs].
Qed.

Lemma beats_recorded before n : stable (recording before) (beats n p started_at).
Proof.
  induction n as [|n IH]; cbn [beats]; [apply stable_ret|].
  apply stable_bind; [apply beat_recorded|]. intros l.
  apply stable_bind; [exact IH|]. intros ls. apply stable_ret.
Qed.

(** A beat that nothing keeps from it leaves exactly its sample. *)
Lemma beat_writes (w : W) fs json :
  private_disk p [] (disk fs) -> faults fs = [] ->
  heartbeat_to_string (sample started_at (next_beat w).2).1 = Some json ->
  content (disk (beat p started_at (w, fs)).2.2) p = Some json.
Proof.
  intros [Hw Hu Ha _] Hf Hj. unfold beat, bind at 1, on_fst at 1.
  destruct (next_beat w) as [u w1]. cbn [snd] in Hj. unfold bind at 1, on_fst at 1.
  destruct (sample started_at w1) as [hb w2]. cbn [fst] in Hj. rewrite Hj. unfold bind, on_snd.
  assert (no_alias (disk fs) (tmp_path p) p) as Hn.
  { intros dm i Hdm Hi. apply (Ha dm i); [done|done|apply tmp_path_ne]. }
  pose proof (atomic_write_hoare _ _ p json 420 fs (before_start p json fs Hw Hn)) as Hh.
  pose proof (atomic_write_succeeds p json 420 fs Hf) as Hs.
  destruct (atomic_write_mode p json 420 fs) as [[v|e] fs'].
  - destruct Hh as (_ & _ & _ & _ & ino & Hi & Hd & _). cbn [fst snd ret] in *. unfold content. rewrite Hi. by rewrite <- Hd.
  - by destruct Hs.
Qed.
End Survives.

(** How the triage reports what is at the heartbeat's path. *)
Definition reported (v : option bytes) : string :=
  match v with
  | None => ""
  | Some b => "last-heartbeat: " +:+ (if utf8_valid b then b else "") +:+ newline
  end.

(** C21: the post-mortem is true.  Whenever the daemon dies, between or within its
    heartbeats and whatever write failed before, the triage that runs on what the
    crash left reports, under the state of its control group, either what was at
    the heartbeat's path before the daemon started or one whole sample the daemon
    took: never a torn or a mixed one. *)
Theorem triage_after_crash {W : Type} `{World W} `{Chrono} `{KernelFiles W} `{HeartbeatCodec}
    data_dir started_at n (w w' : W) fs dk fs' :
  let p := heartbeat_path data_dir in
  let end_fs := (heartbeat_task n data_dir started_at (w, fs)).2.2 in
  private_disk p [] (disk fs) -> trace fs = [] ->
  dk ∈ disk end_fs :: trace end_fs -> rebooted p dk fs' -> mjoin (head (faults fs')) = None ->
  exists at_ v,
    (print_triage_last_exit data_dir (w', fs')).1 =
      "triage-last-exit at=" +:+ to_rfc3339 at_ +:+ newline +:+
      triage_cgroup (cgroup_memory (utc_now w').2).1 +:+ reported v /\
    heard started_at (crash_view (disk fs) p) v.
Proof.
  cbv zeta. intros Hp Ht Hdk [[Hw' _ _ _] _ Hv] Hf.
  set (p := heartbeat_path data_dir) in *.
  assert (guarded p (heard started_at (crash_view (disk fs) p)) [] fs) as Hg.
  { split; [done|by left|by rewrite Ht]. }
  pose proof (beats_recorded data_dir started_at (crash_view (disk fs) p) n [] (w, fs) Hg) as [_ Hs Hpast].
  unfold print_triage_last_exit, bind at 1, on_fst at 1. destruct (utc_now w') as [at_ w1]. cbn [snd].
  unfold bind at 1, on_fst at 1. destruct (cgroup_memory w1) as [cg w2].
  unfold bind at 1, on_snd at 1, triage_heartbeat, bind at 1, fs_read, io, bind at 1, next_fault, gets.
  fold p. rewrite Hf. cbn [fst snd disk ret]. exists at_, (content (disk fs') p). split.
  - destruct (content (disk fs') p); reflexivity.
  - assert (crash_view dk p (content (disk fs') p)) as Hc by by apply Hv, current_view.
    apply elem_of_cons in Hdk as [->|Hin]; [by apply Hs|].
    rewrite Forall_forall in Hpast. by apply (Hpast dk).
Qed.

(** ** Witness *)

Definition toy_kernel : KernelFiles Toy :=
  {| kernel_read := fun p => ret (list_to_map (M := gmap string bytes)
       [("/proc/self/statm", "51234 25617 900"); ("/proc/self/cgroup", "0::/keep-at" +:+ newline);
        ("/sys/fs/cgroup/keep-at/memory.events", "oom 1" +:+ newline +:+ "oom_kill 1" +:+ newline);
        ("/sys/fs/cgroup/keep-at/memory.current", "104857600" +:+ newline);
        ("/sys/fs/cgroup/keep-at/memory.max", "max" +:+ newline)] !! p);
     fd_entries := ret (Some 20);
     next_beat := fun w => (tt, toy_tick (secs 60) w) |}.

Definition toy_heartbeats : HeartbeatCodec :=
  {| heartbeat_to_string := fun hb =>
       Some ("up " +:+ pretty (hb_uptime_seconds hb) +:+ " rss " +:+ pretty (hb_rss_bytes hb)) |}.

Definition quiet_toy : Toy :=
  {| toy_clock := 0; toy_replies := []; toy_rolls := []; toy_torrents := []; toy_free := 0 |}.

(** The third beat's write fails, and the daemon is killed within the fourth. *)
Definition old_heartbeat : Fs :=
  fresh_fs [("/d/heartbeat.json", "old")]
    (concat (repeat (repeat None 7) 2) ++ [None; Some "torn"]).

Definition task_there :=
  @heartbeat_task Toy witness_world witness_chrono toy_kernel toy_heartbeats 4 "/d" 0 (quiet_toy, old_heartbeat).

Definition killed_in_beat : Disk := nth 3 (trace task_there.2.2) (fresh_disk []).

Definition found_fs : Fs :=
  fresh_fs [("/d/heartbeat.json", default "" (content killed_in_beat "/d/heartbeat.json"))] [].

Example triage_shows :
  (@print_triage_last_exit Toy witness_world witness_chrono toy_kernel "/d" (quiet_toy, found_fs)).1 =
    "triage-last-exit at=0" +:+ newline +:+
    "cgroup: current=100M max=0M oom_kill=1 peak=0M" +:+ newline +:+
    "verdict-hint: oom_kill counter is nonzero - the kernel OOM-killed something in this cgroup" +:+ newline +:+
    "last-heartbeat: up 122 rss 104927232" +:+ newline.
Proof. vm_compute. reflexivity. Qed.

Lemma found_rebooted : rebooted "/d/heartbeat.json" killed_in_beat found_fs.
Proof.
  split; [apply fresh_private|done|]. intros v Hv%fresh_shows. subst v.
  assert (is_Some (content killed_in_beat "/d/heartbeat.json")) as [b Hb]
    by (apply (bool_decide_eq_true_1 _); vm_compute; reflexivity).
  unfold found_fs. rewrite Hb. exact (shows_content killed_in_beat "/d/heartbeat.json" b Hb).
Qed.

Lemma triage_after_crash_witness :
  exists at_ v,
    (@print_triage_last_exit Toy witness_world witness_chrono toy_kernel "/d" (quiet_toy, found_fs)).1 =
      "triage-last-exit at=" +:+ @to_rfc3339 witness_chrono at_ +:+ newline +:+
      triage_cgroup (@cgroup_memory Toy toy_kernel (@utc_now Toy witness_world quiet_toy).2).1 +:+ reported v /\
    @heard Toy witness_world witness_chrono toy_kernel toy_heartbeats 0
      (crash_view (disk old_heartbeat) "/d/heartbeat.json") v.
Proof.
  apply (@triage_after_crash Toy witness_world witness_chrono toy_kernel toy_heartbeats "/d" 0 4
           quiet_toy quiet_toy old_heartbeat killed_in_beat found_fs).
  - apply fresh_private.
  - reflexivity.
  - right. apply list_elem_of_In, nth_In, Nat.ltb_lt. vm_compute. reflexivity.
  - apply found_rebooted.
  - reflexivity.
Defined.
