(* ===== verification/Launch.v ===== *)
(** Launching: the dispatch of [bin/keep-at.rs] over the commands, the logging
    it sets up, [cmd_start] with the detached process it spawns
    ([setsid_spawn], [is_containerized] of [daemonctl.rs]), and [cmd_service].
    Parsing the command line is clap's: a [Command] is what it hands over. *)

From S2P Require Import Prelude Text Float64 Fs Persist Time Net World Config Storage Service Cli Process Signals.
From S2P Require Import SelfUpdate.

(** A process to start: its program and arguments, in a session of its own and
    with its standard streams on the null device. *)
Record Spawn := {
  sp_exe : path;
  sp_args : list string;
  sp_null_stdio : bool;
  sp_setsid : bool;
}.

Class Launching (W : Type) := {
  (** the process id of the child *)
  spawn : Spawn -> M W (result error Z);
}.

(** ** Logging *)

Inductive LogSink := LogFile (i : nat) | Stdout.

(** [init_logging_to]: the filter and where the lines go; [env_filter] is the one
    the environment names, when it parses. *)
Definition init_logging_to (env_filter : option string) (debug : bool) (log_file : option path)
    : M Fs (string * LogSink) :=
  let filter := default (if debug then "debug" else "info") env_filter in
  match log_file with
  | None => ret (filter, Stdout)
  | Some p =>
      let* f := open_append_mode p 420 in
      match f with
      | Err _ => ret (filter, Stdout)
      | Ok i => let* _ := fs_chmod p 420 in ret (filter, LogFile i)
      end
  end.

Definition init_logging (env_filter : option string) (debug : bool) : M Fs (string * LogSink) :=
  init_logging_to env_filter debug None.

Definition set_log_file (l : option path) (c : Config) : Config :=
  {| port := port c; data_dir := data_dir c; storage := storage c; scan := scan c;
     aggressiveness := aggressiveness c; keyword_blocklist := keyword_blocklist c;
     preserve_deleted_torrents := preserve_deleted_torrents c;
     catalog_collapse_percent := catalog_collapse_percent c; max_ram := max_ram c; api_key := api_key c;
     upload_rate_limit := upload_rate_limit c; download_rate_limit := download_rate_limit c;
     stats_interval := stats_interval c; debug := debug c; log_file := l |}.

(** What a launch comes to: the process itself goes on as the daemon, or it has
    started one. *)
Inductive Launched := GoesOn (c : Config) (config_path : option path) | Background (pid : Z).

Section Launch.
Context {W : Type} `{World W} `{Programs W} `{Launching W} `{Yaml}.
Context (canonicalize : path -> option path) (home : option string) (env_filter : option string).

Fixpoint any_env (vars : list string) : M W bool :=
  match vars with
  | [] => ret false
  | v :: vars => let* set := env_set v in if (set : bool) then ret true else any_env vars
  end.

Definition is_containerized : M W bool :=
  let* there := path_exists "/.dockerenv" in
  if (there : bool) then ret true else any_env ["container"; "KUBERNETES_SERVICE_HOST"].

Definition setsid_spawn (exe : path) (args : list string) : M W (result error Z) :=
  with_context "spawning detached keep-at"
    (spawn {| sp_exe := exe; sp_args := args; sp_null_stdio := true; sp_setsid := true |}).

(** The configuration of the daemon that [start] starts, and where it is left. *)
Definition with_log (c : Config) : Config :=
  match log_file c with
  | Some _ => c
  | None => set_log_file (Some (path_join (data_dir c) "keep-at.log")) c
  end.

Definition resolved_path (c : Config) : path := path_join (data_dir c) "config.resolved.yaml".

(** [cmd_start]; [None]: formatting a size never returns. *)
Definition cmd_start (c : Config) (foreground : bool) : M (Node W) (option (result error Launched)) :=
  let* here := (if foreground then ret true else on_world is_containerized) in
  if (here : bool) then ret (Some (Ok (GoesOn c None)))
  else
    let c := with_log c in
    let p := resolved_path c in
    let* saved := on_fs (save c p) in
    match saved with
    | None => ret None
    | Some (Err e) => ret (Some (Err e))
    | Some (Ok _) =>
        let* r := (let? exe := with_context "locating keep-at executable" (on_world current_exe) in
                   let? pid := on_world (setsid_spawn exe ["run"; "--config"; lossy p]) in
                   ret (Ok (Background pid))) in
        ret (Some r)
    end.

(** [cmd_run]'s own arm of the dispatch: the daemon's logging goes where its
    configuration says. *)
Definition run_arm (a : RunArgs) : M (Node W) (option (result error Launched)) :=
  let* r := on_fs (resolve canonicalize home (ra_common a) (ra_cfg a)) in
  match r with
  | Err e => ret (Some (Err e))
  | Ok c =>
      let* _ := on_fs (init_logging_to env_filter (debug c) (log_file c)) in
      ret (Some (Ok (GoesOn c (arg_config (ra_common a)))))
  end.

Definition start_arm (a : RunArgs) : M (Node W) (option (result error Launched)) :=
  let* r := on_fs (resolve canonicalize home (ra_common a) (ra_cfg a)) in
  match r with
  | Err e => ret (Some (Err e))
  | Ok c =>
      let* _ := on_fs (init_logging env_filter false) in
      cmd_start c (ra_foreground a)
  end.

Definition cmd_service (op : ServiceOp) : M (Node W) (option Elevated) :=
  match op with
  | Install a =>
      let* r := on_fs (resolve canonicalize home (si_common a) (si_cfg a)) in
      match r with
      | Err e => ret (Some (GoOn (Err e)))
      | Ok c =>
          let* exe := on_world current_exe in
          match exe with
          | Err _ => ret (Some (GoOn (Err "locating keep-at executable")))
          | Ok exe =>
              on_net (install {| exec_path := lossy exe; opts_config := c; opts_user := si_user a |})
          end
      end
  | Uninstall => let* r := on_net uninstall in ret (Some r)
  end.
End Launch.

(** ** The daemon that [start] starts *)

(** How the kernel shows the arguments of a process. *)
Definition cmdline_of_argv (argv : list string) : bytes := str_concat ((fun a => a +:+ String NUL "") <$> argv).

Definition no_nul (s : string) : bool := string_forall (fun a => negb (Ascii.eqb a NUL)) s.

Lemma split_cmdline argv :
  Forall (fun a => no_nul a = true) argv -> split_on NUL (cmdline_of_argv argv) = argv ++ [""].
Proof.
  induction 1 as [|a argv Ha _ IH]; [done|]. unfold cmdline_of_argv in *. cbn [fmap list_fmap str_concat foldr].
  rewrite string_app_assoc. change (String NUL "" +:+ ?t) with (String NUL t).
  rewrite split_on_cons by done. cbn. f_equal. exact IH.
Qed.

Section Handoff.
Context `{Yaml} (canonicalize : path -> option path) (home : option string).

Lemma load_readonly_fs p fs : faultless fs -> (load_readonly canonicalize home p fs).2 = fs.
Proof.
  intros Hf. unfold load_readonly, load_inner, bind, fs_read.
  pose proof (io_nofault (A:=bytes) io_fails (gets (fun fs =>
    match content (disk fs) p with Some b => Ok b | None => Err NotFound end)) fs Hf) as Hio.
  rewrite Hio. unfold gets. destruct (content (disk fs) p) as [b|]; [|done].
  destruct (yaml_from b) as [raw|]; [|done]. destruct (de_config home raw) as [c|e]; [|done].
  pose proof (merge_key_file_fs c fs Hf) as Hm. by destruct (merge_key_file c fs).
Qed.

(** A daemon that runs from a configuration file is found by the directory that
    the file names. *)
Lemma found_by_config procs want fs pid parts p c :
  faultless fs -> (pid, parts) ∈ procs -> data_dir_and_config_from_argv parts = (None, Some p) ->
  (load_readonly canonicalize home p fs).1 = Ok c -> lossy (data_dir c) = want ->
  is_Some (find_foreground_in canonicalize home procs want fs).1.
Proof.
  intros Hf Hin Hargs Hload Hwant.
  induction procs as [|[q parts'] procs IH]; [by apply elem_of_nil in Hin|].
  cbn [find_foreground_in]. apply elem_of_cons in Hin as [[= <- <-]|Hin].
  - rewrite Hargs. unfold bind. destruct (load_readonly canonicalize home p fs) as [r fs1].
    cbn in Hload. subst r. rewrite Hwant, String.eqb_refl. by eexists.
  - specialize (IH Hin). destruct (data_dir_and_config_from_argv parts') as [[d|] [c'|]];
      try (destruct (String.eqb _ _); [by eexists|exact IH]).
    unfold bind. pose proof (load_readonly_fs c' fs Hf) as Hs.
    destruct (load_readonly canonicalize home c' fs) as [[cfg|er] fs1]; cbn in Hs; subst fs1; [|exact IH].
    destruct (String.eqb _ _); [by eexists|exact IH].
Qed.

Lemma spawned_args own name pid exe p :
  parse_unsigned U32_MAX (lossy name) = Some pid -> pid <> own ->
  is_keep_at_argv0 exe = true -> no_nul exe = true -> no_nul p = true -> lossy p = p ->
  exists parts, daemon_proc own (name, Some (cmdline_of_argv [exe; "run"; "--config"; p])) = Some (pid, parts) /\
    data_dir_and_config_from_argv parts = (None, Some p).
Proof.
  intros Hpid Hown Hexe Hne Hnp Hl. unfold daemon_proc. cbn [fst snd from_option id].
  rewrite Hpid, (proj2 (Z.eqb_neq _ _) Hown). cbn [orb].
  rewrite split_cmdline by (by repeat constructor). cbn [fmap list_fmap app id].
  assert (String.eqb (cmdline_of_argv [exe; "run"; "--config"; p]) "" = false) as ->.
  { apply String.eqb_neq. unfold cmdline_of_argv. cbn. by destruct exe. }
  rewrite keep_at_lossy, Hexe, Hl. cbn [negb]. eexists. split; [reflexivity|]. reflexivity.
Qed.

(** The flags of the spawned daemon: its configuration, and nothing else. *)
Definition spawned_common (p : path) : CommonArgs := {| arg_config := Some p; arg_data_dir := None |}.

Lemma resolve_spawned p fs c :
  faultless fs -> valid canonicalize c -> (merge_key_file c fs).1 = c ->
  load_inner canonicalize home p true fs = (Ok c, fs) ->
  (resolve canonicalize home (spawned_common p) no_flags fs).1 = Ok c.
Proof.
  intros Hf Hv Hm Hl. unfold resolve, bind at 1. cbn [config_source spawned_common arg_config arg_data_dir ret].
  unfold bindR at 1, bind at 1. unfold bind at 1, load. rewrite Hl. cbn [ret].
  unfold bindR, bind at 1. cbn [ret].
  assert (apply_to no_flags c = Ok c) as -> by (destruct c as [? ? ? []]; reflexivity).
  unfold bind. destruct (merge_key_file c fs) as [c' fs']. cbn [fst] in Hm. subst c'. cbn [ret fst].
  change (resolve_storage home (spawned_common p) no_flags (Some p) c) with (Ok (E:=error) c).
  cbn [rbind]. apply validate_valid in Hv. by rewrite Hv.
Qed.
End Handoff.

(** What a background start leaves behind. *)
Lemma background_spawn {W : Type} `{World W} `{Programs W} `{Launching W} `{Yaml} c (n n' : Node W) pid fs' :
  save (with_log c) (resolved_path (with_log c)) (node_fs n) = (Some (Ok tt), fs') ->
  cmd_start c false n = (Some (Ok (Background pid)), n') ->
  lossy (resolved_path (with_log c)) = resolved_path (with_log c) ->
  node_fs n' = fs' /\
  exists exe w, spawn {| sp_exe := exe; sp_args := ["run"; "--config"; resolved_path (with_log c)];
                        sp_null_stdio := true; sp_setsid := true |} w = (Ok pid, world n').
Proof.
  intros Hsave Hstart Hl. revert Hstart. unfold cmd_start, bind at 1, on_world at 1.
  destruct (is_containerized (world n)) as [[] w1]; [done|].
  unfold bind at 1, on_fs at 1. cbn [node_fs registry world]. rewrite Hsave.
  unfold bind at 1, bindR at 1, bind at 1, with_context at 1, bind at 1, on_world at 1. cbn [world node_fs registry].
  destruct (current_exe w1) as [[exe|er] w2]; [|done]. cbn [ret]. unfold bindR at 1, bind at 1, on_world at 1.
  cbn [world node_fs registry]. unfold setsid_spawn, with_context, bind. rewrite Hl.
  destruct (spawn _ w2) as [[q|er] w3] eqn:Es; [|done]. cbn [ret]. intros [= <- <-].
  split; [done|]. exists exe, w2. exact Es.
Qed.

(** C30: the daemon that [start] starts is the one it checked, for a configuration
    that its file can spell: when every size of it is one that the file's
    notation writes exactly ([storable]: 1.55 GiB is not), its key one that the
    key file gives back ([storable_key]), its durations whole seconds and its
    rate what YAML keeps ([raw_ok]), and its path is UTF-8 without a NUL and apart
    from the files that are written beside it.  Then, when [start] hands over to a
    background process and no call on files fails, that process is given just the
    saved configuration, which resolves for it to every setting that was checked
    (the log file filled in); and while it runs, whoever looks for the daemon of
    that data directory finds one. *)
Theorem start_handoff {W : Type} `{World W} `{Programs W} `{Launching W} `{Yaml}
    canonicalize home c (n n' : Node W) pid raw :
  let c' := with_log c in
  let p := resolved_path c' in
  cmd_start c false n = (Some (Ok (Background pid)), n') ->
  faultless (node_fs n) -> files_apart c' p -> files_safe c' p (disk (node_fs n)) ->
  valid canonicalize c' -> storable c' -> storable_key c' (disk (node_fs n)) ->
  ser_config (set_api_key "" c') = Some raw -> raw_ok raw = true ->
  lossy p = p -> no_nul p = true ->
  (exists exe w, spawn {| sp_exe := exe; sp_args := ["run"; "--config"; p];
                          sp_null_stdio := true; sp_setsid := true |} w = (Ok pid, world n')) /\
  (resolve canonicalize home (spawned_common p) no_flags (node_fs n')).1 = Ok c' /\
  (forall own procs exe name,
     (name, Some (cmdline_of_argv [exe; "run"; "--config"; p])) ∈ procs ->
     parse_unsigned U32_MAX (lossy name) = Some pid -> pid <> own ->
     is_keep_at_argv0 exe = true -> no_nul exe = true ->
     is_Some (find_foreground_in canonicalize home (keep_at_daemon_procs own procs)
                (lossy (data_dir c)) (node_fs n')).1).
Proof.
  cbv zeta. intros Hstart Hf Hap Hsafe Hv Hst Hkey Hraw Hok Hl Hnul.
  assert (data_dir (with_log c) = data_dir c) as Hdd by (unfold with_log; by destruct (log_file c)).
  destruct (save_succeeds (with_log c) (resolved_path (with_log c)) (node_fs n) raw Hf Hraw Hok)
    as (fs' & Hsave & Hf').
  destruct (background_spawn c n n' pid fs' Hsave Hstart Hl) as [-> Hspawn].
  pose proof (fun w => saved_config_loads canonicalize home _ _ (node_fs n) fs' raw w
                Hap Hsafe Hf Hv Hst Hkey Hraw Hok Hsave Hf') as Hload.
  split; [exact Hspawn|]. split.
  - apply resolve_spawned; [done|done| |by apply Hload].
    pose proof (save_cases (with_log c) _ (node_fs n) Hap Hsafe) as Hc. rewrite Hsave in Hc.
    destruct Hc as (_ & Hk & _). pose proof (merge_saved_key _ fs' _ Hf' Hkey Hk) as Hm.
    destruct (String.eqb_spec (api_key (with_log c)) "") as [E|E%String.eqb_neq].
    + assert (set_api_key "" (with_log c) = with_log c) as Hs by (destruct (with_log c); cbn in E; by subst).
      by rewrite Hs in Hm.
    + unfold merge_key_file. by rewrite E.
  - intros own procs exe name Hin Hpid Hown Hexe Hnexe.
    destruct (spawned_args own name pid exe (resolved_path (with_log c))) as (parts & Hd & Hargs); [done..|].
    apply (found_by_config canonicalize home _ _ fs' pid parts (resolved_path (with_log c)) (with_log c)); [done| |done| |].
    + unfold keep_at_daemon_procs. apply list_elem_of_omap. eexists. split; [exact Hin|exact Hd].
    + unfold load_readonly. by rewrite Hload.
    + by rewrite Hdd.
Qed.

(** ** Witness *)

Definition toy_launching : Launching Toy :=
  {| spawn := fun _ => ret (Ok 4242) |}.

Definition idle_node : Node Toy :=
  {| node_fs := fresh_fs [("/d/state.json", "s")] [];
     registry := {| Pool.registered := ∅; Pool.uid_source := 0 |};
     world := {| toy_clock := 0; toy_replies := []; toy_rolls := []; toy_torrents := []; toy_free := 0 |} |}.

Definition start_there :=
  @cmd_start Toy witness_world root_programs toy_launching witness_yaml witness_config false idle_node.

Definition started_common : CommonArgs := spawned_common "/d/config.resolved.yaml".

Definition started_procs : ProcTable :=
  [("self", None);
   ("4242", Some (cmdline_of_argv ["/bin/keep-at"; "run"; "--config"; "/d/config.resolved.yaml"]))].

Lemma start_handoff_witness :
  start_there.1 = Some (Ok (Background 4242)) /\
  (@resolve witness_yaml (fun _ => None) None started_common no_flags (node_fs start_there.2)).1 =
    Ok (with_log witness_config) /\
  is_Some (@find_foreground_in witness_yaml (fun _ => None) None (keep_at_daemon_procs 9 started_procs) "/d"
             (node_fs start_there.2)).1.
Proof.
  assert (start_there.1 = Some (Ok (Background 4242))) as Hs by (vm_compute; reflexivity).
  split; [exact Hs|]. destruct start_there as [r n'] eqn:Er. cbn [fst snd] in Hs |- *. subst r.
  destruct (@start_handoff Toy witness_world root_programs toy_launching witness_yaml (fun _ => None) None
              witness_config idle_node n' 4242
              (default (Build_RawConfig None None None None None None None None
                 Absent None Absent Absent Absent None None)
                 (ser_config (set_api_key "" (with_log witness_config)))) Er)
    as (_ & Hr & Hfound).
  - reflexivity.
  - repeat split; by vm_compute.
  - split; [apply fresh_disk_wf|]. split; [apply fresh_unlinked|]. split; apply fresh_no_alias; discriminate.
  - apply validate_valid. vm_compute. reflexivity.
  - destruct witness_storable as [Hl Hz Hd]. constructor; [exact Hl|exact Hz|exact Hd].
  - split; [vm_compute; reflexivity|]. split; [vm_compute; reflexivity|]. discriminate.
  - vm_compute. reflexivity.
  - vm_compute. reflexivity.
  - vm_compute. reflexivity.
  - vm_compute. reflexivity.
  - split; [exact Hr|]. apply (Hfound 9 started_procs "/bin/keep-at" "4242").
    + right. left.
    + vm_compute. reflexivity.
    + discriminate.
    + vm_compute. reflexivity.
    + vm_compute. reflexivity.
Defined.
