(* ===== verification/Dispatch.v ===== *)
(** The program, [main] of [bin/keep-at.rs]: which command does what, and that
    the commands that only look change no file. *)

From S2P Require Import Prelude Text Float64 Fs Persist Time Ram Selector Net Quarantine State.
From S2P Require Import AtKey AtTorrent Filter Catalog World Config Service Storage NetStats Stats Torrents.
From S2P Require Import History Humanize Session Swap Swarm Updater Live Follow Cli Process Signals SelfUpdate Boot Daemon.
From S2P Require Import Scan Serving Main Views Census Forensics Launch.

(** What a command comes to. *)
Inductive Answer :=
  | Launches (l : Launched)
  | Stops (o : StopOutcome)
  | Shows (lines : Printed)
  | Tails (r : result error (option Follow)) (shown : list Shown)
  | Recounts (r : result error (option Follow)) (lines : option (list string))
  | Serves (r : Elevated)
  | Updates (o : SelfUpdate.Outcome)
  | Prints (s : string).

Section Dispatch.
Context {W : Type} `{World W} `{Processes W} `{UnixSocket W} `{Programs W} `{Launching W} `{Probing W}.
Context `{KernelFiles W} `{Decoders} `{Chrono} `{HexCrate} `{UrlCrate} `{HashIter} `{Libm}.
Context `{StateCodec} `{EventCodec} `{StatsCodec} `{CacheCodec} `{LiveCodec} `{Yaml}.
Context (canonicalize : path -> option path) (home : option string) (env_filter : option string).
Context (to_lowercase : string -> string) (announce_from_slice : string -> option string).
Context (format_utc : instant -> string) (fmt_rfc3339 : string -> option string) (color : bool).
Context (untar : bytes -> result error (list TarEntry)) (parse_releases : string -> option (list Release)).
Context (releases_list_url arch VERSION : string) (pid : Z).

Definition answers {A} (f : A -> Answer) (r : result error A) : option (result error Answer) :=
  Some (match r with Ok a => Ok (f a) | Err e => Err e end).

(** [cmd_version] and the arm of the triage. *)
Definition triage_arm (args : CommonArgs) : M (W * Fs) (result error string) :=
  let? dir := on_snd (resolve_data_dir canonicalize home args) in
  let* out := print_triage_last_exit dir in
  ret (Ok out).

Definition lift_launch (r : option (result error Launched)) : option (result error Answer) :=
  r ≫= answers Launches.

(** The commands, up to where one becomes the daemon; [sights] is what a
    following command gets to see of its file. *)
Definition dispatch (cmd : Command) (sights : list Sight) : M (Node W) (option (result error Answer)) :=
  match cmd with
  | RunCmd a => let* r := run_arm canonicalize home env_filter a in ret (lift_launch r)
  | StartCmd a => let* r := start_arm canonicalize home env_filter a in ret (lift_launch r)
  | StopCmd a => let* r := on_net (cmd_stop canonicalize home a) in ret (answers Stops r)
  | StatusCmd a => let* r := on_net (cmd_status canonicalize home format_utc a) in ret (answers Shows r)
  | LogsCmd a =>
      let* r := on_net (cmd_logs canonicalize home a sights) in ret (Some (Ok (Tails r.1 r.2)))
  | HistoryCmd a =>
      let* r := on_net (cmd_history canonicalize home fmt_rfc3339 color a sights) in
      ret (Some (Ok (Recounts r.1 r.2)))
  | ServiceCmd op =>
      let* r := cmd_service canonicalize home op in
      ret (match r with Some e => Some (Ok (Serves e)) | None => None end)
  | NetworkStatusCmd a =>
      let* _ := on_fs (init_logging env_filter false) in
      let* r := cmd_network_status canonicalize home announce_from_slice VERSION pid a in
      ret (r ≫= answers (fun c => Shows (final_lines c)))
  | HostedTorrentsCmd a => let* r := on_net (cmd_hosted canonicalize home a) in ret (answers Shows r)
  | TriageLastExitCmd a => let* r := on_net (triage_arm a) in ret (answers Prints r)
  | SelfUpdateCmd a =>
      let* r := on_net (cmd_self_update untar parse_releases releases_list_url arch pid
                          canonicalize home VERSION (su_beta a) (su_common a)) in
      ret (answers Updates r)
  | VersionCmd => ret (Some (Ok (Prints ("keep-at " +:+ VERSION))))
  end.

(** The whole program: a command that launches here goes on as the daemon. *)
Definition main (tracker_free : M W bool) (cmd : Command) (sights : list Sight) (ws : list Wake) (n : Node W) :=
  let '(r, n) := dispatch cmd sights n in
  match r with
  | Some (Ok (Launches (GoesOn c p))) =>
      inr (cmd_run canonicalize to_lowercase announce_from_slice tracker_free pid c p ws n)
  | r => inl (r, n)
  end.
End Dispatch.

(** ** The commands that only look *)

(** Files are as they were, and no write was even started. *)
Definition intact (x : Disk * list Disk) (fs : Fs) : Prop := disk fs = x.1 /\ trace fs = x.2.

Lemma intact_io {A} (f : Fs -> result io_error A) : stable intact (io io_fails (gets f)).
Proof.
  intros x fs Hx. unfold io, bind, next_fault, gets. destruct (mjoin (head (faults fs))); exact Hx.
Qed.

Lemma intact_read p : stable intact (fs_read p).
Proof. apply intact_io. Qed.
Lemma intact_mode p : stable intact (fs_mode p).
Proof. apply intact_io. Qed.
#[local] Hint Resolve intact_read intact_mode : durable.

Section Lookers.
Context {W : Type}.

Definition beside_intact (x : Disk * list Disk) (s : W * Fs) : Prop := intact x s.2.
Definition node_intact (x : Disk * list Disk) (n : Node W) : Prop := intact x (node_fs n).

Lemma intact_snd {A} (m : M Fs A) : stable intact m -> stable beside_intact (on_snd m).
Proof. intros Hm x [w fs] Hx. specialize (Hm x fs Hx). unfold on_snd. by destruct (m fs). Qed.
Lemma intact_fst {A} (m : M W A) : stable beside_intact (on_fst m).
Proof. intros x [w fs] Hx. unfold on_fst. by destruct (m w). Qed.
Lemma intact_net {A} (m : M (W * Fs) A) : stable beside_intact m -> stable node_intact (on_net m).
Proof.
  intros Hm x n Hx. specialize (Hm x (world n, node_fs n) Hx). unfold on_net.
  by destruct (m (world n, node_fs n)) as [a [w fs]].
Qed.

Context `{Yaml} (canonicalize : path -> option path) (home : option string).

Lemma intact_load_readonly p : stable intact (load_readonly canonicalize home p).
Proof. unfold load_readonly, load_inner, merge_key_file. cbn [negb]. stable. Qed.
#[local] Hint Resolve intact_load_readonly intact_snd intact_fst : durable.

Lemma intact_service_config : stable intact service_config_if_present.
Proof. unfold service_config_if_present. stable. Qed.
Lemma intact_pointer : stable intact read_data_dir_pointer.
Proof. unfold read_data_dir_pointer, read_pointer_file_at. stable. Qed.
#[local] Hint Resolve intact_service_config intact_pointer : durable.

Lemma intact_resolve_data_dir args : stable intact (resolve_data_dir canonicalize home args).
Proof. unfold resolve_data_dir. stable. Qed.

Lemma intact_find_foreground procs want : stable intact (find_foreground_in canonicalize home procs want).
Proof. induction procs as [|[pid parts] procs IH]; cbn [find_foreground_in]; stable. Qed.
Lemma intact_find_any procs : stable intact (find_any_daemon_in canonicalize home procs).
Proof. induction procs as [|[pid parts] procs IH]; cbn [find_any_daemon_in]; stable. Qed.
Lemma intact_read_pid d : stable intact (read_pid d).
Proof. unfold read_pid. stable. Qed.
Lemma intact_configured_log p : stable intact (configured_log canonicalize home p).
Proof. unfold configured_log. stable. Qed.
#[local] Hint Resolve intact_resolve_data_dir intact_find_foreground intact_find_any intact_read_pid
  intact_configured_log : durable.

Context `{World W} `{Processes W} `{UnixSocket W} `{LiveCodec} `{StatsCodec} `{StateCodec}.
Context `{EventCodec} `{HashIter} `{KernelFiles W} `{Chrono}.

Lemma intact_status d : stable beside_intact (status (W:=W) canonicalize home d).
Proof. unfold status, alive, find_foreground. stable. Qed.
Lemma intact_discover req : stable beside_intact (discover (W:=W) canonicalize home req).
Proof. unfold discover, find_any_daemon, alive. stable. Qed.
Lemma intact_load_runtime p : stable intact (load_runtime p).
Proof. unfold load_runtime. stable. Qed.
Lemma intact_load_state p : stable intact (State.load p).
Proof. unfold State.load. stable. Qed.
#[local] Hint Resolve intact_status intact_discover intact_load_runtime intact_load_state : durable.

Lemma intact_cmd_status format_utc args : stable beside_intact (cmd_status (W:=W) canonicalize home format_utc args).
Proof. unfold cmd_status. stable. Qed.
Lemma intact_cmd_hosted args : stable beside_intact (cmd_hosted (W:=W) canonicalize home args).
Proof. unfold cmd_hosted. stable. Qed.
Lemma intact_log_path args : stable beside_intact (resolve_log_path (W:=W) canonicalize home args).
Proof. unfold resolve_log_path. stable. Qed.
#[local] Hint Resolve intact_log_path : durable.
Lemma intact_cmd_logs args sights : stable beside_intact (cmd_logs (W:=W) canonicalize home args sights).
Proof. unfold cmd_logs. stable. Qed.
Lemma intact_cmd_history fmt color args sights :
  stable beside_intact (cmd_history (W:=W) canonicalize home fmt color args sights).
Proof. unfold cmd_history. stable. Qed.
Lemma intact_heartbeat p : stable intact (triage_heartbeat p).
Proof. unfold triage_heartbeat. stable. Qed.
#[local] Hint Resolve intact_heartbeat : durable.
Lemma intact_triage args : stable beside_intact (triage_arm (W:=W) canonicalize home args).
Proof. unfold triage_arm, print_triage_last_exit. stable. Qed.
End Lookers.

(** Whether a command only looks. *)
Definition only_looks (cmd : Command) : bool :=
  match cmd with
  | StatusCmd _ | LogsCmd _ | HistoryCmd _ | HostedTorrentsCmd _ | TriageLastExitCmd _ | VersionCmd => true
  | _ => false
  end.

(** C31: looking changes nothing.  The commands that only look - at a node's state,
    its torrents, its log, its history, its last exit, or the version - leave
    every file as it was, whichever reads fail and whatever configuration they
    come across: none writes a starter configuration, merges a key into a file or
    repairs one. *)
Theorem queries_change_nothing {W : Type} `{World W} `{Processes W} `{UnixSocket W} `{Programs W}
    `{Launching W} `{Probing W} `{KernelFiles W} `{Decoders} `{Chrono} `{HexCrate} `{UrlCrate} `{HashIter}
    `{StateCodec} `{EventCodec} `{StatsCodec} `{LiveCodec} `{Yaml}
    canonicalize home env_filter announce_from_slice format_utc fmt_rfc3339 color
    untar parse_releases releases_list_url arch VERSION pid cmd sights (n : Node W) :
  only_looks cmd = true ->
  let n' := (dispatch canonicalize home env_filter announce_from_slice format_utc fmt_rfc3339 color
               untar parse_releases releases_list_url arch VERSION pid cmd sights n).2 in
  disk (node_fs n') = disk (node_fs n) /\ trace (node_fs n') = trace (node_fs n).
Proof.
  intros Hc. cbv zeta.
  assert (forall m : M (Node W) (option (result error Answer)), stable node_intact m ->
            disk (node_fs (m n).2) = disk (node_fs n) /\ trace (node_fs (m n).2) = trace (node_fs n)) as Hm.
  { intros m Hs. by apply (Hs (disk (node_fs n), trace (node_fs n)) n). }
  destruct cmd; try discriminate Hc; apply Hm; cbn [dispatch];
    try (apply stable_bind; [apply intact_net|intros; apply stable_ret]); try apply stable_ret.
  - apply intact_cmd_status.
  - apply intact_cmd_logs.
  - apply intact_cmd_history.
  - apply intact_cmd_hosted.
  - apply intact_triage.
Qed.

(** ** Witness *)

Abbreviation dispatch_there cmd sights n :=
  (@dispatch Toy witness_world lonely deaf root_programs toy_launching witness_probing toy_kernel
     witness_feed witness_chrono witness_hex witness_urls hash_iter_sorted witness_codec witness_events
     witness_stats witness_live_codec witness_yaml
     (fun _ => None) None None (fun _ => None) (fun _ => "now") (fun _ => None) false
     (fun _ => Err "not an archive") (fun _ => None) RELEASES_LIST_URL "x86_64" "1.0" 7 cmd sights n).

(** The state of a node that is named by a configuration that is not there; the
    read of the configuration works, the next would fail. *)
Definition unnamed_node : Node Toy :=
  {| node_fs := fresh_fs [("/d/state.json", "s")] [None; Some ""];
     registry := registry idle_node; world := world idle_node |}.

Definition look_at_nothing : Command :=
  HostedTorrentsCmd {| arg_config := Some "/d/config.yaml"; arg_data_dir := None |}.

Example looking_fails :
  (dispatch_there look_at_nothing [] unnamed_node).1 = Some (Err "no config at /d/config.yaml").
Proof. vm_compute. reflexivity. Qed.

Lemma queries_change_nothing_witness :
  let n' := (dispatch_there look_at_nothing [] unnamed_node).2 in
  disk (node_fs n') = disk (node_fs unnamed_node) /\ trace (node_fs n') = trace (node_fs unnamed_node).
Proof.
  apply (@queries_change_nothing Toy witness_world lonely deaf root_programs toy_launching witness_probing
           toy_kernel witness_feed witness_chrono witness_hex witness_urls hash_iter_sorted witness_codec
           witness_events witness_stats witness_live_codec witness_yaml (fun _ => None) None None (fun _ => None) (fun _ => "now") (fun _ => None) false
           (fun _ => Err "not an archive") (fun _ => None) RELEASES_LIST_URL "x86_64" "1.0" 7
           look_at_nothing [] unnamed_node).
  reflexivity.
Defined.
